(* ===== verification/_CoqProject ===== *)
-Q . S2P
Prelude.v
GoStrings.v
Json.v
Parse.v
Decode.v
Config.v
Registry.v
Session.v
Cells.v
Http.v
Rpc.v
Schema.v
ParamHeaders.v
Client.v
Catalog.v
Auth.v
OAuth.v
Observability.v
Telemetry.v
Handler.v
HandlerSelect.v
Mux.v
Main.v
Isolation.v
Calls.v
Forward.v
Listing.v
Total.v
Typed.v
Threads.v
Concurrent.v
Interleave.v
Rely.v
Guarantee.v
Replies.v
Simulate.v
Race.v
Endpoint.v
Startup.v
Lifecycle.v
