(* ===== verification/Prelude.v ===== *)
(** * mt-mcp-proxy: a verified model of the multi-tenant MCP proxy

    The program is an HTTP server that offers one MCP endpoint in front of many
    backends. A client presents a bearer token; the groups in it select the
    tenants it may use; a [tools/call] is routed to one tenant's backend with
    that tenant's own credential. What must never go wrong is which credential
    meets which backend session, and whom a call reaches; around that stand the
    session store, the shared tool catalogs, schema rewriting and configuration.

    ** The parts, and where they are modelled

    - [Prelude]: errors as values ([result]), list and map lemmas, automation.
    - [GoStrings], [Json], [Decode]: the parts of Go's strings, unicode/utf8,
      strconv and encoding/json the program calls; byte strings, JSON trees,
      a printer, a parser, and decoding into maps, strings and struct fields.
    - [Parse]: facts about the parser: its fuel suffices for every text, and what
      it returns is well formed.
    - [Config] (src/internal/config/config.go): the configuration records,
      [applyDefaults], [expandRefs], [expandEnv], [Validate], [Load].
    - [Registry] (src/internal/registry/registry.go): [New],
      [ResolveTenant], [AuthorizedTenants], [IsAuthorized]; the index is a [gmap].
    - [Session] (src/internal/session/session.go): the store, [Mint], [Get],
      [SetBackendSID], [Delete], [Len], reaping, on session values; [Cells]: the
      same operations on the pointers the handlers share.
    - [Http]: the parts of net/http in use (header maps, requests, answers, the
      response writer), the environment [Env] and the effect monad [M].
    - [Rpc] (src/internal/proxy/mcp.go): JSON-RPC requests, results and
      errors, and the decoding of JSON and SSE answers.
    - [Schema] (schema.go): the tenant selector in tool schemas and arguments,
      the metadata of stateless requests.
    - [ParamHeaders] (paramheaders.go): arguments projected to headers.
    - [Client] (client.go): the headers and the four calls toward a backend.
    - [Catalog] (catalog.go): cached tool lists, shared between tenants with
      the same view, over a heap of tools.
    - [Auth] (src/internal/auth/auth.go): verifier construction, discovery
      of the JWKS URL, the decision over a token's claims.
    - [OAuth] (oauth.go): public URLs, the RFC 9728 document, HTTP errors.
    - [Observability] (src/internal/observability/): what is recorded;
      [Telemetry]: [Setup], [Shutdown], the instruments, over the OpenTelemetry
      and Prometheus libraries as a record of calls that may fail.
    - [Handler] (handler.go): [ServeHTTP], here [serve], and every handler.
    - [Mux]: the part of net/http's [ServeMux] in use: patterns, conflicts, path
      cleaning, and which handler a host and path select.
    - [Main] (src/cmd/mt-mcp-proxy/main.go): [run] from loading to the deferred
      shutdown, both multiplexers, the initial state, the warm-up with its
      retries, and the [step] relation of the running proxy. [Lifecycle] (the same
      file): the command line and exit codes of [main], and the listening process
      as a state machine: [life_step] for what its main goroutine, the one that
      closes the servers, the metrics listener, the retries and the requests do.
    - [HandlerSelect], [Isolation], [Calls], [Forward], [Listing], [Total],
      [Typed], [Endpoint], [Startup]: theorems about the composed program, one
      file per question.
    - [Threads]: goroutines as trees of atomic steps, mutexes, pools of them and
      their steps. [Concurrent]: every handler again, as such a tree.
      [Interleave], [Rely], [Guarantee]: their mutexes and lengths, what a
      goroutine may rely on while others run, and the theorems about every
      interleaving. [Replies]: what a goroutine may send and what it answers, in
      every interleaving. [Simulate]: the handlers of [Handler] are those of
      [Concurrent] run without interruption. [Race]: what two concurrent calls
      can do to one session.

    Operations carry the names of the Go functions and methods. The names of
    record fields start with a prefix for their struct ([t_] Tenant, [b_]
    Backend, [k_] catalog, [s_] Session, [r_] Request and so on).

    ** State and effects

    A function that only computes is a function; one that returns an error is
    a [result]. Anything that talks to the outside or changes the proxy is a
    computation in [M S], a state monad whose outcome is a value or a panic, and
    a panic keeps the effects made so far. The state of the network
    ([Outside]) is opaque: [Env] gives the round trip of a request, the trace
    propagator, the clock, the random source and [url.Parse], and [Outside] logs
    every request with its answer. The state of the proxy ([State]) adds
    the session store, the catalogs with their heap, the recordings, the
    teardowns spawned and not yet run, and the response being written. A catalog
    is shared by pointer: it is an index; a tool is a Go map handed around by
    reference: it is a reference into [ct_heap], so that a handler which changed
    a tool it was given would change the cache.

    There are two models of the running proxy. In the sequential one it is the
    closure of [Main.step]: serving a request, running one pending teardown, one
    warm-up attempt, each to its end, in any order. In the concurrent one
    ([Guarantee.interleaved]) goroutines arrive at any time and take turns step
    by step: one step is one exchange with a backend, one critical section of the
    session store, one access to a catalog with its mutex held or one read of it
    between, one read through a session pointer. A catalog's mutex is held
    from [Lock] to [Unlock] across the fetch, so that others wait. Sessions are
    pointers into [Cells.PStore]. The second model refines the first
    ([Simulate.sequential_simulated]). What one component
    promises another is an interface where there is one in the program:
    [Auth.Verifier] is the Go interface and [Auth.VerifierLaws] what its
    implementations promise; the handler's theorems are proved for any verifier.

    ** What the theorems show

    - Isolation and reach ([Isolation], [Guarantee], [Replies], [Calls]): in every
      reachable state, and however goroutines interleave, each request ever sent
      was for a registered tenant, with its own credential, and used a backend
      session only with the credential it was opened with; what a goroutine sends
      is for a tenant its own caller's groups authorize, or fetches a list that
      caller is shown; nothing of the client's token or headers is forwarded;
      every call is recorded once.
    - Calls end to end ([Forward], [Total], [Typed]): the exact sequences of
      bodies a call may send; that every request is answered in every reachable
      state, with the one exception there is; and that what is answered is a
      JSON-RPC message of the method's type.
    - Goroutines ([Guarantee], [Replies]): whichever way they interleave they
      end, [n] of them after at most [n] times 28 + 11 steps per tenant, no reachable
      pool is deadlocked, and one that finished has answered its request, with a
      message of its method's type or the payload of a call its caller may make.
    - The process ([Startup], [Lifecycle], [Telemetry]): every way out of [run],
      which path reaches which handler, that the warm-up recovers once the
      backends do; that the listening process keeps all that is proved of its
      goroutines, stops telemetry once, shuts its metrics server last, ends after a
      signal by at most five steps of its own, and exits as [main] on [run] does;
      what the command line means. That it does not wait for the requests it is serving is
      an example ([Lifecycle.exit_cuts_request]).
    - Selection and listing ([HandlerSelect], [Listing]): the exact conditions
      under which a tenant is selected; whose tools are listed and when a tenant is
      left out; that the selector advertised is the one accepted, up to tenants
      whose catalog could not be read; that listing leaves the cached tools alone.
    - Sessions and protocol ([Session], [Cells], [Endpoint]): the store refines the
      map of live sessions, and sharing sessions by pointer refines it in turn; what initialize, DELETE and unhandled requests do.
    - Trust ([Auth], [Registry], [Config], [Endpoint]): what a verifier accepts,
      how it is built, what the registry and a started proxy say about the
      configuration, which configurations are accepted.
    - Catalogs and backends ([Catalog], [Client]): sharing, freshness, stale
      fallback, the headers and bodies sent, the handshake.
    - Data ([Schema], [ParamHeaders], [Rpc], [OAuth], [Json]): what rewriting
      keeps and changes, and round trips through the encoders and decoders.

    Where Go leaves an order open (ranging over a map) the theorem quantifies
    over every order, and says which conditions make the order irrelevant; the
    handlers' definitions then run with one of them ([Client.applyAuth],
    [ParamHeaders.paramHeadersForTool]).

    ** Fuel

    Recursion on text that is not structural is bounded by the length of the
    text: every round of [TrimSpace], [Fields], [chunks] and [quote] consumes a
    byte, and more fuel changes nothing ([GoStrings.trim_space_fuel],
    [GoStrings.fields_fuel_enough], [GoStrings.quote_fuel_enough],
    [Config.chunks_text]). [parse] runs with twice the length plus one: a nested
    call follows a consumed byte and a list or object costs one more call;
    [Parse.parse_value_fuel] shows that more fuel changes nothing there either,
    for any text (values nest at most 10000 deep, Go's limit). Nothing else in
    the model can run out.

    ** Choices and limits

    - A critical section of the session store is one step, as is a round trip to a
      backend. [BackendSID] reads a session's map without the store's mutex; the
      read is a step of its own and Go's undefined behaviour on such a race is not
      modelled.
    - Tools are read from the shared heap outside the catalogs' mutexes; that none
      of them ever changes is a theorem ([Guarantee.interleaved_evolves]).
    - A [json.RawMessage] is the JSON value it holds: white space and the
      spelling of string escapes are not kept. Number literals are.
    - A header map has one value per key, all that [Set] and [Get] see.
    - Clock, random source, network, [url.Parse], environment variables and
      files are parameters; so are the JWT, PEM, X.509, JWKS and YAML libraries.
    - A verifier is given the instant of the call for the claims' time checks.
    - [%q] is exact on ASCII; a float64 out of range is converted to int64 as
      amd64 does.
    - Duplicate object members decode as the last of them.
    - How listening ends is a parameter of [run]; [Lifecycle.process_refines_main]
      gives it the value the state machine of the listening process comes to.
      There an [http.Server] is what net/http documents of it: unserved, accepting,
      shut down or failed; [Shutdown] lets no further request begin and returns
      when no request is active or its deadline has passed, an event that may
      come at any time. The retries' ticker may fire at any time while they go
      on. [serve_path] and [request_steps] leave out the redirect the multiplexer
      itself answers an unclean path with.
    - Not modelled: logging, tracing spans, timeouts of single exchanges, sockets
      and HTTP parsing, the scrape handler's output. *)

From stdpp Require Import base numbers option pretty gmap fin_maps sorting strings list.

(** ** Errors as values

    A Go function returning [(T, error)] is a [result E T]. *)

Inductive result (E A : Type) : Type :=
| Ok (v : A)
| Err (e : E).
Arguments Ok {E A} v.
Arguments Err {E A} e.

#[export] Instance result_ret {E} : MRet (result E) := λ A v, Ok v.
#[export] Instance result_bind {E} : MBind (result E) :=
  λ A B k m, match m with Ok v => k v | Err e => Err e end.
#[export] Instance result_fmap {E} : FMap (result E) :=
  λ A B f m, match m with Ok v => Ok (f v) | Err e => Err e end.
#[export] Instance result_eq_dec {E A} `{EqDecision E, EqDecision A} :
  EqDecision (result E A).
Proof. solve_decision. Defined.

Definition is_ok {E A} (r : result E A) : bool :=
  match r with Ok _ => true | Err _ => false end.

(** [_ = f(...)]: the value a failing call leaves behind is the default. *)
Definition ok_or {E A} (d : A) (r : result E A) : A :=
  match r with Ok v => v | Err _ => d end.

(** Collecting the values of a list of fallible computations, left to right;
    the first error wins, as an early return in a loop. *)
Fixpoint result_mapM {E A B} (f : A → result E B) (l : list A) : result E (list B) :=
  match l with
  | [] => Ok []
  | x :: l => y ← f x; ys ← result_mapM f l; Ok (y :: ys)
  end.

Create HintDb proxy discriminated.

Lemma result_mapM_Ok {E A B} (f : A → result E B) l k :
  result_mapM f l = Ok k ↔ Forall2 (λ x y, f x = Ok y) l k.
Proof.
  revert k. induction l as [|x l IH]; intros k; simpl.
  - split; [intros [= <-]; constructor | by inversion 1].
  - split.
    + destruct (f x) as [y|e] eqn:Hx; [|done]; simpl.
      destruct (result_mapM f l) as [ys|e]; [|done]; simpl.
      intros [= <-]. constructor; [done|]. by apply IH.
    + inversion 1 as [|? y ? ys Hx Hl]; subst. rewrite Hx; simpl.
      apply IH in Hl as ->. done.
Qed.

Lemma result_mapM_Err {E A B} (f : A → result E B) l e :
  result_mapM f l = Err e → ∃ x, x ∈ l ∧ f x = Err e.
Proof.
  induction l as [|x l IH]; simpl; [done|].
  destruct (f x) as [y|e'] eqn:Hx; simpl.
  - destruct (result_mapM f l) as [ys|e'']; simpl; [done|].
    intros [= ->]. destruct IH as (z & ? & ?); [done|].
    exists z. split; [by right|done].
  - intros [= ->]. exists x. split; [left|done].
Qed.

(** ** Ordering by a string key

    [sort.Slice(xs, func(i, j int) bool { return xs[i].K < xs[j].K })] and
    [sort.Strings]: Go compares strings bytewise, as [String.le] does. *)

Definition key_le {A} (key : A → string) : relation A :=
  λ x y, String.le (key x) (key y).

#[export] Instance key_le_dec {A} (key : A → string) : RelDecision (key_le key).
Proof. intros x y. unfold key_le. apply _. Defined.
#[export] Instance key_le_trans {A} (key : A → string) : Transitive (key_le key).
Proof. intros x y z. unfold key_le. apply transitivity. Qed.
#[export] Instance key_le_total {A} (key : A → string) : Total (key_le key).
Proof. intros x y. unfold key_le. apply total. apply _. Qed.

Definition sort_on {A} (key : A → string) (l : list A) : list A :=
  merge_sort (key_le key) l.

Definition sort_strings (l : list string) : list string := sort_on id l.

Section sort_on.
Context {A : Type} (key : A → string).

Lemma sort_on_perm l : sort_on key l ≡ₚ l.
Proof. apply merge_sort_Permutation. Qed.

Lemma elem_of_sort_on x l : x ∈ sort_on key l ↔ x ∈ l.
Proof. by rewrite sort_on_perm. Qed.

Lemma sort_on_sorted l : StronglySorted (key_le key) (sort_on key l).
Proof. apply (StronglySorted_merge_sort _ _). Qed.

Lemma NoDup_fmap_key_eq l x y :
  NoDup (key <$> l) → x ∈ l → y ∈ l → key x = key y → x = y.
Proof.
  intros Hnd Hx Hy Heq.
  apply list_elem_of_lookup in Hx as [i Hi].
  apply list_elem_of_lookup in Hy as [j Hj].
  assert (i = j) as ->; [|congruence].
  eapply NoDup_lookup; [exact Hnd| |];
    rewrite list_lookup_fmap; [rewrite Hi | rewrite Hj]; simpl; by f_equal.
Qed.

(** Sorting by a key that is unique in the list forgets the order the
    elements came in: this is what makes ranging over a Go map deterministic
    once the result is sorted. *)
Lemma sort_on_unique l1 l2 :
  NoDup (key <$> l1) → l1 ≡ₚ l2 → sort_on key l1 = sort_on key l2.
Proof.
  intros Hnd Hp.
  apply (StronglySorted_unique_strong (key_le key)).
  - intros x y Hx Hy Hxy Hyx.
    rewrite elem_of_sort_on in Hx; rewrite elem_of_sort_on in Hy. rewrite <- Hp in Hy.
    eapply NoDup_fmap_key_eq; eauto. unfold key_le in *.
    by apply (anti_symm String.le).
  - apply sort_on_sorted.
  - apply sort_on_sorted.
  - by rewrite !sort_on_perm.
Qed.

Lemma NoDup_sort_on l : NoDup (key <$> l) → NoDup (key <$> sort_on key l).
Proof. by rewrite sort_on_perm. Qed.
End sort_on.

(** Strictly increasing keys: what "sorted by id, no id twice" means. *)
Definition key_lt {A} (key : A → string) : relation A :=
  λ x y, String.le (key x) (key y) ∧ key x ≠ key y.

Lemma sort_on_strict {A} (key : A → string) l :
  NoDup (key <$> l) → StronglySorted (key_lt key) (sort_on key l).
Proof.
  intros Hnd%(NoDup_sort_on key).
  pose proof (sort_on_sorted key l) as Hs.
  induction Hs as [|x xs Hs IH Hall]; [constructor|].
  rewrite fmap_cons in Hnd. apply NoDup_cons in Hnd as [Hx Hnd].
  constructor; [by apply IH|].
  apply Forall_forall. intros y Hy. rewrite Forall_forall in Hall.
  split; [by apply Hall|]. intros Heq. apply Hx. rewrite Heq.
  by apply list_elem_of_fmap_2.
Qed.

Lemma elem_of_sort_strings x l : x ∈ sort_strings l ↔ x ∈ l.
Proof. apply elem_of_sort_on. Qed.
