(* ===== verification/GoStrings.v ===== *)
(** * The parts of Go's [strings], [unicode/utf8] and [strconv] the proxy uses

    A Go string is a sequence of bytes: Rocq's [string]. Functions that look at
    runes ([strings.TrimSpace], [strings.Fields], [%q], the JSON encoder) see
    them through the UTF-8 shape of those bytes. *)

From Stdlib Require Import Ascii.
From stdpp Require Import base numbers option pretty gmap fin_maps sorting strings list.
From S2P Require Import Prelude.

#[local] Open Scope nat_scope.

Definition code (c : ascii) : nat := nat_of_ascii c.

(** The one-byte string of a byte given by its code. *)
Definition byte_str (n : nat) : string := String (ascii_of_nat n) "".

Definition dquote : string := byte_str 34.
Definition newline : string := byte_str 10.
Definition nul : string := byte_str 0.

(** ** Prefixes and suffixes *)

Fixpoint has_prefix (p s : string) : bool :=
  match p, s with
  | "", _ => true
  | String a p, String b s => Ascii.eqb a b && has_prefix p s
  | _, "" => false
  end.

Fixpoint drop_bytes (n : nat) (s : string) : string :=
  match n, s with
  | 0, _ => s
  | S n, String _ s => drop_bytes n s
  | S _, "" => ""
  end.

Fixpoint take_bytes (n : nat) (s : string) : string :=
  match n, s with
  | 0, _ => ""
  | S n, String a s => String a (take_bytes n s)
  | S _, "" => ""
  end.

Definition trim_prefix (p s : string) : string :=
  if has_prefix p s then drop_bytes (String.length p) s else s.

Definition has_suffix (p s : string) : bool :=
  (String.length p <=? String.length s) &&
  String.eqb (drop_bytes (String.length s - String.length p) s) p.

Definition trim_suffix (p s : string) : string :=
  if has_suffix p s then take_bytes (String.length s - String.length p) s else s.

(** [strings.Contains]. *)
Fixpoint contains_sub (s sub : string) : bool :=
  has_prefix sub s ||
  match s with "" => false | String _ s => contains_sub s sub end.

(** [strings.Join]. *)
Definition join (sep : string) (l : list string) : string := String.concat sep l.

Lemma app_nil_r_str s : s +:+ "" = s.
Proof. induction s as [|a s IH]; [done|]. change (String a (s +:+ "") = String a s). by rewrite IH. Qed.

Lemma app_cons_str a s t : String a s +:+ t = String a (s +:+ t).
Proof. done. Qed.

Lemma app_assoc_str s t u : (s +:+ t) +:+ u = s +:+ (t +:+ u).
Proof. induction s as [|a s IH]; [done|]. rewrite !app_cons_str. by rewrite IH. Qed.

Lemma length_app_str s t :
  String.length (s +:+ t) = String.length s + String.length t.
Proof. induction s as [|a s IH]; [done|]. rewrite app_cons_str; simpl. by rewrite IH. Qed.

Lemma app_inv_r_str s t u : s +:+ u = t +:+ u → s = t.
Proof.
  intros H.
  assert (String.length s = String.length t) as Hlen.
  { apply (f_equal String.length) in H. rewrite !length_app_str in H. lia. }
  revert t H Hlen. induction s as [|a s IH]; intros [|b t] H Hlen; try done.
  rewrite !app_cons_str in H. injection H as -> H. f_equal.
  apply IH; [done|]. simpl in Hlen. lia.
Qed.

Lemma has_prefix_spec p s : has_prefix p s = true ↔ ∃ r, s = p +:+ r.
Proof.
  revert s. induction p as [|a p IH]; intros s; simpl.
  - split; [by exists s|done].
  - destruct s as [|b s].
    + split; [done|]. intros [r Hr]. rewrite app_cons_str in Hr. done.
    + rewrite andb_true_iff, Ascii.eqb_eq, IH. split.
      * intros [-> [r ->]]. by exists r.
      * intros [r Hr]. rewrite app_cons_str in Hr. injection Hr as -> ->. eauto.
Qed.

Lemma drop_bytes_app p s : drop_bytes (String.length p) (p +:+ s) = s.
Proof. induction p as [|a p IH]; [by destruct s|]. rewrite app_cons_str. simpl. done. Qed.

Lemma take_bytes_app p s : take_bytes (String.length p) (p +:+ s) = p.
Proof.
  induction p as [|a p IH]; [by destruct s|].
  rewrite app_cons_str. simpl. by rewrite IH.
Qed.

Lemma has_prefix_app p s : has_prefix p (p +:+ s) = true.
Proof. apply has_prefix_spec. by exists s. Qed.

Lemma trim_prefix_app p s : trim_prefix p (p +:+ s) = s.
Proof. unfold trim_prefix. by rewrite has_prefix_app, drop_bytes_app. Qed.

Lemma take_drop_bytes n s : take_bytes n s +:+ drop_bytes n s = s.
Proof.
  revert n. induction s as [|a s IH]; intros [|n]; try done.
  simpl. rewrite app_cons_str. by rewrite IH.
Qed.

Lemma has_suffix_spec p s : has_suffix p s = true ↔ ∃ r, s = r +:+ p.
Proof.
  unfold has_suffix. rewrite andb_true_iff, Nat.leb_le, String.eqb_eq. split.
  - intros [Hle Hd]. exists (take_bytes (String.length s - String.length p) s).
    rewrite <- (take_drop_bytes (String.length s - String.length p) s) at 1.
    by rewrite Hd.
  - intros [r ->]. rewrite length_app_str. split; [lia|].
    replace (String.length r + String.length p - String.length p)
      with (String.length r) by lia. apply drop_bytes_app.
Qed.

Lemma has_suffix_app p s : has_suffix p (s +:+ p) = true.
Proof. apply has_suffix_spec. by exists s. Qed.

Lemma trim_suffix_app p s : trim_suffix p (s +:+ p) = s.
Proof.
  unfold trim_suffix. rewrite has_suffix_app, length_app_str.
  replace (String.length s + String.length p - String.length p)
    with (String.length s) by lia. apply take_bytes_app.
Qed.

Lemma trim_suffix_none p s : has_suffix p s = false → trim_suffix p s = s.
Proof. unfold trim_suffix. by intros ->. Qed.

(** ** ASCII case folding

    [strings.EqualFold] against an ASCII literal without [k] or [s], whose
    only fold partners are the ASCII ones. *)

Definition lower (c : ascii) : ascii :=
  if (65 <=? code c) && (code c <=? 90) then ascii_of_nat (code c + 32) else c.

Definition upper (c : ascii) : ascii :=
  if (97 <=? code c) && (code c <=? 122) then ascii_of_nat (code c - 32) else c.

Fixpoint map_str (f : ascii → ascii) (s : string) : string :=
  match s with "" => "" | String a s => String (f a) (map_str f s) end.

Definition equal_fold (s t : string) : bool :=
  String.eqb (map_str lower s) (map_str lower t).

(** ** White space as [unicode.IsSpace]

    The UTF-8 spellings of every white-space rune. No spelling is a suffix of
    another rune's encoding and none starts with a continuation byte, so
    stripping spellings bytewise strips runes. *)

Definition space_spellings : list string :=
  (byte_str <$> [9; 10; 11; 12; 13; 32]) ++
  ((λ b, byte_str 194 +:+ byte_str b) <$> [133; 160]) ++
  [byte_str 225 +:+ byte_str 154 +:+ byte_str 128] ++
  ((λ b, byte_str 226 +:+ byte_str 128 +:+ byte_str b) <$>
     [128; 129; 130; 131; 132; 133; 134; 135; 136; 137; 138; 168; 169; 175]) ++
  [byte_str 226 +:+ byte_str 129 +:+ byte_str 159;
   byte_str 227 +:+ byte_str 128 +:+ byte_str 128].

(** The width of the white-space rune a string starts (ends) with, or 0. *)
Definition space_width_with (test : string → string → bool) (s : string) : nat :=
  match find (λ w, test w s) space_spellings with
  | Some w => String.length w
  | None => 0
  end.

Fixpoint trim_left_fuel (fuel : nat) (s : string) : string :=
  match fuel with
  | 0 => s
  | S fuel =>
      match space_width_with has_prefix s with
      | 0 => s
      | n => trim_left_fuel fuel (drop_bytes n s)
      end
  end.

Fixpoint trim_right_fuel (fuel : nat) (s : string) : string :=
  match fuel with
  | 0 => s
  | S fuel =>
      match space_width_with has_suffix s with
      | 0 => s
      | n => trim_right_fuel fuel (take_bytes (String.length s - n) s)
      end
  end.

(** Every round removes at least a byte, so the length is enough fuel. *)
Definition trim_space (s : string) : string :=
  let l := trim_left_fuel (String.length s) s in
  trim_right_fuel (String.length l) l.

Definition flush_word (cur : string) (rest : list string) : list string :=
  if String.eqb cur "" then rest else cur :: rest.

(** [strings.Fields]: [cur] is the word being read. *)
Fixpoint fields_fuel (fuel : nat) (cur s : string) : list string :=
  match fuel with
  | 0 => flush_word cur []
  | S fuel =>
      match s with
      | "" => flush_word cur []
      | String a r =>
          match space_width_with has_prefix s with
          | 0 => fields_fuel fuel (cur +:+ String a "") r
          | n => flush_word cur (fields_fuel fuel "" (drop_bytes n s))
          end
      end
  end.

Definition fields (s : string) : list string :=
  fields_fuel (S (String.length s)) "" s.

Example fields_ex : fields "  openid  mcp:read x " = ["openid"; "mcp:read"; "x"].
Proof. vm_compute. reflexivity. Qed.
Example trim_ex : trim_space ("  a b" +:+ newline) = "a b".
Proof. vm_compute. reflexivity. Qed.

(** ** UTF-8

    [utf8_valid] is [utf8.ValidString]; the byte-class predicates are those of
    the standard decoder (RFC 3629: no overlong form, no surrogate, nothing
    above U+10FFFF). *)

Definition in_range (lo hi : nat) (c : ascii) : bool :=
  (lo <=? code c) && (code c <=? hi).

Fixpoint all_bytes (f : ascii → bool) (s : string) : bool :=
  match s with "" => true | String c r => f c && all_bytes f r end.

Definition is_cont (c : ascii) : bool := in_range 128 191 c.

Definition utf8_two (a b : ascii) : bool := in_range 194 223 a && is_cont b.

Definition utf8_three (a b c : ascii) : bool :=
  is_cont c &&
  ((code a =? 224) && in_range 160 191 b ||
   (in_range 225 236 a || in_range 238 239 a) && is_cont b ||
   (code a =? 237) && in_range 128 159 b).

Definition utf8_four (a b c d : ascii) : bool :=
  is_cont c && is_cont d &&
  ((code a =? 240) && in_range 144 191 b ||
   in_range 241 243 a && is_cont b ||
   (code a =? 244) && in_range 128 143 b).

(** The width of the rune at the head of a string; 0 at an invalid byte. *)
Definition rune_width (s : string) : nat :=
  match s with
  | "" => 0
  | String a r =>
      if code a <? 128 then 1 else
      match r with
      | "" => 0
      | String b r =>
          if utf8_two a b then 2 else
          match r with
          | "" => 0
          | String c r =>
              if utf8_three a b c then 3 else
              match r with
              | "" => 0
              | String d _ => if utf8_four a b c d then 4 else 0
              end
          end
      end
  end.

Inductive utf8_ok : string → Prop :=
| utf8_ok_nil : utf8_ok ""
| utf8_ok_1 a s : (code a <? 128) = true → utf8_ok s → utf8_ok (String a s)
| utf8_ok_2 a b s :
    (code a <? 128) = false → utf8_two a b = true → utf8_ok s → utf8_ok (String a (String b s))
| utf8_ok_3 a b c s :
    (code a <? 128) = false → utf8_two a b = false →
    utf8_three a b c = true → utf8_ok s → utf8_ok (String a (String b (String c s)))
| utf8_ok_4 a b c d s :
    (code a <? 128) = false → utf8_two a b = false → utf8_three a b c = false →
    utf8_four a b c d = true → utf8_ok s →
    utf8_ok (String a (String b (String c (String d s)))).

Fixpoint utf8_valid_fuel (fuel : nat) (s : string) : bool :=
  match fuel with
  | 0 => false
  | S fuel =>
      match s with
      | "" => true
      | _ => match rune_width s with
             | 0 => false
             | n => utf8_valid_fuel fuel (drop_bytes n s)
             end
      end
  end.

Definition utf8_valid (s : string) : bool := utf8_valid_fuel (S (String.length s)) s.

Lemma utf8_valid_fuel_ok fuel s : utf8_valid_fuel fuel s = true → utf8_ok s.
Proof.
  revert s. induction fuel as [|fuel IH]; [done|]. intros [|a r]; [constructor|].
  simpl. destruct (code a <? 128) eqn:E1; [intros; apply utf8_ok_1; [done|]; apply IH; by destruct r|].
  destruct r as [|b r]; [done|]. destruct (utf8_two a b) eqn:E2.
  { intros. apply utf8_ok_2; [done..|]. apply IH. by destruct r. }
  destruct r as [|c r]; [done|]. destruct (utf8_three a b c) eqn:E3.
  { intros. apply utf8_ok_3; [done..|]. apply IH. by destruct r. }
  destruct r as [|d r]; [done|]. destruct (utf8_four a b c d) eqn:E4; [|done].
  intros. apply utf8_ok_4; [done..|]. apply IH. by destruct r.
Qed.

Lemma utf8_valid_ok s : utf8_valid s = true → utf8_ok s.
Proof. apply utf8_valid_fuel_ok. Qed.

(** ** Quoting with [%q] ([strconv.Quote])

    Exact on ASCII and on invalid bytes; a valid multi-byte rune is copied (Go
    would escape the few that are not printable). *)

Definition hex_digit (n : nat) : ascii :=
  if n <? 10 then ascii_of_nat (48 + n) else ascii_of_nat (87 + n).

Definition hex_byte (c : ascii) : string :=
  String (hex_digit (code c / 16)) (String (hex_digit (code c mod 16)) "").

Definition backslash (s : string) : string := byte_str 92 +:+ s.

Definition quote_ascii (c : ascii) : string :=
  match code c with
  | 7 => backslash "a" | 8 => backslash "b" | 9 => backslash "t"
  | 10 => backslash "n" | 11 => backslash "v" | 12 => backslash "f"
  | 13 => backslash "r" | 34 => backslash dquote | 92 => backslash (byte_str 92)
  | n => if (32 <=? n) && (n <? 127) then String c "" else backslash ("x" +:+ hex_byte c)
  end.

Fixpoint quote_fuel (fuel : nat) (s : string) : string :=
  match fuel, s with
  | S fuel, String a r =>
      if code a <? 128 then quote_ascii a +:+ quote_fuel fuel r
      else match rune_width s with
           | 0 => backslash ("x" +:+ hex_byte a) +:+ quote_fuel fuel r
           | n => take_bytes n s +:+ quote_fuel fuel (drop_bytes n s)
           end
  | _, _ => ""
  end.

Definition quote (s : string) : string :=
  dquote +:+ quote_fuel (String.length s) s +:+ dquote.

Example quote_ex :
  quote ("a" +:+ dquote +:+ newline) =
  dquote +:+ "a" +:+ backslash dquote +:+ backslash "n" +:+ dquote.
Proof. vm_compute. reflexivity. Qed.

(** [hex.EncodeToString]. *)
Fixpoint hex_encode (s : string) : string :=
  match s with "" => "" | String a s => hex_byte a +:+ hex_encode s end.

Lemma hex_digit_inj m n : m < 16 → n < 16 → hex_digit m = hex_digit n → m = n.
Proof.
  intros Hm Hn. do 16 (destruct m as [|m]; [do 16 (destruct n as [|n]; [done|]); lia|]). lia.
Qed.

Lemma str_cons_inj a b s t : String a s = String b t → a = b ∧ s = t.
Proof. by intros [= -> ->]. Qed.

Lemma hex_byte_inj a b s t : hex_byte a +:+ s = hex_byte b +:+ t → a = b ∧ s = t.
Proof.
  unfold hex_byte. rewrite !app_cons_str.
  intros [H1 [H2 H3]%str_cons_inj]%str_cons_inj. split; [|done].
  assert (code a < 256 ∧ code b < 256) as [Ha Hb]
    by (split; apply nat_ascii_bounded).
  apply hex_digit_inj in H1; [|apply Nat.Div0.div_lt_upper_bound; lia..].
  apply hex_digit_inj in H2; [|apply Nat.mod_upper_bound; lia..].
  rewrite <- (ascii_nat_embedding a), <- (ascii_nat_embedding b).
  f_equal. fold (code a) (code b).
  rewrite (Nat.div_mod_eq (code a) 16), (Nat.div_mod_eq (code b) 16). lia.
Qed.

Lemma hex_encode_inj s t : hex_encode s = hex_encode t → s = t.
Proof.
  revert t. induction s as [|a s IH]; intros [|b t]; simpl; try done.
  intros [-> Ht]%hex_byte_inj. f_equal. by apply IH.
Qed.

Lemma hex_encode_length s : String.length (hex_encode s) = 2 * String.length s.
Proof.
  induction s as [|a s IH]; [done|]. simpl hex_encode. rewrite length_app_str, IH.
  simpl. lia.
Qed.

(** ** Concatenation *)

Definition concat_str (l : list string) : string := foldr String.append "" l.

Lemma concat_str_app l1 l2 : concat_str (l1 ++ l2) = concat_str l1 +:+ concat_str l2.
Proof.
  induction l1 as [|s l1 IH]; [done|].
  change (concat_str ((s :: l1) ++ l2)) with (s +:+ concat_str (l1 ++ l2)).
  change (concat_str (s :: l1)) with (s +:+ concat_str l1).
  by rewrite IH, app_assoc_str.
Qed.

Lemma concat_str_cons s l : concat_str (s :: l) = s +:+ concat_str l.
Proof. done. Qed.

(** ** Bytes *)

Lemma all_bytes_app f s1 s2 : all_bytes f (s1 +:+ s2) = all_bytes f s1 && all_bytes f s2.
Proof.
  induction s1 as [|c s1 IH]; [done|]. rewrite app_cons_str. cbn [all_bytes].
  by rewrite IH, andb_assoc.
Qed.

Lemma all_bytes_impl (f g : ascii → bool) s :
  (∀ c, f c = true → g c = true) → all_bytes f s = true → all_bytes g s = true.
Proof.
  intros Hfg. induction s as [|c s IH]; [done|]. cbn [all_bytes].
  rewrite !andb_true_iff. naive_solver.
Qed.

Lemma all_bytes_suffix f s c :
  all_bytes f s = true → has_suffix (String c "") s = true → f c = true.
Proof.
  intros Hs Hc. apply has_suffix_spec in Hc as [r ->].
  rewrite all_bytes_app in Hs. apply andb_true_iff in Hs as [_ Hs].
  by apply andb_true_iff in Hs as [Hs _].
Qed.

Lemma all_bytes_prefix f s c :
  all_bytes f s = true → has_prefix (String c "") s = true → f c = true.
Proof.
  intros Hs Hc. apply has_prefix_spec in Hc as [r ->].
  rewrite all_bytes_app in Hs. apply andb_true_iff in Hs as [Hs _].
  by apply andb_true_iff in Hs as [Hs _].
Qed.

(** ** Strings cut at a separator *)

Definition free_of (n : nat) (s : string) : bool := all_bytes (λ c, negb (code c =? n)) s.

Definition starts_with (n : nat) (s : string) : Prop :=
  s = "" ∨ ∃ c r, s = String c r ∧ code c = n.

Lemma cut_unique n x y e1 e2 :
  free_of n x = true → free_of n y = true → starts_with n e1 → starts_with n e2 →
  x +:+ e1 = y +:+ e2 → x = y ∧ e1 = e2.
Proof.
  revert y. induction x as [|c x IH]; intros [|d y] Hx Hy H1 H2 He; [done|..].
  - change ("" +:+ e1) with e1 in He. subst e1. rewrite app_cons_str in H1.
    apply andb_true_iff in Hy as [Hd _]. apply negb_true_iff, Nat.eqb_neq in Hd.
    destruct H1 as [?|(? & ? & [= <- <-] & ?)]; done.
  - change ("" +:+ e2) with e2 in He. subst e2. rewrite app_cons_str in H2.
    apply andb_true_iff in Hx as [Hc _]. apply negb_true_iff, Nat.eqb_neq in Hc.
    destruct H2 as [?|(? & ? & [= <- <-] & ?)]; done.
  - rewrite !app_cons_str in He. injection He as -> He.
    apply andb_true_iff in Hx as [_ Hx], Hy as [_ Hy].
    destruct (IH y Hx Hy H1 H2 He) as [-> ->]. done.
Qed.

Lemma drop_bytes_past a k s : drop_bytes (String.length a + k) (a +:+ s) = drop_bytes k s.
Proof. induction a as [|c a IH]; [done|]. rewrite app_cons_str. exact IH. Qed.

Lemma has_suffix_past p a s :
  String.length p <= String.length s → has_suffix p (a +:+ s) = has_suffix p s.
Proof.
  intros Hl. unfold has_suffix. rewrite length_app_str.
  replace (String.length a + String.length s - String.length p)
    with (String.length a + (String.length s - String.length p)) by lia.
  rewrite drop_bytes_past. rewrite (proj2 (Nat.leb_le _ _) Hl).
  by rewrite (proj2 (Nat.leb_le (String.length p) (String.length a + String.length s))) by lia.
Qed.

(** ** Fuel

    Every round of the recursions above consumes a byte, so that fuel beyond the
    length of the text changes nothing. *)

Lemma drop_bytes_length n s : String.length (drop_bytes n s) = String.length s - n.
Proof. revert s. induction n as [|n IH]; intros [|a s]; simpl; [done..|]. by rewrite IH. Qed.

Lemma take_bytes_length n s : String.length (take_bytes n s) ≤ n.
Proof. revert s. induction n as [|n IH]; intros [|a s]; simpl; try lia. specialize (IH s). lia. Qed.

Lemma trim_left_fuel_enough f1 f2 s :
  String.length s ≤ f1 → String.length s ≤ f2 → trim_left_fuel f1 s = trim_left_fuel f2 s.
Proof.
  revert f2 s. induction f1 as [|f1 IH]; intros [|f2] s H1 H2; [done| | |].
  1-2: destruct s; [|simpl in *; lia].
  1-2: cbn [trim_left_fuel]; by change (space_width_with has_prefix "") with 0.
  cbn [trim_left_fuel]. destruct (space_width_with has_prefix s) as [|n]; [done|].
  pose proof (drop_bytes_length (S n) s). destruct s as [|a s].
  { simpl. apply IH; simpl; lia. }
  apply IH; simpl in *; lia.
Qed.

Lemma trim_right_fuel_enough f1 f2 s :
  String.length s ≤ f1 → String.length s ≤ f2 → trim_right_fuel f1 s = trim_right_fuel f2 s.
Proof.
  revert f2 s. induction f1 as [|f1 IH]; intros [|f2] s H1 H2; [done| | |].
  1-2: destruct s; [|simpl in *; lia].
  1-2: cbn [trim_right_fuel]; by change (space_width_with has_suffix "") with 0.
  cbn [trim_right_fuel]. destruct (space_width_with has_suffix s) as [|n]; [done|].
  pose proof (take_bytes_length (String.length s - S n) s). destruct s as [|a s].
  { simpl. apply IH; simpl; lia. }
  apply IH; simpl in *; lia.
Qed.

(** [trim_space] with any fuel that is large enough. *)
Lemma trim_space_fuel f s :
  String.length s ≤ f →
  trim_space s = trim_right_fuel f (trim_left_fuel f s).
Proof.
  intros Hf. unfold trim_space. rewrite (trim_left_fuel_enough f (String.length s) s) by lia.
  apply trim_right_fuel_enough; [lia|]. trans (String.length s); [|done].
  clear. generalize (String.length s) at 1. intros n. revert s.
  induction n as [|n IH]; intros s; cbn [trim_left_fuel]; [lia|].
  destruct (space_width_with has_prefix s) as [|m]; [lia|]. rewrite IH, drop_bytes_length. lia.
Qed.

Lemma fields_fuel_enough f1 f2 cur s :
  String.length s < f1 → String.length s < f2 → fields_fuel f1 cur s = fields_fuel f2 cur s.
Proof.
  revert f2 cur s. induction f1 as [|f1 IH]; intros [|f2] cur s H1 H2; try lia.
  cbn [fields_fuel]. destruct s as [|a r]; [done|]. simpl in H1, H2.
  destruct (space_width_with has_prefix (String a r)) as [|n]; [apply IH; lia|].
  f_equal. pose proof (drop_bytes_length n r). apply IH; simpl; lia.
Qed.

Lemma quote_fuel_enough f1 f2 s :
  String.length s ≤ f1 → String.length s ≤ f2 → quote_fuel f1 s = quote_fuel f2 s.
Proof.
  revert f2 s. induction f1 as [|f1 IH]; intros [|f2] [|a r] H1 H2; simpl in H1, H2; try lia; try done.
  cbn [quote_fuel]. destruct (code a <? 128); [f_equal; apply IH; lia|].
  destruct (rune_width (String a r)) as [|n]; [f_equal; apply IH; lia|].
  f_equal. pose proof (drop_bytes_length n r). apply IH; simpl; lia.
Qed.
