(* ===== verification/Json.v ===== *)
(** * The part of Go's [encoding/json] the proxy uses

    A [json.RawMessage] holding a value is a [json] tree: strings are decoded,
    number literals keep their spelling, object members keep their order and
    their duplicates. [print] is [json.Marshal] (compact, HTML-escaping) and
    [parse] is the decoder's reading of a complete text. *)

From Stdlib Require Import Ascii.
From stdpp Require Import base numbers option pretty gmap fin_maps sorting strings list.
From S2P Require Import Prelude GoStrings.

#[local] Open Scope nat_scope.

#[local] Set Warnings "-register-all".

Inductive json : Type :=
| JNull
| JBool (b : bool)
| JNum (lit : string)
| JStr (s : string)
| JArr (l : list json)
| JObj (l : list (string * json)).

(** Induction over the nested lists. *)
Section json_ind.
Variable P : json → Prop.
Hypothesis Hnull : P JNull.
Hypothesis Hbool : ∀ b, P (JBool b).
Hypothesis Hnum : ∀ n, P (JNum n).
Hypothesis Hstr : ∀ s, P (JStr s).
Hypothesis Harr : ∀ l, Forall P l → P (JArr l).
Hypothesis Hobj : ∀ l, Forall (λ kv, P kv.2) l → P (JObj l).

Fixpoint json_nested_ind (v : json) : P v :=
  match v with
  | JNull => Hnull
  | JBool b => Hbool b
  | JNum n => Hnum n
  | JStr s => Hstr s
  | JArr l =>
      Harr l ((fix go l := match l return Forall P l with
               | [] => @Forall_nil_2 _ P
               | x :: l => @Forall_cons_2 _ P x l (json_nested_ind x) (go l)
               end) l)
  | JObj l =>
      Hobj l ((fix go l := match l return Forall (λ kv, P kv.2) l with
               | [] => @Forall_nil_2 _ (λ kv, P kv.2)
               | (k, x) :: l =>
                   @Forall_cons_2 _ (λ kv, P kv.2) (k, x) l (json_nested_ind x) (go l)
               end) l)
  end.
End json_ind.

#[export] Instance json_eq_dec : EqDecision json.
Proof.
  refine (fix go (v w : json) : Decision (v = w) :=
    match v, w with
    | JNull, JNull => left eq_refl
    | JBool a, JBool b => cast_if (decide (a = b))
    | JNum a, JNum b => cast_if (decide (a = b))
    | JStr a, JStr b => cast_if (decide (a = b))
    | JArr a, JArr b => cast_if (@list_eq_dec _ go a b)
    | JObj a, JObj b => cast_if (@list_eq_dec _ (@prod_eq_dec _ _ _ go) a b)
    | _, _ => right _
    end); clear go; abstract congruence.
Defined.

(** ** Encoding strings *)

Definition unicode_escape (hi lo : nat) : string :=
  backslash "u" +:+ hex_byte (ascii_of_nat hi) +:+ hex_byte (ascii_of_nat lo).

(** [appendString] with [escapeHTML]: the short escapes, [\u00xx] for the other
    control bytes and for [<], [>], [&], everything else as it is. *)
Definition enc_ascii (c : ascii) : string :=
  match code c with
  | 34 => backslash dquote | 92 => backslash (byte_str 92)
  | 8 => backslash "b" | 12 => backslash "f" | 10 => backslash "n"
  | 13 => backslash "r" | 9 => backslash "t"
  | 60 | 62 | 38 => unicode_escape 0 (code c)
  | n => if n <? 32 then unicode_escape 0 n else String c ""
  end.

(** U+2028 and U+2029 are escaped too. *)
Definition enc_three (a b c : ascii) : string :=
  if (code a =? 226) && (code b =? 128) && ((code c =? 168) || (code c =? 169))
  then unicode_escape 32 (code c - 128)
  else String a (String b (String c "")).

Definition enc_invalid : string := unicode_escape 255 253.

Fixpoint enc_str (s : string) : string :=
  match s with
  | "" => ""
  | String a r =>
      if code a <? 128 then enc_ascii a +:+ enc_str r else
      match r with
      | "" => enc_invalid
      | String b r2 =>
          if utf8_two a b then String a (String b (enc_str r2)) else
          match r2 with
          | "" => enc_invalid +:+ enc_str r
          | String c r3 =>
              if utf8_three a b c then enc_three a b c +:+ enc_str r3 else
              match r3 with
              | "" => enc_invalid +:+ enc_str r
              | String d r4 =>
                  if utf8_four a b c d
                  then String a (String b (String c (String d (enc_str r4))))
                  else enc_invalid +:+ enc_str r
              end
          end
      end
  end.

Definition print_str (s : string) : string := dquote +:+ enc_str s +:+ dquote.

(** ** Encoding values *)

Fixpoint print (v : json) : string :=
  match v with
  | JNull => "null"
  | JBool true => "true"
  | JBool false => "false"
  | JNum lit => lit
  | JStr s => print_str s
  | JArr l => "[" +:+ join "," (print <$> l) +:+ "]"
  | JObj l =>
      "{" +:+ join "," ((λ kv, print_str kv.1 +:+ ":" +:+ print kv.2) <$> l) +:+ "}"
  end.

(** ** Decoding strings *)

Definition hex_val (c : ascii) : option N :=
  if in_range 48 57 c then Some (N.of_nat (code c - 48))
  else if in_range 97 102 c then Some (N.of_nat (code c - 87))
  else if in_range 65 70 c then Some (N.of_nat (code c - 55))
  else None.

Definition hex4 (a b c d : ascii) : option N :=
  x ← hex_val a; y ← hex_val b; z ← hex_val c; w ← hex_val d;
  Some (((x * 16 + y) * 16 + z) * 16 + w)%N.

Definition byteN (n : N) : ascii := ascii_of_N n.

(** [utf8.AppendRune]; a surrogate or a value above U+10FFFF is U+FFFD. *)
Definition replacement : string := byte_str 239 +:+ byte_str 191 +:+ byte_str 189.

Definition is_surrogate (u : N) : bool := (0xD800 <=? u)%N && (u <? 0xE000)%N.

Definition utf8_encode (u : N) : string :=
  (if u <? 0x80 then String (byteN u) ""
   else if u <? 0x800 then
     String (byteN (0xC0 + u / 64)) (String (byteN (0x80 + u mod 64)) "")
   else if is_surrogate u then replacement
   else if u <? 0x10000 then
     String (byteN (0xE0 + u / 4096))
       (String (byteN (0x80 + u / 64 mod 64)) (String (byteN (0x80 + u mod 64)) ""))
   else if u <=? 0x10FFFF then
     String (byteN (0xF0 + u / 262144))
       (String (byteN (0x80 + u / 4096 mod 64))
          (String (byteN (0x80 + u / 64 mod 64)) (String (byteN (0x80 + u mod 64)) "")))
   else replacement)%N.

(** [utf16.DecodeRune]: a high surrogate followed by a low one. *)
Definition surrogate_pair (u v : N) : option N :=
  if ((0xD800 <=? u) && (u <? 0xDC00) && (0xDC00 <=? v) && (v <? 0xE000))%N
  then Some ((u - 0xD800) * 1024 + (v - 0xDC00) + 0x10000)%N else None.

Definition simple_escape (c : ascii) : option nat :=
  match code c with
  | 34 => Some 34 | 92 => Some 92 | 47 => Some 47 | 98 => Some 8
  | 102 => Some 12 | 110 => Some 10 | 114 => Some 13 | 116 => Some 9
  | _ => None
  end.

Definition prepend (p : string) (o : option (string * string)) : option (string * string) :=
  match o with Some (s, r) => Some (p +:+ s, r) | None => None end.

(** The text after an opening quote: the decoded string and what follows the
    closing quote. A lone surrogate or an invalid byte becomes U+FFFD. *)
Fixpoint dec_str (s : string) : option (string * string) :=
  match s with
  | "" => None
  | String a r =>
      if code a =? 34 then Some ("", r)
      else if code a =? 92 then
        match r with
        | "" => None
        | String e r1 =>
            if code e =? 117 then
              match r1 with
              | String h1 (String h2 (String h3 (String h4 r2))) =>
                  match hex4 h1 h2 h3 h4 with
                  | None => None
                  | Some u =>
                      if is_surrogate u then
                        match r2 with
                        | String b (String e2 (String g1 (String g2 (String g3 (String g4 r3))))) =>
                            if (code b =? 92) && (code e2 =? 117) then
                              match g ← hex4 g1 g2 g3 g4; surrogate_pair u g with
                              | Some w => prepend (utf8_encode w) (dec_str r3)
                              | None => prepend replacement (dec_str r2)
                              end
                            else prepend replacement (dec_str r2)
                        | _ => prepend replacement (dec_str r2)
                        end
                      else prepend (utf8_encode u) (dec_str r2)
                  end
              | _ => None
              end
            else match simple_escape e with
                 | Some n => prepend (byte_str n) (dec_str r1)
                 | None => None
                 end
        end
      else if code a <? 32 then None
      else if code a <? 128 then prepend (String a "") (dec_str r)
      else
        match r with
        | "" => None
        | String b r2 =>
            if utf8_two a b then prepend (String a (String b "")) (dec_str r2) else
            match r2 with
            | "" => prepend replacement (dec_str r)
            | String c r3 =>
                if utf8_three a b c
                then prepend (String a (String b (String c ""))) (dec_str r3) else
                match r3 with
                | "" => prepend replacement (dec_str r)
                | String d r4 =>
                    if utf8_four a b c d
                    then prepend (String a (String b (String c (String d "")))) (dec_str r4)
                    else prepend replacement (dec_str r)
                end
            end
        end
  end.

(** ** Numbers *)

Inductive num_state := NStart | NMinus | NZero | NInt | NDot | NFrac | NE | NESign | NExp.

Definition is_digit (c : ascii) : bool := in_range 48 57 c.

(** The scanner's states inside a number literal. *)
Definition num_step (st : num_state) (c : ascii) : option num_state :=
  let n := code c in
  let is_e := (n =? 101) || (n =? 69) in
  match st with
  | NStart => if n =? 45 then Some NMinus else if n =? 48 then Some NZero
              else if is_digit c then Some NInt else None
  | NMinus => if n =? 48 then Some NZero else if is_digit c then Some NInt else None
  | NZero => if n =? 46 then Some NDot else if is_e then Some NE else None
  | NInt => if is_digit c then Some NInt else if n =? 46 then Some NDot
            else if is_e then Some NE else None
  | NDot => if is_digit c then Some NFrac else None
  | NFrac => if is_digit c then Some NFrac else if is_e then Some NE else None
  | NE => if (n =? 43) || (n =? 45) then Some NESign
          else if is_digit c then Some NExp else None
  | NESign => if is_digit c then Some NExp else None
  | NExp => if is_digit c then Some NExp else None
  end.

Fixpoint num_run (st : num_state) (s : string) : option num_state :=
  match s with "" => Some st | String c s => st ← num_step st c; num_run st s end.

Definition valid_number (s : string) : bool :=
  match num_run NStart s with
  | Some (NZero | NInt | NFrac | NExp) => true
  | _ => false
  end.

Definition is_num_char (c : ascii) : bool :=
  is_digit c || (code c =? 43) || (code c =? 45) || (code c =? 46) ||
  (code c =? 69) || (code c =? 101).

Fixpoint span (f : ascii → bool) (s : string) : string * string :=
  match s with
  | "" => ("", "")
  | String c r => if f c then let '(p, q) := span f r in (String c p, q) else ("", s)
  end.

(** ** The parser *)

Definition is_ws (c : ascii) : bool :=
  (code c =? 32) || (code c =? 9) || (code c =? 10) || (code c =? 13).

Fixpoint skip_ws (s : string) : string :=
  match s with
  | "" => ""
  | String c r => if is_ws c then skip_ws r else s
  end.

(** The decoder's limit on nesting. *)
Definition max_depth : N := 10000.

Definition parse_literal (s : string) : option (json * string) :=
  if has_prefix "null" s then Some (JNull, drop_bytes 4 s)
  else if has_prefix "true" s then Some (JBool true, drop_bytes 4 s)
  else if has_prefix "false" s then Some (JBool false, drop_bytes 5 s)
  else
    let '(lit, r) := span is_num_char s in
    if valid_number lit then Some (JNum lit, r) else None.

(** [depth] is how many containers may still be opened. *)
Fixpoint parse_value (fuel : nat) (depth : N) (s : string) : option (json * string) :=
  match fuel with
  | 0 => None
  | S fuel =>
      match skip_ws s with
      | "" => None
      | String c r =>
          if code c =? 34 then '(t, r) ← dec_str r; Some (JStr t, r)
          else if code c =? 91 then
            if (depth =? 0)%N then None else
            match skip_ws r with
            | String c' r' =>
                if code c' =? 93 then Some (JArr [], r') else
                '(l, r') ← parse_elems fuel (N.pred depth) r; Some (JArr l, r')
            | "" => None
            end
          else if code c =? 123 then
            if (depth =? 0)%N then None else
            match skip_ws r with
            | String c' r' =>
                if code c' =? 125 then Some (JObj [], r') else
                '(l, r') ← parse_members fuel (N.pred depth) r; Some (JObj l, r')
            | "" => None
            end
          else parse_literal (String c r)
      end
  end
with parse_elems (fuel : nat) (depth : N) (s : string) : option (list json * string) :=
  match fuel with
  | 0 => None
  | S fuel =>
      '(v, r) ← parse_value fuel depth s;
      match skip_ws r with
      | String c r' =>
          if code c =? 93 then Some ([v], r')
          else if code c =? 44 then '(l, r'') ← parse_elems fuel depth r'; Some (v :: l, r'')
          else None
      | "" => None
      end
  end
with parse_members (fuel : nat) (depth : N) (s : string)
  : option (list (string * json) * string) :=
  match fuel with
  | 0 => None
  | S fuel =>
      match skip_ws s with
      | String q s1 =>
          if code q =? 34 then
            '(k, s2) ← dec_str s1;
            match skip_ws s2 with
            | String col s3 =>
                if code col =? 58 then
                  '(v, r) ← parse_value fuel depth s3;
                  match skip_ws r with
                  | String c r' =>
                      if code c =? 125 then Some ([(k, v)], r')
                      else if code c =? 44 then
                        '(l, r'') ← parse_members fuel depth r'; Some ((k, v) :: l, r'')
                      else None
                  | "" => None
                  end
                else None
            | "" => None
            end
          else None
      | "" => None
      end
  end.

(** Every level of the recursion reads a byte before it goes two deeper. *)
Definition parse_fuel (s : string) : nat := 2 * String.length s + 1.

(** [json.Unmarshal]'s reading of the text, before any Go type is involved. *)
Definition parse (s : string) : option json :=
  match parse_value (parse_fuel s) max_depth s with
  | Some (v, r) => if String.eqb (skip_ws r) "" then Some v else None
  | None => None
  end.

(** ** Well-formed trees: what a parser can return and [print] can render *)

Fixpoint json_ok (v : json) : bool :=
  match v with
  | JNull | JBool _ => true
  | JNum lit => valid_number lit
  | JStr s => utf8_valid s
  | JArr l => forallb json_ok l
  | JObj l => forallb (λ kv, utf8_valid kv.1 && json_ok kv.2) l
  end.

(** What every rendered tree needs: number literals that are numbers. *)
Fixpoint nums_ok (v : json) : bool :=
  match v with
  | JNum lit => valid_number lit
  | JArr l => forallb nums_ok l
  | JObj l => forallb (λ kv, nums_ok kv.2) l
  | _ => true
  end.

(** The string the reader gets: each byte that is not UTF-8 becomes U+FFFD. *)
Fixpoint clean_str (s : string) : string :=
  match s with
  | "" => ""
  | String a r =>
      if code a <? 128 then String a (clean_str r) else
      match r with
      | "" => replacement
      | String b r2 =>
          if utf8_two a b then String a (String b (clean_str r2)) else
          match r2 with
          | "" => replacement +:+ clean_str r
          | String c r3 =>
              if utf8_three a b c then String a (String b (String c (clean_str r3))) else
              match r3 with
              | "" => replacement +:+ clean_str r
              | String d r4 =>
                  if utf8_four a b c d
                  then String a (String b (String c (String d (clean_str r4))))
                  else replacement +:+ clean_str r
              end
          end
      end
  end.

Fixpoint clean (v : json) : json :=
  match v with
  | JStr s => JStr (clean_str s)
  | JArr l => JArr (clean <$> l)
  | JObj l => JObj ((λ kv, (clean_str kv.1, clean kv.2)) <$> l)
  | v => v
  end.

Fixpoint json_depth (v : json) : N :=
  match v with
  | JArr l => N.succ (foldr (λ v n, N.max (json_depth v) n) 0%N l)
  | JObj l => N.succ (foldr (λ kv n, N.max (json_depth kv.2) n) 0%N l)
  | _ => 0%N
  end.

Example parse_ex :
  parse (" { " +:+ print_str "a" +:+ ": [1, -2.5e3, true], " +:+ print_str "b" +:+ ":null}")
  = Some (JObj [("a", JArr [JNum "1"; JNum "-2.5e3"; JBool true]); ("b", JNull)]).
Proof. vm_compute. reflexivity. Qed.

(** ** Round trip: [parse (print v) = Some v] *)

Lemma dec_enc_ascii a t :
  (code a <? 128) = true →
  dec_str (enc_ascii a +:+ t) = prepend (String a "") (dec_str t).
Proof.
  destruct a as [[] [] [] [] [] [] [] []];
    first [discriminate 1 | intros _; reflexivity].
Qed.

Lemma dec_enc_two a b t :
  (code a <? 128) = false → utf8_two a b = true →
  dec_str (String a (String b t)) = prepend (String a (String b "")) (dec_str t).
Proof.
  intros H1 H2. cbn [dec_str]. rewrite H1, H2. apply Nat.ltb_ge in H1.
  rewrite (proj2 (Nat.eqb_neq _ 34)), (proj2 (Nat.eqb_neq _ 92)), (proj2 (Nat.ltb_ge _ 32))
    by lia. done.
Qed.

Lemma dec_plain_three a b c t :
  (code a <? 128) = false → utf8_two a b = false → utf8_three a b c = true →
  dec_str (String a (String b (String c t))) =
  prepend (String a (String b (String c ""))) (dec_str t).
Proof.
  intros H1 H2 H3. cbn [dec_str]. rewrite H1, H2, H3. apply Nat.ltb_ge in H1.
  rewrite (proj2 (Nat.eqb_neq _ 34)), (proj2 (Nat.eqb_neq _ 92)), (proj2 (Nat.ltb_ge _ 32))
    by lia. done.
Qed.

Lemma dec_enc_four a b c d t :
  (code a <? 128) = false → utf8_two a b = false → utf8_three a b c = false →
  utf8_four a b c d = true →
  dec_str (String a (String b (String c (String d t)))) =
  prepend (String a (String b (String c (String d "")))) (dec_str t).
Proof.
  intros H1 H2 H3 H4. cbn [dec_str]. rewrite H1, H2, H3, H4. apply Nat.ltb_ge in H1.
  rewrite (proj2 (Nat.eqb_neq _ 34)), (proj2 (Nat.eqb_neq _ 92)), (proj2 (Nat.ltb_ge _ 32))
    by lia. done.
Qed.

Lemma code_inj_lit c n : n < 256 → (code c =? n) = true → c = ascii_of_nat n.
Proof.
  intros Hn H%Nat.eqb_eq. rewrite <- (ascii_nat_embedding c). by f_equal.
Qed.

Lemma dec_enc_three a b c t :
  (code a <? 128) = false → utf8_two a b = false → utf8_three a b c = true →
  dec_str (enc_three a b c +:+ t) =
  prepend (String a (String b (String c ""))) (dec_str t).
Proof.
  intros H1 H2 H3. unfold enc_three.
  destruct ((code a =? 226) && _ && _) eqn:E; [|by apply dec_plain_three].
  rewrite !andb_true_iff, orb_true_iff in E. destruct E as [[Ea Eb] Ec].
  apply code_inj_lit in Ea as ->; [|lia]. apply code_inj_lit in Eb as ->; [|lia].
  destruct Ec as [Ec|Ec]; apply code_inj_lit in Ec as ->; try lia; reflexivity.
Qed.

Lemma prepend_Some p s r : prepend p (Some (s, r)) = Some (p +:+ s, r).
Proof. done. Qed.

Lemma dec_enc_invalid t : dec_str (enc_invalid +:+ t) = prepend replacement (dec_str t).
Proof. reflexivity. Qed.

Lemma dec_enc_str s rest : dec_str (enc_str s +:+ dquote +:+ rest) = Some (clean_str s, rest).
Proof.
  remember (String.length s) as n eqn:Hn. revert s Hn.
  induction n as [n IH] using lt_wf_ind. intros s ->.
  assert (∀ t, String.length t < String.length s →
    dec_str (enc_str t +:+ dquote +:+ rest) = Some (clean_str t, rest)) as IHs by (intros; by eapply IH).
  clear IH. destruct s as [|a r]; [done|]. cbn [enc_str clean_str].
  destruct (code a <? 128) eqn:H1.
  { rewrite app_assoc_str, dec_enc_ascii, IHs by (done || simpl; lia). done. }
  destruct r as [|b r2]; [done|]. destruct (utf8_two a b) eqn:H2.
  { rewrite !app_cons_str, dec_enc_two, IHs by (done || simpl; lia). done. }
  destruct r2 as [|c r3].
  { rewrite app_assoc_str, dec_enc_invalid, IHs by (simpl; lia). done. }
  destruct (utf8_three a b c) eqn:H3.
  { rewrite app_assoc_str, dec_enc_three, IHs by (done || simpl; lia). done. }
  destruct r3 as [|d r4]; [|destruct (utf8_four a b c d) eqn:H4].
  1, 3: rewrite app_assoc_str, dec_enc_invalid, IHs by (simpl; lia); done.
  rewrite !app_cons_str, dec_enc_four, IHs by (done || simpl; lia). done.
Qed.

Lemma dec_print_str s rest :
  ∃ r, print_str s +:+ rest = String (ascii_of_nat 34) r ∧ dec_str r = Some (clean_str s, rest).
Proof.
  exists (enc_str s +:+ dquote +:+ rest). unfold print_str. rewrite !app_assoc_str.
  split; [done|]. apply dec_enc_str.
Qed.

Lemma clean_str_ok s : utf8_ok s → clean_str s = s.
Proof.
  induction 1 as [|a s H1 Hs IH|a b s H1 H2 Hs IH|a b c s H1 H2 H3 Hs IH|
                  a b c d s H1 H2 H3 H4 Hs IH]; [done|..]; cbn [clean_str].
  - by rewrite H1, IH.
  - by rewrite H1, H2, IH.
  - by rewrite H1, H2, H3, IH.
  - by rewrite H1, H2, H3, H4, IH.
Qed.

(** A well-formed tree is read back as it is. *)
Lemma clean_ok v : json_ok v = true → nums_ok v = true ∧ clean v = v.
Proof.
  induction v as [| | |s|l IH|l IH] using json_nested_ind; intros Hok; cbn [json_ok nums_ok clean] in *;
    try done.
  - split; [done|]. by rewrite clean_str_ok by by apply utf8_valid_ok.
  - induction IH as [|v l Hv _ IHl]; [done|]. cbn in *. apply andb_true_iff in Hok as [Hok1 Hok2].
    destruct (Hv Hok1) as [-> ->], (IHl Hok2) as [-> [= ->]]. done.
  - induction IH as [|[k v] l Hv _ IHl]; [done|]. cbn in *.
    apply andb_true_iff in Hok as [[Hk Hok1]%andb_true_iff Hok2].
    destruct (Hv Hok1) as [-> ->], (IHl Hok2) as [-> [= ->]].
    by rewrite clean_str_ok by by apply utf8_valid_ok.
Qed.

Lemma is_digit_num_char c : is_digit c = true → is_num_char c = true.
Proof. unfold is_num_char. by intros ->. Qed.

Lemma num_step_num_char st c st' : num_step st c = Some st' → is_num_char c = true.
Proof.
  unfold is_num_char.
  destruct st; simpl; repeat case_match; intros; simplify_eq; subst;
    repeat match goal with
      | H : (_ || _) = true |- _ => apply orb_true_iff in H as [H|H]
      end;
    repeat match goal with
      | H : _ = true |- context [_ || _] => rewrite ?H
      end; rewrite ?orb_true_r; try done;
    match goal with H : (code c =? 48) = true |- _ =>
      apply code_inj_lit in H; [subst; reflexivity|lia] end.
Qed.

Definition no_num_head (s : string) : Prop :=
  match s with "" => True | String c _ => is_num_char c = false end.

Lemma span_num st lit rest st' :
  num_run st lit = Some st' → no_num_head rest → span is_num_char (lit +:+ rest) = (lit, rest).
Proof.
  revert st. induction lit as [|c lit IH]; intros st; cbn [num_run].
  - intros _ Hr. change ("" +:+ rest) with rest. destruct rest as [|d rest]; [done|].
    simpl in *. by rewrite Hr.
  - destruct (num_step st c) as [st1|] eqn:Hc; cbn [mbind option_bind]; [|done].
    intros Hrun Hr. rewrite app_cons_str. cbn [span].
    rewrite (num_step_num_char _ _ _ Hc), (IH _ Hrun Hr). done.
Qed.

Lemma valid_number_head lit :
  valid_number lit = true →
  ∃ c l, lit = String c l ∧ (code c = 45 ∨ 48 ≤ code c ≤ 57).
Proof.
  unfold valid_number. destruct lit as [|c l]; [done|]. intros H. exists c, l.
  split; [done|]. simpl in H. destruct (code c =? 45) eqn:E1; [left; by apply Nat.eqb_eq|].
  right. destruct (code c =? 48) eqn:E2; [apply Nat.eqb_eq in E2; lia|].
  unfold is_digit, in_range in H.
  destruct ((48 <=? code c) && (code c <=? 57)) eqn:E3; [|done].
  apply andb_true_iff in E3 as [?%Nat.leb_le ?%Nat.leb_le]. lia.
Qed.

Lemma has_prefix_head_ne a p b s : code a ≠ code b → has_prefix (String a p) (String b s) = false.
Proof. intros H. simpl. destruct (Ascii.eqb_spec a b) as [->|]; done. Qed.

Lemma parse_literal_num lit rest :
  valid_number lit = true → no_num_head rest →
  parse_literal (lit +:+ rest) = Some (JNum lit, rest).
Proof.
  intros Hv Hr. pose proof Hv as (c & l & -> & Hc)%valid_number_head.
  assert (∀ a p, code a > 57 → has_prefix (String a p) (String c l +:+ rest) = false) as Hp.
  { intros a p Ha. rewrite app_cons_str. apply has_prefix_head_ne. lia. }
  unfold parse_literal. rewrite !Hp by (vm_compute; lia).
  unfold valid_number in Hv.
  destruct (num_run NStart (String c l)) as [st|] eqn:Hrun; [|done].
  rewrite (span_num _ _ _ _ Hrun Hr). unfold valid_number. by rewrite Hrun, Hv.
Qed.

(** [need v] bounds the fuel the parser spends on [print v]. *)
Fixpoint need (v : json) : nat :=
  match v with
  | JArr l => S (foldr (λ v n, S (max (need v) n)) 0 l)
  | JObj l => S (foldr (λ kv n, S (max (need kv.2) n)) 0 l)
  | _ => 1
  end.

Lemma print_head v :
  nums_ok v = true → ∃ c s, print v = String c s ∧ is_ws c = false ∧ code c ≠ 93.
Proof.
  destruct v as [|[]|lit|s|l|l]; simpl; intros Hok.
  4: { apply valid_number_head in Hok as (c & l & -> & Hc). exists c, l.
       unfold is_ws. rewrite (proj2 (Nat.eqb_neq _ 32)), (proj2 (Nat.eqb_neq _ 9)),
         (proj2 (Nat.eqb_neq _ 10)), (proj2 (Nat.eqb_neq _ 13)) by lia.
       split; [done|split; [done|lia]]. }
  all: eexists _, _; split; [reflexivity|]; split; [reflexivity|]; vm_compute; lia.
Qed.

Lemma skip_ws_head c s : is_ws c = false → skip_ws (String c s) = String c s.
Proof. simpl. by intros ->. Qed.

Lemma join_cons2 sep x y l : join sep (x :: y :: l) = x +:+ sep +:+ join sep (y :: l).
Proof. done. Qed.

Definition parses_back (v : json) : Prop :=
  nums_ok v = true → ∀ fuel depth rest,
    need v ≤ fuel → (json_depth v ≤ depth)%N → no_num_head rest →
    parse_value fuel depth (print v +:+ rest) = Some (clean v, rest).

(** One step of the element and member loops. *)
Lemma parse_elems_last fuel d s v t :
  parse_value fuel d s = Some (v, "]" +:+ t) →
  parse_elems (S fuel) d s = Some ([v], t).
Proof. intros H. simpl. rewrite H. done. Qed.

Lemma parse_elems_next fuel d s v t :
  parse_value fuel d s = Some (v, "," +:+ t) →
  parse_elems (S fuel) d s = '(l, r) ← parse_elems fuel d t; Some (v :: l, r).
Proof. intros H. simpl. rewrite H. done. Qed.

Lemma parse_members_step fuel d k s v c t :
  parse_value fuel d s = Some (v, String c t) →
  is_ws c = false →
  parse_members (S fuel) d (print_str k +:+ ":" +:+ s) =
  if code c =? 125 then Some ([(clean_str k, v)], t)
  else if code c =? 44 then '(l, r) ← parse_members fuel d t; Some ((clean_str k, v) :: l, r)
  else None.
Proof.
  intros Hv Hc.
  destruct (dec_print_str k (":" +:+ s)) as (r & -> & Hr).
  simpl. rewrite Hr. simpl. change ("" +:+ s) with s. rewrite Hv. simpl. rewrite Hc. done.
Qed.

Lemma parse_elems_print v l :
  Forall parses_back (v :: l) → forallb nums_ok (v :: l) = true →
  ∀ fuel depth rest,
    foldr (λ v n, S (max (need v) n)) 0 (v :: l) ≤ fuel →
    (foldr (λ v n, N.max (json_depth v) n) 0 (v :: l) ≤ depth)%N →
    parse_elems fuel depth (join "," (print <$> v :: l) +:+ "]" +:+ rest)
    = Some (clean <$> v :: l, rest).
Proof.
  revert v. induction l as [|w l IH]; intros v [Hv Hl]%Forall_cons_1 Hok fuel depth rest Hf Hd;
    cbn [forallb] in Hok; cbn [foldr] in Hf, Hd; destruct fuel as [|fuel]; try lia.
  - rewrite andb_true_r in Hok. apply parse_elems_last. apply Hv; done || lia.
  - apply andb_true_iff in Hok as [Hok1 Hok2].
    change (join "," (print <$> v :: w :: l))
      with (print v +:+ "," +:+ join "," (print <$> w :: l)).
    rewrite !app_assoc_str.
    rewrite (parse_elems_next _ _ _ (clean v) (join "," (print <$> w :: l) +:+ "]" +:+ rest)).
    + rewrite IH by (done || cbn [foldr]; lia). done.
    + apply Hv; done || lia.
Qed.

Definition print_member (kv : string * json) : string :=
  print_str kv.1 +:+ ":" +:+ print kv.2.

Definition clean_member (kv : string * json) : string * json := (clean_str kv.1, clean kv.2).

Lemma parse_members_print k v l :
  Forall (λ kv, parses_back kv.2) ((k, v) :: l) →
  forallb (λ kv, nums_ok kv.2) ((k, v) :: l) = true →
  ∀ fuel depth rest,
    foldr (λ kv n, S (max (need kv.2) n)) 0 ((k, v) :: l) ≤ fuel →
    (foldr (λ kv n, N.max (json_depth kv.2) n) 0 ((k, v) :: l) ≤ depth)%N →
    parse_members fuel depth (join "," (print_member <$> (k, v) :: l) +:+ "}" +:+ rest)
    = Some (clean_member <$> (k, v) :: l, rest).
Proof.
  revert k v. induction l as [|[k' w] l IH];
    intros k v [Hv Hl]%Forall_cons_1 Hok fuel depth rest Hf Hd;
    cbn [forallb fst snd] in Hok; apply andb_true_iff in Hok as [Hok1 Hok2];
    cbn [foldr fst snd] in Hf, Hd; destruct fuel as [|fuel]; try lia.
  - change (join "," (print_member <$> [(k, v)])) with (print_str k +:+ ":" +:+ print v).
    rewrite !app_assoc_str. erewrite parse_members_step.
    2: { apply Hv; [done|simpl; lia..|]. exact eq_refl. }
    all: done.
  - change (join "," (print_member <$> (k, v) :: (k', w) :: l))
      with ((print_str k +:+ ":" +:+ print v) +:+ "," +:+ join "," (print_member <$> (k', w) :: l)).
    rewrite !app_assoc_str.
    erewrite (parse_members_step _ _ _ _ (clean v) ","); [| |done].
    2: { apply Hv; [done|simpl; lia..|]. exact eq_refl. }
    cbn [Nat.eqb code nat_of_ascii].
    change (code "," =? 125) with false. change (code "," =? 44) with true. cbv iota.
    rewrite IH by (done || cbn [foldr fst snd]; simpl in *; lia). done.
Qed.

Lemma print_obj_members l :
  print (JObj l) = "{" +:+ join "," (print_member <$> l) +:+ "}".
Proof. done. Qed.

Lemma parses_back_leaf v c r fuel depth rest :
  print v +:+ rest = String c r → is_ws c = false →
  (code c =? 34) = false → (code c =? 91) = false → (code c =? 123) = false →
  parse_literal (String c r) = Some (v, rest) → 1 ≤ fuel →
  parse_value fuel depth (print v +:+ rest) = Some (v, rest).
Proof.
  intros -> Hws H1 H2 H3 Hl Hf. destruct fuel as [|fuel]; [lia|].
  simpl. by rewrite Hws, H1, H2, H3.
Qed.

Lemma parse_value_arr fuel d t l r c t' :
  skip_ws t = String c t' → (code c =? 93) = false → (0 < d)%N →
  parse_elems fuel (N.pred d) t = Some (l, r) →
  parse_value (S fuel) d ("[" +:+ t) = Some (JArr l, r).
Proof.
  intros Hs Hc Hd Hp. change ("[" +:+ t) with (String "[" t). simpl.
  rewrite (proj2 (N.eqb_neq d 0)) by lia. by rewrite Hs, Hc, Hp.
Qed.

Lemma parse_value_obj fuel d t l r c t' :
  skip_ws t = String c t' → (code c =? 125) = false → (0 < d)%N →
  parse_members fuel (N.pred d) t = Some (l, r) →
  parse_value (S fuel) d ("{" +:+ t) = Some (JObj l, r).
Proof.
  intros Hs Hc Hd Hp. change ("{" +:+ t) with (String "{" t). simpl.
  rewrite (proj2 (N.eqb_neq d 0)) by lia. by rewrite Hs, Hc, Hp.
Qed.

Lemma join_head x l : ∃ t, join "," (x :: l) = x +:+ t.
Proof. destruct l as [|y l]; [exists ""; by rewrite app_nil_r_str | by eexists]. Qed.

Lemma print_parses_back v : parses_back v.
Proof.
  induction v as [|[]|lit|s|l IH|l IH] using json_nested_ind;
    intros Hok fuel depth rest Hf Hd Hr.
  1-3: eapply parses_back_leaf; [reflexivity..|simpl in Hf; lia].
  - simpl in Hok, Hf. pose proof Hok as (c & r & -> & Hc)%valid_number_head.
    eapply parses_back_leaf; [reflexivity| | | | | |done].
    1: unfold is_ws; rewrite (proj2 (Nat.eqb_neq _ 32)), (proj2 (Nat.eqb_neq _ 9)),
         (proj2 (Nat.eqb_neq _ 10)), (proj2 (Nat.eqb_neq _ 13)) by lia; done.
    1-3: apply Nat.eqb_neq; lia.
    by apply (parse_literal_num (String c r)).
  - simpl in Hf. destruct fuel as [|fuel]; [lia|].
    destruct (dec_print_str s rest) as (r & Hp & Hd').
    cbn [print]. rewrite Hp. simpl. by rewrite Hd'.
  - cbn [need json_depth nums_ok] in *. destruct fuel as [|fuel]; [lia|].
    cbn [print]. rewrite !app_assoc_str. destruct l as [|v l].
    { simpl. rewrite (proj2 (N.eqb_neq depth 0)) by (simpl in Hd; lia). done. }
    pose proof Hok as Hok'. cbn [forallb] in Hok'. apply andb_true_iff in Hok' as [Hv _].
    apply print_head in Hv as (c & t & Hp & Hws & Hc).
    destruct (join_head (print v) (print <$> l)) as [u Hu].
    eapply (parse_value_arr _ _ _ _ _ c).
    + rewrite fmap_cons, Hu, Hp, !app_cons_str. by apply skip_ws_head.
    + by apply Nat.eqb_neq.
    + simpl in Hd. lia.
    + apply parse_elems_print; [done..|lia|lia].
  - cbn [need json_depth nums_ok] in *. destruct fuel as [|fuel]; [lia|].
    rewrite print_obj_members, !app_assoc_str. destruct l as [|[k v] l].
    { simpl. rewrite (proj2 (N.eqb_neq depth 0)) by (simpl in Hd; lia). done. }
    destruct (join_head (print_member (k, v)) (print_member <$> l)) as [u Hu].
    eapply (parse_value_obj _ _ _ _ _ (ascii_of_nat 34)).
    + rewrite fmap_cons, Hu. unfold print_member, print_str, dquote, byte_str.
      rewrite !app_cons_str. by apply skip_ws_head.
    + done.
    + simpl in Hd. lia.
    + apply parse_members_print; [done..|lia|lia].
Qed.

Lemma length_join_cons2 x y l :
  String.length (join "," (x :: y :: l)) =
  String.length x + 1 + String.length (join "," (y :: l)).
Proof. rewrite join_cons2, !length_app_str. simpl. lia. Qed.

(** The fuel [parse] starts with is enough for any rendered tree. *)
Lemma need_print v : nums_ok v = true → need v ≤ 2 * String.length (print v).
Proof.
  induction v as [|[]|lit|s|l IH|l IH] using json_nested_ind; intros Hok;
    cbn [need nums_ok] in *.
  1-3: simpl; lia.
  - apply valid_number_head in Hok as (c & r & -> & _). simpl. lia.
  - simpl. unfold print_str. rewrite !length_app_str. simpl. lia.
  - cbn [print]. rewrite !length_app_str. simpl (String.length "["). simpl (String.length "]").
    cut (foldr (λ v n, S (max (need v) n)) 0 l ≤ 2 * String.length (join "," (print <$> l)) + 1); [lia|].
    induction IH as [|v l Hv _ IHl]; [simpl; lia|].
    cbn [forallb] in Hok. apply andb_true_iff in Hok as [Hokv Hokl].
    specialize (Hv Hokv). specialize (IHl Hokl). destruct l as [|w l].
    + cbn [foldr fmap list_fmap join String.concat]. lia.
    + cbn [foldr] in *. rewrite !fmap_cons in *. rewrite length_join_cons2. lia.
  - rewrite print_obj_members, !length_app_str.
    simpl (String.length "{"). simpl (String.length "}").
    cut (foldr (λ kv n, S (max (need kv.2) n)) 0 l
         ≤ 2 * String.length (join "," (print_member <$> l)) + 1); [lia|].
    induction IH as [|[k v] l Hv _ IHl]; [simpl; lia|].
    cbn [forallb fst snd] in *. apply andb_true_iff in Hok as [Hokv Hokl].
    specialize (Hv Hokv). specialize (IHl Hokl).
    assert (String.length (print v) ≤ String.length (print_member (k, v))).
    { unfold print_member. rewrite !length_app_str. simpl. lia. }
    destruct l as [|w l].
    + cbn [foldr fmap list_fmap join String.concat fst snd]. lia.
    + cbn [foldr fst snd] in *. rewrite !fmap_cons in *. rewrite length_join_cons2. lia.
Qed.

(** Whatever bytes its strings hold, a rendered tree is read back, with those
    that are not UTF-8 replaced; [s] is the white space an encoder appends. *)
Lemma parse_print_clean v s :
  nums_ok v = true → (json_depth v ≤ max_depth)%N → no_num_head s → skip_ws s = "" →
  parse (print v +:+ s) = Some (clean v).
Proof.
  intros Hok Hd Hs Hws. unfold parse, parse_fuel.
  rewrite print_parses_back; [by rewrite Hws|done| |done|done].
  apply need_print in Hok. rewrite length_app_str. lia.
Qed.

Lemma parse_print v :
  json_ok v = true → (json_depth v ≤ max_depth)%N → parse (print v) = Some v.
Proof.
  intros [Hn Hc]%clean_ok Hd. rewrite <- (app_nil_r_str (print v)).
  by rewrite parse_print_clean, Hc.
Qed.
