(* ===== verification/Parse.v ===== *)
(** * What the JSON parser returns, and that it never runs out of fuel

    Reading a value consumes at least a byte, so the fuel [parse] starts with is
    enough for every text; and what it returns is a well-formed tree within the
    decoder's depth limit, which [print] renders and [parse] reads back. *)

From Stdlib Require Import Ascii ZifyNat ZifyBool.
From stdpp Require Import base numbers option pretty gmap fin_maps sorting strings list.
From S2P Require Import Prelude GoStrings Json.

#[local] Set Warnings "-clear-no-such-hyp".
#[local] Open Scope nat_scope.

(** ** Consumption *)

Lemma skip_ws_length s : String.length (skip_ws s) ≤ String.length s.
Proof. induction s as [|c s IH]; simpl; [lia|]. destruct (is_ws c); simpl; lia. Qed.

Lemma skip_ws_cons s c r : skip_ws s = String c r → String.length r < String.length s.
Proof. intros H. pose proof (skip_ws_length s) as Hl. rewrite H in Hl. simpl in Hl. lia. Qed.

Lemma prepend_inv p o x : prepend p o = Some x → ∃ t, o = Some (t, x.2) ∧ x.1 = p +:+ t.
Proof. destruct o as [[t r]|]; [|done]. intros [= <-]. by exists t. Qed.

Lemma span_length f s : String.length (span f s).2 ≤ String.length s.
Proof.
  induction s as [|c s IH]; simpl; [lia|]. destruct (f c); [|simpl; lia].
  destruct (span f s) as [p q]. simpl in *. lia.
Qed.

(** ** Well-formed UTF-8 *)

Lemma utf8_ok_valid s : utf8_ok s → utf8_valid s = true.
Proof.
  cut (∀ fuel, String.length s < fuel → utf8_ok s → utf8_valid_fuel fuel s = true).
  { intros Hc Hs. apply Hc; [lia|done]. }
  intros fuel Hf Hs. revert fuel Hf.
  induction Hs as [|a s H1 Hs IH|a b s H1 H2 Hs IH|a b c s H1 H2 H3 Hs IH
                  |a b c d s H1 H2 H3 H4 Hs IH]; intros [|fuel] Hf; try lia; [done|..];
    cbn [utf8_valid_fuel rune_width]; rewrite ?H1, ?H2, ?H3, ?H4; cbn [drop_bytes];
    apply IH; simpl in Hf; lia.
Qed.

(** A piece that may stand in front of well-formed text. *)
Definition utf8_piece (p : string) : Prop := ∀ t, utf8_ok t → utf8_ok (p +:+ t).

Lemma utf8_piece_ascii a : (code a <? 128) = true → utf8_piece (String a "").
Proof. intros Ha t Ht. by apply utf8_ok_1. Qed.

Lemma utf8_piece_replacement : utf8_piece replacement.
Proof. intros t Ht. by apply utf8_ok_3. Qed.

Lemma code_byteN n : (n < 256)%N → code (byteN n) = N.to_nat n.
Proof.
  intros Hn. unfold code, byteN, nat_of_ascii. by rewrite N_ascii_embedding.
Qed.

Lemma in_range_intro lo hi c : lo ≤ code c → code c ≤ hi → in_range lo hi c = true.
Proof. intros. unfold in_range. apply andb_true_iff. split; by apply Nat.leb_le. Qed.

(** The byte classes as bounds. *)
Lemma utf8_two_spec a b :
  utf8_two a b = true ↔ 194 ≤ code a ≤ 223 ∧ 128 ≤ code b ≤ 191.
Proof.
  unfold utf8_two, is_cont, in_range. lia.
Qed.

Lemma utf8_three_spec a b c :
  utf8_three a b c = true ↔ 128 ≤ code c ≤ 191 ∧
    (code a = 224 ∧ 160 ≤ code b ≤ 191 ∨
     (225 ≤ code a ≤ 236 ∨ 238 ≤ code a ≤ 239) ∧ 128 ≤ code b ≤ 191 ∨
     code a = 237 ∧ 128 ≤ code b ≤ 159).
Proof.
  unfold utf8_three, is_cont, in_range.
  lia.
Qed.

Lemma utf8_four_spec a b c d :
  utf8_four a b c d = true ↔ 128 ≤ code c ≤ 191 ∧ 128 ≤ code d ≤ 191 ∧
    (code a = 240 ∧ 144 ≤ code b ≤ 191 ∨ 241 ≤ code a ≤ 243 ∧ 128 ≤ code b ≤ 191 ∨
     code a = 244 ∧ 128 ≤ code b ≤ 143).
Proof.
  unfold utf8_four, is_cont, in_range.
  lia.
Qed.

(** [utf8_three] and [utf8_four] start past the shorter forms' first bytes. *)
Lemma utf8_ok_three a b c t :
  utf8_three a b c = true → utf8_ok t → utf8_ok (String a (String b (String c t))).
Proof.
  intros H Ht. pose proof H as Hb%utf8_three_spec. apply utf8_ok_3; [| |done..].
  - apply Nat.ltb_ge. lia.
  - apply not_true_iff_false. rewrite utf8_two_spec. lia.
Qed.

Lemma utf8_ok_four a b c d t :
  utf8_four a b c d = true → utf8_ok t → utf8_ok (String a (String b (String c (String d t)))).
Proof.
  intros H Ht. pose proof H as Hb%utf8_four_spec. apply utf8_ok_4; [| | |done..].
  - apply Nat.ltb_ge. lia.
  - apply not_true_iff_false. rewrite utf8_two_spec. lia.
  - apply not_true_iff_false. rewrite utf8_three_spec. lia.
Qed.

Lemma digit64 u :
  ∃ q r, (u / 64)%N = q ∧ (u mod 64)%N = r ∧ u = (64 * q + r)%N ∧ (r < 64)%N.
Proof.
  exists (u / 64)%N, (u mod 64)%N. split_and!; [done..|by apply N.div_mod|by apply N.mod_lt].
Qed.

Lemma utf8_piece_rune u : utf8_piece (utf8_encode u).
Proof.
  intros t Ht. unfold utf8_encode.
  change 4096%N with (64 * 64)%N. change 262144%N with (64 * 64 * 64)%N.
  rewrite <- !N.Div0.div_div.
  destruct (digit64 u) as (q1 & r1 & -> & -> & Hu & Hr1).
  destruct (digit64 q1) as (q2 & r2 & -> & -> & Hq1 & Hr2).
  destruct (digit64 q2) as (q3 & r3 & -> & -> & Hq2 & Hr3).
  destruct (N.ltb_spec u 0x80).
  { apply utf8_ok_1; [|done]. rewrite code_byteN by lia. apply Nat.ltb_lt. lia. }
  destruct (N.ltb_spec u 0x800).
  { apply utf8_ok_2; [rewrite code_byteN by lia; apply Nat.ltb_ge; lia| |done].
    apply utf8_two_spec. rewrite !code_byteN by lia. lia. }
  destruct (is_surrogate u) eqn:Hs; [by apply utf8_piece_replacement|].
  unfold is_surrogate in Hs. apply andb_false_iff in Hs. rewrite N.leb_gt, N.ltb_ge in Hs.
  destruct (N.ltb_spec u 0x10000).
  { apply utf8_ok_three; [|done]. apply utf8_three_spec. rewrite !code_byteN by lia. lia. }
  destruct (N.leb_spec u 0x10FFFF); [|by apply utf8_piece_replacement].
  apply utf8_ok_four; [|done]. apply utf8_four_spec. rewrite !code_byteN by lia. lia.
Qed.

(** ** Decoding strings

    One round of [dec_str]: the end of the string, or a well-formed piece and
    the rest of the text, which is shorter. *)

Definition dec_round (s : string) (x : string * string) : Prop :=
  (x.1 = "" ∧ String.length x.2 < String.length s) ∨
  ∃ p t s', utf8_piece p ∧ String.length s' < String.length s ∧
    dec_str s' = Some (t, x.2) ∧ x.1 = p +:+ t.

Lemma dec_round_prepend p s s' x :
  utf8_piece p → String.length s' < String.length s →
  prepend p (dec_str s') = Some x → dec_round s x.
Proof. intros Hp Hl (t & Ht & Hx)%prepend_inv. right. by exists p, t, s'. Qed.

Lemma simple_escape_ascii e n : simple_escape e = Some n → utf8_piece (byte_str n).
Proof.
  intros H. apply utf8_piece_ascii. revert H.
  by destruct e as [[] [] [] [] [] [] [] []]; first [discriminate 1 | intros [= <-]].
Qed.

#[local] Hint Resolve utf8_piece_rune utf8_piece_replacement simple_escape_ascii
  utf8_piece_ascii : proxy.

(** The rest after a piece is shorter, by inspection. *)
Ltac next_piece H := eapply dec_round_prepend; [|clear; simpl; lia|exact H].

(** After [\u]. *)
Lemma dec_str_unicode r s x :
  String.length r < String.length s →
  match r with
  | String h1 (String h2 (String h3 (String h4 r2))) =>
      match hex4 h1 h2 h3 h4 with
      | None => None
      | Some u =>
          if is_surrogate u then
            match r2 with
            | String b (String e2 (String g1 (String g2 (String g3 (String g4 r3))))) =>
                if (code b =? 92) && (code e2 =? 117) then
                  match g ← hex4 g1 g2 g3 g4; surrogate_pair u g with
                  | Some w => prepend (utf8_encode w) (dec_str r3)
                  | None => prepend replacement (dec_str r2)
                  end
                else prepend replacement (dec_str r2)
            | _ => prepend replacement (dec_str r2)
            end
          else prepend (utf8_encode u) (dec_str r2)
      end
  | _ => None
  end = Some x → dec_round s x.
Proof.
  intros Hl H. destruct r as [|h1 [|h2 [|h3 [|h4 r2]]]]; try done.
  destruct (hex4 h1 h2 h3 h4) as [u|]; [|done].
  assert (∀ p, utf8_piece p → prepend p (dec_str r2) = Some x → dec_round s x) as Hr2.
  { intros p Hp. apply dec_round_prepend; [done|simpl in Hl; lia]. }
  destruct (is_surrogate u); [|by apply (Hr2 (utf8_encode u)); [apply utf8_piece_rune|]].
  specialize (Hr2 replacement utf8_piece_replacement).
  destruct r2 as [|b [|e2 [|g1 [|g2 [|g3 [|g4 r3]]]]]]; try by apply Hr2.
  destruct (_ && _); [|by apply Hr2].
  destruct (g ← hex4 g1 g2 g3 g4; surrogate_pair u g) as [w|]; [|by apply Hr2].
  revert H. apply dec_round_prepend; [apply utf8_piece_rune|simpl in Hl; lia].
Qed.

(** From a byte that is not ASCII. *)
Lemma dec_str_multi a r x :
  (code a <? 128) = false →
  match r with
  | "" => None
  | String b r2 =>
      if utf8_two a b then prepend (String a (String b "")) (dec_str r2) else
      match r2 with
      | "" => prepend replacement (dec_str r)
      | String c r3 =>
          if utf8_three a b c
          then prepend (String a (String b (String c ""))) (dec_str r3) else
          match r3 with
          | "" => prepend replacement (dec_str r)
          | String d r4 =>
              if utf8_four a b c d
              then prepend (String a (String b (String c (String d "")))) (dec_str r4)
              else prepend replacement (dec_str r)
          end
      end
  end = Some x → dec_round (String a r) x.
Proof.
  intros Ha H.
  assert (prepend replacement (dec_str r) = Some x → dec_round (String a r) x) as Hbad.
  { apply dec_round_prepend; [apply utf8_piece_replacement|simpl; lia]. }
  destruct r as [|b r2]; [done|].
  destruct (utf8_two a b) eqn:H2.
  { revert H. apply dec_round_prepend; [|simpl; lia]. intros t Ht. by apply utf8_ok_2. }
  destruct r2 as [|c r3]; [by apply Hbad|].
  destruct (utf8_three a b c) eqn:H3.
  { revert H. apply dec_round_prepend; [|simpl; lia]. intros t Ht. by apply utf8_ok_3. }
  destruct r3 as [|d r4]; [by apply Hbad|].
  destruct (utf8_four a b c d) eqn:H4; [|by apply Hbad].
  revert H. apply dec_round_prepend; [|simpl; lia]. intros t Ht. by apply utf8_ok_4.
Qed.

Lemma dec_str_round s x : dec_str s = Some x → dec_round s x.
Proof.
  destruct s as [|a r]; [done|]. cbn [dec_str]. intros H.
  destruct (code a =? 34). { injection H as <-. left. simpl. split; [done|lia]. }
  destruct (code a =? 92).
  - destruct r as [|e r1]; [done|]. destruct (code e =? 117).
    + revert H. apply dec_str_unicode. simpl. lia.
    + destruct (simple_escape e) as [n|] eqn:He; [|done]. revert H.
      apply dec_round_prepend; [by eapply simple_escape_ascii|simpl; lia].
  - destruct (code a <? 32); [done|]. destruct (code a <? 128) eqn:Ha.
    + revert H. apply dec_round_prepend; [by apply utf8_piece_ascii|simpl; lia].
    + by apply dec_str_multi.
Qed.

(** The closing quote is consumed, and the decoded string is valid UTF-8. *)
Lemma dec_str_sound s t r :
  dec_str s = Some (t, r) → String.length r < String.length s ∧ utf8_ok t.
Proof.
  induction s as [s IH] using (induction_ltof1 _ String.length) in t, r |- *. unfold ltof in IH.
  intros H%dec_str_round. destruct H as [[Ht Hl]|(p & t' & s' & Hp & Hl & Hd & Ht)];
    cbn [fst snd] in *; subst t.
  - split; [done|constructor].
  - apply IH in Hd as [Hr Hok]; [|done]. split; [lia|by apply Hp].
Qed.

(** ** Literals *)

Lemma parse_literal_sound s v r :
  parse_literal s = Some (v, r) →
  String.length r < String.length s ∧ json_ok v = true ∧ json_depth v = 0%N.
Proof.
  assert (∀ p w, 0 < String.length p → json_ok w = true → json_depth w = 0%N →
            has_prefix p s = true → Some (w, drop_bytes (String.length p) s) = Some (v, r) →
            String.length r < String.length s ∧ json_ok v = true ∧ json_depth v = 0%N) as Hlit.
  { intros p w Hn Hok Hd (s' & ->)%has_prefix_spec. rewrite drop_bytes_app. intros [= <- <-].
    rewrite length_app_str. split_and!; [lia|done..]. }
  unfold parse_literal.
  destruct (has_prefix "null" s) eqn:H1; [by apply (Hlit "null" JNull); [simpl; lia|..]|].
  destruct (has_prefix "true" s) eqn:H2; [by apply (Hlit "true" (JBool true)); [simpl; lia|..]|].
  destruct (has_prefix "false" s) eqn:H3; [by apply (Hlit "false" (JBool false)); [simpl; lia|..]|].
  clear Hlit.
  destruct s as [|c s]; [done|]. cbn [span]. destruct (is_num_char c); [|done].
  pose proof (span_length is_num_char s) as Hl. destruct (span is_num_char s) as [p q].
  destruct (valid_number (String c p)) eqn:Hv; [|done]. intros [= <- <-]. simpl in *. lia.
Qed.

(** ** Values

    Whatever fuel a reading succeeds with, the bound below is enough for it, the
    text gets shorter and the result is well formed. *)

Definition deepest (l : list json) : N := foldr (λ v n, N.max (json_depth v) n) 0%N l.
Definition deepest_member (l : list (string * json)) : N :=
  foldr (λ kv n, N.max (json_depth kv.2) n) 0%N l.
Definition member_ok (kv : string * json) : bool := utf8_valid kv.1 && json_ok kv.2.

Definition value_at (f : nat) : Prop := ∀ d s v r,
  parse_value f d s = Some (v, r) →
  String.length r < String.length s ∧ json_ok v = true ∧ (json_depth v <= d)%N ∧
  ∀ f', 2 * String.length s + 1 ≤ f' → parse_value f' d s = Some (v, r).

Definition elems_at (f : nat) : Prop := ∀ d s l r,
  parse_elems f d s = Some (l, r) →
  String.length r < String.length s ∧ forallb json_ok l = true ∧ (deepest l <= d)%N ∧
  ∀ f', 2 * String.length s + 2 ≤ f' → parse_elems f' d s = Some (l, r).

Definition members_at (f : nat) : Prop := ∀ d s l r,
  parse_members f d s = Some (l, r) →
  String.length r < String.length s ∧ forallb member_ok l = true ∧ (deepest_member l <= d)%N ∧
  ∀ f', 2 * String.length s + 2 ≤ f' → parse_members f' d s = Some (l, r).

Section step.
Variable f : nat.
Hypothesis Hvalue : value_at f.
Hypothesis Helems : elems_at f.
Hypothesis Hmembers : members_at f.

Lemma elems_step : elems_at (S f).
Proof.
  intros d s l r. cbn [parse_elems].
  destruct (parse_value f d s) as [[v r1]|] eqn:Hv; [|done]. cbn [mbind option_bind].
  apply Hvalue in Hv as (Hl1 & Hok1 & Hd1 & Hf1).
  destruct (skip_ws r1) as [|c r2] eqn:Hs; [done|]. pose proof Hs as Hl2%skip_ws_cons.
  destruct (code c =? 93) eqn:Hc.
  { intros [= <- <-]. cbn [forallb deepest foldr]. split_and!; [lia|by rewrite Hok1|lia|].
    intros [|f'] Hf'; [lia|]. cbn [parse_elems]. rewrite Hf1 by lia. cbn. by rewrite Hs, Hc. }
  destruct (code c =? 44) eqn:Hc2; [|done].
  destruct (parse_elems f d r2) as [[l' r3]|] eqn:He; [|done]. cbn [mbind option_bind].
  apply Helems in He as (Hl3 & Hok3 & Hd3 & Hf3). intros [= <- <-].
  cbn [forallb]. split_and!; [lia|by rewrite Hok1|unfold deepest in *; cbn [foldr]; lia|].
  intros [|f'] Hf'; [lia|]. cbn [parse_elems]. rewrite Hf1 by lia. cbn. rewrite Hs, Hc, Hc2.
  by rewrite Hf3 by lia.
Qed.

Lemma members_step : members_at (S f).
Proof.
  intros d s l r. cbn [parse_members].
  destruct (skip_ws s) as [|q s1] eqn:Hq; [done|]. pose proof Hq as Hl1%skip_ws_cons.
  destruct (code q =? 34) eqn:Hq34; [|done].
  destruct (dec_str s1) as [[k s2]|] eqn:Hk; [|done]. cbn [mbind option_bind].
  pose proof Hk as [Hl2 Hok2%utf8_ok_valid]%dec_str_sound.
  destruct (skip_ws s2) as [|col s3] eqn:Hs2; [done|]. pose proof Hs2 as Hl3%skip_ws_cons.
  destruct (code col =? 58) eqn:Hcol; [|done].
  destruct (parse_value f d s3) as [[v r1]|] eqn:Hv; [|done]. cbn [mbind option_bind].
  apply Hvalue in Hv as (Hl4 & Hok4 & Hd4 & Hf4).
  destruct (skip_ws r1) as [|c r2] eqn:Hs; [done|]. pose proof Hs as Hl5%skip_ws_cons.
  assert (∀ f', 2 * String.length s + 2 ≤ S f' → parse_value f' d s3 = Some (v, r1)) as Hf4'
    by (intros; apply Hf4; lia).
  destruct (code c =? 125) eqn:Hc.
  { intros [= <- <-]. split_and!; [lia| | |].
    - cbn [forallb]. unfold member_ok. cbn [fst snd]. by rewrite Hok2, Hok4.
    - unfold deepest_member. cbn. lia.
    - intros [|f'] Hf'; [lia|]. cbn [parse_members]. rewrite Hq, Hq34, Hk. cbn.
      rewrite Hs2, Hcol, Hf4' by lia. cbn. by rewrite Hs, Hc. }
  destruct (code c =? 44) eqn:Hc2; [|done].
  destruct (parse_members f d r2) as [[l' r3]|] eqn:He; [|done]. cbn [mbind option_bind].
  apply Hmembers in He as (Hl6 & Hok6 & Hd6 & Hf6). intros [= <- <-].
  split_and!; [lia| | |].
  - cbn [forallb]. rewrite Hok6. unfold member_ok. cbn [fst snd]. by rewrite Hok2, Hok4.
  - unfold deepest_member in *. cbn [foldr snd]. lia.
  - intros [|f'] Hf'; [lia|]. cbn [parse_members]. rewrite Hq, Hq34, Hk. cbn.
    rewrite Hs2, Hcol, Hf4' by lia. cbn. rewrite Hs, Hc, Hc2. by rewrite Hf6 by lia.
Qed.

Lemma value_step : value_at (S f).
Proof.
  intros d s v r. cbn [parse_value].
  destruct (skip_ws s) as [|c s1] eqn:Hs; [done|]. pose proof Hs as Hl1%skip_ws_cons.
  pose proof (skip_ws_length s) as Hl0. rewrite Hs in Hl0.
  destruct (code c =? 34) eqn:Hc34.
  { destruct (dec_str s1) as [[t r1]|] eqn:Ht; [|done]. intros [= <- <-].
    pose proof Ht as [Hl2 Hok%utf8_ok_valid]%dec_str_sound. split_and!; [lia|done|simpl; lia|].
    intros [|f'] Hf'; [lia|]. cbn [parse_value]. by rewrite Hs, Hc34, Ht. }
  destruct (code c =? 91) eqn:Hc91.
  { destruct (d =? 0)%N eqn:Hd; [done|]. destruct (skip_ws s1) as [|c' s2] eqn:Hs1; [done|].
    pose proof Hs1 as Hl2%skip_ws_cons. destruct (code c' =? 93) eqn:Hc'.
    { intros [= <- <-]. split_and!; [lia|done|simpl; lia|]. intros [|f'] Hf'; [lia|].
      cbn [parse_value]. by rewrite Hs, Hc34, Hc91, Hd, Hs1, Hc'. }
    destruct (parse_elems f (N.pred d) s1) as [[l r1]|] eqn:He; [|done]. intros [= <- <-].
    apply Helems in He as (Hl3 & Hok & Hdl & Hf). unfold deepest in Hdl.
    split_and!; [lia|done|cbn [json_depth]; lia|]. intros [|f'] Hf'; [lia|].
    cbn [parse_value]. by rewrite Hs, Hc34, Hc91, Hd, Hs1, Hc', Hf by lia. }
  destruct (code c =? 123) eqn:Hc123.
  { destruct (d =? 0)%N eqn:Hd; [done|]. destruct (skip_ws s1) as [|c' s2] eqn:Hs1; [done|].
    pose proof Hs1 as Hl2%skip_ws_cons. destruct (code c' =? 125) eqn:Hc'.
    { intros [= <- <-]. split_and!; [lia|done|simpl; lia|]. intros [|f'] Hf'; [lia|].
      cbn [parse_value]. by rewrite Hs, Hc34, Hc91, Hc123, Hd, Hs1, Hc'. }
    destruct (parse_members f (N.pred d) s1) as [[l r1]|] eqn:He; [|done]. intros [= <- <-].
    apply Hmembers in He as (Hl3 & Hok & Hdl & Hf). unfold deepest_member in Hdl.
    split_and!; [lia|done|cbn [json_depth]; lia|]. intros [|f'] Hf'; [lia|].
    cbn [parse_value]. by rewrite Hs, Hc34, Hc91, Hc123, Hd, Hs1, Hc', Hf by lia. }
  intros Hp. pose proof Hp as (Hl2 & Hok & Hd)%parse_literal_sound.
  split_and!; [lia|done|lia|]. intros [|f'] Hf'; [lia|].
  cbn [parse_value]. by rewrite Hs, Hc34, Hc91, Hc123.
Qed.
End step.

Lemma parse_at f : value_at f ∧ elems_at f ∧ members_at f.
Proof.
  induction f as [|f (Hv & He & Hm)]; [split_and!; by intros ?|].
  split_and!; [by apply value_step|by apply elems_step|by apply members_step].
Qed.

(** ** The parser *)

(** More fuel than [parse_fuel] changes nothing: [parse] never runs out. *)
Lemma parse_value_fuel f d s :
  parse_fuel s ≤ f → parse_value f d s = parse_value (parse_fuel s) d s.
Proof.
  unfold parse_fuel. intros Hf.
  destruct (parse_value (2 * String.length s + 1) d s) as [[v r]|] eqn:He.
  - by apply (parse_at _) in He as (_ & _ & _ & ->); [|lia].
  - destruct (parse_value f d s) as [[v r]|] eqn:Hv; [|done].
    apply (parse_at _) in Hv as (_ & _ & _ & Hv). rewrite Hv in He by lia. done.
Qed.

Lemma parse_sound s v : parse s = Some v → json_ok v = true ∧ (json_depth v <= max_depth)%N.
Proof.
  unfold parse. destruct (parse_value (parse_fuel s) max_depth s) as [[w r]|] eqn:Hv; [|done].
  case_match; [|done]. intros [= ->]. by apply (parse_at _) in Hv as (_ & ? & ? & _).
Qed.

(** Reading, writing and reading again is reading once. *)
Lemma parse_print_parse s v : parse s = Some v → parse (print v) = Some v.
Proof. intros [Hok Hd]%parse_sound. by apply parse_print. Qed.
