(* ===== verification/Decode.v ===== *)
(** * Decoding JSON into the Go types the proxy declares

    What [json.Unmarshal] leaves in a [map[string]json.RawMessage], a [string],
    a [[]string] or a struct field, and what [json.Marshal] makes of a map. *)

From Stdlib Require Import Ascii.
From stdpp Require Import base numbers option pretty gmap fin_maps sorting strings list.
From S2P Require Import Prelude GoStrings Json.

#[local] Open Scope nat_scope.

Inductive decode_error : Type :=
| BadSyntax          (* json.SyntaxError: not one JSON value *)
| TypeMismatch.      (* json.UnmarshalTypeError *)

#[export] Instance decode_error_eq_dec : EqDecision decode_error.
Proof. solve_decision. Defined.

(** ** Maps *)

(** Members are stored one after the other: the last of a duplicated key wins. *)
Definition obj_map (l : list (string * json)) : gmap string json :=
  foldl (λ m kv, <[kv.1 := kv.2]> m) ∅ l.

(** Into a nil [map[string]json.RawMessage]: [None] is the nil map. *)
Definition unmarshal_map (v : json) : result decode_error (option (gmap string json)) :=
  match v with
  | JObj l => Ok (Some (obj_map l))
  | JNull => Ok None
  | _ => Err TypeMismatch
  end.

(** Looking up or ranging over a nil map is looking up or ranging over nothing. *)
Definition nil_map (o : option (gmap string json)) : gmap string json := default ∅ o.

Lemma nil_map_Some m : nil_map (Some m) = m.
Proof. done. Qed.

(** [json.Marshal] of a non-nil map: members sorted by key. *)
Definition marshal_map (m : gmap string json) : json :=
  JObj (sort_on fst (map_to_list m)).

Lemma obj_map_snoc l k v : obj_map (l ++ [(k, v)]) = <[k := v]> (obj_map l).
Proof. unfold obj_map. by rewrite foldl_app. Qed.

Lemma obj_map_list_to_map l : NoDup l.*1 → obj_map l = list_to_map l.
Proof.
  induction l as [|[k v] l IH] using rev_ind; [done|].
  rewrite obj_map_snoc, fmap_app. intros Hnd.
  apply NoDup_app in Hnd as (Hnd & Hk & _).
  rewrite list_to_map_app, IH by done. simpl.
  rewrite insert_union_singleton_l. apply map_union_comm.
  rewrite insert_empty. apply map_disjoint_singleton_l, not_elem_of_list_to_map_1.
  intros Hin. eapply Hk; [exact Hin|]. simpl. by left.
Qed.

Lemma marshal_map_entries_NoDup (m : gmap string json) :
  NoDup (sort_on fst (map_to_list m)).*1.
Proof. apply NoDup_sort_on, NoDup_fst_map_to_list. Qed.

Lemma obj_map_marshal (m : gmap string json) :
  obj_map (sort_on fst (map_to_list m)) = m.
Proof.
  rewrite obj_map_list_to_map by apply marshal_map_entries_NoDup.
  rewrite <- (list_to_map_to_list m) at 2.
  apply list_to_map_proper; [apply marshal_map_entries_NoDup|].
  apply sort_on_perm.
Qed.

(** Encode, decode: the same map. *)
Lemma unmarshal_marshal_map m : unmarshal_map (marshal_map m) = Ok (Some m).
Proof. unfold marshal_map; simpl. by rewrite obj_map_marshal. Qed.

Lemma marshal_map_inj m1 m2 : marshal_map m1 = marshal_map m2 → m1 = m2.
Proof.
  intros H. pose proof (unmarshal_marshal_map m1) as H1.
  rewrite H, unmarshal_marshal_map in H1. by injection H1.
Qed.

(** ** Strings and slices *)

(** Into a Go string holding [cur]: [null] leaves it alone. *)
Definition unmarshal_string (cur : string) (v : json) : result decode_error string :=
  match v with
  | JStr s => Ok s
  | JNull => Ok cur
  | _ => Err TypeMismatch
  end.

(** Into a nil [[]string], with what is left behind when an element is not a
    string: the decoder reports the first mismatch but fills the slice. *)
Definition unmarshal_strings (v : json) : list string * option decode_error :=
  match v with
  | JArr l =>
      (ok_or "" ∘ unmarshal_string "" <$> l,
       if forallb (is_ok ∘ unmarshal_string "") l then None else Some TypeMismatch)
  | JNull => ([], None)
  | _ => ([], Some TypeMismatch)
  end.

Definition marshal_strings (l : list string) : json := JArr (JStr <$> l).

Lemma unmarshal_marshal_strings l : unmarshal_strings (marshal_strings l) = (l, None).
Proof.
  unfold marshal_strings; simpl. f_equal.
  - rewrite <- list_fmap_compose. exact (list_fmap_id l).
  - assert (forallb (is_ok ∘ unmarshal_string "") (JStr <$> l) = true) as Hok; [|by rewrite Hok].
    induction l as [|s l IH]; [done|]. by rewrite fmap_cons.
Qed.

(** Go [int]s encode as decimal literals. *)
Definition marshal_int (z : Z) : json := JNum (pretty z).

(** ** Structs

    A member sets a field when its key folds to the field's name; the fields of
    the structs below fold to different names. [foldName] upper-cases, and maps
    U+017F and U+212A, the two other runes with an ASCII fold, to S and K. *)
Fixpoint fold_name (s : string) : string :=
  match s with
  | "" => ""
  | String a r =>
      match r with
      | String b r2 =>
          if (code a =? 197) && (code b =? 191) then String "S" (fold_name r2)
          else match r2 with
               | String c r3 =>
                   if (code a =? 226) && (code b =? 132) && (code c =? 170)
                   then String "K" (fold_name r3)
                   else String (upper a) (fold_name r)
               | "" => String (upper a) (fold_name r)
               end
      | "" => String (upper a) ""
      end
  end.

Definition names_field (field key : string) : bool :=
  String.eqb (fold_name key) (fold_name field).

(** A [json.RawMessage] field: [None] is the empty message of an absent member;
    a [null] member is stored like any other value. *)
Definition raw_field (field : string) (l : list (string * json)) : option json :=
  foldl (λ acc kv, if names_field field kv.1 then Some kv.2 else acc) None l.

(** A [string] field. *)
Definition string_field (field : string) (l : list (string * json))
  : result decode_error string :=
  foldl (λ acc kv, cur ← acc;
           if names_field field kv.1 then unmarshal_string cur kv.2 else Ok cur) (Ok "") l.

(** The members a struct is decoded from; [null] sets nothing. *)
Definition struct_members (v : json) : result decode_error (list (string * json)) :=
  match v with
  | JObj l => Ok l
  | JNull => Ok []
  | _ => Err TypeMismatch
  end.

(** An optional struct member, for [omitempty]. *)
Definition omit_empty (k : string) (o : option json) : list (string * json) :=
  match o with Some v => [(k, v)] | None => [] end.

Definition parse_text (s : string) : result decode_error json :=
  match parse s with Some v => Ok v | None => Err BadSyntax end.

#[export] Hint Resolve marshal_map_entries_NoDup : proxy.
