(* ===== verification/Config.v ===== *)
(** * internal/config: the configuration tree, its defaults, [${VAR}] expansion
    and validation

    The records are the Go structs; [applyDefaults], [expandRefs], [expandEnv],
    [Validate] and [Load] are the functions of config.go. Errors are
    constructors carrying what the Go message interpolates. *)

From Stdlib Require Import Ascii.
From stdpp Require Import base numbers option pretty gmap fin_maps sorting strings list.
From S2P Require Import Prelude GoStrings Json.

#[local] Open Scope nat_scope.

(** ** Data *)

Definition AuthMode := string.
Definition AuthModeJWKS : AuthMode := "jwks".
Definition AuthModeStatic : AuthMode := "static".
Definition AuthModeInsecure : AuthMode := "insecure".

Definition ProtocolVersionStateful : string := "2025-03-26".
Definition ProtocolVersionStateless : string := "2026-07-28".

Record ServerConfig := mkServerConfig {
  sc_Listen : string;
  sc_Path : string;
  sc_ExternalURL : string }.

Record ObservabilityConfig := mkObservabilityConfig {
  oc_MetricsListen : string;
  oc_MetricsPath : string }.

Record AuthConfig := mkAuthConfig {
  ac_Mode : AuthMode;
  ac_GroupsClaim : string;
  ac_Issuer : string;
  ac_Audience : string;
  ac_AdditionalAudiences : list string;
  ac_ScopesSupported : list string;
  ac_JWKSURL : string;
  ac_HMACSecret : string;
  ac_PublicKeyPEMFile : string }.

Record TenantConfig := mkTenantConfig {
  tc_ID : string;
  tc_Groups : list string;
  tc_Credential : string;
  tc_Headers : gmap string string }.

(** [CredentialScheme] is a pointer in Go: [None] is unset. *)
Record BackendConfig := mkBackendConfig {
  bc_Name : string;
  bc_URL : string;
  bc_Headers : gmap string string;
  bc_Credential : string;
  bc_CredentialHeader : string;
  bc_CredentialScheme : option string;
  bc_ProtocolVersion : string;
  bc_Tenants : list TenantConfig }.

Record Config := mkConfig {
  c_Server : ServerConfig;
  c_Auth : AuthConfig;
  c_Backends : list BackendConfig;
  c_Observability : ObservabilityConfig }.

(** ** Defaults *)

Definition or_default (d s : string) : string := if String.eqb s "" then d else s.

Definition backend_defaults (b : BackendConfig) : BackendConfig :=
  mkBackendConfig (bc_Name b) (bc_URL b) (bc_Headers b) (bc_Credential b)
    (or_default "Authorization" (bc_CredentialHeader b))
    (Some (default "Bearer" (bc_CredentialScheme b)))
    (or_default ProtocolVersionStateful (bc_ProtocolVersion b))
    (bc_Tenants b).

Definition applyDefaults (c : Config) : Config :=
  let s := c_Server c in
  let a := c_Auth c in
  let o := c_Observability c in
  mkConfig
    (mkServerConfig (or_default ":8080" (sc_Listen s)) (or_default "/mcp" (sc_Path s))
       (sc_ExternalURL s))
    (mkAuthConfig (ac_Mode a) (or_default "groups" (ac_GroupsClaim a)) (ac_Issuer a)
       (ac_Audience a) (ac_AdditionalAudiences a) (ac_ScopesSupported a) (ac_JWKSURL a)
       (ac_HMACSecret a) (ac_PublicKeyPEMFile a))
    (backend_defaults <$> c_Backends c)
    (mkObservabilityConfig (or_default ":9090" (oc_MetricsListen o))
       (or_default "/metrics" (oc_MetricsPath o))).

(** ** [${VAR}] references

    [envRef] is the regular expression [\$\{([A-Za-z_][A-Za-z0-9_]* )\}]. A
    closing brace cannot be part of a name, so a match is a maximal run of name
    bytes between ["${"] and ["}"]. *)

Definition is_name_start (c : ascii) : bool :=
  in_range 65 90 c || in_range 97 122 c || (code c =? 95).
Definition is_name_char (c : ascii) : bool := is_name_start c || in_range 48 57 c.

(** A match at the start of a string: the name and what follows. *)
Definition match_ref (s : string) : option (string * string) :=
  if has_prefix "${" s then
    let '(name, r) := span is_name_char (drop_bytes 2 s) in
    match name, r with
    | String c _, String d r' =>
        if is_name_start c && (code d =? 125) then Some (name, r') else None
    | _, _ => None
    end
  else None.

Inductive chunk := Lit (c : ascii) | Ref (name : string).

(** The leftmost, non-overlapping matches and the bytes between them. *)
Fixpoint chunks_fuel (fuel : nat) (s : string) : list chunk :=
  match fuel, s with
  | S fuel, String c r =>
      match match_ref s with
      | Some (name, rest) => Ref name :: chunks_fuel fuel rest
      | None => Lit c :: chunks_fuel fuel r
      end
  | _, _ => []
  end.

Definition chunks (s : string) : list chunk := chunks_fuel (String.length s) s.

Definition chunk_text (k : chunk) : string :=
  match k with Lit c => String c "" | Ref name => "${" +:+ name +:+ "}" end.

Section env.
(** The process environment, [os.LookupEnv]. *)
Variable LookupEnv : string → option string.

(** [ReplaceAllStringFunc] with the closure of [expandRefs]: the accumulated
    output and the [missing] variable the closure assigns. *)
Definition expand_step (acc : string * string) (k : chunk) : string * string :=
  match k with
  | Lit c => (acc.1 +:+ String c "", acc.2)
  | Ref name =>
      match LookupEnv name with
      | Some v => (acc.1 +:+ v, acc.2)
      | None => (acc.1, name)
      end
  end.

(** The error is the name of the unset variable. *)
Definition expandRefs (s : string) : result string string :=
  if negb (contains_sub s "${") then Ok s
  else
    let '(out, missing) := foldl expand_step ("", "") (chunks s) in
    if String.eqb missing "" then Ok out else Err missing.

Inductive expand_place :=
| InCredential
| InHeader (k : string)
| InTenantCredential (id : string)
| InTenantHeader (id k : string).

(** A variable is not set: in which backend, where, which variable. *)
Record expand_error := mkExpandError {
  ee_backend : string; ee_place : expand_place; ee_var : string }.

Definition at_place {A} (b : string) (p : expand_place) (r : result string A)
  : result expand_error A :=
  match r with Ok v => Ok v | Err name => Err (mkExpandError b p name) end.

(** [for k, v := range headers { ... headers[k] = expanded }]. Which of
    several unset variables is reported depends on Go's map order. *)
Definition expand_headers (b : string) (place : string → expand_place)
  (h : gmap string string) : result expand_error (gmap string string) :=
  l ← result_mapM (λ kv, v ← at_place b (place kv.1) (expandRefs kv.2); Ok (kv.1, v))
        (map_to_list h);
  Ok (list_to_map l).

Definition expand_tenant (b : string) (t : TenantConfig) : result expand_error TenantConfig :=
  cred ← at_place b (InTenantCredential (tc_ID t)) (expandRefs (tc_Credential t));
  hs ← expand_headers b (InTenantHeader (tc_ID t)) (tc_Headers t);
  Ok (mkTenantConfig (tc_ID t) (tc_Groups t) cred hs).

Definition expand_backend (b : BackendConfig) : result expand_error BackendConfig :=
  cred ← at_place (bc_Name b) InCredential (expandRefs (bc_Credential b));
  hs ← expand_headers (bc_Name b) InHeader (bc_Headers b);
  ts ← result_mapM (expand_tenant (bc_Name b)) (bc_Tenants b);
  Ok (mkBackendConfig (bc_Name b) (bc_URL b) hs cred (bc_CredentialHeader b)
        (bc_CredentialScheme b) (bc_ProtocolVersion b) ts).

Definition expandEnv (c : Config) : result expand_error Config :=
  bs ← result_mapM expand_backend (c_Backends c);
  Ok (mkConfig (c_Server c) (c_Auth c) bs (c_Observability c)).
End env.

(** ** Validation *)

Inductive validate_error :=
| JWKSNeedsURLOrIssuer
| StaticNeedsOneKey
| BadAuthMode (mode : string)
| NoBackends
| BackendNameRequired (i : nat)
| DuplicateBackend (name : string)
| URLRequired (name : string)
| BadProtocolVersion (name version : string)
| TenantRequired (name : string)
| TenantIDRequired (name : string) (ti : nat)
| TenantDeclaredTwice (id owner name : string)
| GroupRequired (name id : string).

Definition nonempty (s : string) : bool := negb (String.eqb s "").

Definition validate_auth (a : AuthConfig) : result validate_error () :=
  if String.eqb (ac_Mode a) AuthModeJWKS then
    if String.eqb (ac_JWKSURL a) "" && String.eqb (ac_Issuer a) ""
    then Err JWKSNeedsURLOrIssuer else Ok ()
  else if String.eqb (ac_Mode a) AuthModeStatic then
    if Bool.eqb (String.eqb (ac_HMACSecret a) "") (String.eqb (ac_PublicKeyPEMFile a) "")
    then Err StaticNeedsOneKey else Ok ()
  else if String.eqb (ac_Mode a) AuthModeInsecure then Ok ()
  else Err (BadAuthMode (ac_Mode a)).

(** The inner loop, over one backend's tenants; [owner] maps the tenant ids
    seen so far to the backends declaring them. *)
Fixpoint validate_tenants (name : string) (ti : nat) (owner : gmap string string)
  (ts : list TenantConfig) : result validate_error (gmap string string) :=
  match ts with
  | [] => Ok owner
  | t :: ts =>
      if String.eqb (tc_ID t) "" then Err (TenantIDRequired name ti) else
      match owner !! tc_ID t with
      | Some o => Err (TenantDeclaredTwice (tc_ID t) o name)
      | None =>
          match tc_Groups t with
          | [] => Err (GroupRequired name (tc_ID t))
          | _ => validate_tenants name (S ti) (<[tc_ID t := name]> owner) ts
          end
      end
  end.

Definition known_protocol (v : string) : bool :=
  String.eqb v ProtocolVersionStateful || String.eqb v ProtocolVersionStateless.

Fixpoint validate_backends (i : nat) (names : gset string) (owner : gmap string string)
  (bs : list BackendConfig) : result validate_error () :=
  match bs with
  | [] => Ok ()
  | b :: bs =>
      if String.eqb (bc_Name b) "" then Err (BackendNameRequired i) else
      if decide (bc_Name b ∈ names) then Err (DuplicateBackend (bc_Name b)) else
      if String.eqb (bc_URL b) "" then Err (URLRequired (bc_Name b)) else
      if negb (known_protocol (bc_ProtocolVersion b))
      then Err (BadProtocolVersion (bc_Name b) (bc_ProtocolVersion b)) else
      match bc_Tenants b with
      | [] => Err (TenantRequired (bc_Name b))
      | ts =>
          owner' ← validate_tenants (bc_Name b) 0 owner ts;
          validate_backends (S i) ({[bc_Name b]} ∪ names) owner' bs
      end
  end.

Definition Validate (c : Config) : result validate_error () :=
  _ ← validate_auth (c_Auth c);
  match c_Backends c with
  | [] => Err NoBackends
  | bs => validate_backends 0 ∅ ∅ bs
  end.

(** ** Loading *)

Inductive load_error :=
| ReadError
| ParseError
| ExpandError (e : expand_error)
| InvalidConfig (e : validate_error).

Section load.
Variable LookupEnv : string → option string.
(** [os.ReadFile] and yaml.v3's [yaml.Unmarshal]. *)
Variable ReadFile : string → option string.
Variable yaml_Unmarshal : string → option Config.

Definition Load (path : string) : result load_error Config :=
  match ReadFile path with
  | None => Err ReadError
  | Some raw =>
      match yaml_Unmarshal raw with
      | None => Err ParseError
      | Some c =>
          match expandEnv LookupEnv (applyDefaults c) with
          | Err e => Err (ExpandError e)
          | Ok c =>
              match Validate c with
              | Err e => Err (InvalidConfig e)
              | Ok _ => Ok c
              end
          end
      end
  end.
End load.

(** ** Properties of [${VAR}] expansion *)

#[local] Set Warnings "-clear-no-such-hyp".

(** The variables a string refers to, and its value under an environment. *)
Definition chunk_refs (cs : list chunk) : list string :=
  omap (λ k, match k with Ref n => Some n | Lit _ => None end) cs.

Definition chunk_value (env : string → option string) (k : chunk) : string :=
  match k with Lit c => String c "" | Ref n => default "" (env n) end.

Lemma span_app f s p q : span f s = (p, q) → s = p +:+ q.
Proof.
  revert p q. induction s as [|c s IH]; intros p q; simpl.
  - by intros [= <- <-].
  - destruct (f c); [|by intros [= <- <-]].
    destruct (span f s) as [p' q']. intros [= <- <-].
    rewrite app_cons_str. f_equal. by apply IH.
Qed.

Lemma match_ref_text s name rest :
  match_ref s = Some (name, rest) → s = chunk_text (Ref name) +:+ rest ∧ name ≠ "".
Proof.
  unfold match_ref. destruct (has_prefix "${" s) eqn:Hp; [|done].
  apply has_prefix_spec in Hp as [t ->].
  change (drop_bytes 2 ("${" +:+ t)) with t.
  destruct (span is_name_char t) as [n r] eqn:Hs. apply span_app in Hs as ->.
  destruct n as [|c n]; [done|]. destruct r as [|d r]; [done|].
  destruct (is_name_start c && (code d =? 125)) eqn:E; [|done].
  apply andb_true_iff in E as [_ E]. apply code_inj_lit in E as ->; [|lia].
  intros [= <- <-]. split; [|done]. unfold chunk_text.
  rewrite !app_assoc_str. done.
Qed.

Lemma chunks_fuel_text fuel s :
  String.length s ≤ fuel → concat_str (chunk_text <$> chunks_fuel fuel s) = s.
Proof.
  revert s. induction fuel as [|fuel IH]; intros s Hs.
  - destruct s; simpl in *; [done|lia].
  - destruct s as [|c r]; [done|]. cbn [chunks_fuel].
    destruct (match_ref (String c r)) as [[name rest]|] eqn:Hm.
    + apply match_ref_text in Hm as [Ht _]. rewrite fmap_cons. 
      change (concat_str (?x :: ?l)) with (x +:+ concat_str l).
      rewrite IH; [done|]. apply (f_equal String.length) in Ht.
      rewrite length_app_str in Ht. simpl in Ht, Hs. lia.
    + rewrite fmap_cons. change (concat_str (?x :: ?l)) with (x +:+ concat_str l).
      rewrite IH; [done|]. simpl in Hs. lia.
Qed.

(** The chunks are the string, cut up. *)
Lemma chunks_text s : concat_str (chunk_text <$> chunks s) = s.
Proof. by apply chunks_fuel_text. Qed.

Lemma contains_sub_prefix s sub : has_prefix sub s = true → contains_sub s sub = true.
Proof. intros H. destruct s; simpl; by rewrite H. Qed.

Lemma chunks_fuel_no_refs fuel s :
  contains_sub s "${" = false → chunk_refs (chunks_fuel fuel s) = [].
Proof.
  revert s. induction fuel as [|fuel IH]; intros s Hs; [done|].
  destruct s as [|c r]; [done|]. cbn [chunks_fuel].
  destruct (match_ref (String c r)) as [[name rest]|] eqn:Hm.
  - unfold match_ref in Hm. destruct (has_prefix "${" (String c r)) eqn:Hp; [|done].
    apply contains_sub_prefix in Hp. congruence.
  - apply (IH r). cbn [contains_sub] in Hs. by apply orb_false_iff in Hs as [_ ?].
Qed.

Section expand.
Variable env : string → option string.

Lemma expand_fold cs o m :
  foldl (expand_step env) (o, m) cs =
  (o +:+ concat_str (chunk_value env <$> cs),
   default m (last (filter (λ n, env n = None) (chunk_refs cs)))).
Proof.
  revert o m. induction cs as [|k cs IH]; intros o m.
  - simpl. by rewrite app_nil_r_str.
  - cbn [foldl]. destruct k as [c|n]; simpl expand_step.
    + rewrite IH, fmap_cons. change (concat_str (?x :: ?l)) with (x +:+ concat_str l).
      by rewrite app_assoc_str.
    + rewrite fmap_cons. change (concat_str (?x :: ?l)) with (x +:+ concat_str l).
      change (chunk_refs (Ref n :: cs)) with (n :: chunk_refs cs). rewrite filter_cons.
      destruct (env n) as [v|] eqn:Hn; simpl chunk_value; rewrite Hn; simpl; rewrite IH.
      * by rewrite app_assoc_str.
      * f_equal. rewrite last_cons. by destruct (last _).
Qed.

Lemma chunk_refs_nonempty fuel s : "" ∉ chunk_refs (chunks_fuel fuel s).
Proof.
  revert s. induction fuel as [|fuel IH]; intros s; [apply not_elem_of_nil|].
  destruct s as [|c r]; [apply not_elem_of_nil|]. cbn [chunks_fuel].
  destruct (match_ref (String c r)) as [[name rest]|] eqn:Hm; [|apply IH].
  apply match_ref_text in Hm as [_ Hn].
  change (chunk_refs (Ref name :: ?l)) with (name :: chunk_refs l).
  apply not_elem_of_cons. split; [congruence|apply IH].
Qed.

Lemma chunk_value_lits cs :
  chunk_refs cs = [] → concat_str (chunk_value env <$> cs) = concat_str (chunk_text <$> cs).
Proof.
  induction cs as [|[c|n] cs IH]; [done| |done]. intros H.
  rewrite !fmap_cons. change (concat_str (?x :: ?l)) with (x +:+ concat_str l).
  f_equal. by apply IH.
Qed.

(** Expansion in one equation: the value when every variable is set, else
    the last unset one. *)
Lemma expandRefs_eq s :
  expandRefs env s =
  match last (filter (λ n, env n = None) (chunk_refs (chunks s))) with
  | None => Ok (concat_str (chunk_value env <$> chunks s))
  | Some n => Err n
  end.
Proof.
  unfold expandRefs. destruct (contains_sub s "${") eqn:Hc; simpl negb; cbv iota.
  - rewrite expand_fold. change ("" +:+ ?x) with x. 
    destruct (last _) as [n|] eqn:Hl; simpl; [|done].
    destruct (String.eqb_spec n "") as [->|]; [|done].
    apply last_Some_elem_of in Hl. apply list_elem_of_filter in Hl as [_ Hl].
    by apply chunk_refs_nonempty in Hl.
  - pose proof (chunks_fuel_no_refs (String.length s) s Hc) as Hr. fold (chunks s) in Hr.
    rewrite Hr. simpl. by rewrite chunk_value_lits, chunks_text.
Qed.
End expand.

(** ** Validation against a declarative reading *)

Definition wf_auth (a : AuthConfig) : Prop :=
  (ac_Mode a = AuthModeJWKS ∧ (ac_JWKSURL a ≠ "" ∨ ac_Issuer a ≠ "")) ∨
  (ac_Mode a = AuthModeStatic ∧ (ac_HMACSecret a = "" ↔ ac_PublicKeyPEMFile a ≠ "")) ∨
  ac_Mode a = AuthModeInsecure.

Definition wf_tenant (t : TenantConfig) : Prop := tc_ID t ≠ "" ∧ tc_Groups t ≠ [].

Definition wf_backend (b : BackendConfig) : Prop :=
  bc_Name b ≠ "" ∧ bc_URL b ≠ "" ∧
  (bc_ProtocolVersion b = ProtocolVersionStateful ∨
   bc_ProtocolVersion b = ProtocolVersionStateless) ∧
  bc_Tenants b ≠ [] ∧ Forall wf_tenant (bc_Tenants b).

Definition tenant_ids (bs : list BackendConfig) : list string :=
  bs ≫= λ b, tc_ID <$> bc_Tenants b.

(** Usable: auth keys fit the mode, there is a backend, names and tenant ids
    are unique over the whole file. *)
Definition wf_config (c : Config) : Prop :=
  wf_auth (c_Auth c) ∧ c_Backends c ≠ [] ∧ Forall wf_backend (c_Backends c) ∧
  NoDup (bc_Name <$> c_Backends c) ∧ NoDup (tenant_ids (c_Backends c)).

Lemma validate_auth_spec a :
  match validate_auth a with Ok _ => wf_auth a | Err _ => ¬ wf_auth a end.
Proof.
  unfold validate_auth, wf_auth.
  repeat match goal with |- context [String.eqb ?s ?t] =>
    destruct (String.eqb_spec s t) as [?|?] end; simpl;
  unfold AuthModeJWKS, AuthModeStatic, AuthModeInsecure in *; intuition congruence.
Qed.

Lemma known_protocol_spec v :
  known_protocol v = true ↔ v = ProtocolVersionStateful ∨ v = ProtocolVersionStateless.
Proof. unfold known_protocol. by rewrite orb_true_iff, !String.eqb_eq. Qed.

Lemma validate_tenants_spec name ti owner ts :
  match validate_tenants name ti owner ts with
  | Ok owner' =>
      Forall wf_tenant ts ∧ NoDup (tc_ID <$> ts) ∧
      (∀ id, id ∈ tc_ID <$> ts → owner !! id = None) ∧
      (∀ id, is_Some (owner' !! id) ↔ is_Some (owner !! id) ∨ id ∈ tc_ID <$> ts)
  | Err _ =>
      ¬ (Forall wf_tenant ts ∧ NoDup (tc_ID <$> ts) ∧
         (∀ id, id ∈ tc_ID <$> ts → owner !! id = None))
  end.
Proof.
  revert ti owner. induction ts as [|t ts IH]; intros ti owner; cbn [validate_tenants].
  { split_and!; [constructor|constructor|by intros id ?%not_elem_of_nil|].
    intros id. simpl. rewrite elem_of_nil. tauto. }
  destruct (String.eqb_spec (tc_ID t) "") as [Hid|Hid].
  { intros [[? _]%Forall_cons_1 _]. by unfold wf_tenant in *; intuition. }
  destruct (owner !! tc_ID t) as [o|] eqn:Ho.
  { intros (_ & _ & Hfree). rewrite (Hfree (tc_ID t)) in Ho; [done|left]. }
  destruct (tc_Groups t) as [|g gs] eqn:Hg.
  { intros [[[_ ?] _]%Forall_cons_1 _]. done. }
  specialize (IH (S ti) (<[tc_ID t := name]> owner)).
  destruct (validate_tenants _ _ _ ts) as [owner'|e].
  - destruct IH as (Hwf & Hnd & Hfree & Hdom).
    assert (tc_ID t ∉ tc_ID <$> ts) as Hnew.
    { intros Hin%Hfree. by rewrite lookup_insert_eq in Hin. }
    rewrite fmap_cons. split_and!.
    + constructor; [|done]. split; [done|]. by rewrite Hg.
    + by constructor.
    + intros id [->|Hin]%elem_of_cons; [done|].
      pose proof (Hfree id Hin) as Hf. rewrite lookup_insert_ne in Hf; [done|congruence].
    + intros id. rewrite Hdom, elem_of_cons, lookup_insert_is_Some.
      destruct (decide (tc_ID t = id)); naive_solver.
  - intros ([_ Hwf]%Forall_cons_1 & Hnd & Hfree). rewrite fmap_cons in *.
    apply NoDup_cons in Hnd as [Hnew Hnd]. apply IH. split_and!; [done..|].
    intros id Hin. rewrite lookup_insert_ne by congruence. apply Hfree. by right.
Qed.

(** What the outer loop accepts from a given point on. *)
Definition backends_fit (names : gset string) (owner : gmap string string)
    (bs : list BackendConfig) : Prop :=
  Forall wf_backend bs ∧ NoDup (bc_Name <$> bs) ∧ (∀ n, n ∈ bc_Name <$> bs → n ∉ names) ∧
  NoDup (tenant_ids bs) ∧ (∀ id, id ∈ tenant_ids bs → owner !! id = None).

Lemma backends_fit_cons names owner owner' b bs :
  wf_backend b → bc_Name b ∉ names → NoDup (tc_ID <$> bc_Tenants b) →
  (∀ id, id ∈ tc_ID <$> bc_Tenants b → owner !! id = None) →
  (∀ id, is_Some (owner' !! id) ↔ is_Some (owner !! id) ∨ id ∈ tc_ID <$> bc_Tenants b) →
  backends_fit ({[bc_Name b]} ∪ names) owner' bs ↔ backends_fit names owner (b :: bs).
Proof.
  intros Hwf Hn Hnd Hfree Hdom. unfold backends_fit. rewrite !fmap_cons, Forall_cons, NoDup_cons.
  change (tenant_ids (b :: bs)) with ((tc_ID <$> bc_Tenants b) ++ tenant_ids bs).
  rewrite NoDup_app. setoid_rewrite elem_of_cons. setoid_rewrite elem_of_app.
  setoid_rewrite eq_None_not_Some. setoid_rewrite Hdom.
  assert (∀ id, id ∈ tc_ID <$> bc_Tenants b → ¬ is_Some (owner !! id)).
  { intros id Hin. rewrite (Hfree id Hin). by intros [? ?]. }
  set_solver.
Qed.

Lemma validate_backends_spec i names owner bs :
  match validate_backends i names owner bs with
  | Ok _ => backends_fit names owner bs
  | Err _ => ¬ backends_fit names owner bs
  end.
Proof.
  revert i names owner. induction bs as [|b bs IH]; intros i names owner; cbn [validate_backends].
  { unfold backends_fit. split_and!; try constructor; by intros ? ?%not_elem_of_nil. }
  destruct (String.eqb_spec (bc_Name b) "") as [Hn|Hn].
  { intros ([[? _] _]%Forall_cons_1 & _). done. }
  case_decide as Hin.
  { intros (_ & _ & Hfree & _). apply (Hfree (bc_Name b)); [left|done]. }
  destruct (String.eqb_spec (bc_URL b) "") as [Hu|Hu].
  { intros ([(_ & ? & _) _]%Forall_cons_1 & _). done. }
  destruct (known_protocol (bc_ProtocolVersion b)) eqn:Hp; simpl negb; cbv iota.
  2:{ intros ([(_ & _ & Hv & _) _]%Forall_cons_1 & _).
      apply known_protocol_spec in Hv. congruence. }
  apply known_protocol_spec in Hp.
  destruct (bc_Tenants b) as [|t ts] eqn:Ht.
  { intros ([(_ & _ & _ & ? & _) _]%Forall_cons_1 & _). done. }
  rewrite <- Ht. pose proof (validate_tenants_spec (bc_Name b) 0 owner (bc_Tenants b)) as Hts.
  destruct (validate_tenants _ _ _ _) as [owner'|e]; simpl.
  - destruct Hts as (Hwf & Hnd & Hfree & Hdom).
    assert (wf_backend b) as Hb by (split_and!; [done..| |done]; by rewrite Ht).
    specialize (IH (S i) ({[bc_Name b]} ∪ names) owner').
    pose proof (backends_fit_cons names owner owner' b bs Hb Hin Hnd Hfree Hdom) as Hiff.
    destruct (validate_backends _ _ _ bs); tauto.
  - intros ([(_ & _ & _ & _ & Hwf) _]%Forall_cons_1 & _ & _ & Hnd & Hfree). apply Hts.
    change (tenant_ids (b :: bs)) with ((tc_ID <$> bc_Tenants b) ++ tenant_ids bs) in *.
    apply NoDup_app in Hnd as [Hnd _]. split_and!; [done..|].
    intros id Hid. apply Hfree, elem_of_app. by left.
Qed.

Lemma Validate_spec c : match Validate c with Ok _ => wf_config c | Err _ => ¬ wf_config c end.
Proof.
  unfold Validate, wf_config. pose proof (validate_auth_spec (c_Auth c)) as Ha.
  destruct (validate_auth (c_Auth c)) as [[]|e]; cbn [mbind result_bind]; [|by intros [? _]].
  destruct (c_Backends c) as [|b bs]; [by intros (_ & ? & _)|].
  pose proof (validate_backends_spec 0 ∅ ∅ (b :: bs)) as Hb. unfold backends_fit in Hb.
  destruct (validate_backends 0 ∅ ∅ (b :: bs)) as [[]|e].
  - destruct Hb as (? & ? & _ & ? & _). by split_and!.
  - intros (_ & _ & ? & ? & ?). apply Hb. split_and!; [done..| |done|done]. set_solver.
Qed.

(** ** Theorems *)

(** C38: [Validate] accepts exactly the usable configurations: the auth mode has
    its key material, there is a backend, every backend and tenant is complete,
    and backend names and tenant ids are unique over the whole file. *)
Theorem Validate_iff c : Validate c = Ok () ↔ wf_config c.
Proof.
  pose proof (Validate_spec c) as Hs. destruct (Validate c) as [[]|e]; [by split|].
  split; [done|]. intros Hw. by destruct Hs.
Qed.

(** C37: expanding [${VAR}] references. It succeeds exactly when every variable
    referred to is set, and then every reference, and nothing else, is replaced
    by its variable's value; otherwise the error names an unset variable the
    text refers to. *)
Theorem expandRefs_correct env s :
  (∀ out, expandRefs env s = Ok out ↔
     (∀ n, n ∈ chunk_refs (chunks s) → is_Some (env n)) ∧
     out = concat_str (chunk_value env <$> chunks s)) ∧
  (∀ n, expandRefs env s = Err n → n ∈ chunk_refs (chunks s) ∧ env n = None).
Proof.
  rewrite expandRefs_eq.
  destruct (last _) as [n|] eqn:Hl.
  - apply last_Some_elem_of in Hl. apply list_elem_of_filter in Hl as [Hn Hin].
    split; [|by intros ? [= <-]]. intros out. split; [done|].
    intros [Hall _]. destruct (Hall n Hin) as [? ?]. congruence.
  - apply last_None in Hl. split; [|done]. intros out. split; [|by intros [_ ->]].
    intros [= <-]. split; [|done]. intros n Hin.
    destruct (env n) eqn:He; [done|]. exfalso.
    assert (n ∈ filter (λ n, env n = None) (chunk_refs (chunks s))) as Hf
      by (apply list_elem_of_filter; done).
    rewrite Hl in Hf. by apply not_elem_of_nil in Hf.
Qed.

Definition env_ex (n : string) : option string :=
  if String.eqb n "PAT" then Some "s3cr${X}t" else None.

Example expand_ex1 : expandRefs env_ex "a ${PAT}${1x} $b" = Ok "a s3cr${X}t${1x} $b".
Proof. vm_compute. reflexivity. Qed.
Example expand_ex2 : expandRefs env_ex "${PAT} ${MISSING}" = Err "MISSING".
Proof. vm_compute. reflexivity. Qed.

Lemma expandEnv_inv env c c' :
  expandEnv env c = Ok c' →
  c_Server c' = c_Server c ∧ c_Auth c' = c_Auth c ∧ c_Observability c' = c_Observability c ∧
  Forall2 (λ b b', expand_backend env b = Ok b') (c_Backends c) (c_Backends c').
Proof.
  unfold expandEnv. destruct (result_mapM _ _) as [bs|e] eqn:Hb; simpl; [|done].
  intros [= <-]. apply result_mapM_Ok in Hb. done.
Qed.

(** Everything but credentials and header values survives expansion. *)
Lemma expand_backend_inv env b b' :
  expand_backend env b = Ok b' →
  bc_Name b' = bc_Name b ∧ bc_URL b' = bc_URL b ∧
  bc_CredentialHeader b' = bc_CredentialHeader b ∧
  bc_CredentialScheme b' = bc_CredentialScheme b ∧
  bc_ProtocolVersion b' = bc_ProtocolVersion b ∧
  expandRefs env (bc_Credential b) = Ok (bc_Credential b').
Proof.
  unfold expand_backend.
  destruct (expandRefs env (bc_Credential b)) as [cred|n]; simpl; [|done].
  destruct (expand_headers _ _ _ _) as [hs|e]; simpl; [|done].
  destruct (result_mapM _ _) as [ts|e]; simpl; [|done].
  by intros [= <-].
Qed.

Lemma or_default_nonempty d s : d ≠ "" → or_default d s ≠ "".
Proof. intros Hd. unfold or_default. by destruct (String.eqb_spec s ""). Qed.

(** What every loaded configuration satisfies. *)
Definition complete_backend (b : BackendConfig) : Prop :=
  bc_CredentialHeader b ≠ "" ∧ is_Some (bc_CredentialScheme b) ∧ bc_ProtocolVersion b ≠ "".

Definition complete_config (c : Config) : Prop :=
  sc_Listen (c_Server c) ≠ "" ∧ sc_Path (c_Server c) ≠ "" ∧
  ac_GroupsClaim (c_Auth c) ≠ "" ∧
  oc_MetricsListen (c_Observability c) ≠ "" ∧ oc_MetricsPath (c_Observability c) ≠ "" ∧
  Forall complete_backend (c_Backends c).

Lemma applyDefaults_complete c : complete_config (applyDefaults c).
Proof.
  unfold complete_config. simpl. split_and!; try by apply or_default_nonempty.
  apply Forall_fmap, Forall_true. intros b. unfold complete_backend; simpl.
  split_and!; [by apply or_default_nonempty|by eexists|by apply or_default_nonempty].
Qed.

Lemma expandEnv_complete env c c' :
  expandEnv env c = Ok c' → complete_config c → complete_config c'.
Proof.
  intros (Hs & Ha & Ho & Hb)%expandEnv_inv (? & ? & ? & ? & ? & Hc).
  unfold complete_config. rewrite Hs, Ha, Ho. split_and!; try done.
  revert Hc. induction Hb as [|b b' bs bs' Hbb Hb IH]; [constructor|].
  intros [Hcb Hc]%Forall_cons_1. constructor; [|by apply IH].
  apply expand_backend_inv in Hbb as (_ & _ & Hh & Hsch & Hpv & _).
  unfold complete_backend. by rewrite Hh, Hsch, Hpv.
Qed.

(** A configuration [Load] returns is usable ([wf_config]), and every field
    with a default is set, on the server, the auth section, the observability
    section and every backend. In particular the metrics listener is always
    enabled, also when the file says [metrics_listen: ""]. *)
Theorem Load_sound env rf yu path c :
  Load env rf yu path = Ok c → wf_config c ∧ complete_config c.
Proof.
  unfold Load. destruct (rf path) as [raw|]; [|done].
  destruct (yu raw) as [c0|]; [|done].
  destruct (expandEnv env (applyDefaults c0)) as [c1|e] eqn:He; [|done].
  destruct (Validate c1) as [[]|e] eqn:Hv; [|done]. intros [= <-].
  split; [pose proof (Validate_spec c1) as Hs; by rewrite Hv in Hs|].
  eapply expandEnv_complete; [exact He|apply applyDefaults_complete].
Qed.

(** A file that tries to disable the metrics listener. *)
Definition yaml_ex (raw : string) : option Config :=
  Some (mkConfig (mkServerConfig "" "" "")
    (mkAuthConfig "insecure" "" "" "" [] [] "" "" "")
    [mkBackendConfig "github" "http://gh/" ∅ "${PAT}" "" None ""
       [mkTenantConfig "a" ["g"] "" {["X-Org" := "${PAT}"]}]]
    (mkObservabilityConfig "" "")).

Definition loaded_ex : Config :=
  mkConfig (mkServerConfig ":8080" "/mcp" "")
    (mkAuthConfig "insecure" "groups" "" "" [] [] "" "" "")
    [mkBackendConfig "github" "http://gh/" ∅ "s3cr${X}t" "Authorization" (Some "Bearer")
       "2025-03-26" [mkTenantConfig "a" ["g"] "" {["X-Org" := "s3cr${X}t"]}]]
    (mkObservabilityConfig ":9090" "/metrics").

Lemma Load_sound_witness :
  Load env_ex Some yaml_ex "config.yaml" = Ok loaded_ex ∧ wf_config loaded_ex ∧
  complete_config loaded_ex.
Proof.
  split; [vm_compute; reflexivity|].
  apply (Load_sound env_ex Some yaml_ex "config.yaml"). vm_compute. reflexivity.
Defined.
