(* ===== verification/Registry.v ===== *)
(** * internal/registry: which tenants exist, who may select them

    [New] builds the immutable index from the configured backends;
    [ResolveTenant], [AuthorizedTenants] and [IsAuthorized] are what the handler
    asks of it. *)

From Stdlib Require Import Ascii.
From stdpp Require Import base numbers option pretty gmap fin_maps sorting strings list.
From S2P Require Import Prelude GoStrings Json Config.

#[local] Set Warnings "-clear-no-such-hyp".

(** [url.URL] as far as the proxy looks: the scheme, the host and [String()]. *)
Record URL := mkURL { u_Scheme : string; u_Host : string; u_String : string }.

Record Backend := mkBackend {
  b_Name : string;
  b_URL : URL;
  b_Headers : gmap string string;
  b_Credential : string;
  b_CredentialHeader : string;
  b_CredentialScheme : string;
  b_ProtocolVersion : string }.

Definition Stateless (b : Backend) : bool :=
  String.eqb (b_ProtocolVersion b) ProtocolVersionStateless.

Record Tenant := mkTenant {
  t_ID : string;
  t_Groups : list string;
  t_Headers : gmap string string;
  t_Credential : string;
  t_Backend : Backend }.

#[export] Instance URL_eq_dec : EqDecision URL.
Proof. solve_decision. Defined.
#[export] Instance Backend_eq_dec : EqDecision Backend.
Proof. solve_decision. Defined.
#[export] Instance Tenant_eq_dec : EqDecision Tenant.
Proof. solve_decision. Defined.

Definition EffectiveCredential (t : Tenant) : string :=
  if nonempty (t_Credential t) then t_Credential t else b_Credential (t_Backend t).

Record Registry := mkRegistry {
  byTenant : gmap string Tenant;
  backends : list Backend }.

(** ** Building *)

Inductive registry_error :=
| InvalidURL (name : string)
| URLNotAbsolute (name url : string)
| DuplicateTenant (id : string)
| NoTenants.

Definition new_backend (bc : BackendConfig) (u : URL) : Backend :=
  mkBackend (bc_Name bc) u (bc_Headers bc) (bc_Credential bc)
    (or_default "Authorization" (bc_CredentialHeader bc))
    (default "Bearer" (bc_CredentialScheme bc))
    (or_default ProtocolVersionStateful (bc_ProtocolVersion bc)).

Definition new_tenant (b : Backend) (tc : TenantConfig) : Tenant :=
  mkTenant (tc_ID tc) (tc_Groups tc) (tc_Headers tc) (tc_Credential tc) b.

Fixpoint add_tenants (b : Backend) (m : gmap string Tenant) (tcs : list TenantConfig)
  : result registry_error (gmap string Tenant) :=
  match tcs with
  | [] => Ok m
  | tc :: tcs =>
      match m !! tc_ID tc with
      | Some _ => Err (DuplicateTenant (tc_ID tc))
      | None => add_tenants b (<[tc_ID tc := new_tenant b tc]> m) tcs
      end
  end.

Section new.
(** [url.Parse]. *)
Variable url_Parse : string → option URL.

Definition resolve_backend (bc : BackendConfig) : result registry_error Backend :=
  match url_Parse (bc_URL bc) with
  | None => Err (InvalidURL (bc_Name bc))
  | Some u =>
      if String.eqb (u_Scheme u) "" || String.eqb (u_Host u) ""
      then Err (URLNotAbsolute (bc_Name bc) (bc_URL bc))
      else Ok (new_backend bc u)
  end.

Fixpoint add_backends (r : Registry) (bcs : list BackendConfig)
  : result registry_error Registry :=
  match bcs with
  | [] => Ok r
  | bc :: bcs =>
      b ← resolve_backend bc;
      m ← add_tenants b (byTenant r) (bc_Tenants bc);
      add_backends (mkRegistry m (backends r ++ [b])) bcs
  end.

Definition New (bcs : list BackendConfig) : result registry_error Registry :=
  r ← add_backends (mkRegistry ∅ []) bcs;
  if decide (byTenant r = ∅) then Err NoTenants else Ok r.
End new.

(** ** Queries *)

Definition AllStateless (r : Registry) : bool :=
  forallb Stateless (backends r) && negb (length (backends r) =? 0)%nat.

(** [Tenants()] ranges over a Go map: the order below is one of many. *)
Definition Tenants (r : Registry) : list Tenant := (map_to_list (byTenant r)).*2.

(** [ErrUnknownTenant] is the only error. *)
Definition ResolveTenant (r : Registry) (id : string) : option Tenant := byTenant r !! id.

Definition group_set (groups : list string) : gset string := list_to_set groups.

(** The loop with its early exit, shared by both authorization tests. *)
Definition any_group (gs : gset string) (groups : list string) : bool :=
  existsb (λ g, bool_decide (g ∈ gs)) groups.

Definition IsAuthorized (t : Tenant) (groups : list string) : bool :=
  any_group (group_set groups) (t_Groups t).

(** [AuthorizedTenants] with the map's iteration order as an argument. *)
Definition authorized_among (groups : list string) (iteration : list Tenant) : list Tenant :=
  sort_on t_ID (List.filter (λ t, any_group (group_set groups) (t_Groups t)) iteration).

Definition AuthorizedTenants (r : Registry) (groups : list string) : list Tenant :=
  authorized_among groups (Tenants r).

(** ** Invariant *)

(** Tenants are filed under their own id and their backends are listed. *)
Definition registry_wf (r : Registry) : Prop :=
  ∀ id t, byTenant r !! id = Some t → t_ID t = id ∧ t_Backend t ∈ backends r.

Lemma elem_of_Tenants r t :
  registry_wf r → t ∈ Tenants r ↔ byTenant r !! t_ID t = Some t.
Proof.
  intros Hwf. unfold Tenants. rewrite list_elem_of_fmap. split.
  - intros ([id t'] & -> & Hin%elem_of_map_to_list). simpl.
    by destruct (Hwf id t' Hin) as [-> _].
  - intros Ht. exists (t_ID t, t). split; [done|]. by apply elem_of_map_to_list.
Qed.

Lemma Tenants_ids_NoDup r : registry_wf r → NoDup (t_ID <$> Tenants r).
Proof.
  intros Hwf. unfold Tenants. rewrite <- list_fmap_compose.
  rewrite (list_fmap_ext (t_ID ∘ snd) fst (map_to_list (byTenant r))).
  - apply NoDup_fst_map_to_list.
  - intros i [id t] Hi. simpl. apply list_elem_of_lookup_2, elem_of_map_to_list in Hi.
    by destruct (Hwf id t Hi).
Qed.

Lemma any_group_spec gs groups : any_group gs groups = true ↔ ∃ g, g ∈ groups ∧ g ∈ gs.
Proof.
  unfold any_group. rewrite existsb_exists. setoid_rewrite bool_decide_eq_true.
  by setoid_rewrite <- list_elem_of_In.
Qed.

Lemma IsAuthorized_spec t groups :
  IsAuthorized t groups = true ↔ ∃ g, g ∈ t_Groups t ∧ g ∈ groups.
Proof.
  unfold IsAuthorized. rewrite any_group_spec. unfold group_set.
  by setoid_rewrite elem_of_list_to_set.
Qed.

Lemma elem_of_authorized_among t groups l :
  t ∈ authorized_among groups l ↔ t ∈ l ∧ IsAuthorized t groups = true.
Proof.
  unfold authorized_among. by rewrite elem_of_sort_on, list_elem_of_In, filter_In, <- list_elem_of_In.
Qed.

Lemma elem_of_AuthorizedTenants r groups t :
  registry_wf r →
  t ∈ AuthorizedTenants r groups ↔
  byTenant r !! t_ID t = Some t ∧ IsAuthorized t groups = true.
Proof.
  intros Hwf. unfold AuthorizedTenants. by rewrite elem_of_authorized_among, elem_of_Tenants.
Qed.

Lemma filter_Permutation {A} (f : A → bool) l1 l2 :
  l1 ≡ₚ l2 → List.filter f l1 ≡ₚ List.filter f l2.
Proof.
  induction 1 as [|x l1 l2 _ IH|x y l|l1 l2 l3 _ IH1 _ IH2]; simpl.
  - done.
  - destruct (f x); by rewrite IH.
  - destruct (f x), (f y); done || apply Permutation_swap.
  - by etrans.
Qed.

Lemma filter_sublist_NoDup {A B} (f : A → bool) (key : A → B) l :
  NoDup (key <$> l) → NoDup (key <$> List.filter f l).
Proof.
  intros Hnd. eapply sublist_NoDup; [exact Hnd|]. apply fmap_sublist.
  induction l as [|x l IH]; [done|]. simpl in *. apply NoDup_cons in Hnd as [_ Hnd].
  destruct (f x); [by apply sublist_skip, IH|by apply sublist_cons, IH].
Qed.

Lemma AuthorizedTenants_ids_NoDup r groups :
  registry_wf r → NoDup (t_ID <$> AuthorizedTenants r groups).
Proof.
  intros Hwf. unfold AuthorizedTenants, authorized_among.
  by apply NoDup_sort_on, filter_sublist_NoDup, Tenants_ids_NoDup.
Qed.

#[export] Hint Resolve Tenants_ids_NoDup AuthorizedTenants_ids_NoDup : proxy.

(** ** [New] against the configuration *)

Lemma add_tenants_spec b m tcs :
  match add_tenants b m tcs with
  | Ok m' =>
      NoDup (tc_ID <$> tcs) ∧ (∀ id, id ∈ tc_ID <$> tcs → m !! id = None) ∧
      (∀ id t, m' !! id = Some t ↔
         m !! id = Some t ∨ ∃ tc, tc ∈ tcs ∧ tc_ID tc = id ∧ t = new_tenant b tc)
  | Err _ => ¬ (NoDup (tc_ID <$> tcs) ∧ (∀ id, id ∈ tc_ID <$> tcs → m !! id = None))
  end.
Proof.
  revert m. induction tcs as [|tc tcs IH]; intros m; cbn [add_tenants].
  { split_and!; [constructor|by intros id ?%not_elem_of_nil|].
    intros id t. split; [by left|]. by intros [?|(tc & ?%not_elem_of_nil & _)]. }
  destruct (m !! tc_ID tc) as [t0|] eqn:Hm.
  { intros (_ & Hfree). rewrite (Hfree (tc_ID tc)) in Hm; [done|left]. }
  specialize (IH (<[tc_ID tc := new_tenant b tc]> m)).
  destruct (add_tenants _ _ tcs) as [m'|e]; rewrite fmap_cons.
  - destruct IH as (Hnd & Hfree & Hm'). split_and!.
    + constructor; [|done]. intros Hin%Hfree. by rewrite lookup_insert_eq in Hin.
    + intros id [->|Hin]%elem_of_cons; [done|].
      pose proof (Hfree id Hin) as Hf. rewrite lookup_insert_ne in Hf; [done|].
      intros <-. apply Hfree in Hin. by rewrite lookup_insert_eq in Hin.
    + intros id t. rewrite Hm', lookup_insert_Some. setoid_rewrite elem_of_cons.
      split.
      * intros [[[<- <-]|[? ?]]|(tc' & ? & ? & ?)]; eauto 8.
      * intros [?|(tc' & [->|?] & <- & ->)]; [|by left; left|right; eauto].
        left. right. split; [congruence|done].
  - intros ([Hnew Hnd]%NoDup_cons & Hfree). apply IH. split; [done|].
    intros id Hin. rewrite lookup_insert_ne by congruence. apply Hfree. by right.
Qed.

Section new_spec.
Context (url_Parse : string → option URL).

(** The tenant the configuration declares under an id. *)
Definition serves (bcs : list BackendConfig) (id : string) (t : Tenant) : Prop :=
  ∃ bc b tc, bc ∈ bcs ∧ resolve_backend url_Parse bc = Ok b ∧ tc ∈ bc_Tenants bc ∧
    tc_ID tc = id ∧ t = new_tenant b tc.

(** Every URL parses and is absolute. *)
Definition absolute (bc : BackendConfig) : Prop :=
  ∃ u, url_Parse (bc_URL bc) = Some u ∧ u_Scheme u ≠ "" ∧ u_Host u ≠ "".

Definition resolvable (bcs : list BackendConfig) : Prop := Forall absolute bcs.

Lemma resolve_backend_ok bc :
  match resolve_backend url_Parse bc with Ok _ => absolute bc | Err _ => ¬ absolute bc end.
Proof.
  unfold resolve_backend, absolute. destruct (url_Parse (bc_URL bc)) as [u|]; [|naive_solver].
  destruct (String.eqb_spec (u_Scheme u) ""), (String.eqb_spec (u_Host u) ""); naive_solver.
Qed.

Lemma resolve_backends_ok bcs bs :
  Forall2 (λ bc b, resolve_backend url_Parse bc = Ok b) bcs bs → resolvable bcs.
Proof.
  induction 1 as [|bc b bcs bs Hb _ IH]; constructor; [|exact IH].
  pose proof (resolve_backend_ok bc) as Ha. by rewrite Hb in Ha.
Qed.

Lemma serves_cons bc b bcs id t :
  resolve_backend url_Parse bc = Ok b →
  serves (bc :: bcs) id t ↔
  (∃ tc, tc ∈ bc_Tenants bc ∧ tc_ID tc = id ∧ t = new_tenant b tc) ∨ serves bcs id t.
Proof.
  intros Hb. unfold serves. setoid_rewrite elem_of_cons. split.
  - intros (bc' & b' & tc & [->|?] & Hb' & ? & ? & ?); [|right; eauto 10].
    left. exists tc. rewrite Hb in Hb'. injection Hb' as ->. by split_and!.
  - intros [(tc & ? & ? & ?)|(bc' & b' & tc & ? & ? & ? & ? & ?)]; eauto 15.
Qed.

Lemma add_backends_spec r bcs :
  match add_backends url_Parse r bcs with
  | Ok r' =>
      (∃ bs, Forall2 (λ bc b, resolve_backend url_Parse bc = Ok b) bcs bs ∧
             backends r' = backends r ++ bs) ∧
      NoDup (tenant_ids bcs) ∧ (∀ id, id ∈ tenant_ids bcs → byTenant r !! id = None) ∧
      (∀ id t, byTenant r' !! id = Some t ↔ byTenant r !! id = Some t ∨ serves bcs id t)
  | Err _ =>
      ¬ (resolvable bcs ∧ NoDup (tenant_ids bcs) ∧
         (∀ id, id ∈ tenant_ids bcs → byTenant r !! id = None))
  end.
Proof.
  revert r. induction bcs as [|bc bcs IH]; intros r; cbn [add_backends].
  { split_and!; [exists []; by rewrite app_nil_r|constructor|by intros ? ?%not_elem_of_nil|].
    intros id t. split; [by left|]. by intros [?|(? & ? & ? & ?%not_elem_of_nil & _)]. }
  change (tenant_ids (bc :: bcs)) with ((tc_ID <$> bc_Tenants bc) ++ tenant_ids bcs).
  destruct (resolve_backend url_Parse bc) as [b|e] eqn:Hb; cbn [mbind result_bind].
  2:{ intros ([Hok _]%Forall_cons_1 & _). pose proof (resolve_backend_ok bc) as Ha. by rewrite Hb in Ha. }
  pose proof (add_tenants_spec b (byTenant r) (bc_Tenants bc)) as Ht.
  destruct (add_tenants b (byTenant r) (bc_Tenants bc)) as [m|e]; cbn [mbind result_bind].
  2:{ intros (_ & [Hnd _]%NoDup_app & Hfree). apply Ht. split; [done|].
      intros id Hin. apply Hfree, elem_of_app. by left. }
  destruct Ht as (Hnd & Hfree & Hm). specialize (IH (mkRegistry m (backends r ++ [b]))).
  assert (∀ id, id ∈ tc_ID <$> bc_Tenants bc → m !! id ≠ None) as Hown.
  { intros id (tc & -> & Hin)%list_elem_of_fmap Hnone.
    rewrite (proj2 (Hm (tc_ID tc) (new_tenant b tc))) in Hnone; [done|]. right; eauto. }
  assert (∀ id, m !! id = None → byTenant r !! id = None) as Hsub.
  { intros id Hnone. destruct (byTenant r !! id) as [t|] eqn:Hr; [|done].
    rewrite (proj2 (Hm id t)) in Hnone; [done|by left]. }
  destruct (add_backends _ _ bcs) as [r'|e]; cbn [byTenant backends] in IH.
  - destruct IH as ((bs & Hbs & Hr') & Hnd' & Hfree' & Hm'). split_and!.
    + exists (b :: bs). split; [by constructor|]. rewrite Hr', <- app_assoc. done.
    + apply NoDup_app. split_and!; [done| |done].
      intros id Hin1 Hin2%Hfree'. by apply Hown in Hin1.
    + intros id [?|?]%elem_of_app; [by apply Hfree|]. by apply Hsub, Hfree'.
    + intros id t. rewrite Hm', Hm, (serves_cons bc b) by done. tauto.
  - intros ([Hok Hres]%Forall_cons_1 & Hnd' & Hfree').
    apply NoDup_app in Hnd' as (_ & Hdisj & Hnd'). apply IH. split_and!; [done..|].
    intros id Hin. destruct (m !! id) as [t|] eqn:Hmid; [|done].
    apply Hm in Hmid as [Hmid|(tc & Htc & <- & _)].
    + rewrite Hfree' in Hmid; [done|]. apply elem_of_app. by right.
    + exfalso. eapply Hdisj; [|exact Hin]. by apply list_elem_of_fmap_2.
Qed.

Lemma New_spec bcs :
  match New url_Parse bcs with
  | Ok r =>
      Forall2 (λ bc b, resolve_backend url_Parse bc = Ok b) bcs (backends r) ∧
      NoDup (tenant_ids bcs) ∧
      (∀ id t, byTenant r !! id = Some t ↔ serves bcs id t) ∧ byTenant r ≠ ∅
  | Err _ => ¬ (resolvable bcs ∧ NoDup (tenant_ids bcs) ∧ tenant_ids bcs ≠ [])
  end.
Proof.
  unfold New. pose proof (add_backends_spec (mkRegistry ∅ []) bcs) as Hs.
  destruct (add_backends _ _ bcs) as [r|e]; cbn [mbind result_bind byTenant backends] in *.
  - destruct Hs as ((bs & Hbs & Hr) & Hnd & _ & Hm). simpl in Hr.
    assert (∀ id t, byTenant r !! id = Some t ↔ serves bcs id t) as Hm'.
    { intros id t. rewrite Hm, lookup_empty. naive_solver. }
    case_decide as Hempty; [|by rewrite Hr].
    intros (Hres & _ & Hne). destruct (tenant_ids bcs) as [|id ids] eqn:Hids; [done|].
    assert (id ∈ tenant_ids bcs) as Hin by (rewrite Hids; left).
    unfold tenant_ids in Hin. apply list_elem_of_bind in Hin as (bc & Hin & Hbc).
    apply list_elem_of_fmap in Hin as (tc & -> & Htc).
    unfold resolvable in Hres. rewrite Forall_forall in Hres. specialize (Hres bc Hbc).
    pose proof (resolve_backend_ok bc) as Ha. destruct (resolve_backend url_Parse bc) as [b|] eqn:Hb; [|done].
    assert (byTenant r !! tc_ID tc = Some (new_tenant b tc)) as Hlk.
    { apply Hm'. exists bc, b, tc. done. }
    by rewrite Hempty, lookup_empty in Hlk.
  - intros (? & ? & _). apply Hs. split_and!; [done..|]. intros. apply lookup_empty.
Qed.
End new_spec.

Lemma New_wf url_Parse bcs r : New url_Parse bcs = Ok r → registry_wf r.
Proof.
  intros Hr. pose proof (New_spec url_Parse bcs) as Hs. rewrite Hr in Hs.
  destruct Hs as (Hb & _ & Hm & _). intros id t (bc & b & tc & Hbc & Hres & _ & <- & ->)%Hm.
  split; [done|]. simpl. apply list_elem_of_lookup in Hbc as [i Hi].
  destruct (Forall2_lookup_l _ _ _ _ _ Hb Hi) as (b' & Hb' & Heq).
  rewrite Hres in Heq. injection Heq as ->. by eapply list_elem_of_lookup_2.
Qed.

Lemma resolve_backend_name url_Parse bc b :
  resolve_backend url_Parse bc = Ok b → b_Name b = bc_Name bc.
Proof.
  unfold resolve_backend. destruct (url_Parse (bc_URL bc)) as [u|]; [|done].
  destruct (_ || _); [done|]. by intros [= <-].
Qed.

Lemma resolve_backends_names url_Parse bcs bs :
  Forall2 (λ bc b, resolve_backend url_Parse bc = Ok b) bcs bs →
  b_Name <$> bs = bc_Name <$> bcs.
Proof.
  induction 1 as [|bc b bcs bs Hbc _ IH]; [done|].
  rewrite !fmap_cons. by rewrite (resolve_backend_name _ _ _ Hbc), IH.
Qed.

Lemma authorized_among_perm groups l1 l2 :
  NoDup (t_ID <$> l1) → l1 ≡ₚ l2 → authorized_among groups l1 = authorized_among groups l2.
Proof.
  intros Hnd Hp. apply sort_on_unique; [by apply filter_sublist_NoDup|].
  by apply filter_Permutation.
Qed.

(** A small deployment: one stateful backend with two tenants, one stateless. *)
Definition url_ex (s : string) : option URL := Some (mkURL "http" "host" s).

Definition config_ex : list BackendConfig :=
  [mkBackendConfig "github" "http://gh/" {["X-Base" := "1"]} "base" "Authorization"
     (Some "Bearer") "2025-03-26"
     [mkTenantConfig "ro" ["everyone"; "dev"] "pat-ro" {["X-MCP-Readonly" := "true"]};
      mkTenantConfig "iac" ["iac"] "pat-iac" ∅];
   mkBackendConfig "grafana" "http://gf/" ∅ "sa" "X-Api-Key" (Some "") "2026-07-28"
     [mkTenantConfig "dash" ["dev"] "" ∅]].

Definition registry_ex : Registry :=
  match New url_ex config_ex with Ok r => r | Err _ => mkRegistry ∅ [] end.

Lemma registry_ex_wf : registry_wf registry_ex.
Proof. apply (New_wf url_ex config_ex). vm_compute. reflexivity. Qed.

Example authorized_ex :
  t_ID <$> AuthorizedTenants registry_ex ["iac"; "dev"] = ["dash"; "iac"; "ro"].
Proof. vm_compute. reflexivity. Qed.

(** ** Theorems *)

(** C16: building the index refines the configuration. It succeeds exactly
    when every backend URL parses and is absolute, the tenant ids are distinct
    over all backends and there is at least one; the tenants are then exactly
    those declared, each with its backend resolved, backends stay in configuration
    order, and the invariant holds. *)
Theorem New_refines_config url_Parse bcs :
  ((∃ r, New url_Parse bcs = Ok r) ↔
     resolvable url_Parse bcs ∧ NoDup (tenant_ids bcs) ∧ tenant_ids bcs ≠ []) ∧
  (∀ r, New url_Parse bcs = Ok r →
     registry_wf r ∧ b_Name <$> backends r = bc_Name <$> bcs ∧
     ∀ id t, ResolveTenant r id = Some t ↔ serves url_Parse bcs id t).
Proof.
  pose proof (New_spec url_Parse bcs) as Hs. split; [split|].
  - intros [r Hr]. rewrite Hr in Hs. destruct Hs as (Hb & Hnd & Hm & Hne).
    split_and!; [by eapply resolve_backends_ok|done|]. intros Hids. apply Hne, map_empty. intros id.
    destruct (byTenant r !! id) as [t|] eqn:Ht; [|done].
    apply Hm in Ht as (bc & b & tc & Hbc & _ & Htc & _). exfalso. apply (not_elem_of_nil (tc_ID tc)).
    rewrite <- Hids. apply list_elem_of_bind. exists bc. split; [by apply list_elem_of_fmap_2|done].
  - intros Hok. destruct (New url_Parse bcs) as [r|e]; [by exists r|done].
  - intros r Hr. split; [by eapply New_wf|]. rewrite Hr in Hs.
    destruct Hs as (Hb & _ & Hm & _). split; [|exact Hm]. by eapply resolve_backends_names.
Qed.

(** C13: [AuthorizedTenants] returns exactly the registered tenants one of whose
    groups the caller has, each once and sorted by id, whatever order Go ranges
    over the tenant map in. *)
Theorem AuthorizedTenants_correct r groups :
  registry_wf r →
  (∀ t, t ∈ AuthorizedTenants r groups ↔
     ResolveTenant r (t_ID t) = Some t ∧ ∃ g, g ∈ t_Groups t ∧ g ∈ groups) ∧
  StronglySorted (key_lt t_ID) (AuthorizedTenants r groups) ∧
  (∀ iteration, iteration ≡ₚ Tenants r →
     authorized_among groups iteration = AuthorizedTenants r groups).
Proof.
  intros Hwf. split_and!.
  - intros t. by rewrite elem_of_AuthorizedTenants, IsAuthorized_spec.
  - by apply sort_on_strict, filter_sublist_NoDup, Tenants_ids_NoDup.
  - intros it Hit. symmetry. apply authorized_among_perm; [by apply Tenants_ids_NoDup|done].
Qed.

Lemma AuthorizedTenants_correct_witness :
  registry_wf registry_ex ∧
  authorized_among ["dev"] (reverse (Tenants registry_ex)) = AuthorizedTenants registry_ex ["dev"].
Proof.
  split; [exact registry_ex_wf|].
  apply (AuthorizedTenants_correct registry_ex ["dev"] registry_ex_wf).
  apply reverse_Permutation.
Defined.
