(* ===== verification/Session.v ===== *)
(** * internal/session: the proxy's client sessions and their backend sessions

    [Store] is the mutex-protected map. Every operation runs under the mutex, so
    it is one atomic step; the readings of the injectable clock it takes are its
    arguments (in nanoseconds). *)

From Stdlib Require Import Ascii.
From stdpp Require Import base numbers option pretty gmap fin_maps sorting strings list.
From S2P Require Import Prelude GoStrings.

#[local] Open Scope Z_scope.
#[local] Set Warnings "-clear-no-such-hyp".

Record Session := mkSession {
  s_ID : string;
  s_created : Z;
  s_lastSeen : Z;
  s_backendSID : gmap string string }.

Record Store := mkStore {
  st_m : gmap string Session;
  st_ttl : Z }.

Definition NewStore (idleTTL : Z) : Store := mkStore ∅ idleTTL.

(** The key is a backend name in the Go signature; the handler passes tenant ids. *)
Definition BackendSID (s : Session) (backend : string) : option string :=
  s_backendSID s !! backend.

(** [lastSeen.Before(now.Add(-ttl))]. *)
Definition expired (ttl now : Z) (s : Session) : Prop := s_lastSeen s < now - ttl.

#[export] Instance expired_dec ttl now s : Decision (expired ttl now s).
Proof. unfold expired. apply _. Defined.

Definition reapLocked (now : Z) (st : Store) : Store :=
  if decide (st_ttl st <= 0) then st
  else mkStore (filter (λ kv, ¬ expired (st_ttl st) now kv.2) (st_m st)) (st_ttl st).

(** 16 random bytes in hexadecimal. *)
Definition newID (random : string) : string := hex_encode random.

Definition Mint (reap_now now : Z) (random : string) (st : Store) : Store * Session :=
  let st := reapLocked reap_now st in
  let sess := mkSession (newID random) now now ∅ in
  (mkStore (<[s_ID sess := sess]> (st_m st)) (st_ttl st), sess).

Definition touch (now : Z) (s : Session) : Session :=
  mkSession (s_ID s) (s_created s) now (s_backendSID s).

Definition Get (reap_now now : Z) (id : string) (st : Store) : Store * option Session :=
  let st := reapLocked reap_now st in
  match st_m st !! id with
  | None => (st, None)
  | Some sess =>
      let sess := touch now sess in
      (mkStore (<[id := sess]> (st_m st)) (st_ttl st), Some sess)
  end.

Definition set_sid (now : Z) (backend sid : string) (s : Session) : Session :=
  mkSession (s_ID s) (s_created s) now (<[backend := sid]> (s_backendSID s)).

Definition SetBackendSID (now : Z) (proxySID backend backendSID : string) (st : Store) : Store :=
  match st_m st !! proxySID with
  | Some sess =>
      mkStore (<[proxySID := set_sid now backend backendSID sess]> (st_m st)) (st_ttl st)
  | None => st
  end.

Definition Delete (id : string) (st : Store) : Store * option Session :=
  match st_m st !! id with
  | None => (st, None)
  | Some sess => (mkStore (delete id (st_m st)) (st_ttl st), Some sess)
  end.

Definition Len (now : Z) (st : Store) : Store * nat :=
  let st := reapLocked now st in (st, size (st_m st)).

(** ** Reaping *)

Definition alive (st : Store) (now : Z) (s : Session) : Prop :=
  st_ttl st <= 0 ∨ ¬ expired (st_ttl st) now s.

#[export] Instance alive_dec st now s : Decision (alive st now s).
Proof. unfold alive. apply _. Defined.

Lemma reap_lookup now st id s :
  st_m (reapLocked now st) !! id = Some s ↔ st_m st !! id = Some s ∧ alive st now s.
Proof.
  unfold reapLocked, alive. case_decide as Httl; simpl.
  - naive_solver.
  - rewrite map_lookup_filter_Some. simpl. naive_solver.
Qed.

Lemma reap_ttl now st : st_ttl (reapLocked now st) = st_ttl st.
Proof. unfold reapLocked. by case_decide. Qed.

Lemma reap_lookup_eq now st id :
  st_m (reapLocked now st) !! id =
  s ← st_m st !! id; if decide (alive st now s) then Some s else None.
Proof.
  apply option_eq. intros s. rewrite reap_lookup.
  destruct (st_m st !! id) as [s'|]; simpl; [|naive_solver].
  case_decide; naive_solver.
Qed.

(** ** Which backend session a store holds for a session and a key *)

Definition session_sid (st : Store) (id backend : string) : option string :=
  s ← st_m st !! id; BackendSID s backend.

Lemma reap_sid now st id b v :
  session_sid (reapLocked now st) id b = Some v → session_sid st id b = Some v.
Proof.
  unfold session_sid. rewrite reap_lookup_eq.
  destruct (st_m st !! id) as [s|]; cbn; [|done]. by case_decide.
Qed.

Lemma Mint_sid r n rnd st id b v :
  session_sid (Mint r n rnd st).1 id b = Some v → session_sid st id b = Some v.
Proof.
  unfold session_sid at 1. cbn. destruct (decide (newID rnd = id)) as [<-|Hne].
  - by rewrite lookup_insert_eq.
  - rewrite lookup_insert_ne by done. apply reap_sid.
Qed.

Lemma Get_sid r n id st id' b v :
  session_sid (Get r n id st).1 id' b = Some v → session_sid st id' b = Some v.
Proof.
  unfold Get. destruct (st_m (reapLocked r st) !! id) as [s|] eqn:Hs; cbn [fst]; [|apply reap_sid].
  unfold session_sid at 1. cbn [st_m]. destruct (decide (id = id')) as [<-|Hne].
  - rewrite lookup_insert_eq. cbn. intros Hb. apply (reap_sid r). unfold session_sid.
    rewrite Hs. exact Hb.
  - rewrite lookup_insert_ne by done. apply reap_sid.
Qed.

Lemma Get_sid_result r n id st s b v :
  (Get r n id st).2 = Some s → BackendSID s b = Some v → session_sid st id b = Some v.
Proof.
  unfold Get. destruct (st_m (reapLocked r st) !! id) as [s'|] eqn:Hs; [|done].
  intros [= <-] Hb. apply (reap_sid r). unfold session_sid. rewrite Hs. exact Hb.
Qed.

Lemma SetBackendSID_sid n id b v st id' b' v' :
  session_sid (SetBackendSID n id b v st) id' b' = Some v' →
  session_sid st id' b' = Some v' ∨ (id' = id ∧ b' = b ∧ v' = v).
Proof.
  unfold SetBackendSID. destruct (st_m st !! id) as [s|] eqn:Hs; [|by left].
  unfold session_sid at 1. cbn [st_m]. destruct (decide (id = id')) as [<-|Hne].
  - rewrite lookup_insert_eq. cbn. unfold BackendSID. cbn. rewrite lookup_insert_Some.
    intros [[-> ->]|[_ Hb]]; [by right|left]. unfold session_sid. by rewrite Hs.
  - rewrite lookup_insert_ne by done. by left.
Qed.

Lemma Delete_sid id st id' b v :
  session_sid (Delete id st).1 id' b = Some v → session_sid st id' b = Some v.
Proof.
  unfold Delete. destruct (st_m st !! id) as [s|] eqn:Hs; [|done]. cbn.
  unfold session_sid. cbn. destruct (decide (id = id')) as [<-|Hne].
  - by rewrite lookup_delete_eq.
  - by rewrite lookup_delete_ne by done.
Qed.

Lemma Delete_sid_result id st s b v :
  (Delete id st).2 = Some s → BackendSID s b = Some v → session_sid st id b = Some v.
Proof.
  unfold Delete, session_sid. destruct (st_m st !! id) as [s'|]; [|done]. by intros [= ->].
Qed.

(** ** Operations as data: histories of the store *)

Inductive op :=
| OpMint (reap_now now : Z) (random : string)
| OpGet (reap_now now : Z) (id : string)
| OpSet (now : Z) (id backend sid : string)
| OpDelete (id : string)
| OpLen (now : Z).

Definition apply_op (st : Store) (o : op) : Store :=
  match o with
  | OpMint r n rnd => (Mint r n rnd st).1
  | OpGet r n id => (Get r n id st).1
  | OpSet n id b v => SetBackendSID n id b v st
  | OpDelete id => (Delete id st).1
  | OpLen n => (Len n st).1
  end.

Definition run_ops (st : Store) (ops : list op) : Store := foldl apply_op st ops.

(** ** Invariant: sessions are filed under their own id *)

Definition store_wf (st : Store) : Prop := ∀ id s, st_m st !! id = Some s → s_ID s = id.

Lemma reap_wf now st : store_wf st → store_wf (reapLocked now st).
Proof. intros Hwf id s [Hs _]%reap_lookup. by apply Hwf. Qed.

Lemma apply_op_wf st o : store_wf st → store_wf (apply_op st o).
Proof.
  intros Hwf. destruct o as [r n rnd|r n id|n id b v|id|n]; simpl.
  - intros id s. simpl. rewrite lookup_insert_Some.
    intros [[<- <-]|[_ Hs]]; [done|]. by apply (reap_wf r st Hwf id s).
  - unfold Get. destruct (st_m (reapLocked r st) !! id) as [s|] eqn:Hs; simpl;
      [|by apply reap_wf].
    intros id' s'. simpl. rewrite lookup_insert_Some.
    intros [[<- <-]|[_ Hs']]; [exact (reap_wf r st Hwf _ _ Hs)|exact (reap_wf r st Hwf _ _ Hs')].
  - unfold SetBackendSID. destruct (st_m st !! id) as [s|] eqn:Hs; [|done].
    intros id' s'. simpl. rewrite lookup_insert_Some. intros [[<- <-]|[_ Hs']]; [exact (Hwf _ _ Hs)|exact (Hwf _ _ Hs')].
  - unfold Delete. destruct (st_m st !! id) as [s|]; [|done].
    intros id' s'. simpl. rewrite lookup_delete_Some. intros [_ ?]. by apply Hwf.
  - by apply reap_wf.
Qed.

Lemma run_ops_wf st ops : store_wf st → store_wf (run_ops st ops).
Proof.
  revert st. induction ops as [|o ops IH]; intros st Hwf; [done|].
  apply IH. by apply apply_op_wf.
Qed.

(** ** Specification: a map from session id to backend sessions, no expiry *)

Abbreviation sessions_spec := (gmap string (gmap string string)).

Definition spec_op (m : sessions_spec) (o : op) : sessions_spec :=
  match o with
  | OpMint _ _ rnd => <[newID rnd := ∅]> m
  | OpGet _ _ _ | OpLen _ => m
  | OpSet _ id b v => alter (insert b v) id m
  | OpDelete id => delete id m
  end.

Definition spec_run (m : sessions_spec) (ops : list op) : sessions_spec := foldl spec_op m ops.

Definition abstraction (st : Store) : sessions_spec := s_backendSID <$> st_m st.

Lemma abstraction_reap now st : abstraction (reapLocked now st) ⊆ abstraction st.
Proof.
  apply map_subseteq_spec. intros id m. unfold abstraction.
  rewrite !lookup_fmap, !fmap_Some. intros (s & [Hs _]%reap_lookup & ->). eauto.
Qed.

Lemma abstraction_reap_no_ttl now st :
  st_ttl st <= 0 → abstraction (reapLocked now st) = abstraction st.
Proof. intros. unfold reapLocked. by rewrite decide_True. Qed.

(** One operation, in terms of the store after the reap it may start with. *)
Definition reaps (o : op) (st : Store) : Store :=
  match o with
  | OpMint r _ _ | OpGet r _ _ | OpLen r => reapLocked r st
  | OpSet _ _ _ _ | OpDelete _ => st
  end.

Lemma abstraction_op st o :
  abstraction (apply_op st o) = spec_op (abstraction (reaps o st)) o.
Proof.
  destruct o as [r n rnd|r n id|n id b v|id|n]; unfold abstraction; simpl.
  - by rewrite fmap_insert.
  - unfold Get. destruct (st_m (reapLocked r st) !! id) as [s|] eqn:Hs; [|done]; simpl.
    rewrite fmap_insert. apply insert_id. by rewrite lookup_fmap, Hs.
  - unfold SetBackendSID. destruct (st_m st !! id) as [s|] eqn:Hs.
    + simpl. rewrite fmap_insert. simpl.
      apply map_eq. intros j. destruct (decide (id = j)) as [<-|Hne].
      * by rewrite lookup_insert_eq, lookup_alter_eq, lookup_fmap, Hs.
      * by rewrite lookup_insert_ne, lookup_alter_ne by done.
    + symmetry. apply map_eq. intros j. destruct (decide (id = j)) as [<-|Hne].
      * by rewrite lookup_alter_eq, lookup_fmap, Hs.
      * by rewrite lookup_alter_ne by done.
  - unfold Delete. destruct (st_m st !! id) as [s|] eqn:Hs; simpl.
    + by rewrite fmap_delete.
    + rewrite delete_id; [done|]. by rewrite lookup_fmap, Hs.
  - done.
Qed.

Lemma spec_op_mono m1 m2 o : m1 ⊆ m2 → spec_op m1 o ⊆ spec_op m2 o.
Proof.
  rewrite !map_subseteq_spec. intros Hsub.
  destruct o as [r n rnd|r n id|n id b v|id|n]; simpl; try done; intros j x.
  - rewrite !lookup_insert_Some. naive_solver.
  - rewrite !lookup_alter_Some. naive_solver.
  - rewrite !lookup_delete_Some. naive_solver.
Qed.

Lemma abstraction_op_sub st o : abstraction (apply_op st o) ⊆ spec_op (abstraction st) o.
Proof.
  rewrite abstraction_op. apply spec_op_mono.
  destruct o; simpl; (apply abstraction_reap || done).
Qed.

Lemma apply_op_ttl st o : st_ttl (apply_op st o) = st_ttl st.
Proof.
  destruct o as [r n rnd|r n id|n id b v|id|n]; simpl; rewrite ?reap_ttl; try done.
  - unfold Get. destruct (_ !! _); simpl; apply reap_ttl.
  - unfold SetBackendSID. by destruct (_ !! _).
  - unfold Delete. by destruct (_ !! _).
Qed.

Lemma abstraction_run_sub st m ops :
  abstraction st ⊆ m → abstraction (run_ops st ops) ⊆ spec_run m ops.
Proof.
  revert st m. induction ops as [|o ops IH]; intros st m Hsub; [done|].
  apply IH. etrans; [apply abstraction_op_sub|]. by apply spec_op_mono.
Qed.

Lemma abstraction_run_no_ttl st ops :
  st_ttl st <= 0 → abstraction (run_ops st ops) = spec_run (abstraction st) ops.
Proof.
  revert st. induction ops as [|o ops IH]; intros st Httl; [done|].
  cbn [run_ops spec_run foldl]. fold (run_ops (apply_op st o) ops).
  rewrite IH by by rewrite apply_op_ttl. unfold spec_run. f_equal.
  rewrite abstraction_op. destruct o; simpl; by rewrite ?abstraction_reap_no_ttl.
Qed.

(** ** A session in use is kept *)

(** The operation neither deletes the session nor mints its id again, and the
    reap it may start with reads the clock at most [ttl] after [t]. *)
Definition keeps (ttl t : Z) (id : string) (o : op) : Prop :=
  match o with
  | OpMint r _ rnd => newID rnd ≠ id ∧ r <= t + ttl
  | OpGet r n _ => r <= t + ttl ∧ t <= n
  | OpSet n _ _ _ => t <= n
  | OpDelete id' => id' ≠ id
  | OpLen r => r <= t + ttl
  end.

(** The time of the last use after an operation. *)
Definition used_at (id : string) (t : Z) (o : op) : Z :=
  match o with
  | OpGet _ n id' | OpSet n id' _ _ => if decide (id' = id) then n else t
  | _ => t
  end.

Fixpoint all_keep (ttl t : Z) (id : string) (ops : list op) : Prop :=
  match ops with
  | [] => True
  | o :: ops => keeps ttl t id o ∧ all_keep ttl (used_at id t o) id ops
  end.

Lemma alive_within st now s : now <= s_lastSeen s + st_ttl st → alive st now s.
Proof. intros. right. unfold expired. lia. Qed.

Lemma keeps_step st o id s :
  st_m st !! id = Some s → keeps (st_ttl st) (s_lastSeen s) id o →
  ∃ s', st_m (apply_op st o) !! id = Some s' ∧ s_lastSeen s' = used_at id (s_lastSeen s) o.
Proof.
  intros Hs Hk. destruct o as [r n rnd|r n id'|n id' b v|id'|r]; simpl in *.
  - destruct Hk as [Hne Hr]. exists s. split; [|done]. rewrite lookup_insert_ne by done.
    apply reap_lookup. split; [done|]. by apply alive_within.
  - destruct Hk as [Hr Hn].
    assert (st_m (reapLocked r st) !! id = Some s) as Hreap.
    { apply reap_lookup. split; [done|]. by apply alive_within. }
    unfold Get. case_decide as Hid.
    + subst id'. rewrite Hreap. exists (touch n s). simpl. by rewrite lookup_insert_eq.
    + exists s. destruct (_ !! id'); simpl; [|done]. by rewrite lookup_insert_ne.
  - unfold SetBackendSID. case_decide as Hid.
    + subst id'. rewrite Hs. exists (set_sid n b v s). simpl. by rewrite lookup_insert_eq.
    + exists s. destruct (_ !! id'); simpl; [|done]. by rewrite lookup_insert_ne.
  - exists s. split; [|done]. unfold Delete. destruct (_ !! id'); simpl; [|done].
    by rewrite lookup_delete_ne.
  - exists s. split; [|done]. apply reap_lookup. split; [done|]. by apply alive_within.
Qed.

Lemma all_keep_run st ops id s :
  st_m st !! id = Some s → all_keep (st_ttl st) (s_lastSeen s) id ops →
  is_Some (st_m (run_ops st ops) !! id).
Proof.
  revert st s. induction ops as [|o ops IH]; intros st s Hs Hk; [by eexists|].
  destruct Hk as [Ho Hk]. destruct (keeps_step st o id s Hs Ho) as (s' & Hs' & Ht).
  apply (IH (apply_op st o) s' Hs'). by rewrite apply_op_ttl, Ht.
Qed.

(** ** Theorems *)

(** C27: the store refines a plain map from session id to backend sessions: over
    any history of operations it never holds a backend session id the history did
    not record for that session, and with reaping disabled ([ttl <= 0]) it holds
    exactly what the history recorded. *)
Theorem store_refines ttl ops :
  abstraction (run_ops (NewStore ttl) ops) ⊆ spec_run ∅ ops ∧
  (ttl <= 0 → abstraction (run_ops (NewStore ttl) ops) = spec_run ∅ ops).
Proof.
  split.
  - by apply abstraction_run_sub.
  - intros Httl. by rewrite abstraction_run_no_ttl.
Qed.

(** [Get] finds exactly the sessions that are present and not idle longer
    than the TTL, returns them refreshed, and leaves of the other sessions
    exactly those not expired. *)
Theorem Get_correct reap_now now id st :
  (∀ s', (Get reap_now now id st).2 = Some s' ↔
     ∃ s, st_m st !! id = Some s ∧ alive st reap_now s ∧ s' = touch now s) ∧
  (∀ id' s', id' ≠ id →
     st_m (Get reap_now now id st).1 !! id' = Some s' ↔
     st_m st !! id' = Some s' ∧ alive st reap_now s') ∧
  st_m (Get reap_now now id st).1 !! id = (Get reap_now now id st).2.
Proof.
  unfold Get. destruct (st_m (reapLocked reap_now st) !! id) as [s|] eqn:Hs; simpl.
  - split_and!.
    + intros s'. apply reap_lookup in Hs as [Hs Ha]. naive_solver.
    + intros id' s' Hne. rewrite lookup_insert_ne by done. apply reap_lookup.
    + apply lookup_insert_eq.
  - split_and!; [|intros id' s' _; apply reap_lookup|done].
    intros s'. split; [done|]. intros (s & Hm & Ha & _).
    rewrite (proj2 (reap_lookup _ _ _ _)) in Hs by done. done.
Qed.

(** C29: a session in use is never lost: as long as every reap reads the clock
    within the TTL of the session's last use (and nobody deletes it or mints its
    id again), it is still in the store after any history. *)
Theorem session_in_use_kept st ops id s :
  st_m st !! id = Some s → all_keep (st_ttl st) (s_lastSeen s) id ops →
  is_Some (st_m (run_ops st ops) !! id).
Proof. apply all_keep_run. Qed.

Definition store_ex : Store := mkStore {["s" := mkSession "s" 0 0 ∅]} 10.
Definition ops_ex : list op := [OpGet 8 9 "s"; OpLen 18; OpSet 18 "s" "t" "b"; OpGet 28 28 "s"].

Lemma session_in_use_kept_witness :
  all_keep 10 0 "s" ops_ex ∧ is_Some (st_m (run_ops store_ex ops_ex) !! "s").
Proof.
  assert (all_keep 10 0 "s" ops_ex) as Hk by (vm_compute; intuition discriminate).
  split; [exact Hk|].
  apply (session_in_use_kept store_ex ops_ex "s" (mkSession "s" 0 0 ∅)); [reflexivity|exact Hk].
Defined.

(** [Mint] files a fresh empty session under the hexadecimal of its random
    bytes (two digits each); different random bytes give different ids, and no
    other session is disturbed beyond the reap. *)
Theorem Mint_correct reap_now now random st :
  let '(st', s) := Mint reap_now now random st in
  st_m st' !! s_ID s = Some s ∧ s_backendSID s = ∅ ∧
  String.length (s_ID s) = (2 * String.length random)%nat ∧
  (∀ random', s_ID s = newID random' → random' = random) ∧
  (∀ id s', id ≠ s_ID s →
     st_m st' !! id = Some s' ↔ st_m st !! id = Some s' ∧ alive st reap_now s').
Proof.
  simpl. split_and!; [apply lookup_insert_eq|done|apply hex_encode_length| |].
  - intros r' Heq. symmetry. by apply hex_encode_inj.
  - intros id s' Hne. rewrite lookup_insert_ne by done. apply reap_lookup.
Qed.
