(* ===== verification/Cells.v ===== *)
(** * internal/session by reference: sessions the handlers point to

    [Get], [Mint] and [Delete] return a pointer to the stored [Session], and a
    handler reads it after the mutex is released. Here the map holds indexes
    into a list of cells, every operation changes the cell it names in place, and
    a theorem relates the operations to those of [Session.v]. *)

From Stdlib Require Import Ascii.
From stdpp Require Import base numbers option pretty gmap fin_maps sorting strings list.
From S2P Require Import Prelude GoStrings Session.

#[local] Open Scope Z_scope.
#[local] Set Warnings "-clear-no-such-hyp".

(** [ps_cells]: every session ever minted; a removed one keeps its cell, since
    goroutines may still point to it. *)
Record PStore := mkPStore {
  ps_m : gmap string nat;
  ps_cells : list Session;
  ps_ttl : Z }.

Definition p_NewStore (idleTTL : Z) : PStore := mkPStore ∅ [] idleTTL.

(** The pointer is filed under this id and its session is idle past the TTL. *)
Definition p_expired (st : PStore) (now : Z) (kp : string * nat) : Prop :=
  ∃ s, ps_cells st !! kp.2 = Some s ∧ expired (ps_ttl st) now s.

#[export] Instance p_expired_dec st now kp : Decision (p_expired st now kp).
Proof.
  destruct (ps_cells st !! kp.2) as [s|] eqn:Hs.
  - destruct (decide (expired (ps_ttl st) now s)) as [He|He].
    + left. by exists s.
    + right. intros (s' & Hs' & He'). rewrite Hs in Hs'. by injection Hs' as ->.
  - right. intros (s' & Hs' & _). by rewrite Hs in Hs'.
Defined.

Definition p_reapLocked (now : Z) (st : PStore) : PStore :=
  if decide (ps_ttl st <= 0) then st
  else mkPStore (filter (λ kp, ¬ p_expired st now kp) (ps_m st)) (ps_cells st) (ps_ttl st).

Definition p_Mint (reap_now now : Z) (random : string) (st : PStore) : PStore * nat :=
  let st := p_reapLocked reap_now st in
  let sess := mkSession (newID random) now now ∅ in
  (mkPStore (<[s_ID sess := length (ps_cells st)]> (ps_m st)) (ps_cells st ++ [sess]) (ps_ttl st),
   length (ps_cells st)).

Definition p_Get (reap_now now : Z) (id : string) (st : PStore) : PStore * option nat :=
  let st := p_reapLocked reap_now st in
  match ps_m st !! id with
  | None => (st, None)
  | Some p => (mkPStore (ps_m st) (alter (touch now) p (ps_cells st)) (ps_ttl st), Some p)
  end.

Definition p_SetBackendSID (now : Z) (proxySID backend backendSID : string) (st : PStore) : PStore :=
  match ps_m st !! proxySID with
  | Some p => mkPStore (ps_m st) (alter (set_sid now backend backendSID) p (ps_cells st)) (ps_ttl st)
  | None => st
  end.

Definition p_Delete (id : string) (st : PStore) : PStore * option nat :=
  match ps_m st !! id with
  | None => (st, None)
  | Some p => (mkPStore (delete id (ps_m st)) (ps_cells st) (ps_ttl st), Some p)
  end.

Definition p_Len (now : Z) (st : PStore) : PStore * nat :=
  let st := p_reapLocked now st in (st, size (ps_m st)).

(** [sess.BackendSID(backend)] through a pointer: what the cell holds by then. *)
Definition p_BackendSID (st : PStore) (p : nat) (backend : string) : option string :=
  ps_cells st !! p ≫= λ s, BackendSID s backend.

(** [sess.ID] through a pointer. *)
Definition p_ID (st : PStore) (p : nat) : string := from_option s_ID "" (ps_cells st !! p).

(** ** The sessions a store denotes *)

Definition deref_store (st : PStore) : Store :=
  mkStore (omap (λ p, ps_cells st !! p) (ps_m st)) (ps_ttl st).

(** Pointers are valid and no two ids share a session. *)
Record pstore_wf (st : PStore) : Prop := {
  pw_valid : ∀ id p, ps_m st !! id = Some p → is_Some (ps_cells st !! p);
  pw_inj : ∀ id id' p, ps_m st !! id = Some p → ps_m st !! id' = Some p → id = id' }.

Lemma deref_lookup st id :
  st_m (deref_store st) !! id = ps_m st !! id ≫= λ p, ps_cells st !! p.
Proof. apply lookup_omap. Qed.

Lemma deref_lookup_Some st id s :
  st_m (deref_store st) !! id = Some s ↔ ∃ p, ps_m st !! id = Some p ∧ ps_cells st !! p = Some s.
Proof. rewrite deref_lookup. apply bind_Some. Qed.

Lemma deref_None st id :
  pstore_wf st → ps_m st !! id = None ↔ st_m (deref_store st) !! id = None.
Proof.
  intros Hwf. rewrite deref_lookup. destruct (ps_m st !! id) as [p|] eqn:Hp; [|done].
  destruct (pw_valid _ Hwf _ _ Hp) as [s Hs]. cbn. by rewrite Hs.
Qed.

(** Two stores agree when their maps do and they share the TTL. *)
Lemma store_eq (st st' : Store) :
  (∀ id, st_m st !! id = st_m st' !! id) → st_ttl st = st_ttl st' → st = st'.
Proof. destruct st, st'. cbn. intros Hm ->. f_equal. by apply map_eq. Qed.

(** Changing one cell changes the one session filed under it. *)
Lemma deref_alter st f p id :
  pstore_wf st → ps_m st !! id = Some p →
  deref_store (mkPStore (ps_m st) (alter f p (ps_cells st)) (ps_ttl st)) =
  mkStore (alter f id (st_m (deref_store st))) (ps_ttl st).
Proof.
  intros Hwf Hp. apply store_eq; [|done]. intros id'. rewrite deref_lookup. cbn [ps_m ps_cells st_m].
  destruct (decide (id = id')) as [<-|Hne].
  - rewrite lookup_alter_eq, deref_lookup, Hp. cbn. by rewrite list_lookup_alter_eq.
  - rewrite lookup_alter_ne, deref_lookup by done.
    destruct (ps_m st !! id') as [p'|] eqn:Hp'; [|done]. cbn.
    rewrite list_lookup_alter_ne; [done|]. intros <-. apply Hne. by eapply pw_inj.
Qed.

Lemma alter_insert_lookup {A} (f : A → A) (m : gmap string A) id s :
  m !! id = Some s → alter f id m = <[id := f s]> m.
Proof.
  intros Hs. apply map_eq. intros id'. destruct (decide (id = id')) as [<-|Hne].
  - by rewrite lookup_alter_eq, lookup_insert_eq, Hs.
  - by rewrite lookup_alter_ne, lookup_insert_ne.
Qed.

Lemma wf_alter st f p : pstore_wf st → pstore_wf (mkPStore (ps_m st) (alter f p (ps_cells st)) (ps_ttl st)).
Proof.
  intros [Hv Hi]. split; [|exact Hi]. cbn. intros id p' Hp'. apply lookup_lt_is_Some.
  rewrite length_alter. apply lookup_lt_is_Some. by eapply Hv.
Qed.

Lemma wf_reap now st : pstore_wf st → pstore_wf (p_reapLocked now st).
Proof.
  intros [Hv Hi]. unfold p_reapLocked. case_decide; [done|].
  split; cbn; [intros id p|intros id id' p]; rewrite !map_lookup_filter_Some; naive_solver.
Qed.

Lemma wf_delete id st : pstore_wf st → pstore_wf (mkPStore (delete id (ps_m st)) (ps_cells st) (ps_ttl st)).
Proof.
  intros [Hv Hi]. split; cbn; [intros id' p|intros id1 id2 p]; rewrite !lookup_delete_Some; naive_solver.
Qed.

(** ** Each operation refines its counterpart on values *)

Lemma deref_reap now st : deref_store (p_reapLocked now st) = reapLocked now (deref_store st).
Proof.
  apply store_eq; [|by rewrite reap_ttl; unfold p_reapLocked; case_decide].
  intros id. rewrite reap_lookup_eq, !deref_lookup. unfold p_reapLocked, alive.
  cbn [st_ttl deref_store]. case_decide as Httl.
  - destruct (ps_m st !! id ≫= _) as [s|]; [|done]. cbn. rewrite decide_True; [done|by left].
  - cbn [ps_m ps_cells]. rewrite map_lookup_filter. destruct (ps_m st !! id) as [p|]; [|done]. cbn.
    destruct (ps_cells st !! p) as [s|] eqn:Hs; cbn.
    + case_guard as Hg; cbn; rewrite ?Hs; cbn.
      * rewrite decide_True; [done|]. right. intros He. apply Hg. by exists s.
      * rewrite decide_False; [done|]. intros [?|He]; [done|].
        destruct Hg as (s' & Hs' & ?). cbn in Hs'. rewrite Hs in Hs'. by injection Hs' as <-.
    + by case_guard; cbn; rewrite ?Hs.
Qed.

Lemma p_Mint_spec r n rnd st :
  pstore_wf st →
  let '(st', p) := p_Mint r n rnd st in
  Mint r n rnd (deref_store st) = (deref_store st', default (mkSession "" 0 0 ∅) (ps_cells st' !! p)) ∧
  ps_cells st' !! p = Some (mkSession (newID rnd) n n ∅) ∧ pstore_wf st'.
Proof.
  intros Hwf. unfold p_Mint, Mint. rewrite <- deref_reap. set (st1 := p_reapLocked r st).
  assert (pstore_wf st1) as Hwf1 by (by apply wf_reap). clearbody st1. cbn [ps_cells s_ID].
  assert ((ps_cells st1 ++ [mkSession (newID rnd) n n ∅]) !! length (ps_cells st1) =
          Some (mkSession (newID rnd) n n ∅)) as Hnew by (by rewrite lookup_app_r, Nat.sub_diag).
  assert (∀ id p, ps_m st1 !! id = Some p → (p < length (ps_cells st1))%nat) as Hlt.
  { intros id p Hp. apply lookup_lt_is_Some. by eapply pw_valid. }
  rewrite Hnew. split_and!; [|done|].
  - f_equal. apply store_eq; [|done]. intros id. rewrite deref_lookup. cbn [st_m ps_m ps_cells].
    destruct (decide (newID rnd = id)) as [<-|Hne].
    + rewrite !lookup_insert_eq. cbn. by rewrite Hnew.
    + rewrite !lookup_insert_ne, deref_lookup by done.
      destruct (ps_m st1 !! id) as [p|] eqn:Hp; [|done]. cbn. rewrite lookup_app_l; [done|]. by eapply Hlt.
  - split; cbn.
    + intros id p [[<- <-]|[_ Hp]]%lookup_insert_Some; [by rewrite Hnew|].
      apply lookup_lt_is_Some. rewrite length_app. apply Hlt in Hp. lia.
    + intros id id' p. rewrite !lookup_insert_Some.
      intros [[<- <-]|[? Hp]] [[<- Hq]|[? Hp']]; try done.
      * apply Hlt in Hp'. lia.
      * apply Hlt in Hp. lia.
      * by eapply pw_inj.
Qed.

Lemma p_Get_spec r n id st :
  pstore_wf st →
  let '(st', o) := p_Get r n id st in
  (Get r n id (deref_store st)).1 = deref_store st' ∧
  (Get r n id (deref_store st)).2 = (p ← o; ps_cells st' !! p) ∧
  (∀ p, o = Some p → is_Some (ps_cells st' !! p)) ∧ pstore_wf st'.
Proof.
  intros Hwf. unfold p_Get, Get. rewrite <- deref_reap. set (st1 := p_reapLocked r st).
  assert (pstore_wf st1) as Hwf1 by (by apply wf_reap). clearbody st1.
  destruct (ps_m st1 !! id) as [p|] eqn:Hp.
  - destruct (pw_valid _ Hwf1 _ _ Hp) as [s Hs].
    assert (st_m (deref_store st1) !! id = Some s) as Hl by (apply deref_lookup_Some; by exists p).
    rewrite Hl. cbn [fst snd mbind option_bind ps_cells]. rewrite list_lookup_alter_eq, Hs. cbn.
    split_and!; [|done|by intros ? [= <-]; rewrite list_lookup_alter_eq, Hs|by apply wf_alter].
    rewrite (deref_alter _ _ _ _ Hwf1 Hp). by rewrite (alter_insert_lookup _ _ _ _ Hl).
  - pose proof Hp as Hl%(deref_None _ _ Hwf1). rewrite Hl. by split_and!.
Qed.

Lemma p_SetBackendSID_spec n id b v st :
  pstore_wf st →
  SetBackendSID n id b v (deref_store st) = deref_store (p_SetBackendSID n id b v st) ∧
  pstore_wf (p_SetBackendSID n id b v st).
Proof.
  intros Hwf. unfold p_SetBackendSID, SetBackendSID. destruct (ps_m st !! id) as [p|] eqn:Hp.
  - destruct (pw_valid _ Hwf _ _ Hp) as [s Hs].
    assert (st_m (deref_store st) !! id = Some s) as Hl by (apply deref_lookup_Some; by exists p).
    rewrite Hl. split; [|by apply wf_alter].
    rewrite (deref_alter _ _ _ _ Hwf Hp). by rewrite (alter_insert_lookup _ _ _ _ Hl).
  - pose proof Hp as Hl%(deref_None _ _ Hwf). by rewrite Hl.
Qed.

Lemma p_Delete_spec id st :
  pstore_wf st →
  let '(st', o) := p_Delete id st in
  (Delete id (deref_store st)).1 = deref_store st' ∧
  (Delete id (deref_store st)).2 = (p ← o; ps_cells st' !! p) ∧
  (∀ p, o = Some p → is_Some (ps_cells st' !! p)) ∧ pstore_wf st'.
Proof.
  intros Hwf. unfold p_Delete, Delete. destruct (ps_m st !! id) as [p|] eqn:Hp.
  - destruct (pw_valid _ Hwf _ _ Hp) as [s Hs].
    assert (st_m (deref_store st) !! id = Some s) as Hl by (apply deref_lookup_Some; by exists p).
    rewrite Hl. cbn [fst snd mbind option_bind ps_cells]. rewrite Hs.
    split_and!; [|done|by intros ? [= <-]; rewrite Hs|by apply wf_delete].
    apply store_eq; [|done]. intros id'. rewrite deref_lookup. cbn [st_m ps_m ps_cells].
    destruct (decide (id = id')) as [<-|Hne]; [by rewrite !lookup_delete_eq|].
    by rewrite !lookup_delete_ne, deref_lookup.
  - pose proof Hp as Hl%(deref_None _ _ Hwf). rewrite Hl. by split_and!.
Qed.

Lemma wf_new ttl : pstore_wf (p_NewStore ttl).
Proof. split; cbn; [intros ? ?|intros ? ? ?]; by rewrite lookup_empty. Qed.

Lemma deref_new ttl : deref_store (p_NewStore ttl) = NewStore ttl.
Proof. apply store_eq; [|done]. intros id. rewrite deref_lookup. cbn. by rewrite !lookup_empty. Qed.

(** ** What a pointer shows over time

    A cell never moves, and what it holds for a key only changes by
    [SetBackendSID]; every value it ever shows was set for its session's key. *)

Definition cells_hold (P : string → string → Prop) (st : PStore) : Prop :=
  Forall (λ s, ∀ b v, BackendSID s b = Some v → P b v) (ps_cells st).

Lemma cells_hold_alter (P : string → string → Prop) f p (l : list Session) :
  (∀ s b v, (∀ b v, BackendSID s b = Some v → P b v) → BackendSID (f s) b = Some v → P b v) →
  Forall (λ s, ∀ b v, BackendSID s b = Some v → P b v) l →
  Forall (λ s, ∀ b v, BackendSID s b = Some v → P b v) (alter f p l).
Proof.
  intros Hf Hl. apply Forall_lookup. intros i s Hs.
  destruct (decide (p = i)) as [<-|Hne].
  - rewrite list_lookup_alter_eq in Hs. apply fmap_Some in Hs as (s' & Hs' & ->).
    intros b v. apply Hf. exact (Forall_lookup_1 _ _ _ _ Hl Hs').
  - rewrite list_lookup_alter_ne in Hs by done. exact (Forall_lookup_1 _ _ _ _ Hl Hs).
Qed.

Lemma cells_hold_reap P now st : cells_hold P st → cells_hold P (p_reapLocked now st).
Proof. unfold p_reapLocked. by case_decide. Qed.

Lemma cells_hold_Mint P r n rnd st : cells_hold P st → cells_hold P (p_Mint r n rnd st).1.
Proof.
  intros Hst%(cells_hold_reap P r). unfold p_Mint, cells_hold in *. cbn [fst ps_cells]. apply Forall_app.
  split; [exact Hst|]. constructor; [|constructor]. intros b v. unfold BackendSID. cbn. by rewrite lookup_empty.
Qed.

Lemma cells_hold_Get P r n id st : cells_hold P st → cells_hold P (p_Get r n id st).1.
Proof.
  intros Hst%(cells_hold_reap P r). unfold p_Get. destruct (ps_m _ !! id); [|exact Hst].
  apply cells_hold_alter; [|exact Hst]. intros s b v Hs Hb. by apply Hs.
Qed.

Lemma cells_hold_Set (P : string → string → Prop) n id b v st :
  P b v → cells_hold P st → cells_hold P (p_SetBackendSID n id b v st).
Proof.
  intros HP Hst. unfold p_SetBackendSID. destruct (ps_m st !! id); [|exact Hst].
  apply cells_hold_alter; [|exact Hst]. intros s b' v' Hs. unfold BackendSID. cbn.
  intros [[<- <-]|[_ Hb]]%lookup_insert_Some; [done|by apply Hs].
Qed.

Lemma cells_hold_Delete P id st : cells_hold P st → cells_hold P (p_Delete id st).1.
Proof. unfold p_Delete. by destruct (ps_m st !! id). Qed.

Lemma p_BackendSID_holds P st p b v :
  cells_hold P st → p_BackendSID st p b = Some v → P b v.
Proof.
  intros Hst Hb. apply bind_Some in Hb as (s & Hs & Hb). exact (Forall_lookup_1 _ _ _ _ Hst Hs b v Hb).
Qed.

Lemma cells_hold_mono (P Q : string → string → Prop) st :
  (∀ b v, P b v → Q b v) → cells_hold P st → cells_hold Q st.
Proof. intros HPQ Hst. eapply Forall_impl; [exact Hst|]. cbn. auto. Qed.

(** ** Histories *)

(** What an operation hands back, as a value or through a pointer. *)
Inductive answer (A : Type) := AnsNone | AnsCount (n : nat) | AnsSession (s : option A).
Arguments AnsNone {A}.
Arguments AnsCount {A}.
Arguments AnsSession {A}.

Definition call_op (st : Store) (o : op) : Store * answer Session :=
  match o with
  | OpMint r n rnd => let '(st, s) := Mint r n rnd st in (st, AnsSession (Some s))
  | OpGet r n id => let '(st, s) := Get r n id st in (st, AnsSession s)
  | OpSet n id b v => (SetBackendSID n id b v st, AnsNone)
  | OpDelete id => let '(st, s) := Delete id st in (st, AnsSession s)
  | OpLen n => let '(st, n) := Len n st in (st, AnsCount n)
  end.

Definition p_call_op (st : PStore) (o : op) : PStore * answer nat :=
  match o with
  | OpMint r n rnd => let '(st, p) := p_Mint r n rnd st in (st, AnsSession (Some p))
  | OpGet r n id => let '(st, p) := p_Get r n id st in (st, AnsSession p)
  | OpSet n id b v => (p_SetBackendSID n id b v st, AnsNone)
  | OpDelete id => let '(st, p) := p_Delete id st in (st, AnsSession p)
  | OpLen n => let '(st, n) := p_Len n st in (st, AnsCount n)
  end.

Definition p_run (st : PStore) (ops : list op) : PStore := foldl (λ st o, (p_call_op st o).1) st ops.

(** The answer read through its pointer. *)
Definition deref_answer (st : PStore) (a : answer nat) : answer Session :=
  match a with
  | AnsNone => AnsNone
  | AnsCount n => AnsCount n
  | AnsSession o => AnsSession (p ← o; ps_cells st !! p)
  end.

Lemma call_op_state st o : (call_op st o).1 = apply_op st o.
Proof.
  destruct o; cbn; [done| |done| |done].
  - by destruct (Get _ _ _ _).
  - by destruct (Delete _ _).
Qed.

Lemma deref_size st : pstore_wf st → size (st_m (deref_store st)) = size (ps_m st).
Proof.
  intros Hwf. rewrite <- !size_dom. f_equal. apply set_eq. intros id.
  rewrite !elem_of_dom, deref_lookup. split.
  - intros [s (p & Hp & _)%bind_Some]. by eexists.
  - intros [p Hp]. rewrite Hp. cbn. by eapply pw_valid.
Qed.

Lemma p_call_op_spec st o :
  pstore_wf st →
  call_op (deref_store st) o = (deref_store (p_call_op st o).1, deref_answer (p_call_op st o).1 (p_call_op st o).2) ∧
  pstore_wf (p_call_op st o).1.
Proof.
  intros Hwf. destruct o as [r n rnd|r n id|n id b v|id|n]; cbn [call_op p_call_op].
  - pose proof (p_Mint_spec r n rnd st Hwf) as Hs. destruct (p_Mint r n rnd st) as [st' p].
    destruct Hs as (-> & Hp & Hwf'). cbn. by rewrite Hp.
  - pose proof (p_Get_spec r n id st Hwf) as Hs. destruct (p_Get r n id st) as [st' p].
    destruct Hs as (H1 & H2 & _ & Hwf'). destruct (Get _ _ _ _). cbn in *. by subst.
  - destruct (p_SetBackendSID_spec n id b v st Hwf) as [-> Hwf']. done.
  - pose proof (p_Delete_spec id st Hwf) as Hs. destruct (p_Delete id st) as [st' p].
    destruct Hs as (H1 & H2 & _ & Hwf'). destruct (Delete _ _). cbn in *. by subst.
  - unfold p_Len, Len. rewrite <- deref_reap.
    pose proof (wf_reap n st Hwf) as Hwf'. rewrite deref_size by done. by split.
Qed.

Lemma p_run_spec ops st :
  pstore_wf st → deref_store (p_run st ops) = run_ops (deref_store st) ops ∧ pstore_wf (p_run st ops).
Proof.
  revert st. induction ops as [|o ops IH]; intros st Hwf; [done|]. cbn.
  destruct (p_call_op_spec st o Hwf) as [Heq Hwf'].
  rewrite <- call_op_state, Heq. cbn. by apply IH.
Qed.

(** ** Theorems *)

(** C28: sessions shared by pointer behave as the sessions of [Session.v]: after
    any history from an empty store the pointers are valid and no two ids share a
    session, the store denotes the one the history builds on values, every
    operation answers with a pointer to what it answers there, and a handler that
    reads through a pointer the store holds sees what was last set for its session,
    whenever the pointer was handed out. *)
Theorem pointer_store_refines ttl ops o :
  let st := p_run (p_NewStore ttl) ops in
  let v := run_ops (NewStore ttl) ops in
  pstore_wf st ∧
  deref_store st = v ∧
  call_op v o = (deref_store (p_call_op st o).1, deref_answer (p_call_op st o).1 (p_call_op st o).2) ∧
  (∀ id p backend, ps_m st !! id = Some p → p_BackendSID st p backend = session_sid v id backend).
Proof.
  cbv zeta. destruct (p_run_spec ops (p_NewStore ttl) (wf_new ttl)) as [Heq Hwf].
  rewrite deref_new in Heq. rewrite <- Heq. split_and!; [done|done|by apply p_call_op_spec|].
  intros id p backend Hp. unfold p_BackendSID, session_sid. by rewrite deref_lookup, Hp.
Qed.
