(* ===== verification/Http.v ===== *)
(** * The parts of [net/http] the proxy uses, and the effects of a handler

    Header maps, outgoing requests and the backends' answers, the response
    writer, and the state monad handlers run in. *)

From Stdlib Require Import Ascii.
From stdpp Require Import base numbers option pretty gmap fin_maps sorting strings list.
From S2P Require Import Prelude GoStrings Registry.

#[local] Open Scope nat_scope.

(** ** Header maps

    [http.Header] with one value per key, which is all [Set] and [Get] see. *)

Abbreviation Header := (gmap string string).

Definition is_token_byte (c : ascii) : bool :=
  in_range 48 57 c || in_range 65 90 c || in_range 97 122 c ||
  existsb (Nat.eqb (code c)) [33; 35; 36; 37; 38; 39; 42; 43; 45; 46; 94; 95; 96; 124; 126].

Fixpoint canonical_from (start : bool) (s : string) : string :=
  match s with
  | "" => ""
  | String c r =>
      String (if start then upper c else lower c) (canonical_from (code c =? 45) r)
  end.

(** A key with a byte that cannot occur in a header name is left alone. *)
Definition CanonicalHeaderKey (s : string) : string :=
  if all_bytes is_token_byte s then canonical_from true s else s.

Definition header_set (k v : string) (h : Header) : Header := <[CanonicalHeaderKey k := v]> h.
Definition header_get (k : string) (h : Header) : string := default "" (h !! CanonicalHeaderKey k).

(** [for k, v := range m { h.Set(k, v) }], in the order given. *)
Definition header_set_all (l : list (string * string)) (h : Header) : Header :=
  foldl (λ h kv, header_set kv.1 kv.2 h) h l.

(** ** Requests to backends and their answers *)

Record OutRequest := mkOutRequest {
  q_Method : string;
  q_URL : string;
  q_Header : Header;
  q_Body : string }.

(** [p_ReadErr]: reading the body fails after the bytes in [p_Body]. *)
Record OutResponse := mkOutResponse {
  p_Status : Z;
  p_Header : Header;
  p_Body : string;
  p_ReadErr : bool }.

(** ** Requests from clients *)

(** [r_Body] is [None] when reading the body fails. *)
Record Request := mkRequest {
  r_Method : string;
  r_Header : Header;
  r_Host : string;
  r_TLS : bool;
  r_Body : option string }.

(** ** The response writer *)

(** [w_status = 0] before the header is written. *)
Record Writer := mkWriter {
  w_status : Z;
  w_header : Header;
  w_sent : Header;
  w_body : string }.

Definition new_writer : Writer := mkWriter 0 ∅ ∅ "".

Definition w_set_header (k v : string) (w : Writer) : Writer :=
  mkWriter (w_status w) (header_set k v (w_header w)) (w_sent w) (w_body w).

(** A second [WriteHeader] is ignored; the header map is snapshotted. *)
Definition w_write_header (status : Z) (w : Writer) : Writer :=
  if (w_status w =? 0)%Z then mkWriter status (w_header w) (w_header w) (w_body w) else w.

Definition w_write (bytes : string) (w : Writer) : Writer :=
  let w := w_write_header 200 w in
  mkWriter (w_status w) (w_header w) (w_sent w) (w_body w +:+ bytes).

(** What the client receives once the handler returns. *)
Definition w_finish (w : Writer) : Writer := w_write_header 200 w.

(** [http.Error]. *)
Definition w_http_error (msg : string) (status : Z) (w : Writer) : Writer :=
  w_write (msg +:+ newline)
    (w_write_header status
       (w_set_header "X-Content-Type-Options" "nosniff"
          (w_set_header "Content-Type" "text/plain; charset=utf-8" w))).

(** ** Effects *)

(** A request handed to an [http.Client], and what came back. *)
Abbreviation exchange := (OutRequest * option OutResponse)%type.

(** Everything outside the process, as functions of an opaque network state
    and of how often the clock and the random source have been read. *)
Record Env := mkEnv {
  e_net : Type;
  e_roundtrip : e_net → OutRequest → e_net * option OutResponse;  (* http.Client.Do *)
  e_inject : e_net → Header → Header;   (* OpenTelemetry's propagator *)
  e_clock : nat → Z;                    (* time.Now, in nanoseconds *)
  e_random : nat → string;              (* crypto/rand, 16 bytes *)
  e_url_Parse : string → option URL }.  (* url.Parse *)

(** A computation returns or panics (and a panic keeps the effects so far). *)
Inductive outcome (A : Type) : Type := Return (v : A) | Panic.
Arguments Return {A} v.
Arguments Panic {A}.

Definition M (S A : Type) : Type := S → outcome A * S.

#[export] Instance M_ret {S} : MRet (M S) := λ A v s, (Return v, s).
#[export] Instance M_bind {S} : MBind (M S) := λ A B k m s,
  match m s with
  | (Return v, s) => k v s
  | (Panic, s) => (Panic, s)
  end.

Lemma bind_run {S A B} (m : M S A) (k : A → M S B) (s : S) :
  (m ≫= k) s = match m s with (Return v, s') => k v s' | (Panic, s') => (Panic, s') end.
Proof. done. Qed.

Definition panic {S A} : M S A := λ s, (Panic, s).
Definition gets {S A} (f : S → A) : M S A := λ s, (Return (f s), s).
Definition modify {S} (f : S → S) : M S () := λ s, (Return (), f s).

(** Running a computation on a part of the state. *)
Definition zoom {S T A} (get : S → T) (set : T → S → S) (m : M T A) : M S A := λ s,
  let '(r, t) := m (get s) in (r, set t s).

(** The process's dealings with the outside: [o_log] records every request
    handed to an [http.Client], with what came back. *)
Record Outside (E : Env) := mkOutside {
  o_net : e_net E;
  o_ticks : nat;
  o_draws : nat;
  o_log : list exchange }.
Arguments mkOutside {E}.
Arguments o_net {E}. Arguments o_ticks {E}. Arguments o_draws {E}. Arguments o_log {E}.


Section effects.
Context {E : Env}.

Definition now : M (Outside E) Z := λ o,
  (Return (e_clock E (o_ticks o)),
   mkOutside (o_net o) (S (o_ticks o)) (o_draws o) (o_log o)).

Definition rand_bytes : M (Outside E) string := λ o,
  (Return (e_random E (o_draws o)),
   mkOutside (o_net o) (o_ticks o) (S (o_draws o)) (o_log o)).

Definition inject_trace (h : Header) : M (Outside E) Header := λ o,
  (Return (e_inject E (o_net o) h), o).

(** [http.Client.Do]. *)
Definition do_request (q : OutRequest) : M (Outside E) (option OutResponse) := λ o,
  let '(n, p) := e_roundtrip E (o_net o) q in
  (Return p, mkOutside n (o_ticks o) (o_draws o) (o_log o ++ [(q, p)])).
End effects.

(** ** Laws *)

Lemma upper_upper c : upper (upper c) = upper c.
Proof. by destruct c as [[] [] [] [] [] [] [] []]. Qed.
Lemma lower_lower c : lower (lower c) = lower c.
Proof. by destruct c as [[] [] [] [] [] [] [] []]. Qed.
Lemma upper_dash c : (code (upper c) =? 45) = (code c =? 45).
Proof. by destruct c as [[] [] [] [] [] [] [] []]. Qed.
Lemma lower_dash c : (code (lower c) =? 45) = (code c =? 45).
Proof. by destruct c as [[] [] [] [] [] [] [] []]. Qed.
Lemma upper_token c : is_token_byte (upper c) = is_token_byte c.
Proof. by destruct c as [[] [] [] [] [] [] [] []]. Qed.
Lemma lower_token c : is_token_byte (lower c) = is_token_byte c.
Proof. by destruct c as [[] [] [] [] [] [] [] []]. Qed.

Lemma canonical_from_idemp b s : canonical_from b (canonical_from b s) = canonical_from b s.
Proof.
  revert b. induction s as [|c s IH]; intros b; [done|]. cbn [canonical_from].
  destruct b; rewrite ?upper_upper, ?lower_lower, ?upper_dash, ?lower_dash; by rewrite IH.
Qed.

Lemma canonical_from_token b s :
  all_bytes is_token_byte (canonical_from b s) = all_bytes is_token_byte s.
Proof.
  revert b. induction s as [|c s IH]; intros b; [done|]. cbn [canonical_from all_bytes].
  destruct b; by rewrite ?upper_token, ?lower_token, IH.
Qed.

Lemma CanonicalHeaderKey_idemp s :
  CanonicalHeaderKey (CanonicalHeaderKey s) = CanonicalHeaderKey s.
Proof.
  unfold CanonicalHeaderKey. destruct (all_bytes is_token_byte s) eqn:Hs.
  - by rewrite canonical_from_token, Hs, canonical_from_idemp.
  - by rewrite Hs.
Qed.

Lemma header_get_set k v h : header_get k (header_set k v h) = v.
Proof. unfold header_get, header_set. by rewrite lookup_insert_eq. Qed.

Lemma header_set_all_app l1 l2 h :
  header_set_all (l1 ++ l2) h = header_set_all l2 (header_set_all l1 h).
Proof. unfold header_set_all. by rewrite foldl_app. Qed.

Lemma header_set_all_lookup_ne k l h :
  k ∉ (CanonicalHeaderKey ∘ fst <$> l) → header_set_all l h !! k = h !! k.
Proof.
  induction l as [|[k' v] l IH] using rev_ind; [done|].
  rewrite header_set_all_app, fmap_app, not_elem_of_app. intros [Hl Hk].
  simpl. unfold header_set. rewrite lookup_insert_ne; [by apply IH|].
  intros <-. apply Hk. simpl. left.
Qed.

(** When no two keys have the same canonical form, the order does not matter. *)
Lemma header_set_all_list_to_map l h :
  NoDup (CanonicalHeaderKey ∘ fst <$> l) →
  header_set_all l h = list_to_map ((λ kv, (CanonicalHeaderKey kv.1, kv.2)) <$> l) ∪ h.
Proof.
  revert h. induction l as [|[k v] l IH]; intros h Hnd.
  { simpl. by rewrite (left_id_L ∅ (∪)). }
  rewrite fmap_cons in Hnd. apply NoDup_cons in Hnd as [Hk Hnd].
  change (header_set_all ((k, v) :: l) h) with (header_set_all l (header_set k v h)).
  rewrite IH by done. unfold header_set. rewrite fmap_cons. cbn [list_to_map foldr curry fst snd].
  simpl. rewrite <- insert_union_r.
  - by rewrite insert_union_l.
  - apply not_elem_of_list_to_map_1. rewrite <- list_fmap_compose. exact Hk.
Qed.

Lemma header_set_all_perm l1 l2 h :
  NoDup (CanonicalHeaderKey ∘ fst <$> l1) → l1 ≡ₚ l2 →
  header_set_all l1 h = header_set_all l2 h.
Proof.
  intros Hnd Hp. rewrite !header_set_all_list_to_map by by rewrite <- ?Hp.
  f_equal. apply list_to_map_proper; [by rewrite <- list_fmap_compose|by rewrite Hp].
Qed.

(** ** Header maps from Go maps

    [for k, v := range m { h.Set(k, v) }] over a map: the order is Go's, here the
    map's own; it does not matter when no two keys name the same header. *)

Definition header_set_map (m : gmap string string) (h : Header) : Header :=
  header_set_all (map_to_list m) h.

(** No two keys of the map differ only in spelling. *)
Definition header_keys_distinct (m : gmap string string) : Prop :=
  NoDup (CanonicalHeaderKey ∘ fst <$> map_to_list m).

#[export] Instance header_keys_distinct_dec m : Decision (header_keys_distinct m).
Proof. unfold header_keys_distinct. apply _. Defined.

(** The headers the map's entries name. *)
Definition canonical_headers (m : gmap string string) : Header :=
  list_to_map ((λ kv, (CanonicalHeaderKey kv.1, kv.2)) <$> map_to_list m).

Lemma header_set_map_eq m h :
  header_keys_distinct m → header_set_map m h = canonical_headers m ∪ h.
Proof. apply header_set_all_list_to_map. Qed.

Lemma header_set_map_order m l h :
  header_keys_distinct m → l ≡ₚ map_to_list m → header_set_all l h = header_set_map m h.
Proof.
  intros Hd Hl. symmetry. apply header_set_all_perm; [done|]. by symmetry.
Qed.

(** The map has this value under a key that names the header. *)
Definition value_under (m : gmap string string) (k v : string) : Prop :=
  ∃ k', m !! k' = Some v ∧ CanonicalHeaderKey k' = k.

(** Whatever the order and however keys are spelled: a header a key names gets
    the value of such a key, any other is left. *)
Lemma header_set_all_any m l h k :
  l ≡ₚ map_to_list m →
  (∃ v, value_under m k v ∧ header_set_all l h !! k = Some v) ∨
  ((∀ v, ¬ value_under m k v) ∧ header_set_all l h !! k = h !! k).
Proof.
  intros Hl.
  assert (∀ k' v, (k', v) ∈ l ↔ m !! k' = Some v) as Hel by (intros k' v; rewrite Hl; apply elem_of_map_to_list).
  assert ((∃ k' v, (k', v) ∈ l ∧ CanonicalHeaderKey k' = k ∧ header_set_all l h !! k = Some v) ∨
    ((∀ k' v, (k', v) ∈ l → CanonicalHeaderKey k' ≠ k) ∧ header_set_all l h !! k = h !! k)) as [(k' & v & Hin & Hk & Hv)|[Hno Hh]].
  { clear Hel Hl. induction l as [|[k' v] l IH] using rev_ind; [right; split; [by intros ? ? ?%not_elem_of_nil|done]|].
    rewrite header_set_all_app. change (header_set_all [(k', v)] ?x) with (header_set k' v x). unfold header_set.
    destruct (decide (CanonicalHeaderKey k' = k)) as [<-|Hne].
    - left. exists k', v. rewrite lookup_insert_eq. split; [set_solver|done].
    - rewrite lookup_insert_ne by done. destruct IH as [(k2 & v2 & ? & ? & ?)|[Hno ?]].
      + left. exists k2, v2. split; [set_solver|done].
      + right. split; [|done]. intros k2 v2 [?|[= -> ->]%list_elem_of_singleton]%elem_of_app; [by eapply Hno|done]. }
  - left. exists v. split; [|done]. exists k'. by rewrite <- Hel.
  - right. split; [|done]. intros v (k' & Hm & Hk). apply Hel in Hm. by eapply Hno.
Qed.

Lemma header_set_map_lookup_ne m h k :
  (∀ k', is_Some (m !! k') → CanonicalHeaderKey k' ≠ k) → header_set_map m h !! k = h !! k.
Proof.
  intros Hk. apply header_set_all_lookup_ne. intros Hel.
  apply list_elem_of_fmap in Hel as ([k' v] & -> & Hel). apply elem_of_map_to_list in Hel.
  by apply (Hk k'); [exists v|].
Qed.

Lemma canonical_headers_lookup m k v :
  header_keys_distinct m →
  canonical_headers m !! k = Some v ↔ ∃ k', m !! k' = Some v ∧ CanonicalHeaderKey k' = k.
Proof.
  intros Hd. unfold canonical_headers. rewrite <- elem_of_list_to_map.
  - rewrite list_elem_of_fmap. split.
    + intros ([k' v'] & [= -> ->] & Hel). exists k'. by apply elem_of_map_to_list in Hel.
    + intros (k' & Hm & <-). exists (k', v). split; [done|]. by apply elem_of_map_to_list.
  - by rewrite <- list_fmap_compose.
Qed.

(** ** What a computation sends

    [sends_only log P m]: every exchange [m] appends to the log satisfies [P],
    and nothing already in the log changes. *)

Section sends.
Context {S : Type} (log : S → list exchange) (P : exchange → Prop).

Definition sends_only {A} (m : M S A) : Prop :=
  ∀ s, ∃ l, log (m s).2 = log s ++ l ∧ Forall P l.

Lemma sends_ret {A} (v : A) : sends_only (mret v).
Proof. intros s. exists []. by rewrite app_nil_r. Qed.

Lemma sends_panic {A} : sends_only (panic (A := A)).
Proof. intros s. exists []. by rewrite app_nil_r. Qed.

Lemma sends_gets {A} (f : S → A) : sends_only (gets f).
Proof. intros s. exists []. by rewrite app_nil_r. Qed.

Lemma sends_modify (f : S → S) : (∀ s, log (f s) = log s) → sends_only (modify f).
Proof. intros Hf s. exists []. cbn. by rewrite Hf, app_nil_r. Qed.

Lemma sends_bind {A B} (m : M S A) (k : A → M S B) :
  sends_only m → (∀ v, sends_only (k v)) → sends_only (m ≫= k).
Proof.
  intros Hm Hk s. destruct (Hm s) as (l1 & Hl1 & HP1).
  unfold mbind, M_bind. destruct (m s) as [[v|] s1]; cbn [snd] in *; [|by exists l1].
  destruct (Hk v s1) as (l2 & Hl2 & HP2). exists (l1 ++ l2).
  rewrite Hl2, Hl1, app_assoc, Forall_app. done.
Qed.
End sends.

#[export] Hint Resolve sends_ret sends_panic sends_gets sends_bind : proxy.

Lemma sends_mono {S A} (log : S → list exchange) (P Q : exchange → Prop) (m : M S A) :
  (∀ x, P x → Q x) → sends_only log P m → sends_only log Q m.
Proof.
  intros HPQ Hm s. destruct (Hm s) as (l & Hl & HP). exists l. split; [done|].
  by eapply Forall_impl.
Qed.

(** Running on a part of the state that carries the log. *)
Lemma sends_zoom {S T A} (logS : S → list exchange) (logT : T → list exchange)
    (P : exchange → Prop) get set (m : M T A) :
  (∀ s t, logS (set t s) = logT t) → (∀ s, logT (get s) = logS s) →
  sends_only logT P m → sends_only logS P (zoom get set m).
Proof.
  intros Hset Hget Hm s. destruct (Hm (get s)) as (l & Hl & HP). exists l.
  unfold zoom. destruct (m (get s)) as [r t]. cbn [snd] in *. by rewrite Hset, Hl, Hget.
Qed.

Lemma sends_do_request {E : Env} (P : exchange → Prop) q :
  (∀ p, P (q, p)) → sends_only (o_log (E := E)) P (do_request q).
Proof.
  intros Hq o. unfold do_request. destruct (e_roundtrip E (o_net o) q) as [n p].
  exists [(q, p)]. by split; [|constructor].
Qed.

Lemma sends_silent {E : Env} {A} (P : exchange → Prop) (m : M (Outside E) A) :
  (∀ o, o_log (m o).2 = o_log o) → sends_only o_log P m.
Proof. intros Hm o. exists []. by rewrite Hm, app_nil_r. Qed.

(** ** Computations that return *)

Definition returns {S A} (m : M S A) : Prop := ∀ s, ∃ v s', m s = (Return v, s').

Lemma returns_ret {S A} (v : A) : returns (mret v : M S A).
Proof. intros s. by exists v, s. Qed.
Lemma returns_gets {S A} (f : S → A) : returns (gets f).
Proof. intros s. by exists (f s), s. Qed.
Lemma returns_modify {S} (f : S → S) : returns (modify f).
Proof. intros s. by exists (), (f s). Qed.
Lemma returns_bind {S A B} (m : M S A) (k : A → M S B) :
  returns m → (∀ v, returns (k v)) → returns (m ≫= k).
Proof.
  intros Hm Hk s. destruct (Hm s) as (v & s' & Hs). destruct (Hk v s') as (v' & s'' & Hs').
  exists v', s''. unfold mbind, M_bind. by rewrite Hs.
Qed.
Lemma returns_zoom {S T A} (get : S → T) set (m : M T A) : returns m → returns (zoom get set m).
Proof.
  intros Hm s. destruct (Hm (get s)) as (v & t & Ht). exists v, (set t s).
  unfold zoom. by rewrite Ht.
Qed.
Lemma returns_now {E : Env} : returns (now (E := E)).
Proof. intros o. by eexists _, _. Qed.
Lemma returns_rand {E : Env} : returns (rand_bytes (E := E)).
Proof. intros o. by eexists _, _. Qed.
Lemma returns_inject {E : Env} h : returns (inject_trace (E := E) h).
Proof. intros o. by eexists _, _. Qed.
Lemma returns_request {E : Env} q : returns (do_request (E := E) q).
Proof. intros o. unfold do_request. destruct (e_roundtrip E (o_net o) q). by eexists _, _. Qed.

#[export] Hint Resolve returns_ret returns_gets returns_modify returns_bind returns_zoom
  returns_now returns_rand returns_inject returns_request : proxy.

(** ** Runs under an invariant

    From [s], the run only appends to the log, ends with the invariant whether it
    returns or panics, and a value it returns satisfies [Q]. *)

Section run_ok.
Context {S : Type} (log : S → list exchange) (I : S → Prop).

Definition run_ok {A} (m : M S A) (Q : A → S → Prop) (s : S) : Prop :=
  log s `prefix_of` log (m s).2 ∧ I (m s).2 ∧
  match (m s).1 with Return v => Q v (m s).2 | Panic => True end.

Lemma run_ret {A} (v : A) (Q : A → S → Prop) s : I s → Q v s → run_ok (mret v) Q s.
Proof. intros. split_and!; done. Qed.

Lemma run_panic {A} (Q : A → S → Prop) s : I s → run_ok panic Q s.
Proof. intros. split_and!; done. Qed.

Lemma run_bind {A B} (m : M S A) (k : A → M S B) Q Q' s :
  run_ok m Q s →
  (∀ v s', I s' → log s `prefix_of` log s' → Q v s' → run_ok (k v) Q' s') →
  run_ok (m ≫= k) Q' s.
Proof.
  intros (Hp & HI & HQ) Hk. unfold run_ok, mbind, M_bind.
  destruct (m s) as [[v|] s']; cbn [fst snd] in *; [|done].
  destruct (Hk v s' HI Hp HQ) as (Hp' & HI' & HQ'). split_and!; [by trans (log s')|done..].
Qed.

Lemma run_gets {A B} (f : S → A) (k : A → M S B) Q s :
  run_ok (k (f s)) Q s → run_ok (gets f ≫= k) Q s.
Proof. done. Qed.

Lemma run_modify (f : S → S) (Q : () → S → Prop) s :
  log (f s) = log s → I (f s) → Q () (f s) → run_ok (modify f) Q s.
Proof. intros Hl ? ?. split_and!; [cbn; by rewrite Hl|done..]. Qed.

Lemma run_mono {A} (m : M S A) (Q Q' : A → S → Prop) s :
  run_ok m Q s → (∀ v s', I s' → log s `prefix_of` log s' → Q v s' → Q' v s') → run_ok m Q' s.
Proof.
  intros (Hp & HI & HQ) Hmono. split_and!; [done..|].
  destruct (m s) as [[v|] s']; [|done]. by apply Hmono.
Qed.
End run_ok.

Lemma run_zoom {S T A} (logS : S → list exchange) (logT : T → list exchange)
    (IS : S → Prop) (IT : T → Prop) get set (m : M T A) Q Q' s :
  run_ok logT IT m Q (get s) →
  (∀ t, logS (set t s) = logT t) → logT (get s) = logS s →
  (∀ t, IT t → logS s `prefix_of` logT t → IS (set t s)) →
  (∀ v t, IT t → logS s `prefix_of` logT t → Q v t → Q' v (set t s)) →
  run_ok logS IS (zoom get set m) Q' s.
Proof.
  intros (Hp & HI & HQ) Hset Hget HIset HQset. unfold run_ok, zoom.
  destruct (m (get s)) as [r t]. cbn [fst snd] in *. rewrite Hget in Hp.
  rewrite Hset. split_and!; [done|by apply HIset|]. destruct r; [|done]. by apply HQset.
Qed.
