(* ===== verification/Rpc.v ===== *)
(** * internal/proxy/mcp.go: JSON-RPC envelopes and the SSE framing

    Requests and their decoding, the tool type, the result and error envelopes,
    and [decodeBody]/[decodeSSE], which read a backend's answer. *)

From Stdlib Require Import Ascii.
From stdpp Require Import base numbers option pretty gmap fin_maps sorting strings list.
From S2P Require Import Prelude GoStrings Json Decode.

#[local] Open Scope nat_scope.

Definition mcpSessionHeader : string := "Mcp-Session-Id".
Definition mcpProtocolVersionHeader : string := "MCP-Protocol-Version".
Definition mcpMethodHeader : string := "Mcp-Method".
Definition mcpNameHeader : string := "Mcp-Name".

(** ** Requests *)

(** A [json.RawMessage] field is [None] when empty. *)
Record jsonRPCRequest := mkRPC {
  j_JSONRPC : string;
  j_Method : string;
  j_Params : option json;
  j_ID : option json }.

Definition isNotification (r : jsonRPCRequest) : bool :=
  match j_ID r with None | Some JNull => true | _ => false end.

Definition unmarshal_request (v : json) : result decode_error jsonRPCRequest :=
  l ← struct_members v;
  jsonrpc ← string_field "jsonrpc" l;
  method ← string_field "method" l;
  Ok (mkRPC jsonrpc method (raw_field "params" l) (raw_field "id" l)).

Definition marshal_request (r : jsonRPCRequest) : json :=
  JObj ([("jsonrpc", JStr (j_JSONRPC r)); ("method", JStr (j_Method r))] ++
        omit_empty "params" (j_Params r) ++ omit_empty "id" (j_ID r)).

Record toolCallParams := mkToolCallParams {
  tp_Name : string;
  tp_Arguments : option json }.

Definition unmarshal_params (v : json) : result decode_error toolCallParams :=
  l ← struct_members v;
  name ← string_field "name" l;
  Ok (mkToolCallParams name (raw_field "arguments" l)).

(** ** Tools *)

(** [rawTool] is a [map[string]json.RawMessage]; a [null] element is a nil map,
    which every reader treats as an empty one. *)
Abbreviation rawTool := (gmap string json).

Definition unmarshal_tool (v : json) : result decode_error rawTool :=
  m ← unmarshal_map v; Ok (nil_map m).

(** The [Tools] field: [None] is the nil slice, [Some []] an empty one. *)
Definition unmarshal_tools (v : json) : result decode_error (option (list rawTool)) :=
  match v with
  | JArr l => ts ← result_mapM unmarshal_tool l; Ok (Some ts)
  | JNull => Ok None
  | _ => Err TypeMismatch
  end.

Definition tools_of_result (cur : option (list rawTool)) (v : json)
  : result decode_error (option (list rawTool)) :=
  l ← struct_members v;
  foldl (λ acc kv, cur ← acc;
           if names_field "tools" kv.1 then unmarshal_tools kv.2 else Ok cur) (Ok cur) l.

(** ** Results and errors *)

(** A Go [map[string]any] literal: encoded with its keys sorted. *)
Definition go_map (l : list (string * json)) : json := marshal_map (list_to_map l).

Definition result_envelope (id : option json) (res : json) : json :=
  go_map ([("jsonrpc", JStr "2.0"); ("result", res)] ++ omit_empty "id" id).

(** [json.NewEncoder(w).Encode] ends the value with a newline. *)
Definition writeJSONRPCResult (id : option json) (res : json) : string :=
  print (result_envelope id res) +:+ newline.

Definition toolResultText (text : string) (isError : bool) : gmap string json :=
  list_to_map
    [("content", JArr [go_map [("type", JStr "text"); ("text", JStr text)]]);
     ("isError", JBool isError)].

Definition error_envelope (id : option json) (code : Z) (message : string) : json :=
  go_map
    ([("jsonrpc", JStr "2.0");
      ("error", go_map [("code", marshal_int code); ("message", JStr message)])] ++
     omit_empty "id" id).

Definition jsonRPCErrorBytes (id : option json) (code : Z) (message : string) : string :=
  print (error_envelope id code message).

Example error_ex :
  parse (jsonRPCErrorBytes (Some (JNum "7")) (-32700) "parse error") =
  Some (JObj [("error", JObj [("code", JNum "-32700"); ("message", JStr "parse error")]);
              ("id", JNum "7"); ("jsonrpc", JStr "2.0")]).
Proof. vm_compute. reflexivity. Qed.

(** ** Response bodies *)

(** [bufio.ScanLines]: the pieces between newlines, without a trailing empty one. *)
Fixpoint split_lines (cur s : string) : list string :=
  match s with
  | "" => if String.eqb cur "" then [] else [cur]
  | String c r =>
      if code c =? 10 then cur :: split_lines "" r
      else split_lines (cur +:+ String c "") r
  end.

(** [dropCR]. *)
Definition drop_cr (s : string) : string := trim_suffix (byte_str 13) s.

(** The buffer limit handed to [scanner.Buffer]: a longer line stops the scan. *)
Definition max_token : N := 16777216.

Definition line_fits (s : string) : bool := (N.of_nat (String.length s) <? max_token)%N.

(** The tokens the scanner delivers, and whether it ended with an error. *)
Fixpoint scan_tokens (read_err : bool) (l : list string) : list string * bool :=
  match l with
  | [] => ([], read_err)
  | x :: l =>
      if line_fits x then
        let '(ts, e) := scan_tokens read_err l in (drop_cr x :: ts, e)
      else ([], true)
  end.

Inductive body_error := BodyReadError | NoDataPayload.

(** The loop of [decodeSSE]: [inl] when it returns from inside, [inr] the data
    collected when the input ends. *)
Fixpoint sse_loop (data : list string) (tokens : list string) : string + list string :=
  match tokens with
  | [] => inr data
  | line :: tokens =>
      if String.eqb line "" then
        match data with
        | [] => sse_loop data tokens
        | _ => inl (join newline data)
        end
      else if has_prefix "data:" line then
        sse_loop (data ++ [trim_prefix " " (trim_prefix "data:" line)]) tokens
      else sse_loop data tokens
  end.

Definition decodeSSE (body : string) (read_err : bool) : result body_error string :=
  let '(tokens, err) := scan_tokens read_err (split_lines "" body) in
  match sse_loop [] tokens with
  | inl payload => Ok payload
  | inr data =>
      if err : bool then Err BodyReadError else
      match data with
      | [] => Err NoDataPayload
      | _ => Ok (join newline data)
      end
  end.

Definition decodeBody (contentType body : string) (read_err : bool) : result body_error string :=
  if contains_sub contentType "text/event-stream" then decodeSSE body read_err
  else if read_err then Err BodyReadError else Ok body.

Example sse_ex :
  decodeSSE ("event: message" +:+ newline +:+ "data: {}" +:+ newline +:+ newline +:+ "data: x") true
  = Ok "{}".
Proof. vm_compute. reflexivity. Qed.

(** ** The framing round trip *)

Fixpoint no_newline (s : string) : bool :=
  match s with "" => true | String c r => negb (code c =? 10) && no_newline r end.

Lemma split_lines_cons cur l rest :
  no_newline l = true →
  split_lines cur (l +:+ newline +:+ rest) = (cur +:+ l) :: split_lines "" rest.
Proof.
  revert cur. induction l as [|c l IH]; intros cur Hl.
  - change ("" +:+ newline +:+ rest) with (String (ascii_of_nat 10) rest).
    cbn [split_lines]. by rewrite app_nil_r_str.
  - cbn [no_newline] in Hl. apply andb_true_iff in Hl as [Hc Hl].
    rewrite app_cons_str. cbn [split_lines]. rewrite (proj1 (negb_true_iff _) Hc).
    rewrite IH by done. by rewrite app_assoc_str.
Qed.

(** Lines, each ended by a newline. *)
Definition text_of_lines (l : list string) : string :=
  concat_str ((λ x, x +:+ newline) <$> l).

Lemma split_text_of_lines l rest :
  Forall (λ x, no_newline x = true) l →
  split_lines "" (text_of_lines l +:+ rest) = l ++ split_lines "" rest.
Proof.
  induction 1 as [|x l Hx _ IH]; [done|].
  unfold text_of_lines in *. rewrite fmap_cons, concat_str_cons, !app_assoc_str.
  rewrite split_lines_cons by done. by rewrite IH.
Qed.

(** A line of the stream that carries no data: a comment, another field, or the
    blank line of an event without data. *)
Definition noise_line (x : string) : Prop :=
  no_newline x = true ∧ line_fits x = true ∧ has_prefix "data:" (drop_cr x) = false.

(** A [data:] line: one line within the scanner's limit, without a final CR. *)
Definition data_line (x : string) : Prop :=
  no_newline ("data: " +:+ x) = true ∧ line_fits ("data: " +:+ x) = true ∧
  has_suffix (byte_str 13) ("data: " +:+ x) = false.

Lemma scan_tokens_app e l1 l2 :
  Forall (λ x, line_fits x = true) l1 →
  scan_tokens e (l1 ++ l2) =
  ((drop_cr <$> l1) ++ (scan_tokens e l2).1, (scan_tokens e l2).2).
Proof.
  induction 1 as [|x l1 Hx _ IH]; [apply surjective_pairing|].
  rewrite fmap_cons. cbn [app scan_tokens]. by rewrite Hx, IH.
Qed.

Lemma sse_loop_noise l tokens :
  Forall noise_line l → sse_loop [] ((drop_cr <$> l) ++ tokens) = sse_loop [] tokens.
Proof.
  induction 1 as [|x l (_ & _ & Hx) _ IH]; [done|].
  rewrite fmap_cons. cbn [app sse_loop]. rewrite Hx, IH. by destruct (String.eqb _ _).
Qed.

Lemma sse_loop_data data l tokens :
  Forall data_line l →
  sse_loop data ((drop_cr <$> (String.append "data: " <$> l)) ++ tokens) =
  sse_loop (data ++ l) tokens.
Proof.
  intros Hl. revert data. induction Hl as [|x l (_ & _ & Hx) _ IH]; intros data.
  { simpl. by rewrite app_nil_r. }
  rewrite !fmap_cons. unfold drop_cr at 1. rewrite trim_suffix_none by done.
  cbn [app sse_loop]. change (String.eqb ("data: " +:+ x) "") with false. cbv iota.
  change (has_prefix "data:" ("data: " +:+ x)) with true. cbv iota.
  change ("data: " +:+ x) with ("data:" +:+ (" " +:+ x)).
  rewrite !trim_prefix_app, IH, <- app_assoc. done.
Qed.

Lemma decodeSSE_framed noise data rest read_err :
  Forall noise_line noise → Forall data_line data → data ≠ [] →
  decodeSSE (text_of_lines (noise ++ (String.append "data: " <$> data) ++ [""]) +:+ rest) read_err
  = Ok (join newline data).
Proof.
  intros Hn Hd Hne. unfold decodeSSE.
  rewrite split_text_of_lines.
  2:{ rewrite !Forall_app, Forall_fmap. split_and!; [| |by repeat constructor].
      - eapply Forall_impl; [exact Hn|]. intros x (Hx & _); exact Hx.
      - eapply Forall_impl; [exact Hd|]. intros x (Hx & _); exact Hx. }
  rewrite scan_tokens_app.
  2:{ rewrite !Forall_app, Forall_fmap. split_and!; [| |by repeat constructor].
      - eapply Forall_impl; [exact Hn|]. intros x (_ & Hx & _); exact Hx.
      - eapply Forall_impl; [exact Hd|]. intros x (_ & Hx & _); exact Hx. }
  rewrite !fmap_app, <- !app_assoc, sse_loop_noise, sse_loop_data by done.
  cbn [app fmap list_fmap sse_loop]. change (drop_cr "") with "". cbn [String.eqb].
  by destruct data.
Qed.

(** The requests of this proxy survive their own encoding. *)
Lemma unmarshal_marshal_request r :
  unmarshal_request (marshal_request r) = Ok r.
Proof. by destruct r as [j m [p|] [i|]]. Qed.

(** ** Theorems *)

(** C36: reading an SSE answer. Whatever non-data lines come first and whatever
    follows (including a read error), the payload is the first event's [data:]
    lines joined by newlines. *)
Theorem decodeBody_sse_roundtrip contentType noise data rest read_err :
  contains_sub contentType "text/event-stream" = true →
  Forall noise_line noise → Forall data_line data → data ≠ [] →
  decodeBody contentType
    (text_of_lines (noise ++ (String.append "data: " <$> data) ++ [""]) +:+ rest) read_err
  = Ok (join newline data).
Proof. intros Hct. unfold decodeBody. rewrite Hct. apply decodeSSE_framed. Qed.

Lemma decodeBody_sse_roundtrip_witness :
  decodeBody "text/event-stream; charset=utf-8"
    (text_of_lines ([": hi"; ""; "event: message"] ++
       (String.append "data: " <$> ["{1"; ",2}"]) ++ [""]) +:+ "data: later") true
  = Ok (join newline ["{1"; ",2}"]).
Proof.
  apply decodeBody_sse_roundtrip; [reflexivity| | |discriminate];
    repeat constructor; vm_compute; reflexivity.
Defined.
