(* ===== verification/Schema.v ===== *)
(** * internal/proxy/schema.go: the synthetic [tenant] argument and [_meta]

    How [tools/list] advertises the selector ([injectTenantArg]), how
    [tools/call] reads it and takes it out again ([extractTenantArg],
    [stripTenantArg]), and the identity a stateless request carries
    ([injectMeta]). A [json.RawMessage] that may be empty is an [option json]. *)

From Stdlib Require Import Ascii.
From stdpp Require Import base numbers option pretty gmap fin_maps sorting strings list.
From S2P Require Import Prelude GoStrings Json Decode Config Rpc.

(** handler.go's two constants, used here. *)
Definition listInstancesTool : string := "list_instances".
Definition tenantArg : string := "tenant".

Definition metaKeyProtocolVersion : string := "io.modelcontextprotocol/protocolVersion".
Definition metaKeyClientInfo : string := "io.modelcontextprotocol/clientInfo".
Definition metaKeyClientCapabilities : string := "io.modelcontextprotocol/clientCapabilities".

Definition contains (ss : list string) (v : string) : bool := existsb (String.eqb v) ss.

(** A fresh map with the same entries; the handler's heap gives it a new
    reference. *)
Definition cloneTool (t : rawTool) : rawTool := map_fold (λ k v out, <[k := v]> out) ∅ t.

Definition tenantSchema (ids : list string) (required : bool) : json :=
  let desc :=
    if required then "Required. Target instance (tenant) for this call."
    else "Optional. Target instance (tenant). Call list_instances to discover valid values." in
  go_map ([("type", JStr "string"); ("description", JStr desc)] ++
          match ids with [] => [] | _ => [("enum", marshal_strings ids)] end).

(** A member holding an object; [None] (a nil map) when it is absent, [null] or
    something else, all of which the callers replace. *)
Definition object_member (k : string) (m : gmap string json) : option (gmap string json) :=
  match m !! k with Some raw => ok_or None (unmarshal_map raw) | None => None end.

Definition strings_member (k : string) (m : gmap string json) : list string :=
  match m !! k with Some raw => (unmarshal_strings raw).1 | None => [] end.

(** The value the tool map holds after the in-place update. *)
Definition injectTenantArg (t : rawTool) (schema : json) (required : bool) : rawTool :=
  let sch := default {["type" := JStr "object"]} (object_member "inputSchema" t) in
  let props := default ∅ (object_member "properties" sch) in
  let props := <[tenantArg := schema]> props in
  let sch := <["properties" := marshal_map props]> sch in
  let sch :=
    if required then
      let reqList := strings_member "required" sch in
      let reqList := if contains reqList tenantArg then reqList else reqList ++ [tenantArg] in
      <["required" := marshal_strings reqList]> sch
    else sch in
  <["inputSchema" := marshal_map sch]> t.

Definition listInstancesToolDef : rawTool :=
  list_to_map
    [("name", JStr listInstancesTool);
     ("description", JStr "Lists the instances (tenants) you are authorized to access. Use the returned ids as the 'tenant' argument.");
     ("inputSchema", JObj [("type", JStr "object"); ("properties", JObj [])])].

Definition extractTenantArg (args : option json) : string :=
  match args with
  | None => ""
  | Some v =>
      match unmarshal_map v with
      | Err _ => ""
      | Ok m =>
          match nil_map m !! tenantArg with
          | None => ""
          | Some raw => ok_or "" (unmarshal_string "" raw)
          end
      end
  end.

(** Unmarshalling an empty message is a syntax error. *)
Definition stripTenantArg (params : option json) : result decode_error (option json) :=
  match params with
  | None => Err BadSyntax
  | Some v =>
      p ← unmarshal_map v;
      let p := nil_map p in
      match p !! "arguments" with
      | None => Ok params
      | Some rawArgs =>
          args ← unmarshal_map rawArgs;
          let args := nil_map args in
          match args !! tenantArg with
          | None => Ok params
          | Some _ =>
              Ok (Some (marshal_map
                    (<["arguments" := marshal_map (delete tenantArg args)]> p)))
          end
      end
  end.

Definition statelessClientMeta : json :=
  go_map
    [(metaKeyProtocolVersion, JStr ProtocolVersionStateless);
     (metaKeyClientInfo, go_map [("name", JStr "mt-mcp-proxy"); ("version", JStr "0")]);
     (metaKeyClientCapabilities, go_map [])].

(** Decoding [null] into the fresh map makes it nil, and assigning to an entry
    of a nil map panics: [None]. *)
Definition injectMeta (params : option json) : option json :=
  let p :=
    match params with
    | None => Some ∅
    | Some v => match unmarshal_map v with Ok m => m | Err _ => Some ∅ end
    end in
  m ← p; Some (marshal_map (<["_meta" := statelessClientMeta]> m)).

(** ** Views and lemmas *)

Definition tool_schema (t : rawTool) : gmap string json :=
  default {["type" := JStr "object"]} (object_member "inputSchema" t).
Definition tool_props (t : rawTool) : gmap string json :=
  default ∅ (object_member "properties" (tool_schema t)).
Definition tool_required (t : rawTool) : list string :=
  strings_member "required" (tool_schema t).

Lemma cloneTool_id t : cloneTool t = t.
Proof.
  unfold cloneTool.
  apply (map_fold_weak_ind (λ r m, r = m) (λ k v out, <[k := v]> out) ∅); [done|].
  by intros k v m r _ ->.
Qed.

Lemma contains_spec ss v : contains ss v = true ↔ v ∈ ss.
Proof.
  unfold contains. rewrite existsb_exists. setoid_rewrite String.eqb_eq.
  setoid_rewrite <- list_elem_of_In. naive_solver.
Qed.

Lemma object_member_insert k m m' : object_member k (<[k := marshal_map m']> m) = Some m'.
Proof. unfold object_member. by rewrite lookup_insert_eq, unmarshal_marshal_map. Qed.

Lemma strings_member_insert k m l : strings_member k (<[k := marshal_strings l]> m) = l.
Proof. unfold strings_member. by rewrite lookup_insert_eq, unmarshal_marshal_strings. Qed.

Lemma object_member_insert_ne k k' m v :
  k ≠ k' → object_member k' (<[k := v]> m) = object_member k' m.
Proof. intros. unfold object_member. by rewrite lookup_insert_ne. Qed.

Lemma strings_member_insert_ne k k' m v :
  k ≠ k' → strings_member k' (<[k := v]> m) = strings_member k' m.
Proof. intros. unfold strings_member. by rewrite lookup_insert_ne. Qed.

(** The schema after the update. *)
Lemma injectTenantArg_schema t schema required :
  tool_schema (injectTenantArg t schema required) =
  let sch := <["properties" := marshal_map (<[tenantArg := schema]> (tool_props t))]>
               (tool_schema t) in
  if required then
    <["required" := marshal_strings
        (if contains (tool_required t) tenantArg then tool_required t
         else tool_required t ++ [tenantArg])]> sch
  else sch.
Proof.
  unfold tool_schema at 1, injectTenantArg. rewrite object_member_insert.
  fold (tool_schema t). fold (tool_props t). simpl.
  destruct required; [|done]. by rewrite strings_member_insert_ne.
Qed.

Lemma injectTenantArg_props t schema required :
  tool_props (injectTenantArg t schema required) = <[tenantArg := schema]> (tool_props t).
Proof.
  unfold tool_props at 1. rewrite injectTenantArg_schema. simpl.
  destruct required; rewrite ?object_member_insert_ne by done; by rewrite object_member_insert.
Qed.

Lemma injectTenantArg_required t schema required :
  tool_required (injectTenantArg t schema required) =
  if required && negb (contains (tool_required t) tenantArg)
  then tool_required t ++ [tenantArg] else tool_required t.
Proof.
  unfold tool_required at 1. rewrite injectTenantArg_schema. simpl.
  destruct required; simpl.
  - rewrite strings_member_insert. by destruct (contains _ _).
  - by rewrite strings_member_insert_ne.
Qed.

(** ** Theorems *)

(** Adding the selector to a tool changes nothing but its input schema;
    there it sets the [tenant] property and keeps every other one, keeps every
    other schema keyword, and, when required, appends [tenant] once to the
    required names. *)
Theorem injectTenantArg_correct t schema required :
  let t' := injectTenantArg t schema required in
  (∀ k, k ≠ "inputSchema" → t' !! k = t !! k) ∧
  tool_props t' = <[tenantArg := schema]> (tool_props t) ∧
  (∀ k, k ≠ "properties" → k ≠ "required" → tool_schema t' !! k = tool_schema t !! k) ∧
  (required = true → tenantArg ∈ tool_required t') ∧
  (∀ r, r ≠ tenantArg → r ∈ tool_required t' ↔ r ∈ tool_required t) ∧
  (required = false → tool_required t' = tool_required t).
Proof.
  intros t'. subst t'. split_and!.
  - intros k Hk. unfold injectTenantArg. by rewrite lookup_insert_ne.
  - apply injectTenantArg_props.
  - intros k Hp Hr. rewrite injectTenantArg_schema. simpl.
    destruct required; by rewrite ?lookup_insert_ne by done.
  - intros ->. rewrite injectTenantArg_required. simpl.
    destruct (contains _ _) eqn:Hc; simpl; [by apply contains_spec|set_solver].
  - intros r Hr. rewrite injectTenantArg_required. destruct (_ && _); set_solver.
  - intros ->. apply injectTenantArg_required.
Qed.

(** Stripping the selector. On success the result's arguments select no
    tenant; every other argument and every other params member is unchanged;
    params without a selector are forwarded as they came; and it fails only on
    params or arguments that are neither an object nor [null]. *)
Theorem stripTenantArg_correct v :
  match stripTenantArg (Some v) with
  | Ok None => False
  | Ok (Some v') =>
      ∃ p p', unmarshal_map v = Ok p ∧ unmarshal_map v' = Ok p' ∧
        extractTenantArg (nil_map p' !! "arguments") = "" ∧
        (∀ k, k ≠ "arguments" → nil_map p' !! k = nil_map p !! k) ∧
        (∀ k, k ≠ tenantArg →
           default ∅ (object_member "arguments" (nil_map p')) !! k =
           default ∅ (object_member "arguments" (nil_map p)) !! k) ∧
        (default ∅ (object_member "arguments" (nil_map p)) !! tenantArg = None → v' = v)
  | Err _ =>
      is_ok (unmarshal_map v) = false ∨
      ∃ p a, unmarshal_map v = Ok p ∧ nil_map p !! "arguments" = Some a ∧
             is_ok (unmarshal_map a) = false
  end.
Proof.
  unfold stripTenantArg. destruct (unmarshal_map v) as [p|e] eqn:Hp; simpl; [|by left].
  destruct (nil_map p !! "arguments") as [a|] eqn:Ha.
  2:{ exists p, p. rewrite Ha. split_and!; done. }
  destruct (unmarshal_map a) as [args|e] eqn:Hargs; simpl.
  2:{ right. exists p, a. by rewrite Hargs. }
  assert (default ∅ (object_member "arguments" (nil_map p)) = nil_map args) as Hobj
    by (unfold object_member; by rewrite Ha, Hargs).
  destruct (nil_map args !! tenantArg) as [raw|] eqn:Ht.
  - exists p, (Some (<["arguments" := marshal_map (delete tenantArg (nil_map args))]> (nil_map p))).
    rewrite Hobj. split; [done|]. split; [apply unmarshal_marshal_map|].
    rewrite !nil_map_Some. split_and!.
    + unfold extractTenantArg. rewrite lookup_insert_eq, unmarshal_marshal_map.
      by rewrite nil_map_Some, lookup_delete_eq.
    + intros k Hk. by rewrite lookup_insert_ne.
    + intros k Hk. rewrite object_member_insert. simpl. by rewrite lookup_delete_ne.
    + congruence.
  - exists p, p. rewrite Hobj, Ha. unfold extractTenantArg. rewrite Hargs, Ht. split_and!; done.
Qed.

(** The members of params, and those of the one spelled [arguments]. *)
Definition params_members (v : json) : gmap string json := nil_map (ok_or None (unmarshal_map v)).
Definition params_args (v : json) : gmap string json :=
  default ∅ (object_member "arguments" (params_members v)).

(** [p] is the params [v] without the selector: an object whose [arguments] are
    those of [v] but for [tenant], every other member kept; [v] itself when there
    is nothing to remove. *)
Record without_selector (v p : json) : Prop := {
  ws_object : is_ok (unmarshal_map v) = true ∧ is_ok (unmarshal_map p) = true;
  ws_args : params_args p = delete "tenant" (params_args v);
  ws_has : is_Some (params_members p !! "arguments") ↔ is_Some (params_members v !! "arguments");
  ws_rest : ∀ k, k ≠ "arguments" → params_members p !! k = params_members v !! k;
  ws_same : params_args v !! "tenant" = None → p = v }.

Lemma stripTenantArg_without v p : stripTenantArg (Some v) = Ok (Some p) → without_selector v p.
Proof.
  unfold stripTenantArg. destruct (unmarshal_map v) as [m|e] eqn:Hm; [|done]. cbn [mbind result_bind].
  assert (params_members v = nil_map m) as Hmem by (unfold params_members; by rewrite Hm).
  assert (params_args v !! "tenant" = None → without_selector v v) as Hsame.
  { intros Hno. split; [by rewrite Hm|by rewrite delete_id|done..]. }
  destruct (nil_map m !! "arguments") as [a|] eqn:Ha.
  2:{ intros [= <-]. apply Hsame. unfold params_args, object_member. by rewrite Hmem, Ha. }
  destruct (unmarshal_map a) as [args|e] eqn:Hargs; [|done]. cbn [mbind result_bind].
  assert (params_args v = nil_map args) as Hobj by (unfold params_args, object_member; by rewrite Hmem, Ha, Hargs).
  destruct (nil_map args !! tenantArg) as [raw|] eqn:Ht; [|intros [= <-]; apply Hsame; by rewrite Hobj].
  intros [= <-].
  assert (params_members (marshal_map (<["arguments":=marshal_map (delete tenantArg (nil_map args))]> (nil_map m))) =
    <["arguments":=marshal_map (delete tenantArg (nil_map args))]> (nil_map m)) as Hp
    by (unfold params_members; rewrite unmarshal_marshal_map; apply nil_map_Some).
  split.
  - by rewrite Hm, unmarshal_marshal_map.
  - unfold params_args at 1. rewrite Hp, object_member_insert, Hobj. done.
  - rewrite Hp, Hmem, Ha, lookup_insert_eq. split; by eexists.
  - intros k Hk. by rewrite Hp, Hmem, lookup_insert_ne.
  - rewrite Hobj. change "tenant" with tenantArg. congruence.
Qed.

(** [injectMeta] keeps every member of an object and adds the client
    identity; it panics exactly on params that are [null]. *)
Theorem injectMeta_correct params :
  (injectMeta params = None ↔ params = Some JNull) ∧
  (∀ v', injectMeta params = Some v' →
     ∃ m', unmarshal_map v' = Ok (Some m') ∧
       m' !! "_meta" = Some statelessClientMeta ∧
       ∀ k, k ≠ "_meta" →
         m' !! k = default ∅ (v ← params; ok_or None (unmarshal_map v)) !! k).
Proof.
  unfold injectMeta. split.
  - destruct params as [[| | | | |l]|]; simpl; naive_solver.
  - intros v' Hv'.
    assert (∃ m, v' = marshal_map (<["_meta" := statelessClientMeta]> m) ∧
                 m = default ∅ (v ← params; ok_or None (unmarshal_map v))) as (m & -> & Hm).
    { destruct params as [[| | | | |l]|]; simpl in *; try done;
        injection Hv' as <-; eexists; (split; [reflexivity|done]). }
    exists (<["_meta" := statelessClientMeta]> m). split; [apply unmarshal_marshal_map|].
    split; [apply lookup_insert_eq|]. intros k Hk. rewrite lookup_insert_ne by done. by rewrite Hm.
Qed.
