(* ===== verification/ParamHeaders.v ===== *)
(** * internal/proxy/paramheaders.go: the Mcp-Param-* projection of tool inputs

    Which call arguments a tool's schema annotates with [x-mcp-header], and how
    their values become header values that any reader can decode again. *)

From Stdlib Require Import Ascii ZifyNat.
From stdpp Require Import base numbers option pretty gmap fin_maps sorting strings list.
From S2P Require Import Prelude GoStrings Json Decode Rpc.

#[local] Set Warnings "-clear-no-such-hyp".
#[local] Open Scope nat_scope.

Definition paramHeaderPrefix : string := "Mcp-Param-".
Definition paramHeaderBase64Prefix : string := "=?base64?".
Definition paramHeaderBase64Suffix : string := "?=".

(** ** [base64.StdEncoding] *)

Definition b64_alphabet : string :=
  "ABCDEFGHIJKLMNOPQRSTUVWXYZabcdefghijklmnopqrstuvwxyz0123456789+/".

Definition b64_digit (n : nat) : ascii := default "A"%char (String.get n b64_alphabet).

(** Three bytes are four digits; the last group is padded with [=]. *)
Fixpoint b64_encode (s : string) : string :=
  match s with
  | "" => ""
  | String a "" =>
      String (b64_digit (code a / 4)) (String (b64_digit (code a mod 4 * 16)) "==")
  | String a (String b "") =>
      String (b64_digit (code a / 4))
        (String (b64_digit (code a mod 4 * 16 + code b / 16))
           (String (b64_digit (code b mod 16 * 4)) "="))
  | String a (String b (String c r)) =>
      String (b64_digit (code a / 4))
        (String (b64_digit (code a mod 4 * 16 + code b / 16))
           (String (b64_digit (code b mod 16 * 4 + code c / 64))
              (String (b64_digit (code c mod 64)) (b64_encode r))))
  end.

(** ** Numbers as [float64]

    [json.Unmarshal] into [any] reads a number as the nearest [float64], ties to
    even; [None] is the range error. A finite value is a mantissa and a power of
    two. *)

Record decimal := mkDecimal { d_neg : bool; d_digits : Z; d_exp : Z }.

(** Reads digits, counting those after the point. *)
Fixpoint read_digits (acc scale : Z) (after_point : bool) (s : string) : Z * Z * string :=
  match s with
  | "" => (acc, scale, "")
  | String c r =>
      if is_digit c then
        read_digits (acc * 10 + Z.of_nat (code c - 48))%Z
          (if after_point then scale - 1 else scale)%Z after_point r
      else if code c =? 46 then read_digits acc scale true r
      else (acc, scale, s)
  end.

Definition read_exponent (s : string) : Z :=
  match s with
  | String _ (String c r) =>
      if code c =? 45 then (- (read_digits 0 0 false r).1.1)%Z
      else if code c =? 43 then (read_digits 0 0 false r).1.1
      else (read_digits 0 0 false (String c r)).1.1
  | _ => 0%Z
  end.

(** The value of a valid number literal. *)
Definition read_decimal (lit : string) : decimal :=
  let neg := has_prefix "-" lit in
  let '(digits, scale, rest) := read_digits 0 0 false (trim_prefix "-" lit) in
  mkDecimal neg digits (scale + read_exponent rest).

(** [num / den], both positive, as a multiple of [2^e] rounded to nearest even. *)
Definition round_at (e num den : Z) : Z :=
  let n := if (e <? 0)%Z then (num * 2 ^ (- e))%Z else num in
  let d := if (e <? 0)%Z then den else (den * 2 ^ e)%Z in
  let q := (n / d)%Z in
  let r := (n mod d)%Z in
  if (2 * r <? d)%Z then q
  else if (d <? 2 * r)%Z then (q + 1)%Z
  else if Z.even q then q else (q + 1)%Z.

(** The exponent that leaves 53 bits before the point, but no less than the
    least subnormal's. *)
Definition binary64_exponent (num den : Z) : Z :=
  let e := (Z.log2 num - Z.log2 den - 53)%Z in
  let n := if (e <? 0)%Z then (num * 2 ^ (- e))%Z else num in
  let d := if (e <? 0)%Z then den else (den * 2 ^ e)%Z in
  Z.max (-1074) (if (2 ^ 53 <=? n / d)%Z then e + 1 else e)%Z.

Definition decimal_float (d : decimal) : option (Z * Z) :=
  let sign := if d_neg d then (-1)%Z else 1%Z in
  if (d_digits d =? 0)%Z then Some (0, 0)%Z
  else if (400 <? d_exp d)%Z then None
  else if (d_exp d <? - 400 - Z.log2 (d_digits d))%Z then Some (0, 0)%Z
  else
    let num := (d_digits d * 10 ^ Z.max 0 (d_exp d))%Z in
    let den := (10 ^ Z.max 0 (- d_exp d))%Z in
    let e := binary64_exponent num den in
    let m := round_at e num den in
    if (2 ^ 1024 <=? m * 2 ^ Z.max 0 e)%Z then None else Some (sign * m, e)%Z.

(** [val == float64(int64(val))]: the integer, when the value is one and fits an
    [int64]. Out of range the conversion gives the least [int64] (amd64), which
    differs from the value. *)
Definition float_int64 (f : Z * Z) : option Z :=
  let '(m, e) := f in
  let z := if (e <? 0)%Z then (m / 2 ^ (- e))%Z else (m * 2 ^ e)%Z in
  let exact := if (e <? 0)%Z then (m mod 2 ^ (- e) =? 0)%Z else true in
  if exact && (- 2 ^ 63 <=? z)%Z && (z <? 2 ^ 63)%Z then Some z else None.

(** ** Encoding a value *)

(** The rune loop of the source looks for anything outside [0x20..0x7E]; a byte
    above 0x7E is part of such a rune. *)
Fixpoint has_unsafe_byte (s : string) : bool :=
  match s with
  | "" => false
  | String c r => (code c <? 32) || (126 <? code c) || has_unsafe_byte r
  end.

Definition requiresParamHeaderBase64 (s : string) : bool :=
  if String.eqb s "" then false
  else if has_prefix " " s || has_prefix (byte_str 9) s ||
          has_suffix " " s || has_suffix (byte_str 9) s then true
  else if has_unsafe_byte s then true
  else has_prefix paramHeaderBase64Prefix s && has_suffix paramHeaderBase64Suffix s.

(** The text of a JSON primitive. *)
Definition primitive_text (raw : json) : option string :=
  match raw with
  | JStr s => Some s
  | JBool b => Some (if b then "true" else "false")
  | JNum lit => f ← decimal_float (read_decimal lit); z ← float_int64 f; Some (pretty z)
  | _ => None
  end.

Definition wrap_header_value (s : string) : string :=
  if requiresParamHeaderBase64 s
  then paramHeaderBase64Prefix +:+ b64_encode s +:+ paramHeaderBase64Suffix
  else s.

Definition encodeParamHeaderValue (raw : json) : option string :=
  s ← primitive_text raw; Some (wrap_header_value s).

(** ** The projection *)

(** One property's [x-mcp-header] member, from the anonymous struct. *)
Definition prop_annotation (v : json) : result decode_error (option json) :=
  l ← struct_members v; Ok (raw_field "x-mcp-header" l).

Definition add_properties (cur : gmap string (option json)) (v : json)
  : result decode_error (gmap string (option json)) :=
  match v with
  | JNull => Ok ∅
  | JObj l => foldl (λ acc kv, m ← acc; a ← prop_annotation kv.2; Ok (<[kv.1 := a]> m)) (Ok cur) l
  | _ => Err TypeMismatch
  end.

(** [toolInputSchema]: property name to its annotation, if any. One property
    that is not an object fails the whole schema. *)
Definition schema_annotations (v : json) : result decode_error (gmap string (option json)) :=
  l ← struct_members v;
  foldl (λ acc kv, cur ← acc;
           if names_field "properties" kv.1 then add_properties cur kv.2 else Ok cur) (Ok ∅) l.

(** The loop body: the header a property contributes. *)
Definition prop_header (args : gmap string json) (p : string * option json)
  : option (string * string) :=
  ann ← p.2;
  match unmarshal_string "" ann with
  | Err _ => None
  | Ok headerName =>
      if String.eqb headerName "" then None else
      argRaw ← args !! p.1;
      match argRaw with
      | JNull => None
      | _ => encoded ← encodeParamHeaderValue argRaw;
             Some (paramHeaderPrefix +:+ headerName, encoded)
      end
  end.

(** [headers[k] = v] for each pair in order; the nil map is the empty one. *)
Definition set_pairs (l : list (string * string)) : gmap string string :=
  foldl (λ h kv, <[kv.1 := kv.2]> h) ∅ l.

(** The loop over the properties, in the order Go happens to range over them. *)
Definition headers_among (args : gmap string json) (iteration : list (string * option json))
  : gmap string string := set_pairs (omap (prop_header args) iteration).

Definition call_args (argsJSON : option json) : gmap string json :=
  match argsJSON with Some v => nil_map (ok_or None (unmarshal_map v)) | None => ∅ end.

Definition paramHeadersForTool (tool : rawTool) (argsJSON : option json) : gmap string string :=
  match tool !! "inputSchema" with
  | None => ∅
  | Some rawSchema =>
      match schema_annotations rawSchema with
      | Err _ => ∅
      | Ok props => headers_among (call_args argsJSON) (map_to_list props)
      end
  end.

(** [mergeHeaders]: later maps override. *)
Definition mergeHeaders (maps : list (gmap string string)) : gmap string string :=
  foldl (λ out m, map_fold (λ k v out, <[k := v]> out) out m) ∅ maps.

Example num_ex1 : primitive_text (JNum "1.0e2") = Some "100".
Proof. vm_compute. reflexivity. Qed.
Example num_ex2 : primitive_text (JNum "1.5") = None.
Proof. vm_compute. reflexivity. Qed.
Example num_ex3 : primitive_text (JNum "-0") = Some "0".
Proof. vm_compute. reflexivity. Qed.
Example num_ex4 : primitive_text (JNum "9223372036854775808") = None.
Proof. vm_compute. reflexivity. Qed.
Example num_ex6 : primitive_text (JNum "1e400") = None.
Proof. vm_compute. reflexivity. Qed.
Example b64_ex : encodeParamHeaderValue (JStr " hi") = Some "=?base64?IGhp?=".
Proof. vm_compute. reflexivity. Qed.

(** ** The reader of a header value

    What a receiver does: undo the sentinel, decode the base64. *)

Definition b64_val (c : ascii) : option nat :=
  if in_range 65 90 c then Some (code c - 65)
  else if in_range 97 122 c then Some (code c - 71)
  else if in_range 48 57 c then Some (code c + 4)
  else if code c =? 43 then Some 62
  else if code c =? 47 then Some 63
  else None.

Definition is_pad (c : ascii) : bool := code c =? 61.

Fixpoint b64_decode (s : string) : option string :=
  match s with
  | "" => Some ""
  | String a (String b (String c (String d r))) =>
      x ← b64_val a; y ← b64_val b;
      let first := ascii_of_nat (x * 4 + y / 16) in
      if is_pad c then
        if is_pad d && String.eqb r "" then Some (String first "") else None
      else
        z ← b64_val c;
        let second := ascii_of_nat (y mod 16 * 16 + z / 4) in
        if is_pad d then
          if String.eqb r "" then Some (String first (String second "")) else None
        else
          w ← b64_val d;
          r ← b64_decode r;
          Some (String first (String second (String (ascii_of_nat (z mod 4 * 64 + w)) r)))
  | _ => None
  end.

Definition unwrap_header_value (s : string) : option string :=
  if has_prefix paramHeaderBase64Prefix s && has_suffix paramHeaderBase64Suffix s
  then b64_decode (trim_suffix paramHeaderBase64Suffix (trim_prefix paramHeaderBase64Prefix s))
  else Some s.

(** Printable ASCII without spaces at either end: what survives a header. *)
Definition header_safe (s : string) : Prop :=
  all_bytes (in_range 32 126) s = true ∧ has_prefix " " s = false ∧ has_suffix " " s = false.

Lemma code_lt c : code c < 256.
Proof. apply nat_ascii_bounded. Qed.

Lemma ascii_code c n : n = code c → ascii_of_nat n = c.
Proof. intros ->. apply ascii_nat_embedding. Qed.

Lemma b64_digit_ok n :
  n < 64 → b64_val (b64_digit n) = Some n ∧ is_pad (b64_digit n) = false ∧
           in_range 33 126 (b64_digit n) = true.
Proof. intros Hn. do 64 (destruct n as [|n]; [done|]). lia. Qed.

(** The bits of the four digits of a group, put together again. *)
Section digit_bits.
#[local] Ltac Zify.zify_post_hook ::= Z.div_mod_to_equations.

Lemma first_bits a y : y < 16 →
  code a / 4 < 64 ∧ code a mod 4 * 16 + y < 64 ∧
  ascii_of_nat (code a / 4 * 4 + (code a mod 4 * 16 + y) / 16) = a.
Proof. intros Hy. pose proof (code_lt a). split_and!; [lia|lia|]. apply ascii_code. lia. Qed.

Lemma second_bits x b z : z < 4 →
  code b / 16 < 16 ∧ code b mod 16 * 4 + z < 64 ∧
  ascii_of_nat ((x * 16 + code b / 16) mod 16 * 16 + (code b mod 16 * 4 + z) / 4) = b.
Proof. intros Hz. pose proof (code_lt b). split_and!; [lia|lia|]. apply ascii_code. lia. Qed.

Lemma third_bits y c :
  code c / 64 < 4 ∧ code c mod 64 < 64 ∧
  ascii_of_nat ((y * 4 + code c / 64) mod 4 * 64 + code c mod 64) = c.
Proof. pose proof (code_lt c). split_and!; [lia|lia|]. apply ascii_code. lia. Qed.
End digit_bits.

Lemma b64_decode_encode s : b64_decode (b64_encode s) = Some s.
Proof.
  revert s. fix IH 1. intros [|a [|b [|c r]]]; [done|..]; cbn [b64_encode b64_decode].
  - destruct (first_bits a 0) as (H1 & H2 & H3); [lia|]. rewrite Nat.add_0_r in H2, H3.
    destruct (b64_digit_ok _ H1) as (-> & _ & _), (b64_digit_ok _ H2) as (-> & _ & _).
    cbn [mbind option_bind]. by rewrite H3.
  - destruct (second_bits (code a mod 4) b 0) as (B1 & B2 & B3); [lia|].
    rewrite Nat.add_0_r in B2, B3.
    destruct (first_bits a (code b / 16)) as (A1 & A2 & A3); [done|].
    destruct (b64_digit_ok _ A1) as (-> & _ & _), (b64_digit_ok _ A2) as (-> & _ & _).
    destruct (b64_digit_ok _ B2) as (-> & -> & _).
    cbn [mbind option_bind]. by rewrite A3, B3.
  - destruct (third_bits (code b mod 16) c) as (C1 & C2 & C3).
    destruct (second_bits (code a mod 4) b (code c / 64)) as (B1 & B2 & B3); [done|].
    destruct (first_bits a (code b / 16)) as (A1 & A2 & A3); [done|].
    destruct (b64_digit_ok _ A1) as (-> & _ & _), (b64_digit_ok _ A2) as (-> & _ & _).
    destruct (b64_digit_ok _ B2) as (-> & -> & _), (b64_digit_ok _ C2) as (-> & -> & _).
    cbn [mbind option_bind]. by rewrite A3, B3, C3, IH.
Qed.

Lemma b64_encode_safe s : all_bytes (in_range 33 126) (b64_encode s) = true.
Proof.
  revert s. fix IH 1. intros [|a [|b [|c r]]]; [done|..]; cbn [b64_encode all_bytes].
  - destruct (first_bits a 0) as (H1 & H2 & _); [lia|]. rewrite Nat.add_0_r in H2.
    destruct (b64_digit_ok _ H1) as (_ & _ & ->), (b64_digit_ok _ H2) as (_ & _ & ->). done.
  - destruct (second_bits (code a mod 4) b 0) as (B1 & B2 & _); [lia|].
    rewrite Nat.add_0_r in B2.
    destruct (first_bits a (code b / 16)) as (A1 & A2 & _); [done|].
    destruct (b64_digit_ok _ A1) as (_ & _ & ->), (b64_digit_ok _ A2) as (_ & _ & ->).
    by destruct (b64_digit_ok _ B2) as (_ & _ & ->).
  - destruct (third_bits (code b mod 16) c) as (C1 & C2 & _).
    destruct (second_bits (code a mod 4) b (code c / 64)) as (B1 & B2 & _); [done|].
    destruct (first_bits a (code b / 16)) as (A1 & A2 & _); [done|].
    destruct (b64_digit_ok _ A1) as (_ & _ & ->), (b64_digit_ok _ A2) as (_ & _ & ->).
    destruct (b64_digit_ok _ B2) as (_ & _ & ->), (b64_digit_ok _ C2) as (_ & _ & ->).
    by rewrite IH.
Qed.

Lemma has_unsafe_byte_spec s : has_unsafe_byte s = false → all_bytes (in_range 32 126) s = true.
Proof.
  induction s as [|c s IH]; [done|]. cbn [has_unsafe_byte all_bytes].
  rewrite !orb_false_iff, !Nat.ltb_ge. intros [[H1 H2] Hs]. rewrite IH by done.
  unfold in_range. by rewrite (proj2 (Nat.leb_le 32 _) H1), (proj2 (Nat.leb_le _ 126) H2).
Qed.

Lemma unwrap_wrap s : unwrap_header_value (wrap_header_value s) = Some s.
Proof.
  unfold unwrap_header_value, wrap_header_value.
  destruct (requiresParamHeaderBase64 s) eqn:Hreq.
  - rewrite has_prefix_app. rewrite <- app_assoc_str, has_suffix_app. cbv [andb].
    rewrite app_assoc_str, trim_prefix_app, trim_suffix_app. apply b64_decode_encode.
  - unfold requiresParamHeaderBase64 in Hreq. destruct (String.eqb s "") eqn:He.
    { apply String.eqb_eq in He. by subst s. }
    destruct (has_prefix " " s || _ || _ || _); [done|].
    destruct (has_unsafe_byte s); [done|]. by rewrite Hreq.
Qed.

Lemma wrap_safe s : header_safe (wrap_header_value s).
Proof.
  unfold wrap_header_value, header_safe. destruct (requiresParamHeaderBase64 s) eqn:Hreq.
  - assert (all_bytes (in_range 33 126)
      (paramHeaderBase64Prefix +:+ b64_encode s +:+ paramHeaderBase64Suffix) = true) as Hall
      by (by rewrite !all_bytes_app, b64_encode_safe).
    split_and!.
    + revert Hall. apply all_bytes_impl. unfold in_range. intros c.
      rewrite !andb_true_iff, !Nat.leb_le. lia.
    + apply not_true_iff_false. intros Hp. by pose proof (all_bytes_prefix _ _ _ Hall Hp).
    + apply not_true_iff_false. intros Hp. by pose proof (all_bytes_suffix _ _ _ Hall Hp).
  - unfold requiresParamHeaderBase64 in Hreq. destruct (String.eqb s "") eqn:He.
    { apply String.eqb_eq in He. by subst s. }
    destruct (has_prefix " " s), (has_prefix (byte_str 9) s), (has_suffix " " s),
      (has_suffix (byte_str 9) s); try done.
    destruct (has_unsafe_byte s) eqn:Hu; [done|]. split_and!; [|done..].
    by apply has_unsafe_byte_spec.
Qed.

(** ** Integers *)

Lemma read_digits_pretty_go x scale s :
  (0 < x)%N →
  read_digits 0 scale false (pretty_N_go x s) = read_digits (Z.of_N x) scale false s.
Proof.
  revert s. induction (N.lt_wf_0 x) as [x _ IH]; intros s Hx. rewrite pretty_N_go_step by done.
  assert (∀ d acc, (d < 10)%N →
    read_digits acc scale false (String (pretty_N_char d) s) =
    read_digits (acc * 10 + Z.of_N d) scale false s) as Hdigit.
  { intros d acc Hd.
    assert (d ∈ [0;1;2;3;4;5;6;7;8;9]%N) as Hin by (set_unfold; lia).
    set_unfold in Hin. by repeat destruct Hin as [->|Hin]. }
  pose proof (N.mod_lt x 10 ltac:(lia)) as Hm. pose proof (N.div_mod' x 10) as Hdm.
  destruct (decide (x `div` 10 = 0)%N) as [H0|H0].
  - rewrite H0, pretty_N_go_0, Hdigit by done. f_equal. lia.
  - rewrite IH, Hdigit; [f_equal; lia|done|apply N.div_lt; lia|lia].
Qed.

Lemma pretty_pos x : pretty (N.pos x) = pretty_N_go (N.pos x) "".
Proof. unfold pretty, pretty_N. by rewrite decide_False. Qed.

Lemma read_decimal_pretty z : read_decimal (pretty z) = mkDecimal (z <? 0)%Z (Z.abs z) 0.
Proof.
  assert (∀ x, read_digits 0 0 false (pretty (N.pos x)) = (Z.pos x, 0%Z, "")) as Hread.
  { intros x. by rewrite pretty_pos, read_digits_pretty_go. }
  destruct z as [|x|x]; [done|..]; unfold read_decimal.
  - change (pretty (Z.pos x)) with (pretty (N.pos x)).
    replace (has_prefix "-" (pretty (N.pos x))) with false.
    + unfold trim_prefix.
      replace (has_prefix "-" (pretty (N.pos x))) with false; [by rewrite Hread|].
      symmetry. apply not_true_iff_false. rewrite has_prefix_spec, pretty_pos.
      intros [r Hr]. by apply pretty_N_go_ne_dash in Hr.
    + symmetry. apply not_true_iff_false. rewrite has_prefix_spec, pretty_pos.
      intros [r Hr]. by apply pretty_N_go_ne_dash in Hr.
  - change (pretty (Z.neg x)) with ("-" +:+ pretty (N.pos x)).
    by rewrite has_prefix_app, trim_prefix_app, Hread.
Qed.

(** Scaled by [2^k], below the 53-bit limit. *)
Lemma binary64_exponent_int n :
  (0 < n < 2 ^ 53)%Z → binary64_exponent n 1 = (Z.log2 n - 52)%Z ∧ (Z.log2 n <= 52)%Z.
Proof.
  intros [Hpos Hlt].
  pose proof (Z.log2_lt_pow2 n 53 Hpos) as [Hl _]. specialize (Hl Hlt).
  pose proof (Z.log2_nonneg n). split; [|lia].
  unfold binary64_exponent. change (Z.log2 1) with 0%Z. rewrite Z.sub_0_r.
  destruct (Z.ltb_spec (Z.log2 n - 53) 0); [|lia].
  replace (2 ^ 53 <=? _)%Z with true; [lia|]. symmetry. apply Z.leb_le. rewrite Z.div_1_r.
  transitivity (2 ^ Z.log2 n * 2 ^ (- (Z.log2 n - 53)))%Z.
  - rewrite <- Z.pow_add_r by lia. by replace (Z.log2 n + - (Z.log2 n - 53))%Z with 53%Z by lia.
  - apply Z.mul_le_mono_nonneg_r; [apply Z.pow_nonneg; lia|]. by apply Z.log2_spec.
Qed.

Lemma round_at_exact e n : (e <= 0)%Z → round_at e n 1 = (n * 2 ^ (- e))%Z.
Proof.
  intros He. unfold round_at. destruct (Z.ltb_spec e 0) as [Hlt|Hge].
  - by rewrite Z.div_1_r, Z.mod_1_r.
  - replace e with 0%Z by lia. change (1 * 2 ^ 0)%Z with 1%Z. change (2 ^ (- 0))%Z with 1%Z.
    by rewrite Z.div_1_r, Z.mod_1_r, Z.mul_1_r.
Qed.

(** Every integer of at most 53 bits is a [float64]. *)
Lemma decimal_float_int z : (0 < Z.abs z < 2 ^ 53)%Z →
  ∃ k, (0 <= k <= 52)%Z ∧
    decimal_float (mkDecimal (z <? 0)%Z (Z.abs z) 0) = Some (z * 2 ^ k, - k)%Z.
Proof.
  intros Hz. destruct (binary64_exponent_int _ Hz) as [He Hl].
  pose proof (Z.log2_nonneg (Z.abs z)).
  exists (52 - Z.log2 (Z.abs z))%Z. split; [lia|].
  unfold decimal_float. cbn [d_digits d_exp d_neg].
  destruct (Z.eqb_spec (Z.abs z) 0); [lia|].
  change (400 <? 0)%Z with false. cbv iota.
  destruct (Z.ltb_spec 0 (- 400 - Z.log2 (Z.abs z))); [lia|].
  change (10 ^ Z.max 0 0)%Z with 1%Z. change (10 ^ Z.max 0 (- 0))%Z with 1%Z.
  rewrite Z.mul_1_r, He, round_at_exact by lia.
  replace (- (Z.log2 (Z.abs z) - 52))%Z with (52 - Z.log2 (Z.abs z))%Z by lia.
  replace (Z.max 0 (Z.log2 (Z.abs z) - 52)) with 0%Z by lia.
  assert (0 < 2 ^ (52 - Z.log2 (Z.abs z)) <= 2 ^ 52)%Z as Hk
    by (split; [apply Z.pow_pos_nonneg; lia|apply Z.pow_le_mono_r; lia]).
  destruct (Z.leb_spec (2 ^ 1024) (Z.abs z * 2 ^ (52 - Z.log2 (Z.abs z)) * 2 ^ 0)) as [Hbig|_].
  - exfalso.
    assert (Z.abs z * 2 ^ (52 - Z.log2 (Z.abs z)) * 2 ^ 0 < 2 ^ 53 * 2 ^ 53)%Z as Hs.
    { assert (2 ^ 52 < 2 ^ 53)%Z by reflexivity.
      rewrite Z.mul_1_r. apply Z.mul_lt_mono_nonneg; lia. }
    assert (2 ^ 53 * 2 ^ 53 < 2 ^ 1024)%Z by reflexivity. lia.
  - f_equal. f_equal; [|lia]. destruct (Z.ltb_spec z 0); lia.
Qed.

Lemma float_int64_scaled z k :
  (0 <= k)%Z → (- 2 ^ 63 <= z < 2 ^ 63)%Z → float_int64 (z * 2 ^ k, - k)%Z = Some z.
Proof.
  intros Hk Hz. unfold float_int64.
  assert (0 < 2 ^ k)%Z by (apply Z.pow_pos_nonneg; lia).
  rewrite Z.opp_involutive, Z.div_mul, Z.mod_mul by lia.
  destruct (Z.ltb_spec (- k) 0).
  - rewrite Z.eqb_refl.
    by rewrite (proj2 (Z.leb_le _ _) (proj1 Hz)), (proj2 (Z.ltb_lt _ _) (proj2 Hz)).
  - replace k with 0%Z by lia. change (2 ^ 0)%Z with 1%Z. change (2 ^ (- 0))%Z with 1%Z.
    rewrite !Z.mul_1_r. cbv [andb].
    by rewrite (proj2 (Z.leb_le _ _) (proj1 Hz)), (proj2 (Z.ltb_lt _ _) (proj2 Hz)).
Qed.

Lemma primitive_text_int z : (Z.abs z < 2 ^ 53)%Z → primitive_text (JNum (pretty z)) = Some (pretty z).
Proof.
  intros Hz. cbn [primitive_text]. rewrite read_decimal_pretty.
  destruct (decide (z = 0%Z)) as [->|Hne]; [done|].
  destruct (decimal_float_int z) as (k & Hk & ->); [lia|].
  cbn [mbind option_bind]. rewrite float_int64_scaled; [done|lia|].
  assert (2 ^ 53 < 2 ^ 63)%Z by reflexivity. lia.
Qed.

(** ** Merging *)

Lemma map_fold_insert_union (m out : gmap string string) :
  map_fold (λ k v out, <[k := v]> out) out m = m ∪ out.
Proof.
  apply (map_fold_weak_ind (λ r m, r = m ∪ out)
    (λ k v out, <[k := v]> out) out); [by rewrite (left_id_L ∅ (∪))|].
  intros k v m' r _ ->. by rewrite insert_union_l.
Qed.

Lemma mergeHeaders_two m1 m2 : mergeHeaders [m1; m2] = m2 ∪ m1.
Proof.
  unfold mergeHeaders. cbn [foldl]. by rewrite !map_fold_insert_union, (right_id_L ∅ (∪)).
Qed.

Lemma set_pairs_list_to_map l : NoDup l.*1 → set_pairs l = list_to_map l.
Proof.
  unfold set_pairs. rewrite <- (right_id_L ∅ (∪) (list_to_map l)).
  generalize (∅ : gmap string string). induction l as [|[k v] l IH]; intros h Hnd.
  { cbn. by rewrite (left_id_L ∅ (∪)). }
  rewrite fmap_cons in Hnd. apply NoDup_cons in Hnd as [Hk Hnd].
  cbn [foldl]. rewrite IH by done. cbn [fst snd list_to_map foldr curry].
  simpl. rewrite <- insert_union_r; [by rewrite insert_union_l|].
  by apply not_elem_of_list_to_map_1.
Qed.

(** ** What a tool's schema asks for *)

Definition tool_annotations (tool : rawTool) : gmap string (option json) :=
  match tool !! "inputSchema" with
  | Some raw => ok_or ∅ (schema_annotations raw)
  | None => ∅
  end.

(** The header a property is annotated with. *)
Definition annotated_header (a : option json) : option string :=
  ann ← a;
  match unmarshal_string "" ann with
  | Ok h => if String.eqb h "" then None else Some h
  | Err _ => None
  end.

Definition tool_header (tool : rawTool) (name : string) : option string :=
  a ← tool_annotations tool !! name; annotated_header a.

Definition headers_distinct (tool : rawTool) : Prop :=
  ∀ n1 n2 h, tool_header tool n1 = Some h → tool_header tool n2 = Some h → n1 = n2.

Lemma prop_header_Some args name a k v :
  prop_header args (name, a) = Some (k, v) ↔
  ∃ h raw text, annotated_header a = Some h ∧ k = paramHeaderPrefix +:+ h ∧
    args !! name = Some raw ∧ primitive_text raw = Some text ∧ v = wrap_header_value text.
Proof.
  unfold prop_header, annotated_header. cbn [fst snd].
  destruct a as [ann|]; cbn [mbind option_bind]; [|naive_solver].
  destruct (unmarshal_string "" ann) as [h|e]; [|naive_solver].
  destruct (String.eqb h ""); [naive_solver|].
  destruct (args !! name) as [raw|]; cbn [mbind option_bind]; [|naive_solver].
  transitivity ((encoded ← encodeParamHeaderValue raw;
                 Some (paramHeaderPrefix +:+ h, encoded)) = Some (k, v)); [by destruct raw|].
  unfold encodeParamHeaderValue.
  destruct (primitive_text raw) as [s|] eqn:Hs; cbn [mbind option_bind]; [|naive_solver].
  split.
  - intros [= <- <-]. by exists h, raw, s.
  - intros (h' & raw' & s' & [= <-] & -> & [= <-] & Hs' & ->). by simplify_eq.
Qed.

Lemma paramHeadersForTool_eq tool argsJSON :
  paramHeadersForTool tool argsJSON =
  headers_among (call_args argsJSON) (map_to_list (tool_annotations tool)).
Proof.
  unfold paramHeadersForTool, tool_annotations.
  destruct (tool !! "inputSchema") as [raw|]; [|done].
  by destruct (schema_annotations raw).
Qed.

Lemma headers_among_NoDup tool args iteration :
  headers_distinct tool → iteration ≡ₚ map_to_list (tool_annotations tool) →
  NoDup (omap (prop_header args) iteration).*1.
Proof.
  intros Hd Hp.
  assert (NoDup iteration.*1) as Hnd by (rewrite Hp; apply NoDup_fst_map_to_list).
  assert (∀ p, p ∈ iteration → tool_annotations tool !! p.1 = Some p.2) as Hin.
  { intros [n a]. rewrite Hp. apply elem_of_map_to_list. }
  clear Hp. induction iteration as [|[n a] l IH]; [constructor|].
  rewrite fmap_cons in Hnd. apply NoDup_cons in Hnd as [Hn Hnd].
  specialize (IH Hnd (λ p Hp, Hin p ltac:(by right))).
  cbn [omap list_omap]. destruct (prop_header args (n, a)) as [[k v]|] eqn:Hk; [|done].
  rewrite fmap_cons. apply NoDup_cons. split; [|done].
  intros Hel. apply list_elem_of_fmap in Hel as ([k' v'] & Hkk & Hel). cbn [fst] in Hkk. subst k'.
  apply list_elem_of_omap in Hel as ([n' a'] & Hl & Hk').
  apply prop_header_Some in Hk as (h & ? & ? & Ha & Hkeq & _).
  apply prop_header_Some in Hk' as (h' & ? & ? & Ha' & Hkeq' & _).
  rewrite Hkeq' in Hkeq. apply (inj (String.append paramHeaderPrefix)) in Hkeq as <-.
  pose proof (Hin (n, a) ltac:(by left)) as H1. pose proof (Hin (n', a') ltac:(by right)) as H2.
  assert (n = n') as <-.
  { apply (Hd n n' h'); unfold tool_header; cbn [fst snd] in H1, H2; [by rewrite H1|by rewrite H2]. }
  apply Hn. apply list_elem_of_fmap. by exists (n, a').
Qed.

Lemma prop_headers_elem tool args iteration k v :
  iteration ≡ₚ map_to_list (tool_annotations tool) →
  (k, v) ∈ omap (prop_header args) iteration ↔
  ∃ name h raw text, tool_header tool name = Some h ∧ k = paramHeaderPrefix +:+ h ∧
    args !! name = Some raw ∧ primitive_text raw = Some text ∧ v = wrap_header_value text.
Proof.
  intros Hp. rewrite list_elem_of_omap. setoid_rewrite Hp. unfold tool_header. split.
  - intros ([name a] & Hl%elem_of_map_to_list & Hk).
    apply prop_header_Some in Hk as (h & raw & text & Ha & ? & ? & ? & ?).
    exists name, h, raw, text. by rewrite Hl.
  - intros (name & h & raw & text & Hh & ? & ? & ? & ?).
    destruct (tool_annotations tool !! name) as [a|] eqn:Hl; [|done].
    exists (name, a). split; [by apply elem_of_map_to_list|].
    apply prop_header_Some. by exists h, raw, text.
Qed.

Lemma set_pairs_snoc l k v : set_pairs (l ++ [(k, v)]) = <[k := v]> (set_pairs l).
Proof. unfold set_pairs. by rewrite foldl_app. Qed.

Lemma set_pairs_lookup l k v : set_pairs l !! k = Some v → (k, v) ∈ l.
Proof.
  induction l as [|[k' v'] l IH] using rev_ind; [done|].
  rewrite set_pairs_snoc, lookup_insert_Some. intros [[-> ->]|[_ Hk]]; set_solver.
Qed.

Lemma set_pairs_present l k v : (k, v) ∈ l → is_Some (set_pairs l !! k).
Proof.
  induction l as [|[k' v'] l IH] using rev_ind; [by intros ?%not_elem_of_nil|].
  rewrite set_pairs_snoc. intros Hin. destruct (decide (k' = k)) as [->|Hne]; [by rewrite lookup_insert_eq|].
  rewrite lookup_insert_ne by done. apply IH. apply elem_of_app in Hin as [?|[= -> ->]%list_elem_of_singleton]; done.
Qed.

(** ** Theorems *)

(** C34: a value written to a header comes back as it was, whatever its bytes,
    and what is written can travel in a header. *)
Theorem encodeParamHeaderValue_roundtrip raw :
  unwrap_header_value <$> encodeParamHeaderValue raw = Some <$> primitive_text raw ∧
  ∀ v, encodeParamHeaderValue raw = Some v → header_safe v.
Proof.
  unfold encodeParamHeaderValue. destruct (primitive_text raw) as [s|]; cbn.
  - rewrite unwrap_wrap. split; [done|]. intros v [= <-]. apply wrap_safe.
  - done.
Qed.

(** C35: every integer of at most 53 bits is sent in its decimal form; the
    first one with more is not. *)
Theorem encodeParamHeaderValue_integers :
  (∀ z, (Z.abs z < 2 ^ 53)%Z →
     unwrap_header_value <$> encodeParamHeaderValue (JNum (pretty z)) = Some (Some (pretty z))) ∧
  encodeParamHeaderValue (JNum (pretty (2 ^ 53 + 1)%Z)) = Some (pretty (2 ^ 53)%Z).
Proof.
  split; [|by vm_compute]. intros z Hz. unfold encodeParamHeaderValue.
  rewrite primitive_text_int by done. cbn. by rewrite unwrap_wrap.
Qed.

(** C33: the headers of a call, in whatever order Go ranges over the schema's
    properties. Every header sent is that of an annotated property present as a
    primitive among the arguments, with its encoded value, and every such property's
    header is sent; when no two properties are annotated with one header name
    these are exactly the headers, and the order does not matter. *)
Theorem paramHeadersForTool_correct tool argsJSON iteration :
  iteration ≡ₚ map_to_list (tool_annotations tool) →
  let sent := headers_among (call_args argsJSON) iteration in
  let wanted k v := ∃ name h raw text, tool_header tool name = Some h ∧ k = paramHeaderPrefix +:+ h ∧
    call_args argsJSON !! name = Some raw ∧ primitive_text raw = Some text ∧ v = wrap_header_value text in
  (∀ k v, sent !! k = Some v → wanted k v) ∧
  (∀ k v, wanted k v → is_Some (sent !! k)) ∧
  (headers_distinct tool →
   sent = paramHeadersForTool tool argsJSON ∧
   ∀ k v, paramHeadersForTool tool argsJSON !! k = Some v ↔ wanted k v).
Proof.
  intros Hp sent wanted. unfold sent, headers_among.
  assert (∀ k v, wanted k v ↔ (k, v) ∈ omap (prop_header (call_args argsJSON)) iteration) as Hw.
  { intros k v. symmetry. by apply prop_headers_elem. }
  split_and!.
  - intros k v Hk. by apply Hw, set_pairs_lookup.
  - intros k v Hk%Hw. by eapply set_pairs_present.
  - intros Hd. pose proof (headers_among_NoDup tool (call_args argsJSON) _ Hd Hp) as Hnd.
    assert (set_pairs (omap (prop_header (call_args argsJSON)) iteration) = paramHeadersForTool tool argsJSON) as <-.
    { rewrite paramHeadersForTool_eq. unfold headers_among.
      rewrite !set_pairs_list_to_map by eauto using headers_among_NoDup.
      apply list_to_map_proper; [done|]. by rewrite Hp. }
    split; [done|]. intros k v. rewrite Hw, set_pairs_list_to_map by done. by rewrite <- elem_of_list_to_map.
Qed.

Definition tool_ex : rawTool :=
  {["inputSchema" := JObj [("properties", JObj
      [("owner", JObj [("x-mcp-header", JStr "owner")]); ("n", JObj [])])]]}.

Lemma tool_ex_header n h : tool_header tool_ex n = Some h → n = "owner".
Proof.
  unfold tool_header.
  replace (tool_annotations tool_ex)
    with (<["n" := None]> {["owner" := Some (JStr "owner")]} : gmap string (option json))
    by (vm_compute; reflexivity).
  destruct (decide (n = "n")) as [->|Hn]; [by rewrite lookup_insert_eq|].
  rewrite lookup_insert_ne by done.
  destruct (decide (n = "owner")) as [->|Ho]; [done|]. by rewrite lookup_singleton_ne.
Qed.

Lemma paramHeadersForTool_correct_witness :
  paramHeadersForTool tool_ex (Some (JObj [("owner", JStr " me"); ("n", JBool true)]))
    !! "Mcp-Param-owner" = Some "=?base64?IG1l?=".
Proof.
  apply (proj2 (proj2 (proj2 (paramHeadersForTool_correct tool_ex _ _ (reflexivity _)))
    (λ n1 n2 h H1 H2, eq_trans (tool_ex_header _ _ H1) (eq_sym (tool_ex_header _ _ H2))))).
  exists "owner", "owner", (JStr " me"), " me". split_and!; vm_compute; reflexivity.
Defined.

(** Merging keeps every header, the later map's value winning. *)
Lemma mergeHeaders_lookup m1 m2 k :
  mergeHeaders [m1; m2] !! k =
  match m2 !! k with Some v => Some v | None => m1 !! k end.
Proof.
  rewrite mergeHeaders_two, lookup_union. by destruct (m2 !! k), (m1 !! k).
Qed.
