(* ===== verification/Client.v ===== *)
(** * internal/proxy/client.go: MCP toward one backend

    A [backendClient] is its backend; [stateless] is derived from it. Payloads
    are the printed requests, answers go through [decodeBody], and every method
    is a computation on the outside world that logs what it sends. Timeouts,
    connections and tracing spans are part of the environment's round trip. *)

From Stdlib Require Import Ascii.
From stdpp Require Import base numbers option pretty gmap fin_maps sorting strings list.
From S2P Require Import Prelude GoStrings Json Decode Config Registry Http Rpc Schema.

#[local] Set Warnings "-clear-no-such-hyp".
#[local] Open Scope nat_scope.

(** ** Requests *)

(** The header the credential travels in. *)
Definition credential_value (b : Backend) (credential : string) : string :=
  if nonempty (b_CredentialScheme b)
  then b_CredentialScheme b +:+ " " +:+ credential else credential.

(** The two loops over [c.backend.Headers] and [extra], in the orders Go happens to
    range over them. *)
Definition applyAuth_in (b : Backend) (credential : string) (base extra : list (string * string))
    (h : Header) : Header :=
  let h :=
    if nonempty credential
    then header_set (b_CredentialHeader b) (credential_value b credential) h else h in
  header_set_all extra (header_set_all base h).

(** One of those orders; the others differ only where two keys name one header. *)
Definition applyAuth (b : Backend) (credential : string) (extra : gmap string string)
    (h : Header) : Header :=
  applyAuth_in b credential (map_to_list (b_Headers b)) (map_to_list extra) h.

(** The request's own headers, before the credential's. *)
Definition protocol_headers (b : Backend) (sessionID mcpMethod mcpName : string) : Header :=
  let h := header_set "Accept" "application/json, text/event-stream"
             (header_set "Content-Type" "application/json" ∅) in
  if Stateless b then
    let h := header_set mcpProtocolVersionHeader ProtocolVersionStateless h in
    let h := if nonempty mcpMethod then header_set mcpMethodHeader mcpMethod h else h in
    if nonempty mcpName then header_set mcpNameHeader mcpName h else h
  else if nonempty sessionID then header_set mcpSessionHeader sessionID h
  else h.

(** ** Calls *)

Inductive client_error :=
| BadURL
| TransportError
| BadStatus (status : Z)
| BadBody (e : body_error)
| BadResponse (e : decode_error)
| ErrorResponse (error : json)
| BadRequest (e : decode_error).

(** What [post] makes of the answer: the payload and the answer's session id. *)
Definition read_response (resp : option OutResponse) : result client_error (string * string) :=
  match resp with
  | None => Err TransportError
  | Some p =>
      if (p_Status p <? 200)%Z || (300 <=? p_Status p)%Z then Err (BadStatus (p_Status p)) else
      match decodeBody (header_get "Content-Type" (p_Header p)) (p_Body p) (p_ReadErr p) with
      | Ok decoded => Ok (decoded, header_get mcpSessionHeader (p_Header p))
      | Err e => Err (BadBody e)
      end
  end.

(** The two members of a response a struct target names. *)
Definition response_members (body : string) : result decode_error (list (string * json)) :=
  v ← parse_text body; struct_members v.

Definition read_initialize (body : string) : result client_error (option json) :=
  match response_members body with
  | Err e => Err (BadResponse e)
  | Ok l =>
      match raw_field "error" l with
      | Some e => Err (ErrorResponse e)
      | None => Ok (raw_field "result" l)
      end
  end.

(** The [result] members in order, each decoded over the previous one. *)
Definition response_tools (l : list (string * json)) : result decode_error (option (list rawTool)) :=
  foldl (λ acc kv, cur ← acc;
           if names_field "result" kv.1 then tools_of_result cur kv.2 else Ok cur) (Ok None) l.

Definition read_tools (body : string) : result client_error (option (list rawTool)) :=
  match l ← response_members body; ts ← response_tools l; Ok (l, ts) with
  | Err e => Err (BadResponse e)
  | Ok (l, ts) =>
      match raw_field "error" l with
      | Some e => Err (ErrorResponse e)
      | None => Ok ts
      end
  end.

Section client.
Context {E : Env}.

Definition post (b : Backend) (payload sessionID credential : string)
    (extra : gmap string string) (mcpMethod mcpName : string)
    : M (Outside E) (result client_error (string * string)) :=
  match e_url_Parse E (u_String (b_URL b)) with
  | None => mret (Err BadURL)
  | Some u =>
      h ← inject_trace
            (applyAuth b credential extra (protocol_headers b sessionID mcpMethod mcpName));
      resp ← do_request (mkOutRequest "POST" (u_String u) h payload);
      mret (read_response resp)
  end.

Definition initialize (b : Backend) (initParams : option json) (credential : string)
    : M (Outside E) (result client_error (string * option json)) :=
  let payload := print (marshal_request (mkRPC "2.0" "initialize" initParams (Some (JNum "1")))) in
  r ← post b payload "" credential ∅ "initialize" "";
  mret (x ← r; res ← read_initialize x.1; Ok (x.2, res)).

Definition notifyInitialized (b : Backend) (sessionID credential : string)
    : M (Outside E) () :=
  let payload := print (marshal_request (mkRPC "2.0" "notifications/initialized" None None)) in
  _ ← post b payload sessionID credential ∅ "notifications/initialized" "";
  mret ().

(** [injectMeta] applied to a value, or the panic of its nil map. *)
Definition inject_meta (params : option json) : M (Outside E) (option json) :=
  match injectMeta params with Some v => mret (Some v) | None => panic end.

Definition listTools (b : Backend) (sessionID credential : string)
    (headers : gmap string string) : M (Outside E) (result client_error (option (list rawTool))) :=
  params ← (if Stateless b then inject_meta None else mret None);
  let payload := print (marshal_request (mkRPC "2.0" "tools/list" params (Some (JNum "2")))) in
  r ← post b payload sessionID credential headers "tools/list" "";
  mret (x ← r; read_tools x.1).

Definition callTool (b : Backend) (sessionID credential reqBytes : string)
    (tenantHeaders : gmap string string) (toolName : string)
    : M (Outside E) (result client_error string) :=
  reqBytes ←
    (if Stateless b then
       match v ← parse_text reqBytes; unmarshal_request v with
       | Err e => mret (Err (BadRequest e))
       | Ok req =>
           params ← inject_meta (j_Params req);
           mret (Ok (print (marshal_request
                              (mkRPC (j_JSONRPC req) (j_Method req) params (j_ID req)))))
       end
     else mret (Ok reqBytes));
  match reqBytes with
  | Err e => mret (Err e)
  | Ok reqBytes =>
      r ← post b reqBytes sessionID credential tenantHeaders "tools/call" toolName;
      mret (x ← r; Ok x.1)
  end.
End client.

(** ** What a request carries *)

Lemma header_set_union k v (h : Header) :
  header_set k v h = {[CanonicalHeaderKey k := v]} ∪ h.
Proof. unfold header_set. by rewrite insert_union_singleton_l. Qed.

(** The credential, as a header map of its own. *)
Definition credential_headers (b : Backend) (credential : string) : Header :=
  if nonempty credential
  then {[CanonicalHeaderKey (b_CredentialHeader b) := credential_value b credential]} else ∅.

Lemma applyAuth_eq b credential extra h :
  header_keys_distinct extra → header_keys_distinct (b_Headers b) →
  applyAuth b credential extra h =
  canonical_headers extra ∪ (canonical_headers (b_Headers b) ∪ (credential_headers b credential ∪ h)).
Proof.
  intros He Hb. unfold credential_headers.
  change (applyAuth b credential extra h) with (header_set_map extra (header_set_map (b_Headers b)
    (if nonempty credential then header_set (b_CredentialHeader b) (credential_value b credential) h else h))).
  rewrite !header_set_map_eq by done. destruct (nonempty credential).
  - by rewrite header_set_union.
  - by rewrite (left_id_L ∅ (∪) h).
Qed.

(** What a header of the request is, in any iteration order. *)
Lemma applyAuth_lookup b credential base extra le h k :
  base ≡ₚ map_to_list (b_Headers b) → le ≡ₚ map_to_list extra →
  let sent := applyAuth_in b credential base le h in
  ((∃ v, value_under extra k v) → ∃ v, value_under extra k v ∧ sent !! k = Some v) ∧
  ((∀ v, ¬ value_under extra k v) → (∃ v, value_under (b_Headers b) k v) →
     ∃ v, value_under (b_Headers b) k v ∧ sent !! k = Some v) ∧
  ((∀ v, ¬ value_under extra k v) → (∀ v, ¬ value_under (b_Headers b) k v) →
     sent !! k = if nonempty credential && String.eqb k (CanonicalHeaderKey (b_CredentialHeader b))
                 then Some (credential_value b credential) else h !! k).
Proof.
  intros Hb He. unfold applyAuth_in. cbv zeta.
  set (h1 := if nonempty credential then _ else h). set (h2 := header_set_all base h1).
  destruct (header_set_all_any extra le h2 k He) as [(v & Hv & Hs)|[Hno Hs]].
  { split_and!; [by exists v|intros Hn; by destruct (Hn v)|intros Hn; by destruct (Hn v)]. }
  rewrite Hs. destruct (header_set_all_any (b_Headers b) base h1 k Hb) as [(v & Hv & Hs2)|[Hno2 Hs2]]; fold h2 in Hs2; rewrite Hs2.
  { split_and!; [intros [x Hx]; by destruct (Hno x)|by exists v|intros _ Hn; by destruct (Hn v)]. }
  split_and!; [intros [x Hx]; by destruct (Hno x)|intros _ [x Hx]; by destruct (Hno2 x)|]. intros _ _.
  unfold h1. destruct (nonempty credential); [|done]. cbn [andb]. unfold header_set.
  destruct (String.eqb_spec k (CanonicalHeaderKey (b_CredentialHeader b))) as [->|Hne]; [apply lookup_insert_eq|].
  by rewrite lookup_insert_ne.
Qed.

Lemma applyAuth_order b credential base extra le h :
  header_keys_distinct extra → header_keys_distinct (b_Headers b) →
  base ≡ₚ map_to_list (b_Headers b) → le ≡ₚ map_to_list extra →
  applyAuth_in b credential base le h = applyAuth b credential extra h.
Proof.
  intros De Db Hb He. unfold applyAuth, applyAuth_in. cbv zeta.
  rewrite (header_set_map_order extra le) by done. by rewrite (header_set_map_order (b_Headers b) base) by done.
Qed.

Section carries.
Context {E : Env}.

(** The exchange is a POST to [b] on session [sid], with this credential and
    these extra headers. *)
Definition carries_on (b : Backend) (credential sid : string) (extra : gmap string string)
    (x : exchange) : Prop :=
  ∃ u n m name, e_url_Parse E (u_String (b_URL b)) = Some u ∧ q_URL x.1 = u_String u ∧
    q_Header x.1 = e_inject E n (applyAuth b credential extra (protocol_headers b sid m name)).

Definition carries (b : Backend) (credential : string) (extra : gmap string string)
    (x : exchange) : Prop := ∃ sid, carries_on b credential sid extra x.

Lemma post_returns b payload sid credential extra m name :
  returns (post (E := E) b payload sid credential extra m name).
Proof. unfold post. destruct (e_url_Parse _ _); auto 6 with proxy. Qed.

Lemma initialize_returns b ip credential : returns (initialize (E := E) b ip credential).
Proof. unfold initialize. auto using post_returns with proxy. Qed.

Lemma notifyInitialized_returns b sid credential :
  returns (notifyInitialized (E := E) b sid credential).
Proof. unfold notifyInitialized. auto using post_returns with proxy. Qed.

Lemma listTools_returns b sid credential headers :
  returns (listTools (E := E) b sid credential headers).
Proof.
  unfold listTools. apply returns_bind; [destruct (Stateless b)|]; cbn;
    auto using post_returns with proxy.
Qed.

(** The single request a call that gets as far as the network makes. *)
Lemma post_log b u payload sid credential extra m name o :
  e_url_Parse E (u_String (b_URL b)) = Some u →
  let q := mkOutRequest "POST" (u_String u)
             (e_inject E (o_net o) (applyAuth b credential extra (protocol_headers b sid m name)))
             payload in
  post b payload sid credential extra m name o =
  (Return (read_response (e_roundtrip E (o_net o) q).2),
   mkOutside (e_roundtrip E (o_net o) q).1 (o_ticks o) (o_draws o)
     (o_log o ++ [(q, (e_roundtrip E (o_net o) q).2)])).
Proof.
  intros Hu q. unfold post. rewrite Hu. unfold mbind, M_bind, inject_trace, do_request.
  fold q. by destruct (e_roundtrip E (o_net o) q).
Qed.

Lemma post_sends b payload sid credential extra m name :
  sends_only (o_log (E := E)) (carries b credential extra)
    (post b payload sid credential extra m name).
Proof.
  destruct (e_url_Parse E (u_String (b_URL b))) as [u|] eqn:Hu.
  - intros o. rewrite (post_log _ _ _ _ _ _ _ _ _ Hu). eexists. split; [reflexivity|].
    constructor; [|constructor]. by exists sid, u, (o_net o), m, name.
  - unfold post. rewrite Hu. apply sends_ret.
Qed.

Lemma initialize_sends b ip credential :
  sends_only (o_log (E := E)) (carries b credential ∅) (initialize b ip credential).
Proof. unfold initialize. auto using post_sends with proxy. Qed.

Lemma notifyInitialized_sends b sid credential :
  sends_only (o_log (E := E)) (carries b credential ∅) (notifyInitialized b sid credential).
Proof. unfold notifyInitialized. auto using post_sends with proxy. Qed.

Lemma inject_meta_sends P params :
  sends_only (o_log (E := E)) P (inject_meta params).
Proof. unfold inject_meta. destruct (injectMeta params); auto with proxy. Qed.

Lemma listTools_sends b sid credential headers :
  sends_only (o_log (E := E)) (carries b credential headers) (listTools b sid credential headers).
Proof.
  unfold listTools. apply sends_bind; [destruct (Stateless b); auto using inject_meta_sends with proxy|].
  auto using post_sends with proxy.
Qed.

Lemma callTool_sends b sid credential bytes headers name :
  sends_only (o_log (E := E)) (carries b credential headers)
    (callTool b sid credential bytes headers name).
Proof.
  unfold callTool. apply sends_bind.
  - destruct (Stateless b); [|auto with proxy].
    destruct (v ← parse_text bytes; unmarshal_request v); auto using inject_meta_sends with proxy.
  - intros [req|e]; auto using post_sends with proxy.
Qed.

(** A 2xx answer whose body decodes. *)
Definition answered (p : OutResponse) (body : string) : Prop :=
  (200 <= p_Status p < 300)%Z ∧
  decodeBody (header_get "Content-Type" (p_Header p)) (p_Body p) (p_ReadErr p) = Ok body.

Lemma read_response_Ok resp body sid :
  read_response resp = Ok (body, sid) ↔
  ∃ p, resp = Some p ∧ answered p body ∧ sid = header_get mcpSessionHeader (p_Header p).
Proof.
  unfold read_response, answered. destruct resp as [p|]; [|naive_solver].
  destruct (Z.ltb_spec (p_Status p) 200), (Z.leb_spec 300 (p_Status p)); cbn [orb].
  1-3: split; [done|intros (? & [= <-] & [? _] & _); lia].
  destruct (decodeBody _ _ _) as [d|e] eqn:Hd.
  - split; [intros [= -> <-]; exists p; split_and!; done || lia|].
    intros (? & [= <-] & [_ Hd'] & ->). rewrite Hd in Hd'. by injection Hd' as ->.
  - split; [done|]. intros (? & [= <-] & [_ Hd'] & _). by rewrite Hd in Hd'.
Qed.

End carries.

(** ** A backend to run against

    Answers every request with 200: a session id to [initialize], one tool to
    [tools/list], an empty result to anything else. *)

Definition fake_tool : json :=
  JObj [("name", JStr "get"); ("inputSchema", JObj [("type", JStr "object")])].

Definition fake_response (q : OutRequest) : OutResponse :=
  let reply sid res :=
    mkOutResponse 200 (header_set mcpSessionHeader sid (header_set "Content-Type" "application/json" ∅))
      (print (JObj [("jsonrpc", JStr "2.0"); ("id", JNum "1"); ("result", res)])) false in
  if contains_sub (q_Body q) "initialize" then reply "backend-session" (JObj [])
  else if contains_sub (q_Body q) "tools/list" then reply "" (JObj [("tools", JArr [fake_tool])])
  else reply "" (JObj []).

Definition env_ex : Env := {|
  e_net := unit;
  e_roundtrip _ q := (tt, Some (fake_response q));
  e_inject _ h := h;
  e_clock n := Z.of_nat n;
  e_random n := "abcdefghijklmnop";
  e_url_Parse := url_ex |}.

Definition outside_ex : Outside env_ex := mkOutside (E := env_ex) tt 0 0 [].

Definition backend_ex : Backend :=
  mkBackend "github" (mkURL "http" "host" "http://host/mcp") {["X-Env" := "prod"]} "shared"
    "Authorization" "Bearer" ProtocolVersionStateless.

Definition request_ex : jsonRPCRequest :=
  mkRPC "2.0" "tools/call" (Some (JObj [("name", JStr "get")])) (Some (JNum "7")).

(** ** Theorems *)

(** C26: the header map of a backend request, in whatever orders Go ranges over
    the two configured maps. A header an extra key names carries the value of such
    a key; else one a key of the backend names carries that of such a key; else the
    credential's header carries the credential, if there is one; every other is as
    the protocol set it. So a credential no configured header replaces is the one
    sent. And when no two keys of a map differ only in spelling the orders do not
    matter. *)
Theorem applyAuth_correct b credential base extra le h :
  base ≡ₚ map_to_list (b_Headers b) → le ≡ₚ map_to_list extra →
  let sent := applyAuth_in b credential base le h in
  (∀ k,
    ((∃ v, value_under extra k v) → ∃ v, value_under extra k v ∧ sent !! k = Some v) ∧
    ((∀ v, ¬ value_under extra k v) → (∃ v, value_under (b_Headers b) k v) →
       ∃ v, value_under (b_Headers b) k v ∧ sent !! k = Some v) ∧
    ((∀ v, ¬ value_under extra k v) → (∀ v, ¬ value_under (b_Headers b) k v) →
       sent !! k = if nonempty credential && String.eqb k (CanonicalHeaderKey (b_CredentialHeader b))
                   then Some ((if nonempty (b_CredentialScheme b) then b_CredentialScheme b +:+ " " else "") +:+ credential)
                   else h !! k)) ∧
  (header_keys_distinct extra → header_keys_distinct (b_Headers b) →
   sent = applyAuth b credential extra h ∧
   sent = canonical_headers extra ∪
            (canonical_headers (b_Headers b) ∪ (credential_headers b credential ∪ h))).
Proof.
  intros Hb He sent. split.
  - intros k. destruct (applyAuth_lookup b credential base extra le h k Hb He) as (H1 & H2 & H3).
    split_and!; [exact H1|exact H2|]. intros N1 N2. unfold sent. rewrite (H3 N1 N2). unfold credential_value.
    destruct (_ && _); [|done]. destruct (nonempty (b_CredentialScheme b)); [|done]. by rewrite app_assoc_str.
  - intros De Db. unfold sent. rewrite (applyAuth_order b credential base extra le h) by done.
    split; [done|by apply applyAuth_eq].
Qed.

Lemma applyAuth_correct_witness :
  let extra : gmap string string := <["x-org" := "1"]> {["X-Org" := "2"]} in
  let base := map_to_list (b_Headers backend_ex) in
  applyAuth_in backend_ex "pat" base (reverse (map_to_list extra)) ∅ !! "Authorization" = Some "Bearer pat" ∧
  ∃ v, value_under extra "X-Org" v ∧
    applyAuth_in backend_ex "pat" base (reverse (map_to_list extra)) ∅ !! "X-Org" = Some v.
Proof.
  intros extra base.
  assert (∀ k v, value_under extra k v → k = "X-Org") as Hextra.
  { intros k v (k' & Hk & <-). unfold extra in Hk. apply lookup_insert_Some in Hk as [[<- _]|[_ Hk]]; [reflexivity|].
    apply lookup_singleton_Some in Hk as [<- _]. reflexivity. }
  assert (∀ k v, value_under (b_Headers backend_ex) k v → k = "X-Env") as Hbase.
  { intros k v (k' & Hk & <-). cbn [b_Headers backend_ex] in Hk.
    apply lookup_singleton_Some in Hk as [<- _]. reflexivity. }
  destruct (applyAuth_correct backend_ex "pat" base extra (reverse (map_to_list extra)) ∅
    (reflexivity _) (reverse_Permutation _)) as [Hk _].
  split.
  - refine (eq_trans (proj2 (proj2 (Hk "Authorization")) _ _) _); [| |vm_compute; reflexivity].
    + intros v Hv. apply Hextra in Hv. discriminate Hv.
    + intros v Hv. apply Hbase in Hv. discriminate Hv.
  - apply (proj1 (Hk "X-Org")). exists "1", "x-org". split; reflexivity.
Defined.

(** A stateless request never names a session and always the revision, the
    method and (when it has one) the tool; a stateful one names exactly the
    session it was given and none of the others. *)
Theorem protocol_headers_correct b sid m name :
  let h := protocol_headers b sid m name in
  h !! CanonicalHeaderKey "Content-Type" = Some "application/json" ∧
  if Stateless b then
    h !! CanonicalHeaderKey mcpSessionHeader = None ∧
    h !! CanonicalHeaderKey mcpProtocolVersionHeader = Some ProtocolVersionStateless ∧
    h !! CanonicalHeaderKey mcpMethodHeader = (if nonempty m then Some m else None) ∧
    h !! CanonicalHeaderKey mcpNameHeader = (if nonempty name then Some name else None)
  else
    h !! CanonicalHeaderKey mcpSessionHeader = (if nonempty sid then Some sid else None) ∧
    h !! CanonicalHeaderKey mcpProtocolVersionHeader = None ∧
    h !! CanonicalHeaderKey mcpMethodHeader = None ∧
    h !! CanonicalHeaderKey mcpNameHeader = None.
Proof.
  unfold protocol_headers.
  destruct (Stateless b), (nonempty m), (nonempty name), (nonempty sid); by vm_compute.
Qed.

(** The handshake succeeds exactly when the request can be built, the
    backend answers 2xx with a decodable body that is an object (or [null])
    without an [error] member; the session is the one the answer names. *)
Theorem initialize_correct {E : Env} b ip credential (o : Outside E) sid res :
  (initialize b ip credential o).1 = Return (Ok (sid, res)) ↔
  ∃ u p body l,
    e_url_Parse E (u_String (b_URL b)) = Some u ∧
    (e_roundtrip E (o_net o)
       (mkOutRequest "POST" (u_String u)
          (e_inject E (o_net o) (applyAuth b credential ∅ (protocol_headers b "" "initialize" "")))
          (print (marshal_request (mkRPC "2.0" "initialize" ip (Some (JNum "1"))))))).2 = Some p ∧
    answered p body ∧ response_members body = Ok l ∧ raw_field "error" l = None ∧
    sid = header_get mcpSessionHeader (p_Header p) ∧ res = raw_field "result" l.
Proof.
  unfold initialize. destruct (e_url_Parse E (u_String (b_URL b))) as [u|] eqn:Hu.
  2:{ unfold mbind at 1, M_bind, post. rewrite Hu. cbn. split; [done|naive_solver]. }
  unfold mbind at 1, M_bind. rewrite (post_log _ _ _ _ _ _ _ _ _ Hu).
  cbn [mret M_ret fst]. split.
  - match goal with |- context [read_response ?r] =>
      destruct (read_response r) as [[body sid']|e] eqn:Hr; [|done] end.
    apply read_response_Ok in Hr as (p & Hp & Ha & ->).
    cbn [mbind result_bind fst snd]. unfold read_initialize.
    destruct (response_members body) as [l|e] eqn:Hl; [|done].
    destruct (raw_field "error" l) eqn:He; [done|]. intros [= <- <-].
    by exists u, p, body, l.
  - intros (u' & p & body & l & [= <-] & Hp & Ha & Hl & He & -> & ->). rewrite Hp.
    rewrite (proj2 (read_response_Ok (Some p) body (header_get mcpSessionHeader (p_Header p))));
      [|by exists p].
    cbn [mbind result_bind fst snd]. unfold read_initialize. by rewrite Hl, He.
Qed.

(** What a tool call sends: to a stateful backend the request as it is, to
    a stateless one the same request with the client identity in its params;
    one request, with the tool's headers merged in. *)
Theorem callTool_correct {E : Env} b u sid credential req headers name (o : Outside E) :
  e_url_Parse E (u_String (b_URL b)) = Some u →
  json_ok (marshal_request req) = true → (json_depth (marshal_request req) <= max_depth)%N →
  match injectMeta (j_Params req) with
  | None => Stateless b = true →
      callTool b sid credential (print (marshal_request req)) headers name o = (Panic, o)
  | Some params =>
      let req' := if Stateless b then mkRPC (j_JSONRPC req) (j_Method req) (Some params) (j_ID req)
                  else req in
      let q := mkOutRequest "POST" (u_String u)
                 (e_inject E (o_net o)
                    (applyAuth b credential headers (protocol_headers b sid "tools/call" name)))
                 (print (marshal_request req')) in
      let call := callTool b sid credential (print (marshal_request req)) headers name o in
      let answer := (e_roundtrip E (o_net o) q).2 in
      o_log call.2 = o_log o ++ [(q, answer)] ∧
      call.1 = Return (x ← read_response answer; Ok x.1)
  end.
Proof.
  intros Hu Hok Hd. unfold callTool. unfold parse_text. rewrite (parse_print _ Hok Hd).
  cbn [mbind result_bind]. rewrite unmarshal_marshal_request. unfold inject_meta.
  destruct (injectMeta (j_Params req)) as [params|].
  - destruct (Stateless b); unfold mbind, M_bind; cbn [mret M_ret];
      rewrite (post_log _ _ _ _ _ _ _ _ _ Hu); cbn; by split.
  - intros Hs. rewrite Hs. done.
Qed.

Lemma callTool_correct_witness :
  q_Body ∘ fst <$> o_log (callTool (E := env_ex) backend_ex "" "pat" (print (marshal_request request_ex))
                       ∅ "get" outside_ex).2 =
  [print (marshal_request
     (mkRPC "2.0" "tools/call"
        (Some (JObj [("_meta", statelessClientMeta); ("name", JStr "get")])) (Some (JNum "7"))))].
Proof.
  pose proof (callTool_correct (E := env_ex) backend_ex (mkURL "http" "host" "http://host/mcp")
                "" "pat" request_ex ∅ "get" outside_ex eq_refl eq_refl ltac:(vm_compute; discriminate))
    as H.
  cbn [injectMeta request_ex j_Params] in H.
  destruct H as [H _]. rewrite H. vm_compute. reflexivity.
Defined.
