(* ===== verification/Catalog.v ===== *)
(** * internal/proxy/catalog.go: the cached tool lists

    One [catalog] per distinct tenant view, shared by pointer: here an index
    into [cs_unique]. A tool is a Go map, so a cached list holds references, and
    the tools live in a heap the handler's copies are allocated in too. *)

From Stdlib Require Import Ascii.
From stdpp Require Import base numbers option pretty gmap fin_maps sorting strings list.
From S2P Require Import Prelude GoStrings Json Decode Config Registry Http Rpc Schema Client.

#[local] Set Warnings "-clear-no-such-hyp".
#[local] Open Scope nat_scope.

(** ** Data *)

Definition defaultInitParams : json :=
  JObj [("protocolVersion", JStr "2025-03-26"); ("capabilities", JObj []);
        ("clientInfo", JObj [("name", JStr "mt-mcp-proxy"); ("version", JStr "0")])].

(** [k_tools] is [None] for the nil slice. *)
Record catalog := mkCatalog {
  k_backend : Backend;
  k_cred : string;
  k_headers : gmap string string;
  k_ttl : Z;
  k_tools : option (list nat);
  k_fetchedAt : Z }.

Definition newCatalog (b : Backend) (cred : string) (headers : gmap string string) (ttl : Z)
    : catalog := mkCatalog b cred headers ttl None 0.

Record Catalogs := mkCatalogs {
  cs_byTenant : gmap string nat;
  cs_unique : list catalog }.

(** ** Construction *)

Definition view_header (t : Tenant) (k : string) : string :=
  nul +:+ CanonicalHeaderKey k +:+ "=" +:+ default "" (t_Headers t !! k).

Definition viewKey (t : Tenant) : string :=
  let keys := sort_strings (map_to_list (t_Headers t)).*1 in
  b_Name (t_Backend t) +:+ nul +:+ EffectiveCredential t +:+ concat_str (view_header t <$> keys).

(** One round of the loop: the catalogs by key, and the collection. *)
Definition add_view (ttl : Z) (acc : gmap string nat * Catalogs) (t : Tenant)
    : gmap string nat * Catalogs :=
  let '(byKey, cs) := acc in
  let key := viewKey t in
  match byKey !! key with
  | Some c => (byKey, mkCatalogs (<[t_ID t := c]> (cs_byTenant cs)) (cs_unique cs))
  | None =>
      let c := length (cs_unique cs) in
      (<[key := c]> byKey,
       mkCatalogs (<[t_ID t := c]> (cs_byTenant cs))
         (cs_unique cs ++ [newCatalog (t_Backend t) (EffectiveCredential t) (t_Headers t) ttl]))
  end.

Definition NewCatalogs (reg : Registry) (ttl : Z) : Catalogs :=
  (foldl (add_view ttl) (∅, mkCatalogs ∅ []) (sort_on t_ID (Tenants reg))).2.

Definition forTenant (cs : Catalogs) (id : string) : option nat := cs_byTenant cs !! id.

(** ** Reading *)

Definition toolName (t : rawTool) : string :=
  match t !! "name" with Some raw => ok_or "" (unmarshal_string "" raw) | None => "" end.

Definition cached (c : catalog) : option (list nat) := k_tools c.

(** [cachedTool]'s three results: [known] is false, [found] is false, or both
    are true. *)
Inductive cached_lookup := NotCached | NotListed | Listed (t : rawTool).

(** The tools a list of references denotes. *)
Definition deref (heap : list rawTool) (refs : list nat) : list rawTool :=
  omap (λ r, heap !! r) refs.

Definition cachedTool (heap : list rawTool) (cs : Catalogs) (tenantID name : string)
    : cached_lookup :=
  match forTenant cs tenantID ≫= λ i, cs_unique cs !! i with
  | None => NotCached
  | Some c =>
      match cached c with
      | None => NotCached
      | Some refs =>
          match filter (λ t, toolName t = name) (deref heap refs) with
          | t :: _ => Listed t
          | [] => NotListed
          end
      end
  end.

(** ** Fetching *)

(** The state the operations share. *)
Record CatState (E : Env) := mkCatState {
  ct_heap : list rawTool;
  ct_cats : Catalogs;
  ct_out : Outside E }.
Arguments mkCatState {E}.
Arguments ct_heap {E}. Arguments ct_cats {E}. Arguments ct_out {E}.

Section catalog.
Context {E : Env}.

Definition outside {A} (m : M (Outside E) A) : M (CatState E) A :=
  zoom ct_out (λ o s, mkCatState (ct_heap s) (ct_cats s) o) m.

(** Decoded tools are fresh maps. *)
Definition alloc_tools (ts : list rawTool) : M (CatState E) (list nat) := λ s,
  (Return (seq (length (ct_heap s)) (length ts)),
   mkCatState (ct_heap s ++ ts) (ct_cats s) (ct_out s)).

Definition set_catalog (i : nat) (c : catalog) : M (CatState E) () :=
  modify (λ s, mkCatState (ct_heap s)
    (mkCatalogs (cs_byTenant (ct_cats s)) (<[i := c]> (cs_unique (ct_cats s)))) (ct_out s)).

Definition fetch (c : catalog) : M (Outside E) (result client_error (option (list rawTool))) :=
  let cred := k_cred c in
  if Stateless (k_backend c) then listTools (k_backend c) "" cred (k_headers c)
  else
    r ← initialize (k_backend c) (Some defaultInitParams) cred;
    match r with
    | Err e => mret (Err e)
    | Ok (sid, _) =>
        _ ← (if nonempty sid then notifyInitialized (k_backend c) sid cred else mret ());
        listTools (k_backend c) sid cred (k_headers c)
    end.

(** The test at the top of [get]; the clock is read only when there are tools. *)
Definition is_fresh (c : catalog) : M (CatState E) bool :=
  match k_tools c with
  | None => mret false
  | Some _ => t ← outside now; mret (t - k_fetchedAt c <? k_ttl c)%Z
  end.

Definition get (i : nat) : M (CatState E) (result client_error (option (list nat))) :=
  c ← gets (λ s, cs_unique (ct_cats s) !! i);
  match c with
  | None => panic
  | Some c =>
      fresh ← is_fresh c;
      if fresh : bool then mret (Ok (k_tools c)) else
      r ← outside (fetch c);
      match r with
      | Err e => mret (match k_tools c with Some _ => Ok (k_tools c) | None => Err e end)
      | Ok tools =>
          refs ← match tools with
                 | Some ts => rs ← alloc_tools ts; mret (Some rs)
                 | None => mret None
                 end;
          t ← outside now;
          _ ← set_catalog i (mkCatalog (k_backend c) (k_cred c) (k_headers c) (k_ttl c) refs t);
          mret (Ok refs)
      end
  end.

(** [errors.Join]: no error for an empty list. *)
Fixpoint warm_from (pending : list nat) : M (CatState E) (list client_error) :=
  match pending with
  | [] => mret []
  | i :: pending =>
      r ← get i;
      errs ← warm_from pending;
      mret (match r with Ok _ => errs | Err e => e :: errs end)
  end.

Definition warm : M (CatState E) (list client_error) :=
  n ← gets (λ s, length (cs_unique (ct_cats s)));
  warm_from (seq 0 n).

Fixpoint collect_tools (tenants : list Tenant)
    : M (CatState E) (list (Tenant * list nat) * list client_error) :=
  match tenants with
  | [] => mret ([], [])
  | t :: tenants =>
      c ← gets (λ s, forTenant (ct_cats s) (t_ID t));
      match c with
      | None => collect_tools tenants
      | Some i =>
          r ← get i;
          rest ← collect_tools tenants;
          mret (match r with
                | Ok refs => ((t, default [] refs) :: rest.1, rest.2)
                | Err e => (rest.1, e :: rest.2)
                end)
      end
  end.

Definition toolsFor (tenants : list Tenant)
    : M (CatState E) (result (list client_error) (list (Tenant * list nat))) :=
  r ← collect_tools tenants;
  mret (match r with
        | ([], (_ :: _) as errs) => Err errs
        | (out, _) => Ok out
        end).
End catalog.

(** ** What a view key determines *)

Definition same_view (t1 t2 : Tenant) : Prop :=
  b_Name (t_Backend t1) = b_Name (t_Backend t2) ∧
  EffectiveCredential t1 = EffectiveCredential t2 ∧
  canonical_headers (t_Headers t1) = canonical_headers (t_Headers t2).

(** What an HTTP client accepts in headers: token names, no NUL in values; one
    spelling per header; and no NUL in the backend's name. *)
Definition view_wf (t : Tenant) : Prop :=
  free_of 0 (b_Name (t_Backend t)) = true ∧ free_of 0 (EffectiveCredential t) = true ∧
  header_keys_distinct (t_Headers t) ∧
  map_Forall (λ k v, all_bytes is_token_byte k = true ∧ free_of 0 v = true) (t_Headers t).

#[export] Instance view_wf_dec t : Decision (view_wf t).
Proof. unfold view_wf. apply _. Defined.

Lemma token_free_of n s :
  (n = 0 ∨ n = 61) → all_bytes is_token_byte s = true → free_of n s = true.
Proof.
  intros Hn. apply all_bytes_impl. intros c Hc. apply negb_true_iff, Nat.eqb_neq. intros He.
  assert (c = ascii_of_nat n) as -> by (by rewrite <- He, ascii_nat_embedding).
  by destruct Hn as [-> | ->].
Qed.

Lemma canonical_token s :
  all_bytes is_token_byte s = true → all_bytes is_token_byte (CanonicalHeaderKey s) = true.
Proof. intros Hs. unfold CanonicalHeaderKey. by rewrite Hs, canonical_from_token. Qed.

Lemma free_of_app n s1 s2 : free_of n (s1 +:+ s2) = free_of n s1 && free_of n s2.
Proof. apply all_bytes_app. Qed.

(** NUL-led fields, one after the other. *)
Lemma fields_inj l1 l2 :
  Forall (λ x, free_of 0 x = true) l1 → Forall (λ x, free_of 0 x = true) l2 →
  concat_str (String.append nul <$> l1) = concat_str (String.append nul <$> l2) → l1 = l2.
Proof.
  assert (∀ l, starts_with 0 (concat_str (String.append nul <$> l))) as Hstart.
  { intros [|x l]; [by left|]. right. exists (ascii_of_nat 0), (x +:+ concat_str (String.append nul <$> l)).
    done. }
  intros H1. revert l2. induction H1 as [|x l1 Hx _ IH]; intros l2 H2.
  - destruct l2; [done|]. rewrite fmap_cons, concat_str_cons. discriminate.
  - destruct H2 as [|y l2 Hy H2]; [rewrite fmap_cons, concat_str_cons; discriminate|].
    rewrite !fmap_cons, !concat_str_cons, !app_assoc_str.
    intros He. apply (inj (String.append nul)) in He.
    apply (cut_unique 0) in He as [-> He]; [|done..].
    by rewrite (IH l2 H2 He).
Qed.

Definition header_field (kv : string * string) : string := kv.1 +:+ "=" +:+ kv.2.

Lemma header_field_inj kv1 kv2 :
  free_of 61 kv1.1 = true → free_of 61 kv2.1 = true →
  header_field kv1 = header_field kv2 → kv1 = kv2.
Proof.
  destruct kv1 as [k1 v1], kv2 as [k2 v2]. unfold header_field. cbn [fst snd]. intros H1 H2 He.
  apply (cut_unique 61) in He as [-> He]; [|done|done|by right; eexists _, _..].
  by apply (inj (String.append "=")) in He as ->.
Qed.

(** The fields after the credential: canonical names and values, in key order. *)
Definition view_fields (t : Tenant) : list (string * string) :=
  (λ k, (CanonicalHeaderKey k, default "" (t_Headers t !! k))) <$>
  sort_strings (map_to_list (t_Headers t)).*1.

Lemma viewKey_eq t :
  viewKey t = b_Name (t_Backend t) +:+
    concat_str (String.append nul <$> (EffectiveCredential t :: (header_field <$> view_fields t))).
Proof.
  unfold viewKey, view_fields. rewrite fmap_cons, concat_str_cons, app_assoc_str.
  do 3 f_equal. f_equal. rewrite <- !list_fmap_compose. apply list_fmap_ext. done.
Qed.

Lemma view_fields_headers t : header_keys_distinct (t_Headers t) →
  list_to_map (view_fields t) = canonical_headers (t_Headers t).
Proof.
  intros Hd. unfold canonical_headers. apply list_to_map_proper.
  - unfold view_fields, sort_strings. rewrite sort_on_perm, <- !list_fmap_compose. exact Hd.
  - unfold view_fields, sort_strings. rewrite sort_on_perm, <- list_fmap_compose.
    apply Permutation_refl', list_fmap_ext. intros i [k v] Hi. cbn.
    apply list_elem_of_lookup_2, elem_of_map_to_list in Hi. by rewrite Hi.
Qed.

Lemma view_fields_wf t : view_wf t →
  Forall (λ kv, free_of 61 kv.1 = true ∧ free_of 0 (header_field kv) = true) (view_fields t).
Proof.
  intros (_ & _ & _ & Hh). apply Forall_fmap, Forall_forall. intros k Hk. cbn.
  apply elem_of_sort_strings, list_elem_of_fmap in Hk as ([k' v] & -> & Hk).
  apply elem_of_map_to_list in Hk. cbn. rewrite Hk. cbn.
  destruct (Hh _ _ Hk) as [Htok Hv]. apply canonical_token in Htok.
  split; [by apply token_free_of; [right|]|].
  unfold header_field. cbn [fst snd]. rewrite !free_of_app, Hv.
  by rewrite (token_free_of 0) by (done || by left).
Qed.

Lemma viewKey_same t1 t2 : view_wf t1 → view_wf t2 → viewKey t1 = viewKey t2 → same_view t1 t2.
Proof.
  intros W1 W2. rewrite !viewKey_eq. intros He.
  pose proof (view_fields_wf t1 W1) as F1. pose proof (view_fields_wf t2 W2) as F2.
  destruct W1 as (N1 & C1 & D1 & _), W2 as (N2 & C2 & D2 & _).
  apply (cut_unique 0) in He as [Hn He]; [|done|done|by right; eexists _, _..].
  apply fields_inj in He.
  2,3: constructor; [done|]; apply Forall_fmap; eapply Forall_impl; [eassumption|]; naive_solver.
  injection He as Hc He. split_and!; [done..|].
  rewrite <- !view_fields_headers by done. f_equal.
  clear -F1 F2 He. revert He F2. generalize (view_fields t2) as l2.
  induction F1 as [|kv1 l1 [H1 _] _ IH]; intros [|kv2 l2] He F2; try done.
  injection He as Hkv He. inversion_clear F2 as [|? ? [H2 _] F2']. f_equal; [|by apply IH].
  by apply header_field_inj.
Qed.

(** ** Construction: who shares a catalog *)

Definition tenant_catalog (ttl : Z) (t : Tenant) : catalog :=
  newCatalog (t_Backend t) (EffectiveCredential t) (t_Headers t) ttl.

(** After the tenants [done]: keys number the catalogs without repetition, each
    made from a tenant with that key, and every tenant points at its key's. *)
Record views_ok (ttl : Z) (done : list Tenant) (byKey : gmap string nat) (cs : Catalogs) : Prop := {
  vo_key : ∀ key i, byKey !! key = Some i →
    ∃ t, t ∈ done ∧ viewKey t = key ∧ cs_unique cs !! i = Some (tenant_catalog ttl t);
  vo_inj : ∀ k1 k2 i, byKey !! k1 = Some i → byKey !! k2 = Some i → k1 = k2;
  vo_tenant : ∀ t, t ∈ done → ∃ i, cs_byTenant cs !! t_ID t = Some i ∧ byKey !! viewKey t = Some i;
  vo_only : ∀ id, is_Some (cs_byTenant cs !! id) → ∃ t, t ∈ done ∧ t_ID t = id;
  vo_unique : ∀ i, i < length (cs_unique cs) → ∃ key, byKey !! key = Some i }.

Lemma views_ok_nil ttl : views_ok ttl [] ∅ (mkCatalogs ∅ []).
Proof.
  split; try (intros * H; by rewrite ?lookup_empty in H).
  - intros t Ht. by apply elem_of_nil in Ht.
  - intros id [? H]. cbn in H. by rewrite lookup_empty in H.
  - cbn. lia.
Qed.

Lemma views_ok_byTenant ttl ts byKey cs t :
  views_ok ttl ts byKey cs → t_ID t ∉ (t_ID <$> ts) →
  (∀ i, byKey !! viewKey t = Some i →
   views_ok ttl (ts ++ [t]) byKey
     (mkCatalogs (<[t_ID t := i]> (cs_byTenant cs)) (cs_unique cs))).
Proof.
  intros [Hk Hinj Ht Ho Hu] Hid i Hi. split; cbn.
  - intros key j Hj. destruct (Hk key j Hj) as (t' & ? & ? & ?). exists t'. set_solver.
  - done.
  - intros t' Ht'. destruct (decide (t_ID t' = t_ID t)) as [Heq|Hne].
    + assert (t' = t) as ->.
      { apply elem_of_app in Ht' as [Ht'|Ht']; [|by apply list_elem_of_singleton].
        exfalso. apply Hid. rewrite <- Heq. by apply list_elem_of_fmap_2. }
      exists i. by rewrite lookup_insert_eq.
    + rewrite lookup_insert_ne by done. apply Ht.
      apply elem_of_app in Ht' as [Ht'|Ht']; [done|].
      apply list_elem_of_singleton in Ht'. by subst.
  - intros id Hs. destruct (decide (t_ID t = id)) as [<-|Hne]; [exists t; set_solver|].
    rewrite lookup_insert_ne in Hs by done. destruct (Ho id Hs) as (t' & ? & ?). exists t'. set_solver.
  - done.
Qed.

Lemma views_ok_new ttl ts byKey cs t :
  views_ok ttl ts byKey cs → byKey !! viewKey t = None →
  views_ok ttl ts byKey cs ∧
  let i := length (cs_unique cs) in
  (∀ key j, <[viewKey t := i]> byKey !! key = Some j →
    ∃ t', t' ∈ ts ++ [t] ∧ viewKey t' = key ∧
      (cs_unique cs ++ [tenant_catalog ttl t]) !! j = Some (tenant_catalog ttl t')) ∧
  (∀ k1 k2 j, <[viewKey t := i]> byKey !! k1 = Some j → <[viewKey t := i]> byKey !! k2 = Some j →
    k1 = k2) ∧
  (∀ j, j < length (cs_unique cs ++ [tenant_catalog ttl t]) →
    ∃ key, <[viewKey t := i]> byKey !! key = Some j).
Proof.
  intros Hok Hnone. split; [done|]. destruct Hok as [Hk Hinj Ht Ho Hu]. intros i.
  assert (∀ key j, byKey !! key = Some j → j < i) as Hlt.
  { intros key j Hj. destruct (Hk key j Hj) as (? & _ & _ & Hl). by apply lookup_lt_Some in Hl. }
  split_and!.
  - intros key j. destruct (decide (viewKey t = key)) as [<-|Hne].
    + rewrite lookup_insert_eq. intros [= <-]. exists t. split_and!; [set_solver|done|].
      by rewrite lookup_app_r, Nat.sub_diag by lia.
    + rewrite lookup_insert_ne by done. intros Hj.
      destruct (Hk key j Hj) as (t' & ? & ? & Hl). exists t'. split_and!; [set_solver|done|].
      by apply lookup_app_l_Some.
  - intros k1 k2 j. rewrite !lookup_insert_Some.
    intros [[<- <-]|[? H1]] [[<- ?]|[? H2]]; subst; eauto; by apply Hlt in H1 || apply Hlt in H2; lia.
  - intros j Hj. rewrite length_app in Hj. cbn in Hj.
    destruct (decide (j = i)) as [->|Hne]; [exists (viewKey t); by rewrite lookup_insert_eq|].
    destruct (Hu j) as (key & Hkey); [unfold i in *; lia|]. exists key.
    rewrite lookup_insert_ne; [done|]. intros Heq. by rewrite Heq, Hkey in Hnone.
Qed.

Lemma views_ok_add ttl ts byKey cs t :
  views_ok ttl ts byKey cs → t_ID t ∉ (t_ID <$> ts) →
  let acc := add_view ttl (byKey, cs) t in views_ok ttl (ts ++ [t]) acc.1 acc.2.
Proof.
  intros Hok Hid. unfold add_view. destruct (byKey !! viewKey t) as [i|] eqn:Hkey; cbn [fst snd].
  - by apply views_ok_byTenant.
  - destruct (views_ok_new ttl ts byKey cs t Hok Hkey) as ([_ _ Ht Ho _] & H1 & H2 & H3).
    split; [done|done| | |done]; cbn.
    + intros t' [Ht'|Ht']%elem_of_app.
      * destruct (Ht t' Ht') as (i & Hi & Hk'). exists i.
        rewrite !lookup_insert_ne; [done| |].
        -- intros He. by rewrite <- He, Hkey in Hk'.
        -- intros He. apply Hid. rewrite He. by apply list_elem_of_fmap_2.
      * apply list_elem_of_singleton in Ht' as ->. eexists. by rewrite !lookup_insert_eq.
    + intros id Hs. destruct (decide (t_ID t = id)) as [<-|Hne]; [exists t; set_solver|].
      rewrite lookup_insert_ne in Hs by done. destruct (Ho id Hs) as (t' & ? & ?).
      exists t'. set_solver.
Qed.

Lemma views_ok_all ttl ts ts' byKey cs :
  views_ok ttl ts byKey cs → NoDup (t_ID <$> ts ++ ts') →
  let acc := foldl (add_view ttl) (byKey, cs) ts' in views_ok ttl (ts ++ ts') acc.1 acc.2.
Proof.
  revert ts byKey cs. induction ts' as [|t ts' IH]; intros ts byKey cs Hok Hnd.
  { by rewrite app_nil_r. }
  cbn [foldl]. destruct (add_view ttl (byKey, cs) t) as [byKey' cs'] eqn:Ha.
  replace (ts ++ t :: ts') with ((ts ++ [t]) ++ ts') by by rewrite <- app_assoc.
  replace (ts ++ t :: ts') with ((ts ++ [t]) ++ ts') in Hnd by by rewrite <- app_assoc.
  apply IH; [|done].
  pose proof (views_ok_add ttl ts byKey cs t Hok) as Hadd. rewrite Ha in Hadd. apply Hadd.
  rewrite !fmap_app in Hnd. apply NoDup_app in Hnd as (Hnd & _ & _).
  apply NoDup_app in Hnd as (_ & Hnd & _). intros Hin. apply (Hnd _ Hin). cbn. left.
Qed.

Lemma NewCatalogs_views reg ttl :
  registry_wf reg → ∃ byKey, views_ok ttl (sort_on t_ID (Tenants reg)) byKey (NewCatalogs reg ttl).
Proof.
  intros Hwf. eexists.
  apply (views_ok_all ttl [] (sort_on t_ID (Tenants reg)) ∅ (mkCatalogs ∅ [])).
  - apply views_ok_nil.
  - by apply NoDup_sort_on, Tenants_ids_NoDup.
Qed.

(** ** Running [get] *)

Section get.
Context {E : Env}.
Implicit Types s : CatState E.

Definition cat_log (s : CatState E) : list exchange := o_log (ct_out s).

(** The requests a fetch makes: the handshake's without the tenant's headers,
    the listing's with them. *)
Definition fetch_request (c : catalog) (q : exchange) : Prop :=
  carries (E := E) (k_backend c) (k_cred c) ∅ q ∨
  carries (E := E) (k_backend c) (k_cred c) (k_headers c) q.

Lemma fetch_returns c : returns (fetch (E := E) c).
Proof.
  unfold fetch. destruct (Stateless (k_backend c)); [apply listTools_returns|].
  apply returns_bind; [apply initialize_returns|]. intros [[sid res]|e]; [|auto with proxy].
  apply returns_bind; [|intros; apply listTools_returns].
  destruct (nonempty sid); [apply notifyInitialized_returns|auto with proxy].
Qed.

Lemma fetch_sends c : sends_only (o_log (E := E)) (fetch_request c) (fetch c).
Proof.
  assert (∀ A (m : M (Outside E) A), sends_only o_log (carries (E := E) (k_backend c) (k_cred c) ∅) m →
    sends_only o_log (fetch_request c) m) as Hleft.
  { intros A m. apply sends_mono. by left. }
  assert (∀ sid, sends_only o_log (fetch_request c)
    (listTools (E := E) (k_backend c) sid (k_cred c) (k_headers c))) as Hlist.
  { intros sid. eapply sends_mono; [|apply listTools_sends]. by right. }
  unfold fetch. destruct (Stateless (k_backend c)); [done|].
  apply sends_bind; [apply Hleft, initialize_sends|]. intros [[sid res]|e]; [|auto with proxy].
  apply sends_bind; [|done].
  destruct (nonempty sid); [apply Hleft, notifyInitialized_sends|auto with proxy].
Qed.

(** The outside after the freshness test. *)
Definition tick (o : Outside E) : Outside E :=
  mkOutside (o_net o) (S (o_ticks o)) (o_draws o) (o_log o).

Definition with_out (s : CatState E) (o : Outside E) : CatState E :=
  mkCatState (ct_heap s) (ct_cats s) o.

Definition fresh_at (c : catalog) (o : Outside E) : bool :=
  match k_tools c with
  | Some _ => (e_clock E (o_ticks o) - k_fetchedAt c <? k_ttl c)%Z
  | None => false
  end.

(** The state in which [get] decides to fetch, if it does. *)
Definition fetch_from (c : catalog) (s : CatState E) : Outside E :=
  match k_tools c with Some _ => tick (ct_out s) | None => ct_out s end.

Definition stored (c : catalog) (refs : option (list nat)) (t : Z) : catalog :=
  mkCatalog (k_backend c) (k_cred c) (k_headers c) (k_ttl c) refs t.

(** The state after a fetch that returned [tools] and left the outside at [o]. *)
Definition refetched (i : nat) (c : catalog) (tools : option (list rawTool)) (o : Outside E)
    (s : CatState E) : option (list nat) * CatState E :=
  let refs := (λ ts, seq (length (ct_heap s)) (length ts)) <$> tools in
  (refs,
   mkCatState (ct_heap s ++ default [] tools)
     (mkCatalogs (cs_byTenant (ct_cats s))
        (<[i := stored c refs (e_clock E (o_ticks o))]> (cs_unique (ct_cats s)))) (tick o)).

Lemma is_fresh_run c s :
  is_fresh c s = (Return (fresh_at c (ct_out s)), with_out s (fetch_from c s)).
Proof. unfold is_fresh, fresh_at, fetch_from. by destruct s, (k_tools c). Qed.

Lemma get_run i c s :
  cs_unique (ct_cats s) !! i = Some c →
  get i s =
  if fresh_at c (ct_out s) then (Return (Ok (k_tools c)), with_out s (fetch_from c s))
  else match fetch c (fetch_from c s) with
       | (Panic, o) => (Panic, with_out s o)
       | (Return (Err e), o) =>
           (Return (match k_tools c with Some _ => Ok (k_tools c) | None => Err e end),
            with_out s o)
       | (Return (Ok tools), o) =>
           let '(refs, s') := refetched i c tools o s in (Return (Ok refs), s')
       end.
Proof.
  intros Hi. unfold get. unfold mbind at 1, M_bind, gets. rewrite Hi.
  unfold mbind at 1, M_bind. rewrite is_fresh_run.
  destruct (fresh_at c (ct_out s)); [done|].
  unfold mbind at 1, M_bind, outside at 1, zoom. cbn [with_out ct_out].
  destruct (fetch c (fetch_from c s)) as [[[tools|e]|] o]; [|done..].
  unfold refetched. destruct tools as [ts|]; cbn; [done|]. by rewrite app_nil_r.
Qed.

Lemma get_out_of_range i s : cs_unique (ct_cats s) !! i = None → get i s = (Panic, s).
Proof. intros Hi. unfold get, mbind, M_bind, gets. by rewrite Hi. Qed.

(** ** What fetching leaves alone *)

(** Same views, more tools in the heap, and the log extended by requests made
    for one of the catalogs' views. *)
Definition view_of (c : catalog) : Backend * string * gmap string string * Z :=
  (k_backend c, k_cred c, k_headers c, k_ttl c).

Definition catalog_request (s : CatState E) (q : exchange) : Prop :=
  ∃ c, c ∈ cs_unique (ct_cats s) ∧ fetch_request c q.

Record extends (s s' : CatState E) : Prop := {
  ex_views : view_of <$> cs_unique (ct_cats s') = view_of <$> cs_unique (ct_cats s);
  ex_byTenant : cs_byTenant (ct_cats s') = cs_byTenant (ct_cats s);
  ex_heap : ct_heap s `prefix_of` ct_heap s';
  ex_log : ∃ l, cat_log s' = cat_log s ++ l ∧ Forall (catalog_request s) l }.

(** Cached references point into the heap. *)
Definition refs_ok (s : CatState E) : Prop :=
  ∀ c refs, c ∈ cs_unique (ct_cats s) → k_tools c = Some refs →
    Forall (λ r, r < length (ct_heap s)) refs.

Definition in_heap (s : CatState E) (refs : list nat) : Prop :=
  Forall (λ r, r < length (ct_heap s)) refs.

Lemma extends_refl s : extends s s.
Proof. split; [done..|]. exists []. by rewrite app_nil_r. Qed.

Lemma extends_trans s1 s2 s3 : extends s1 s2 → extends s2 s3 → extends s1 s3.
Proof.
  intros [V1 T1 H1 (l1 & L1 & P1)] [V2 T2 H2 (l2 & L2 & P2)]. split.
  - congruence.
  - congruence.
  - by trans (ct_heap s2).
  - exists (l1 ++ l2). rewrite L2, L1, app_assoc, Forall_app. split_and!; [done..|].
    eapply Forall_impl; [exact P2|]. intros q (c & Hc & Hq).
    apply (list_elem_of_fmap_2 view_of) in Hc. rewrite V1 in Hc.
    apply list_elem_of_fmap in Hc as (c' & Hv & Hc). injection Hv as Hb Hcr Hh _.
    exists c'. split; [done|]. unfold fetch_request in *. by rewrite <- Hb, <- Hcr, <- Hh.
Qed.

Lemma extends_in_heap s s' refs : extends s s' → in_heap s refs → in_heap s' refs.
Proof.
  intros Hex Hin. eapply Forall_impl; [exact Hin|]. intros r Hr. cbn in Hr |- *.
  pose proof (prefix_length _ _ (ex_heap _ _ Hex)). lia.
Qed.

Lemma extends_with_out s o l :
  o_log o = cat_log s ++ l → Forall (catalog_request s) l → extends s (with_out s o).
Proof. intros Ho Hl. split; [done..|]. by exists l. Qed.

Lemma fetch_from_log c s : o_log (fetch_from c s) = cat_log s.
Proof. unfold fetch_from. by destruct (k_tools c). Qed.

Lemma fetch_log c s i r o :
  cs_unique (ct_cats s) !! i = Some c → fetch c (fetch_from c s) = (r, o) →
  ∃ l, o_log o = cat_log s ++ l ∧ Forall (catalog_request s) l.
Proof.
  intros Hi Hf. destruct (fetch_sends c (fetch_from c s)) as (l & Hl & HP).
  rewrite Hf, fetch_from_log in Hl. exists l. split; [done|].
  eapply Forall_impl; [exact HP|]. intros q Hq. exists c. split; [|done].
  by eapply list_elem_of_lookup_2.
Qed.

Lemma refetched_extends i c tools o l s :
  cs_unique (ct_cats s) !! i = Some c → refs_ok s →
  o_log o = cat_log s ++ l → Forall (catalog_request s) l →
  let '(refs, s') := refetched i c tools o s in
  extends s s' ∧ refs_ok s' ∧ in_heap s' (default [] refs).
Proof.
  intros Hi Hok Ho Hl. unfold refetched.
  set (refs := _ <$> tools). set (s' := mkCatState _ _ _).
  assert (in_heap s' (default [] refs)) as Hin.
  { unfold in_heap, refs. destruct tools as [ts|]; [|constructor]. cbn.
    apply Forall_forall. intros r Hr. apply elem_of_seq in Hr. rewrite length_app. lia. }
  assert (extends s s') as Hex.
  { split; cbn; [|done|by eexists|by exists l].
    rewrite list_fmap_insert. apply list_insert_id. by rewrite list_lookup_fmap, Hi. }
  split_and!; [done| |done]. intros c' refs' Hc' Hr'. cbn in Hc'.
  apply list_elem_of_lookup in Hc' as [j Hj]. apply list_lookup_insert_Some in Hj.
  destruct Hj as [(_ & <- & _)|[_ Hj]].
  - cbn in Hr'. rewrite Hr' in Hin. exact Hin.
  - eapply extends_in_heap; [done|]. eapply Hok; [|done]. by eapply list_elem_of_lookup_2.
Qed.

Lemma get_extends i s r s' :
  refs_ok s → get i s = (r, s') →
  extends s s' ∧ refs_ok s' ∧ (∀ refs, r = Return (Ok (Some refs)) → in_heap s' refs).
Proof.
  intros Hok Hg. destruct (cs_unique (ct_cats s) !! i) as [c|] eqn:Hi.
  2:{ rewrite get_out_of_range in Hg by done. simplify_eq.
      split_and!; [apply extends_refl|done|done]. }
  assert (∀ refs, k_tools c = Some refs → in_heap s refs) as Hc.
  { intros refs. apply Hok. by eapply list_elem_of_lookup_2. }
  rewrite (get_run i c) in Hg by done. destruct (fresh_at c (ct_out s)).
  { injection Hg as <- <-. split_and!; [|done|].
    - apply (extends_with_out _ _ []); [by rewrite fetch_from_log, app_nil_r|done].
    - intros refs [= Hr]. by apply Hc. }
  destruct (fetch c (fetch_from c s)) as [r0 o] eqn:Hf.
  destruct (fetch_log c s i r0 o Hi Hf) as (l & Hl & HP).
  destruct r0 as [[tools|e]|].
  - pose proof (refetched_extends i c tools o l s Hi Hok Hl HP) as Hre.
    destruct (refetched i c tools o s) as [refs s1]. injection Hg as <- <-.
    destruct Hre as (? & ? & Hin). split_and!; [done..|]. by intros refs' [= ->].
  - injection Hg as <- <-. split_and!; [by apply (extends_with_out _ _ l)|done|].
    destruct (k_tools c) as [refs|]; [|done]. intros refs' [= <-]. by apply Hc.
  - injection Hg as <- <-. split_and!; [by apply (extends_with_out _ _ l)|done|done].
Qed.

Lemma get_returns i s :
  is_Some (cs_unique (ct_cats s) !! i) → ∃ v s', get i s = (Return v, s').
Proof.
  intros [c Hi]. rewrite (get_run i c) by done. destruct (fresh_at c (ct_out s)); [by eexists _, _|].
  destruct (fetch_returns c (fetch_from c s)) as (v & o & ->).
  destruct v as [tools|e]; [|by eexists _, _].
  destruct (refetched i c tools o s). by eexists _, _.
Qed.

(** Every tenant's catalog exists. *)
Definition indexes_ok (s : CatState E) : Prop :=
  ∀ id i, cs_byTenant (ct_cats s) !! id = Some i → is_Some (cs_unique (ct_cats s) !! i).

Record cat_wf (s : CatState E) : Prop := {
  cw_refs : refs_ok s;
  cw_indexes : indexes_ok s }.

Lemma extends_indexes s s' : extends s s' → indexes_ok s → indexes_ok s'.
Proof.
  intros Hex Hok id i Hi. rewrite (ex_byTenant _ _ Hex) in Hi. apply Hok in Hi.
  apply lookup_lt_is_Some in Hi. apply lookup_lt_is_Some.
  by rewrite <- (length_fmap view_of), (ex_views _ _ Hex), length_fmap.
Qed.

Lemma get_wf i s r s' : cat_wf s → get i s = (r, s') → cat_wf s'.
Proof.
  intros [Hr Hi] Hg. destruct (get_extends i s r s' Hr Hg) as (Hex & Hr' & _).
  split; [done|by eapply extends_indexes].
Qed.

(** The tenants with a catalog. *)
Definition listed (cs : Catalogs) (ts : list Tenant) : list Tenant :=
  filter (λ t, is_Some (forTenant cs (t_ID t))) ts.

Lemma collect_tools_spec ts s :
  cat_wf s → ∃ out errs s',
    collect_tools ts s = (Return (out, errs), s') ∧ extends s s' ∧ cat_wf s' ∧
    out.*1 `sublist_of` ts ∧ Forall (λ p, in_heap s' p.2) out ∧
    length (listed (ct_cats s) ts) = length out + length errs.
Proof.
  revert s. induction ts as [|t ts IH]; intros s Hwf.
  { exists [], [], s. split_and!; auto using extends_refl. }
  cbn [collect_tools]. unfold mbind at 1, M_bind, gets.
  destruct (forTenant (ct_cats s) (t_ID t)) as [i|] eqn:Hi.
  2:{ destruct (IH s Hwf) as (out & errs & s' & Hrun & ? & ? & ? & ? & Hlen).
      exists out, errs, s'. split_and!; [done..|by apply sublist_cons|done|].
      unfold listed in *. rewrite filter_cons_False; [done|]. rewrite Hi. by intros [? ?]. }
  destruct (get_returns i s) as (r & s1 & Hg); [by eapply cw_indexes|].
  destruct (get_extends i s _ s1 (cw_refs _ Hwf) Hg) as (Hex1 & _ & Hrefs).
  destruct (IH s1 (get_wf _ _ _ _ Hwf Hg)) as (out & errs & s2 & Hrun & Hex2 & Hwf2 & Hsub & Hin & Hlen).
  unfold mbind at 1, M_bind. rewrite Hg. unfold mbind at 1, M_bind. rewrite Hrun.
  assert (length (listed (ct_cats s) (t :: ts)) = S (length (listed (ct_cats s1) ts))) as Hl.
  { unfold listed, forTenant. rewrite (ex_byTenant _ _ Hex1), filter_cons_True; [done|].
    unfold forTenant in Hi. by rewrite Hi. }
  destruct r as [refs|e]; eexists _, _, s2; (split; [reflexivity|]);
    split_and!; rewrite ?Hl, ?Hlen; cbn [length]; try lia; try done;
    try by apply extends_trans with s1.
  - cbn. by apply sublist_skip.
  - constructor; [|done]. cbn. destruct refs as [refs|]; [|by constructor].
    eapply extends_in_heap; [done|]. by apply Hrefs.
  - by apply sublist_cons.
Qed.

Lemma toolsFor_spec ts s :
  cat_wf s → ∃ r s',
    toolsFor ts s = (Return r, s') ∧ extends s s' ∧ cat_wf s' ∧
    match r with
    | Ok out => out.*1 `sublist_of` ts ∧ Forall (λ p, in_heap s' p.2) out ∧
                (out = [] → listed (ct_cats s) ts = [])
    | Err errs => length errs = length (listed (ct_cats s) ts) ∧ errs ≠ []
    end.
Proof.
  intros Hwf. destruct (collect_tools_spec ts s Hwf)
    as (out & errs & s' & Hrun & Hex & Hwf' & Hsub & Hin & Hlen).
  unfold toolsFor, mbind, M_bind. rewrite Hrun.
  destruct out as [|p out]; [destruct errs as [|e errs]|]; eexists _, s';
    (split; [reflexivity|]); split_and!; try done.
  intros _. by apply length_zero_iff_nil.
Qed.

(** *** What becomes of each tenant *)

(** These are what reading the tenant's catalog gave, at some moment from [s] on. *)
Definition read_list (s : CatState E) (t : Tenant) (refs : list nat) : Prop :=
  ∃ i s0 tools s1, forTenant (ct_cats s) (t_ID t) = Some i ∧ extends s s0 ∧
    get i s0 = (Return (Ok tools), s1) ∧ refs = default [] tools.

(** The tenant's catalog held no list, not even a stale one, and a fetch failed. *)
Definition unreadable (s : CatState E) (t : Tenant) : Prop :=
  ∃ i k s0 e o, forTenant (ct_cats s) (t_ID t) = Some i ∧ extends s s0 ∧
    cs_unique (ct_cats s0) !! i = Some k ∧ k_tools k = None ∧
    fetch k (fetch_from k s0) = (Return (Err e), o).

Lemma get_err i s e s' :
  get i s = (Return (Err e), s') →
  ∃ k o, cs_unique (ct_cats s) !! i = Some k ∧ k_tools k = None ∧ fetch k (fetch_from k s) = (Return (Err e), o).
Proof.
  intros Hg. destruct (cs_unique (ct_cats s) !! i) as [k|] eqn:Hi; [|by rewrite get_out_of_range in Hg].
  rewrite (get_run i k) in Hg by done. destruct (fresh_at k (ct_out s)); [done|].
  destruct (fetch k (fetch_from k s)) as [[[tools|e']|] o] eqn:Hf; [by destruct (refetched i k tools o s)| |done].
  destruct (k_tools k) eqn:Hk; [done|]. injection Hg as -> _. by exists k, o.
Qed.

Lemma forTenant_extends s s' id : extends s s' → forTenant (ct_cats s') id = forTenant (ct_cats s) id.
Proof. intros Hex. unfold forTenant. by rewrite (ex_byTenant _ _ Hex). Qed.

Lemma read_list_before s s' t refs : extends s s' → read_list s' t refs → read_list s t refs.
Proof.
  intros Hex (i & s0 & tools & s1 & Hi & Hex0 & Hg & Hr). exists i, s0, tools, s1.
  rewrite <- (forTenant_extends s s') by done. split_and!; [done|by apply extends_trans with s'|done..].
Qed.

Lemma unreadable_before s s' t : extends s s' → unreadable s' t → unreadable s t.
Proof.
  intros Hex (i & k & s0 & e & o & Hi & Hex0 & Hrest). exists i, k, s0, e, o.
  rewrite <- (forTenant_extends s s') by done. split_and!; [done|by apply extends_trans with s'|apply Hrest..].
Qed.

Lemma collect_tools_each ts s out errs s' :
  cat_wf s → collect_tools ts s = (Return (out, errs), s') →
  (∀ t refs, (t, refs) ∈ out → read_list s t refs) ∧
  (∀ t, t ∈ ts → t ∉ out.*1 → forTenant (ct_cats s) (t_ID t) = None ∨ unreadable s t).
Proof.
  revert s out errs. induction ts as [|t ts IH]; intros s out errs Hwf.
  { intros [= <- <- <-]. split; [by intros ? ? ?%not_elem_of_nil|by intros ? ?%not_elem_of_nil]. }
  cbn [collect_tools]. unfold mbind at 1, M_bind, gets.
  destruct (forTenant (ct_cats s) (t_ID t)) as [i|] eqn:Hi.
  2:{ intros Hrun. destruct (IH s out errs Hwf Hrun) as [Hr Hu]. split; [exact Hr|].
      intros t' [->|Ht']%elem_of_cons Hn; [by left|by apply Hu]. }
  unfold mbind at 1, M_bind. destruct (get i s) as [[r|] s1] eqn:Hg; [|done].
  destruct (get_extends i s _ s1 (cw_refs _ Hwf) Hg) as (Hex1 & _ & _).
  unfold mbind at 1, M_bind. destruct (collect_tools ts s1) as [[[out1 errs1]|] s2] eqn:Hrun; [|done].
  intros Hret. injection Hret as Hout Hs. subst s2.
  destruct (IH s1 out1 errs1 (get_wf _ _ _ _ Hwf Hg) Hrun) as [Hr Hu].
  assert (∀ t' refs, (t', refs) ∈ out1 → read_list s t' refs) as Hr' by (intros; eapply read_list_before; [done|by apply Hr]).
  assert (∀ t', t' ∈ ts → t' ∉ out1.*1 → forTenant (ct_cats s) (t_ID t') = None ∨ unreadable s t') as Hu'.
  { intros t' Ht' Hn. rewrite <- (forTenant_extends s s1) by done.
    destruct (Hu t' Ht' Hn) as [?|?]; [by left|right; by eapply unreadable_before]. }
  destruct r as [tools|e]; injection Hout as <- <-; cbn [fst snd]; split.
  - intros t' refs [[= -> ->]|Hin]%elem_of_cons; [|by apply Hr'].
    exists i, s, tools, s1. split_and!; [done|apply extends_refl|done|done].
  - intros t' [->|Ht']%elem_of_cons Hn; rewrite fmap_cons, not_elem_of_cons in Hn; destruct Hn as [Hne Hn]; [by destruct Hne|by apply Hu'].
  - exact Hr'.
  - intros t' [->|Ht']%elem_of_cons Hn; [right|by apply Hu']. destruct (get_err i s e s1 Hg) as (k & o & Hk & Hnone & Hf).
    exists i, k, s, e, o. split_and!; [done|apply extends_refl|done..].
Qed.

Lemma toolsFor_each ts s x s' :
  cat_wf s → toolsFor ts s = (Return x, s') →
  let views := match x with Ok views => views | Err _ => [] end in
  (∀ t refs, (t, refs) ∈ views → read_list s t refs) ∧
  (∀ t, t ∈ ts → t ∉ views.*1 → forTenant (ct_cats s) (t_ID t) = None ∨ unreadable s t).
Proof.
  intros Hwf. unfold toolsFor, mbind, M_bind. destruct (collect_tools ts s) as [[[out errs]|] s1] eqn:Hrun; [|done].
  destruct (collect_tools_each ts s out errs s1 Hwf Hrun) as [Hr Hu].
  destruct out as [|v out]; [destruct errs as [|e errs]|]; intros [= <- _]; exact (conj Hr Hu).
Qed.

Lemma warm_from_spec idxs s :
  cat_wf s → Forall (λ i, i < length (cs_unique (ct_cats s))) idxs →
  ∃ errs s', warm_from idxs s = (Return errs, s') ∧ extends s s' ∧ cat_wf s'.
Proof.
  revert s. induction idxs as [|i idxs IH]; intros s Hwf Hidx.
  { exists [], s. split_and!; auto using extends_refl. }
  apply Forall_cons in Hidx as [Hi Hidx]. cbn [warm_from].
  destruct (get_returns i s) as (r & s1 & Hg); [by apply lookup_lt_is_Some|].
  destruct (get_extends i s _ s1 (cw_refs _ Hwf) Hg) as (Hex1 & _ & _).
  destruct (IH s1 (get_wf _ _ _ _ Hwf Hg)) as (errs & s2 & Hrun & Hex2 & Hwf2).
  { rewrite <- (length_fmap view_of), (ex_views _ _ Hex1), length_fmap. done. }
  unfold mbind at 1, M_bind. rewrite Hg. unfold mbind, M_bind. rewrite Hrun.
  eexists _, s2. split_and!; [reflexivity|by apply extends_trans with s1|done].
Qed.

Lemma warm_spec s :
  cat_wf s → ∃ errs s', warm s = (Return errs, s') ∧ extends s s' ∧ cat_wf s'.
Proof.
  intros Hwf. unfold warm, mbind, M_bind, gets. apply warm_from_spec; [done|].
  apply Forall_forall. intros i Hi. apply elem_of_seq in Hi. lia.
Qed.
End get.

Lemma NewCatalogs_wf {E : Env} reg ttl heap (o : Outside E) :
  registry_wf reg → cat_wf (mkCatState heap (NewCatalogs reg ttl) o).
Proof.
  intros Hwf. destruct (NewCatalogs_views reg ttl Hwf) as (byKey & Hv). split.
  - intros c refs Hc Hr. apply list_elem_of_lookup in Hc as [i Hi]. cbn in Hi.
    destruct (vo_unique _ _ _ _ Hv i) as (key & Hk); [by eapply lookup_lt_Some|].
    destruct (vo_key _ _ _ _ Hv key i Hk) as (t & _ & _ & Hi'). rewrite Hi in Hi'.
    by injection Hi' as ->.
  - intros id i Hi. cbn in *. destruct (vo_only _ _ _ _ Hv id) as (t & Ht & <-); [by eexists|].
    destruct (vo_tenant _ _ _ _ Hv t Ht) as (j & Hj & Hk). rewrite Hi in Hj. injection Hj as <-.
    destruct (vo_key _ _ _ _ Hv _ _ Hk) as (t' & _ & _ & Hl). by eexists.
Qed.

Lemma deref_seq heap ts : deref (heap ++ ts) (seq (length heap) (length ts)) = ts.
Proof.
  revert heap. induction ts as [|t ts IH]; intros heap; [done|].
  unfold deref in *. cbn [length seq omap list_omap].
  rewrite (list_lookup_middle heap ts t) by done. f_equal.
  specialize (IH (heap ++ [t])). rewrite length_app, Nat.add_1_r, <- app_assoc in IH. exact IH.
Qed.

(** ** Theorems *)

(** C24: every registered tenant has a catalog, made with the TTL, the backend,
    the credential and the headers of a tenant with the same view key, and empty;
    two tenants share one exactly when their view keys agree. When backend names
    are distinct (what [Validate] requires) and the names, credentials and headers
    of tenants are what an HTTP client accepts ([view_wf]), a tenant's catalog has
    its own backend and credential, and headers that amount to its own. *)
Theorem NewCatalogs_correct reg ttl :
  registry_wf reg →
  (∀ t, t ∈ Tenants reg → ∃ i t', t' ∈ Tenants reg ∧ viewKey t' = viewKey t ∧
     forTenant (NewCatalogs reg ttl) (t_ID t) = Some i ∧
     cs_unique (NewCatalogs reg ttl) !! i =
       Some (mkCatalog (t_Backend t') (EffectiveCredential t') (t_Headers t') ttl None 0)) ∧
  (∀ t1 t2, t1 ∈ Tenants reg → t2 ∈ Tenants reg →
     forTenant (NewCatalogs reg ttl) (t_ID t1) = forTenant (NewCatalogs reg ttl) (t_ID t2) ↔
     viewKey t1 = viewKey t2) ∧
  (NoDup (b_Name <$> backends reg) → (∀ t, t ∈ Tenants reg → view_wf t) →
   ∀ t, t ∈ Tenants reg → ∃ i c,
     forTenant (NewCatalogs reg ttl) (t_ID t) = Some i ∧
     cs_unique (NewCatalogs reg ttl) !! i = Some c ∧
     k_backend c = t_Backend t ∧ k_cred c = EffectiveCredential t ∧
     canonical_headers (k_headers c) = canonical_headers (t_Headers t)).
Proof.
  intros Hwf. destruct (NewCatalogs_views reg ttl Hwf) as (byKey & Hv).
  assert (∀ t, t ∈ Tenants reg → t ∈ sort_on t_ID (Tenants reg)) as Hin
    by (intros t; by rewrite elem_of_sort_on).
  assert (∀ t, t ∈ Tenants reg → ∃ i t', t' ∈ Tenants reg ∧ viewKey t' = viewKey t ∧
     forTenant (NewCatalogs reg ttl) (t_ID t) = Some i ∧
     cs_unique (NewCatalogs reg ttl) !! i = Some (tenant_catalog ttl t')) as Hcat.
  { intros t Ht. destruct (vo_tenant _ _ _ _ Hv t (Hin _ Ht)) as (i & Hi & Hk).
    destruct (vo_key _ _ _ _ Hv _ _ Hk) as (t' & Ht' & Hkey & Hc). apply elem_of_sort_on in Ht'.
    by exists i, t'. }
  split_and!; [exact Hcat| |].
  - unfold forTenant. intros t1 t2 H1 H2.
    destruct (vo_tenant _ _ _ _ Hv t1 (Hin _ H1)) as (i1 & -> & K1).
    destruct (vo_tenant _ _ _ _ Hv t2 (Hin _ H2)) as (i2 & -> & K2).
    split; [intros [= <-]; by eapply vo_inj|]. intros He. rewrite He, K2 in K1. by injection K1 as ->.
  - intros Hnd Hvw t Ht. destruct (Hcat t Ht) as (i & t' & Ht' & Hkey & Hi & Hc).
    destruct (viewKey_same t' t (Hvw _ Ht') (Hvw _ Ht) Hkey) as (Hn & Hcr & Hh).
    exists i, (tenant_catalog ttl t'). split_and!; try done.
    apply elem_of_Tenants in Ht, Ht'; [|done..].
    eapply (NoDup_fmap_key_eq b_Name); [exact Hnd|by eapply Hwf..|exact Hn].
Qed.

(** C25: reading a catalog. Within the TTL the cached list is served without a
    request; otherwise the list is fetched, cached with the time and returned,
    and when the fetch fails a stale list is served if there is one; the fetch
    never panics and no other catalog changes. *)
Theorem get_correct {E : Env} i c (s : CatState E) :
  cs_unique (ct_cats s) !! i = Some c →
  if fresh_at c (ct_out s)
  then (get i s).1 = Return (Ok (k_tools c)) ∧ cat_log (get i s).2 = cat_log s ∧
       ct_cats (get i s).2 = ct_cats s ∧ ct_heap (get i s).2 = ct_heap s
  else ∃ r o, fetch c (fetch_from c s) = (Return r, o) ∧
    match r with
    | Err e =>
        (get i s).1 = Return (match k_tools c with Some _ => Ok (k_tools c) | None => Err e end) ∧
        ct_cats (get i s).2 = ct_cats s ∧ ct_heap (get i s).2 = ct_heap s
    | Ok tools =>
        ∃ refs, (get i s).1 = Return (Ok refs) ∧
          deref (ct_heap (get i s).2) (default [] refs) = default [] tools ∧
          (refs = None ↔ tools = None) ∧
          cs_unique (ct_cats (get i s).2) =
            <[i := stored c refs (e_clock E (o_ticks o))]> (cs_unique (ct_cats s))
    end.
Proof.
  intros Hi. rewrite (get_run i c s Hi). destruct (fresh_at c (ct_out s)).
  { split_and!; try done. apply fetch_from_log. }
  destruct (fetch_returns c (fetch_from c s)) as (r & o & Hf). exists r, o.
  split; [done|]. rewrite Hf. destruct r as [tools|e]; [|done].
  unfold refetched. eexists. split; [reflexivity|]. cbn [fst snd ct_heap ct_cats cs_unique].
  split_and!; [|by destruct tools|done].
  destruct tools as [ts|]; cbn; [by apply deref_seq|done].
Qed.

Definition catstate_ex : CatState env_ex := mkCatState [] (NewCatalogs registry_ex 60) outside_ex.

Definition catalog_ex : catalog :=
  default (newCatalog backend_ex "" ∅ 0) (cs_unique (ct_cats catstate_ex) !! 0).

Lemma get_correct_witness :
  ∃ refs, (get 0 catstate_ex).1 = Return (Ok refs) ∧
    toolName <$> deref (ct_heap (get 0 catstate_ex).2) (default [] refs) = ["get"].
Proof.
  assert (cs_unique (ct_cats catstate_ex) !! 0 = Some catalog_ex) as Hc
    by (vm_compute; reflexivity).
  pose proof (get_correct 0 catalog_ex catstate_ex Hc) as H.
  assert (fresh_at catalog_ex (ct_out catstate_ex) = false) as Hf by (vm_compute; reflexivity).
  rewrite Hf in H. destruct H as (r & o & Hr & H).
  assert ((λ x, toolName <$> ok_or [] (default [] <$> x)) <$>
            match (fetch catalog_ex (fetch_from catalog_ex catstate_ex)).1 with
            | Return x => Some x | Panic => None end = Some ["get"]) as Hx
    by (vm_compute; reflexivity).
  rewrite Hr in Hx. cbn in Hx. destruct r as [tools|e]; [|discriminate Hx].
  destruct H as (refs & H1 & H2 & _). exists refs. split; [exact H1|].
  rewrite H2. cbn in Hx. injection Hx as Hx. exact Hx.
Defined.

(** Two tenants of one backend with credentials of their own do not share. *)
Lemma NewCatalogs_correct_witness :
  (∃ t1 t2, t_ID t1 = "ro" ∧ t_ID t2 = "iac" ∧ t_Backend t1 = t_Backend t2 ∧
    forTenant (NewCatalogs registry_ex 60) (t_ID t1) ≠ forTenant (NewCatalogs registry_ex 60) (t_ID t2)) ∧
  ∀ t, t ∈ Tenants registry_ex → ∃ i c, forTenant (NewCatalogs registry_ex 60) (t_ID t) = Some i ∧
    cs_unique (NewCatalogs registry_ex 60) !! i = Some c ∧ k_cred c = EffectiveCredential t.
Proof.
  destruct (NewCatalogs_correct registry_ex 60 registry_ex_wf) as (_ & Hshare & Hown). split.
  - destruct (byTenant registry_ex !! "ro") as [t1|] eqn:H1; [|vm_compute in H1; discriminate].
    destruct (byTenant registry_ex !! "iac") as [t2|] eqn:H2; [|vm_compute in H2; discriminate].
    exists t1, t2.
    assert (t1 ∈ Tenants registry_ex ∧ t2 ∈ Tenants registry_ex) as [I1 I2].
    { rewrite !elem_of_Tenants by exact registry_ex_wf.
      vm_compute in H1, H2. injection H1 as <-. injection H2 as <-. by split; vm_compute. }
    rewrite (Hshare t1 t2 I1 I2).
    clear I1 I2 Hshare Hown. vm_compute in H1, H2. injection H1 as <-. injection H2 as <-.
    split_and!; [reflexivity|reflexivity|reflexivity|vm_compute; discriminate].
  - intros t Ht. assert (Forall view_wf (Tenants registry_ex)) as Hall
      by (apply (bool_decide_unpack _); vm_compute; exact I).
    assert (NoDup (b_Name <$> backends registry_ex)) as Hnd
      by (apply (bool_decide_unpack _); vm_compute; exact I).
    destruct (Hown Hnd (proj1 (Forall_forall _ _) Hall) t Ht) as (i & c & Hi & Hc & _ & Hcred & _).
    exists i, c. split; [exact Hi|]. split; [exact Hc|exact Hcred].
Defined.

(** Collecting several tenants' lists returns them in the tenants' order,
    leaves out those whose catalog fails, and fails only when every tenant that
    has a catalog failed; every request made is some catalog's own, tools already
    in memory are untouched and the catalogs keep their views. *)
Theorem toolsFor_correct {E : Env} ts (s : CatState E) :
  cat_wf s → ∃ r s',
    toolsFor ts s = (Return r, s') ∧ extends s s' ∧ cat_wf s' ∧
    match r with
    | Ok out => out.*1 `sublist_of` ts ∧ Forall (λ p, in_heap s' p.2) out ∧
                (out = [] → listed (ct_cats s) ts = [])
    | Err errs => length errs = length (listed (ct_cats s) ts) ∧ errs ≠ []
    end.
Proof. apply toolsFor_spec. Qed.

Lemma toolsFor_correct_witness :
  ∃ r s', toolsFor (sort_on t_ID (Tenants registry_ex)) catstate_ex = (Return r, s') ∧
          extends catstate_ex s'.
Proof.
  destruct (toolsFor_correct (sort_on t_ID (Tenants registry_ex)) catstate_ex
    (NewCatalogs_wf registry_ex 60 [] outside_ex registry_ex_wf)) as (r & s' & H1 & H2 & _).
  exists r, s'. split; [exact H1|exact H2].
Defined.
