(* ===== verification/Auth.v ===== *)
(** * internal/auth: who is calling

    The verifiers built by [New], what they accept of a token, and the groups
    they read from it. The JWT library, the key parser and the JWKS client are
    parameters; a claim is a Go [any]. [Verifier] is the interface the handler
    is written against, with the promises it relies on. *)

From Stdlib Require Import Ascii.
From stdpp Require Import base numbers option pretty gmap fin_maps sorting strings list.
From S2P Require Import Prelude GoStrings Json Decode Config Registry Http.

#[local] Set Warnings "-clear-no-such-hyp,-register-all".
#[local] Open Scope nat_scope.

(** ** Errors *)

Inductive unauthorized_reason :=
| MissingHeader | NotBearer | InvalidToken | WrongAudience | MissingClaim | BadClaimType.

(** The two error values callers test for, and any other error. *)
Inductive auth_error :=
| ErrUnauthorized (why : unauthorized_reason)
| ErrInsufficientScope
| OtherAuthError.

(** ** The interface *)

Class Verifier (V : Type) := Groups : V → Z → Request → result auth_error (list string).

(** What [Groups] promises: its errors are the two declared ones, and it looks
    at nothing of the request but its Authorization header. *)
Class VerifierLaws (V : Type) `{Verifier V} := {
  Groups_errors (v : V) now r e : Groups v now r = Err e → e ≠ OtherAuthError;
  Groups_header (v : V) now r r' :
    header_get "Authorization" (r_Header r) = header_get "Authorization" (r_Header r') →
    Groups v now r = Groups v now r' }.

(** ** Claims *)

(** A Go [any], as far as the type switches tell values apart. *)
Inductive any : Type :=
| AnyString (s : string)
| AnyStrings (l : list string)
| AnyList (l : list any)
| AnyOther.

Definition MapClaims : Type := gmap string any.

Definition any_string (a : any) : option string :=
  match a with AnyString s => Some s | _ => None end.

Definition acceptedAudiences (c : AuthConfig) : list string :=
  (if nonempty (ac_Audience c) then [ac_Audience c] else []) ++ ac_AdditionalAudiences c.

Definition token_audiences (claims : MapClaims) : list string :=
  match claims !! "aud" with
  | Some (AnyString aud) => [aud]
  | Some (AnyList aud) => omap any_string aud
  | Some (AnyStrings aud) => aud
  | _ => []
  end.

Definition checkAudience (claims : MapClaims) (accepted : list string) : result auth_error () :=
  match accepted with
  | [] => Ok ()
  | _ =>
      if any_group (group_set accepted) (token_audiences claims) then Ok ()
      else Err (ErrUnauthorized WrongAudience)
  end.

Definition token_scopes (rawScope : any) : list string :=
  match rawScope with
  | AnyString v => fields v
  | AnyStrings v => v
  | AnyList v => omap any_string v
  | AnyOther => []
  end.

Definition hasRequiredScope (claims : MapClaims) (required : list string) : bool :=
  match required with
  | [] => true
  | _ =>
      match (match claims !! "scope" with Some s => Some s | None => claims !! "scp" end) with
      | None => false
      | Some rawScope =>
          let tokenScopes := token_scopes rawScope in
          existsb (λ req, existsb (λ tok, String.eqb req tok) tokenScopes) required
      end
  end.

Definition extractGroups (groupsClaim : string) (claims : MapClaims)
    : result auth_error (list string) :=
  match claims !! groupsClaim with
  | None => Err (ErrUnauthorized MissingClaim)
  | Some (AnyString v) => Ok (if String.eqb v "" then [] else [v])
  | Some (AnyStrings v) => Ok v
  | Some (AnyList v) => Ok (omap any_string v)
  | Some AnyOther => Err (ErrUnauthorized BadClaimType)
  end.

Definition bearer_prefix : string := "Bearer ".

Definition bearerToken (r : Request) : result auth_error string :=
  let h := header_get "Authorization" (r_Header r) in
  if String.eqb h "" then Err (ErrUnauthorized MissingHeader)
  else if (String.length h <? String.length bearer_prefix) ||
          negb (equal_fold (take_bytes (String.length bearer_prefix) h) bearer_prefix)
  then Err (ErrUnauthorized NotBearer)
  else Ok (trim_space (drop_bytes (String.length bearer_prefix) h)).

(** ** Verifiers *)

Inductive ParserOption :=
| WithExpirationRequired
| WithIssuer (iss : string)
| WithValidMethods (methods : list string).

Definition parserOpts (c : AuthConfig) : list ParserOption :=
  [WithExpirationRequired] ++ (if nonempty (ac_Issuer c) then [WithIssuer (ac_Issuer c)] else []).

Section jwt.
(** The libraries: public keys, key sets, and parsing a token at an instant. *)
Context {PublicKey KeySet : Type}.

Inductive key_source :=
| HMACKey (secret : string)
| PublicKeyOf (key : PublicKey)
| JWKS (keys : KeySet).

Variable ParseWithClaims : Z → string → key_source → list ParserOption → option MapClaims.
Variable ParseUnverified : string → option MapClaims.

Record jwtVerifier := mkJWTVerifier {
  jv_groupsClaim : string;
  jv_keyfunc : key_source;
  jv_parserOpts : list ParserOption;
  jv_validAlgs : list string;
  jv_scopesSupported : list string;
  jv_audiences : list string }.

Record insecureVerifier := mkInsecureVerifier {
  iv_groupsClaim : string;
  iv_scopesSupported : list string;
  iv_audiences : list string }.

(** What both do with the claims they trust. *)
Definition claims_groups (groupsClaim : string) (scopesSupported audiences : list string)
    (claims : MapClaims) : result auth_error (list string) :=
  _ ← checkAudience claims audiences;
  match scopesSupported with
  | _ :: _ => if hasRequiredScope claims scopesSupported then extractGroups groupsClaim claims
              else Err ErrInsufficientScope
  | [] => extractGroups groupsClaim claims
  end.

Definition jwt_options (v : jwtVerifier) : list ParserOption :=
  match jv_validAlgs v with
  | [] => jv_parserOpts v
  | algs => jv_parserOpts v ++ [WithValidMethods algs]
  end.

Definition jwt_Groups (v : jwtVerifier) (now : Z) (r : Request)
    : result auth_error (list string) :=
  tokenStr ← bearerToken r;
  match ParseWithClaims now tokenStr (jv_keyfunc v) (jwt_options v) with
  | None => Err (ErrUnauthorized InvalidToken)
  | Some claims => claims_groups (jv_groupsClaim v) (jv_scopesSupported v) (jv_audiences v) claims
  end.

Definition insecure_Groups (v : insecureVerifier) (now : Z) (r : Request)
    : result auth_error (list string) :=
  tokenStr ← bearerToken r;
  match ParseUnverified tokenStr with
  | None => Err (ErrUnauthorized InvalidToken)
  | Some claims => claims_groups (iv_groupsClaim v) (iv_scopesSupported v) (iv_audiences v) claims
  end.

Inductive verifier := JWTVerifier (v : jwtVerifier) | InsecureVerifier (v : insecureVerifier).

Definition verifier_Groups (v : verifier) (now : Z) (r : Request)
    : result auth_error (list string) :=
  match v with
  | JWTVerifier v => jwt_Groups v now r
  | InsecureVerifier v => insecure_Groups v now r
  end.

(** ** Construction *)

Inductive new_error :=
| ReadKeyError | NotPEM | BadPublicKey | NoIssuer | BadIssuer | BadDiscoveryRequest
| DiscoveryFailed | DiscoveryStatus (status : Z) | DiscoveryDecode | NoJWKSURI
| InitJWKS | UnsupportedMode.

Variable ReadFile : string → option string.
Variable pem_Decode : string → option string.
Variable ParsePKIXPublicKey : string → option PublicKey.
(** [base.Path], and [base.String()] with another path. *)
Variable url_Path : URL → string.
Variable url_with_Path : URL → string → string.

Definition hmac_algs : list string := ["HS256"; "HS384"; "HS512"].
Definition public_key_algs : list string :=
  ["RS256"; "RS384"; "RS512"; "ES256"; "ES384"; "ES512"; "PS256"; "PS384"; "PS512"].

Definition loadStaticKey (c : AuthConfig) : result new_error (key_source * list string) :=
  if nonempty (ac_HMACSecret c) then Ok (HMACKey (ac_HMACSecret c), hmac_algs)
  else
    match ReadFile (ac_PublicKeyPEMFile c) with
    | None => Err ReadKeyError
    | Some pemBytes =>
        match pem_Decode pemBytes with
        | None => Err NotPEM
        | Some block =>
            match ParsePKIXPublicKey block with
            | None => Err BadPublicKey
            | Some key => Ok (PublicKeyOf key, public_key_algs)
            end
        end
    end.

(** [strings.TrimRight(s, "/")]. *)
Fixpoint trim_slashes (fuel : nat) (s : string) : string :=
  match fuel with
  | 0 => s
  | S fuel => if has_suffix "/" s then trim_slashes fuel (trim_suffix "/" s) else s
  end.

(** [json.Decoder.Decode]: the first value of the stream. *)
Definition decode_discovery (body : string) : result decode_error string :=
  match parse_value (parse_fuel body) max_depth body with
  | None => Err BadSyntax
  | Some (v, _) => l ← struct_members v; string_field "jwks_uri" l
  end.

Context {E : Env}.
Variable NewKeySet : string → M (Outside E) (option KeySet).

Definition discoverJWKSURL (issuer : string) : M (Outside E) (result new_error string) :=
  if negb (nonempty issuer) then mret (Err NoIssuer) else
  match e_url_Parse E issuer with
  | None => mret (Err BadIssuer)
  | Some base =>
      let path := url_Path base in
      let discoveryURL :=
        url_with_Path base
          (trim_slashes (String.length path) path +:+ "/.well-known/openid-configuration") in
      match e_url_Parse E discoveryURL with
      | None => mret (Err BadDiscoveryRequest)
      | Some u =>
          resp ← do_request (mkOutRequest "GET" (u_String u)
                               (header_set "Accept" "application/json" ∅) "");
          mret match resp with
          | None => Err DiscoveryFailed
          | Some resp =>
              if negb (p_Status resp =? 200)%Z then Err (DiscoveryStatus (p_Status resp)) else
              match decode_discovery (p_Body resp) with
              | Err _ => Err DiscoveryDecode
              | Ok uri => if nonempty uri then Ok uri else Err NoJWKSURI
              end
          end
      end
  end.

Definition NewVerifier (c : AuthConfig) : M (Outside E) (result new_error verifier) :=
  if String.eqb (ac_Mode c) AuthModeInsecure then
    mret (Ok (InsecureVerifier
      (mkInsecureVerifier (ac_GroupsClaim c) (ac_ScopesSupported c) (acceptedAudiences c))))
  else if String.eqb (ac_Mode c) AuthModeStatic then
    mret match loadStaticKey c with
    | Err e => Err e
    | Ok (key, algs) =>
        Ok (JWTVerifier (mkJWTVerifier (ac_GroupsClaim c) key (parserOpts c) algs
              (ac_ScopesSupported c) (acceptedAudiences c)))
    end
  else if String.eqb (ac_Mode c) AuthModeJWKS then
    jwksURL ← (if nonempty (ac_JWKSURL c) then mret (Ok (ac_JWKSURL c))
               else discoverJWKSURL (ac_Issuer c));
    match jwksURL with
    | Err e => mret (Err e)
    | Ok jwksURL =>
        jwks ← NewKeySet jwksURL;
        mret match jwks with
        | None => Err InitJWKS
        | Some jwks =>
            Ok (JWTVerifier (mkJWTVerifier (ac_GroupsClaim c) (JWKS jwks) (parserOpts c) []
                  (ac_ScopesSupported c) (acceptedAudiences c)))
        end
    end
  else mret (Err UnsupportedMode).
End jwt.
Arguments key_source : clear implicits.
Arguments jwtVerifier : clear implicits.
Arguments verifier : clear implicits.

(** ** What the claims have to say *)

Definition audience_ok (accepted : list string) (claims : MapClaims) : Prop :=
  accepted = [] ∨ ∃ a, a ∈ accepted ∧ a ∈ token_audiences claims.

(** The claim scopes are read from: [scope], else [scp]. *)
Definition scope_claim (claims : MapClaims) : option any :=
  match claims !! "scope" with Some s => Some s | None => claims !! "scp" end.

Definition scope_ok (required : list string) (claims : MapClaims) : Prop :=
  required = [] ∨ ∃ raw s, scope_claim claims = Some raw ∧ s ∈ required ∧ s ∈ token_scopes raw.

Lemma any_group_set accepted auds :
  any_group (group_set accepted) auds = true ↔ ∃ a, a ∈ accepted ∧ a ∈ auds.
Proof.
  unfold any_group, group_set. rewrite existsb_exists. split.
  - intros (a & Ha & Hs). exists a. apply list_elem_of_In in Ha.
    apply bool_decide_eq_true in Hs. by rewrite elem_of_list_to_set in Hs.
  - intros (a & Hacc & Ha). exists a. split; [by apply list_elem_of_In|].
    apply bool_decide_eq_true. by rewrite elem_of_list_to_set.
Qed.

Lemma checkAudience_spec claims accepted :
  (checkAudience claims accepted = Ok () ∧ audience_ok accepted claims) ∨
  (checkAudience claims accepted = Err (ErrUnauthorized WrongAudience) ∧
   ¬ audience_ok accepted claims).
Proof.
  unfold checkAudience, audience_ok. destruct accepted as [|a l]; [by left; split; [|left]|].
  destruct (any_group (group_set (a :: l)) (token_audiences claims)) eqn:Hg.
  - left. split; [done|right]. by apply any_group_set.
  - right. split; [done|]. intros [?|Hex]; [done|]. apply any_group_set in Hex. congruence.
Qed.

Lemma hasRequiredScope_spec claims required :
  hasRequiredScope claims required = true ↔ scope_ok required claims.
Proof.
  unfold hasRequiredScope, scope_ok. destruct required as [|q l]; [by split; [left|]|].
  fold (scope_claim claims). destruct (scope_claim claims) as [raw|].
  2:{ split; [done|]. by intros [?|(? & ? & ? & _)]. }
  rewrite existsb_exists. split.
  - intros (s & Hs & Ht). apply existsb_exists in Ht as (s' & Hs' & ->%String.eqb_eq).
    right. exists raw, s'. by rewrite !list_elem_of_In.
  - intros [?|(raw' & s & [= <-] & Hs & Ht)]; [done|]. exists s.
    rewrite list_elem_of_In in Hs. split; [done|]. apply existsb_exists. exists s.
    rewrite list_elem_of_In in Ht. split; [done|apply String.eqb_refl].
Qed.

Lemma claims_groups_eq g scopes auds claims :
  claims_groups g scopes auds claims =
  (_ ← checkAudience claims auds;
   if hasRequiredScope claims scopes then extractGroups g claims else Err ErrInsufficientScope).
Proof. unfold claims_groups. by destruct scopes. Qed.

Lemma claims_groups_Ok g scopes auds claims groups :
  claims_groups g scopes auds claims = Ok groups ↔
  audience_ok auds claims ∧ scope_ok scopes claims ∧ extractGroups g claims = Ok groups.
Proof.
  rewrite claims_groups_eq, <- hasRequiredScope_spec.
  destruct (checkAudience_spec claims auds) as [[-> Ha]|[-> Ha]]; cbn; [|naive_solver].
  destruct (hasRequiredScope claims scopes); naive_solver.
Qed.

Lemma extractGroups_errors g claims e :
  extractGroups g claims = Err e → ∃ why, e = ErrUnauthorized why.
Proof.
  unfold extractGroups. destruct (claims !! g) as [[| | |]|]; try done; intros [= <-]; eauto.
Qed.

Lemma claims_groups_Err g scopes auds claims e :
  claims_groups g scopes auds claims = Err e →
  (e = ErrInsufficientScope ∧ audience_ok auds claims ∧ ¬ scope_ok scopes claims) ∨
  ∃ why, e = ErrUnauthorized why.
Proof.
  rewrite claims_groups_eq, <- hasRequiredScope_spec.
  destruct (checkAudience_spec claims auds) as [[-> Ha]|[-> Ha]]; cbn.
  - destruct (hasRequiredScope claims scopes); [|intros [= <-]; left; auto].
    intros He. right. by eapply extractGroups_errors.
  - intros [= <-]. right. eauto.
Qed.

Section groups.
Context {PublicKey KeySet : Type}.
Variable ParseWithClaims : Z → string → key_source PublicKey KeySet → list ParserOption → option MapClaims.
Variable ParseUnverified : string → option MapClaims.

Abbreviation groups_of := (verifier_Groups ParseWithClaims ParseUnverified).

(** The claims a verifier trusts, and its configuration. *)
Definition trusted (v : verifier PublicKey KeySet) (now : Z) (token : string) : option MapClaims :=
  match v with
  | JWTVerifier v => ParseWithClaims now token (jv_keyfunc v) (jwt_options v)
  | InsecureVerifier _ => ParseUnverified token
  end.

Definition v_claim (v : verifier PublicKey KeySet) : string :=
  match v with JWTVerifier v => jv_groupsClaim v | InsecureVerifier v => iv_groupsClaim v end.
Definition v_scopes (v : verifier PublicKey KeySet) : list string :=
  match v with JWTVerifier v => jv_scopesSupported v | InsecureVerifier v => iv_scopesSupported v end.
Definition v_audiences (v : verifier PublicKey KeySet) : list string :=
  match v with JWTVerifier v => jv_audiences v | InsecureVerifier v => iv_audiences v end.

Lemma groups_of_eq v now r :
  groups_of v now r =
  (token ← bearerToken r;
   match trusted v now token with
   | None => Err (ErrUnauthorized InvalidToken)
   | Some claims => claims_groups (v_claim v) (v_scopes v) (v_audiences v) claims
   end).
Proof. by destruct v. Qed.

Lemma bearerToken_errors r e : bearerToken r = Err e → ∃ why, e = ErrUnauthorized why.
Proof. unfold bearerToken. repeat case_match; intros [= <-]; eauto. Qed.

Lemma groups_of_Err v now r e : groups_of v now r = Err e →
  (e = ErrInsufficientScope ∧ ∃ token claims,
     bearerToken r = Ok token ∧ trusted v now token = Some claims ∧
     audience_ok (v_audiences v) claims ∧ ¬ scope_ok (v_scopes v) claims) ∨
  ∃ why, e = ErrUnauthorized why.
Proof.
  rewrite groups_of_eq. destruct (bearerToken r) as [token|e'] eqn:Hb; cbn.
  - destruct (trusted v now token) as [claims|] eqn:Ht; [|intros [= <-]; right; eauto].
    intros [(-> & Ha & Hs)|?]%claims_groups_Err; [left|by right].
    split; [done|]. by exists token, claims.
  - intros [= <-]. right. by eapply bearerToken_errors.
Qed.

Lemma verifier_laws : VerifierLaws (H := groups_of) (verifier PublicKey KeySet).
Proof.
  split.
  - intros v now r e He. apply groups_of_Err in He. naive_solver.
  - intros v now r r' Hh. unfold Groups. rewrite !groups_of_eq. unfold bearerToken. by rewrite Hh.
Qed.
End groups.

(** A verifier to run against: the token is the group. *)
Inductive token_is_group := TokenIsGroup.

#[export] Instance token_is_group_verifier : Verifier token_is_group := λ _ _ r,
  token ← bearerToken r; Ok [token].

#[export] Instance token_is_group_laws : VerifierLaws token_is_group.
Proof.
  split; unfold Groups, token_is_group_verifier.
  - intros v now r e. destruct (bearerToken r) as [token|e'] eqn:Hb; cbn; [done|].
    intros [= <-]. apply bearerToken_errors in Hb as [why ->]. done.
  - intros v now r r' Hh. unfold bearerToken. by rewrite Hh.
Qed.

(** ** Trimming *)

Lemma map_str_length f s : String.length (map_str f s) = String.length s.
Proof. induction s as [|c s IH]; [done|]. cbn. by rewrite IH. Qed.

Lemma equal_fold_length s t : equal_fold s t = true → String.length s = String.length t.
Proof.
  unfold equal_fold. intros He%String.eqb_eq. apply (f_equal String.length) in He.
  by rewrite !map_str_length in He.
Qed.

(** ** Theorems *)

(** C14: a verifier returns groups exactly when the request carries a bearer
    token whose claims it trusts, meant for an accepted audience, with a required
    scope, and with a groups claim; every failure is one of the two declared
    errors, the scope error only for a token that is otherwise good. *)
Theorem verifier_Groups_correct {PublicKey KeySet} PWC PU
    (v : verifier PublicKey KeySet) now r :
  (∀ groups, verifier_Groups PWC PU v now r = Ok groups ↔
     ∃ token claims, bearerToken r = Ok token ∧ trusted PWC PU v now token = Some claims ∧
       audience_ok (v_audiences v) claims ∧ scope_ok (v_scopes v) claims ∧
       extractGroups (v_claim v) claims = Ok groups) ∧
  (∀ e, verifier_Groups PWC PU v now r = Err e →
     (e = ErrInsufficientScope ∧ ∃ token claims,
        bearerToken r = Ok token ∧ trusted PWC PU v now token = Some claims ∧
        audience_ok (v_audiences v) claims ∧ ¬ scope_ok (v_scopes v) claims) ∨
     ∃ why, e = ErrUnauthorized why).
Proof.
  split; [|intros e; apply groups_of_Err]. intros groups. rewrite groups_of_eq.
  destruct (bearerToken r) as [token|e]; cbn; [|naive_solver].
  destruct (trusted PWC PU v now token) as [claims|] eqn:Ht; [|naive_solver].
  rewrite claims_groups_Ok. naive_solver.
Qed.

(** The token is what follows the scheme, in any spelling of its letters,
    without surrounding white space; without the header or the scheme there is no
    token. *)
Theorem bearerToken_correct r :
  match bearerToken r with
  | Ok token => ∃ scheme rest,
      header_get "Authorization" (r_Header r) = scheme +:+ rest ∧
      equal_fold scheme bearer_prefix = true ∧ token = trim_space rest
  | Err _ => ∀ scheme rest, header_get "Authorization" (r_Header r) = scheme +:+ rest →
      equal_fold scheme bearer_prefix = false
  end.
Proof.
  unfold bearerToken. set (h := header_get "Authorization" (r_Header r)). clearbody h.
  assert (∀ scheme rest, h = scheme +:+ rest → equal_fold scheme bearer_prefix = true →
    take_bytes (String.length bearer_prefix) h = scheme) as Htake.
  { intros scheme rest -> He. rewrite <- (equal_fold_length _ _ He). apply take_bytes_app. }
  destruct (String.eqb_spec h "") as [->|Hne].
  { intros [|c scheme] rest; [done|discriminate]. }
  destruct (String.length h <? String.length bearer_prefix) eqn:Hl; cbn [orb].
  { intros scheme rest ->. apply not_true_iff_false. intros He. apply equal_fold_length in He.
    apply Nat.ltb_lt in Hl. rewrite length_app_str in Hl. lia. }
  destruct (equal_fold (take_bytes (String.length bearer_prefix) h) bearer_prefix) eqn:Hf; cbn [negb].
  - exists (take_bytes (String.length bearer_prefix) h), (drop_bytes (String.length bearer_prefix) h).
    by rewrite take_drop_bytes.
  - intros scheme rest Hh. apply not_true_iff_false. intros He.
    rewrite (Htake _ _ Hh He) in Hf. congruence.
Qed.

(** The parser options that fix what a token must be signed with. *)
Definition allows_only {PublicKey KeySet} (v : jwtVerifier PublicKey KeySet)
    (algs : list string) : Prop :=
  ∀ methods, WithValidMethods methods ∈ jwt_options v → methods = algs.

Lemma parserOpts_methods c methods : WithValidMethods methods ∉ parserOpts c.
Proof. unfold parserOpts. destruct (nonempty (ac_Issuer c)); set_solver. Qed.

Lemma jwt_options_static {PublicKey KeySet} g (k : key_source PublicKey KeySet) c algs sc au :
  algs ≠ [] → let v := mkJWTVerifier g k (parserOpts c) algs sc au in
  WithValidMethods algs ∈ jwt_options v ∧ allows_only v algs ∧ parserOpts c ⊆ jwt_options v.
Proof.
  intros Hne v. assert (jwt_options v = parserOpts c ++ [WithValidMethods algs]) as Ho
    by (unfold jwt_options; cbn; by destruct algs).
  unfold allows_only. rewrite Ho. split_and!; [set_solver| |set_solver].
  intros methods [Hm|Hm]%elem_of_app; [by apply parserOpts_methods in Hm|set_solver].
Qed.

(** C15: what [New] builds. The configured mode decides the kind; a JWT verifier
    always requires an expiration and the configured issuer, checks the
    configured audiences and scopes, and with a static key admits exactly the
    algorithms of that key's family, so a public key is never used as an HMAC
    secret nor the reverse. *)
Theorem NewVerifier_correct {PublicKey KeySet : Type} {E : Env} rf pd (pk : string → option PublicKey)
    up uw (nk : string → M (Outside E) (option KeySet)) c o :
  match (NewVerifier rf pd pk up uw nk c o).1 with
  | Return (Ok (InsecureVerifier v)) =>
      ac_Mode c = AuthModeInsecure ∧
      v = mkInsecureVerifier (ac_GroupsClaim c) (ac_ScopesSupported c) (acceptedAudiences c)
  | Return (Ok (JWTVerifier v)) =>
      ac_Mode c ≠ AuthModeInsecure ∧
      WithExpirationRequired ∈ jwt_options v ∧
      (ac_Issuer c ≠ "" → WithIssuer (ac_Issuer c) ∈ jwt_options v) ∧
      jv_groupsClaim v = ac_GroupsClaim c ∧ jv_scopesSupported v = ac_ScopesSupported c ∧
      jv_audiences v = acceptedAudiences c ∧
      match jv_keyfunc v with
      | HMACKey secret => ac_Mode c = AuthModeStatic ∧ secret = ac_HMACSecret c ∧
          WithValidMethods hmac_algs ∈ jwt_options v ∧ allows_only v hmac_algs
      | PublicKeyOf key => ac_Mode c = AuthModeStatic ∧ ac_HMACSecret c = "" ∧
          WithValidMethods public_key_algs ∈ jwt_options v ∧ allows_only v public_key_algs
      | JWKS _ => ac_Mode c = AuthModeJWKS
      end
  | Return (Err _) => ac_Mode c ≠ AuthModeInsecure
  | Panic => ac_Mode c = AuthModeJWKS
  end.
Proof.
  assert (WithExpirationRequired ∈ parserOpts c ∧
          (ac_Issuer c ≠ "" → WithIssuer (ac_Issuer c) ∈ parserOpts c)) as [Hexp Hiss].
  { unfold parserOpts, nonempty. split; [set_solver|]. intros Hne.
    rewrite (proj2 (String.eqb_neq _ _) Hne). cbn. set_solver. }
  unfold NewVerifier.
  destruct (String.eqb_spec (ac_Mode c) AuthModeInsecure) as [Hm|Hm]; [done|].
  destruct (String.eqb_spec (ac_Mode c) AuthModeStatic) as [Hs|Hs].
  { unfold loadStaticKey, nonempty.
    destruct (String.eqb_spec (ac_HMACSecret c) "") as [Hh|Hh]; cbn.
    - destruct (rf (ac_PublicKeyPEMFile c)) as [pem|]; cbn; [|done].
      destruct (pd pem) as [block|]; cbn; [|done]. destruct (pk block) as [key|]; cbn; [|done].
      pose proof (jwt_options_static (KeySet := KeySet) (ac_GroupsClaim c) (PublicKeyOf key) c
        public_key_algs (ac_ScopesSupported c) (acceptedAudiences c) ltac:(done)) as (H1 & H2 & H3).
      split_and!; eauto.
    - pose proof (jwt_options_static (PublicKey := PublicKey) (KeySet := KeySet) (ac_GroupsClaim c)
        (HMACKey (ac_HMACSecret c)) c hmac_algs (ac_ScopesSupported c) (acceptedAudiences c)
        ltac:(done)) as (H1 & H2 & H3).
      split_and!; eauto. }
  destruct (String.eqb_spec (ac_Mode c) AuthModeJWKS) as [Hj|Hj]; [|done].
  unfold mbind, M_bind.
  destruct ((if nonempty (ac_JWKSURL c) then mret (Ok (ac_JWKSURL c))
             else discoverJWKSURL up uw (ac_Issuer c)) o) as [[[url|e]|] o']; cbn; [|done|done].
  destruct (nk url o') as [[[jwks|]|] o'']; cbn; [|done|done].
  unfold jwt_options. cbn. split_and!; eauto.
Qed.
