(* ===== verification/OAuth.v ===== *)
(** * internal/proxy/oauth.go: the protected-resource metadata

    The public URLs the proxy advertises, the RFC 9728 document, and the HTTP
    error with a JSON-RPC body. *)

From Stdlib Require Import Ascii.
From stdpp Require Import base numbers option pretty gmap fin_maps sorting strings list.
From S2P Require Import Prelude GoStrings Json Decode Config Http Rpc.

#[local] Set Warnings "-clear-no-such-hyp".
#[local] Open Scope nat_scope.

Record ProtectedResourceMetadata := mkMetadata {
  m_Resource : string;
  m_AuthorizationServers : list string;
  m_ScopesSupported : list string;
  m_BearerMethodsSupported : list string }.

(** A member with [omitempty] is left out when the slice is empty. *)
Definition omit_empty_strings (k : string) (l : list string) : list (string * json) :=
  match l with [] => [] | _ => [(k, marshal_strings l)] end.

Definition marshal_metadata (m : ProtectedResourceMetadata) : json :=
  JObj ([("resource", JStr (m_Resource m))] ++
        omit_empty_strings "authorization_servers" (m_AuthorizationServers m) ++
        omit_empty_strings "scopes_supported" (m_ScopesSupported m) ++
        [("bearer_methods_supported", marshal_strings (m_BearerMethodsSupported m))]).

(** ** Public URLs *)

Definition request_scheme (r : Request) : string :=
  if r_TLS r || String.eqb (header_get "X-Forwarded-Proto" (r_Header r)) "https"
  then "https" else "http".

Definition resourceURL (c : ServerConfig) (r : Request) : string :=
  let path := or_default "/mcp" (sc_Path c) in
  if nonempty (sc_ExternalURL c) then
    let ext := trim_suffix "/" (sc_ExternalURL c) in
    if negb (has_suffix path ext) then ext +:+ path else ext
  else request_scheme r +:+ "://" +:+ r_Host r +:+ path.

Definition metadata_suffix : string := "/.well-known/oauth-protected-resource".

Definition metadataURL (c : ServerConfig) (r : Request) : string :=
  if nonempty (sc_ExternalURL c) then
    let ext := trim_suffix "/" (sc_ExternalURL c) in
    let path := or_default "/mcp" (sc_Path c) in
    let ext := if has_suffix path ext then trim_suffix path ext else ext in
    let ext := trim_suffix "/" ext in
    ext +:+ metadata_suffix
  else request_scheme r +:+ "://" +:+ r_Host r +:+ metadata_suffix.

Definition resource_metadata (s : ServerConfig) (a : AuthConfig) (r : Request)
    : ProtectedResourceMetadata :=
  mkMetadata (resourceURL s r) (if nonempty (ac_Issuer a) then [ac_Issuer a] else [])
    (ac_ScopesSupported a) ["header"].

Definition ServeProtectedResourceMetadata (s : ServerConfig) (a : AuthConfig) (r : Request)
    (w : Writer) : Writer :=
  let w := w_set_header "Content-Type" "application/json" w in
  let w := w_write_header 200 w in
  w_write (print (marshal_metadata (resource_metadata s a r)) +:+ newline) w.

(** ** Errors *)

Definition writeHTTPError (statusCode : Z) (id : option json) (code : Z) (msg : string)
    (w : Writer) : Writer :=
  w_write (jsonRPCErrorBytes id code msg)
    (w_write_header statusCode (w_set_header "Content-Type" "application/json" w)).

(** ** Lemmas *)

Lemma w_write_header_fresh status w :
  w_status w = 0%Z → w_write_header status w = mkWriter status (w_header w) (w_header w) (w_body w).
Proof. intros Hw. unfold w_write_header. by rewrite Hw. Qed.

Lemma w_write_started bytes w :
  w_status w ≠ 0%Z →
  w_write bytes w = mkWriter (w_status w) (w_header w) (w_sent w) (w_body w +:+ bytes).
Proof.
  intros Hw. unfold w_write, w_write_header. by rewrite (proj2 (Z.eqb_neq _ _) Hw).
Qed.

Lemma trim_suffix_or p s : s = trim_suffix p s ∨ s = trim_suffix p s +:+ p.
Proof.
  destruct (has_suffix p s) eqn:Hs.
  - apply has_suffix_spec in Hs as [r ->]. right. by rewrite trim_suffix_app.
  - left. by rewrite trim_suffix_none.
Qed.

(** A reader of the document: an absent list is an empty one. *)
Definition read_strings (field : string) (l : list (string * json)) : list string :=
  match raw_field field l with Some v => (unmarshal_strings v).1 | None => [] end.

Definition read_metadata (v : json) : result decode_error ProtectedResourceMetadata :=
  l ← struct_members v;
  resource ← string_field "resource" l;
  Ok (mkMetadata resource (read_strings "authorization_servers" l)
        (read_strings "scopes_supported" l) (read_strings "bearer_methods_supported" l)).

Lemma read_marshal_metadata m : read_metadata (marshal_metadata m) = Ok m.
Proof.
  assert (∀ x, (unmarshal_strings (marshal_strings x)).1 = x) as Hu
    by (intros x; by rewrite unmarshal_marshal_strings).
  destruct m as [res servers scopes methods]. unfold marshal_metadata, omit_empty_strings.
  cbn [m_Resource m_AuthorizationServers m_ScopesSupported m_BearerMethodsSupported].
  transitivity (Ok (E := decode_error) (mkMetadata res
    (match servers with [] => [] | _ => (unmarshal_strings (marshal_strings servers)).1 end)
    (match scopes with [] => [] | _ => (unmarshal_strings (marshal_strings scopes)).1 end)
    (unmarshal_strings (marshal_strings methods)).1)).
  - generalize (marshal_strings methods) as j3. generalize (marshal_strings scopes) as j2.
    generalize (marshal_strings servers) as j1. intros j1 j2 j3.
    destruct servers, scopes; reflexivity.
  - rewrite !Hu. by destruct servers, scopes.
Qed.

(** ** Theorems *)

(** With an external URL configured, no header of the request can change
    what the proxy advertises: the resource is the external URL ending in the
    endpoint path, exactly once, and the metadata sits next to that path; without
    one, both are on the request's host. *)
Theorem public_urls_correct c r :
  let path := or_default "/mcp" (sc_Path c) in
  has_suffix path (resourceURL c r) = true ∧
  has_suffix metadata_suffix (metadataURL c r) = true ∧
  (sc_ExternalURL c ≠ "" →
     (∀ r', resourceURL c r' = resourceURL c r ∧ metadataURL c r' = metadataURL c r) ∧
     (∀ base, sc_ExternalURL c = base +:+ path → has_suffix "/" path = false →
        resourceURL c r = base +:+ path ∧
        metadataURL c r = trim_suffix "/" base +:+ metadata_suffix) ∧
     (has_suffix path (trim_suffix "/" (sc_ExternalURL c)) = false →
        resourceURL c r = trim_suffix "/" (sc_ExternalURL c) +:+ path)) ∧
  (sc_ExternalURL c = "" →
     resourceURL c r = request_scheme r +:+ "://" +:+ r_Host r +:+ path ∧
     metadataURL c r = request_scheme r +:+ "://" +:+ r_Host r +:+ metadata_suffix).
Proof.
  intros path. unfold resourceURL, metadataURL, nonempty. fold path.
  destruct (String.eqb_spec (sc_ExternalURL c) "") as [He|He]; cbn [negb].
  - split_and!; [| |done|done].
    + rewrite <- !app_assoc_str. apply has_suffix_app.
    + rewrite <- !app_assoc_str. apply has_suffix_app.
  - split_and!; [|apply has_suffix_app| |done].
    + destruct (has_suffix path (trim_suffix "/" (sc_ExternalURL c))) eqn:Hs; cbn [negb]; [done|].
      apply has_suffix_app.
    + intros _. split_and!; [done| |by intros ->].
      intros base Hb Hp. rewrite Hb.
      assert (has_suffix "/" (base +:+ path) = false) as Hn.
      { rewrite has_suffix_past; [done|]. unfold path, or_default.
        destruct (String.eqb (sc_Path c) "") eqn:Hq; cbn; [lia|].
        destruct (sc_Path c); [done|cbn; lia]. }
      rewrite (trim_suffix_none "/" (base +:+ path)) by done.
      by rewrite has_suffix_app, trim_suffix_app.
Qed.

(** C39: the metadata document is served with 200 as JSON, and a reader gets
    back the resource, the issuer (if any), the scopes and the bearer method. *)
Theorem ServeProtectedResourceMetadata_correct s a r :
  let w := ServeProtectedResourceMetadata s a r new_writer in
  w_status w = 200%Z ∧ header_get "Content-Type" (w_sent w) = "application/json" ∧
  ∃ v, w_body w = print v +:+ newline ∧
    read_metadata v =
      Ok (mkMetadata (resourceURL s r) (if nonempty (ac_Issuer a) then [ac_Issuer a] else [])
            (ac_ScopesSupported a) ["header"]).
Proof.
  unfold ServeProtectedResourceMetadata.
  rewrite (w_write_header_fresh 200) by done. rewrite w_write_started by done.
  split_and!; [done|apply header_get_set|].
  exists (marshal_metadata (resource_metadata s a r)). split; [done|apply read_marshal_metadata].
Qed.
