(* ===== verification/Observability.v ===== *)
(** * internal/observability: what is recorded of an operation

    The attributes of a tool call, the two instruments they are recorded on, and
    the scrape listener's settings. An instrument is the list of its recordings; the
    providers behind them are in [Telemetry.v]. A nil [*Observability] is
    [None], on which every method is a no-op. *)

From Stdlib Require Import Ascii.
From stdpp Require Import base numbers option pretty gmap fin_maps sorting strings list.
From S2P Require Import Prelude GoStrings Config.

#[local] Open Scope nat_scope.

Definition attrMethodName : string := "mcp.method.name".
Definition attrToolName : string := "mcp.tool.name".
Definition attrTenantID : string := "mcp.tenant.id".
Definition attrBackend : string := "mcp.backend.name".
Definition attrErrorType : string := "error.type".

Record ToolCallAttrs := mkToolCallAttrs {
  tca_Method : string;
  tca_Tool : string;
  tca_TenantID : string;
  tca_Backend : string;
  tca_ErrorType : string }.

Abbreviation attributes := (list (string * string)).

Record Observability := mkObservability {
  ob_opDuration : list (Z * attributes);
  ob_opCount : list attributes;
  ob_sessionCount : nat;
  ob_metricsListen : string;
  ob_metricsPath : string }.

Definition optional_attr (k v : string) : attributes := if nonempty v then [(k, v)] else [].

Definition tool_call_attributes (a : ToolCallAttrs) : attributes :=
  [(attrMethodName, tca_Method a)] ++
  optional_attr attrToolName (tca_Tool a) ++
  optional_attr attrTenantID (tca_TenantID a) ++
  optional_attr attrBackend (tca_Backend a) ++
  optional_attr attrErrorType (tca_ErrorType a).

Definition RecordToolCall (a : ToolCallAttrs) (duration : Z) (o : option Observability)
    : option Observability :=
  match o with
  | None => None
  | Some o =>
      let attrs := tool_call_attributes a in
      Some (mkObservability (ob_opDuration o ++ [(duration, attrs)]) (ob_opCount o ++ [attrs])
              (ob_sessionCount o) (ob_metricsListen o) (ob_metricsPath o))
  end.

Definition RecordSession (o : option Observability) : option Observability :=
  match o with
  | None => None
  | Some o =>
      Some (mkObservability (ob_opDuration o) (ob_opCount o) (S (ob_sessionCount o))
              (ob_metricsListen o) (ob_metricsPath o))
  end.

Definition MetricsListen (o : option Observability) : string :=
  match o with None => "" | Some o => ob_metricsListen o end.

Definition MetricsPath (o : option Observability) : string :=
  match o with
  | None => "/metrics"
  | Some o => or_default "/metrics" (ob_metricsPath o)
  end.

(** The operations recorded so far. *)
Definition operations (o : option Observability) : list attributes :=
  match o with None => [] | Some o => ob_opCount o end.

(** A recording states an attribute exactly when it has a value, and an error
    exactly when there was one. *)
Lemma tool_call_attributes_spec a k v :
  (k, v) ∈ tool_call_attributes a ↔
  (k = attrMethodName ∧ v = tca_Method a) ∨
  v ≠ "" ∧ ((k = attrToolName ∧ v = tca_Tool a) ∨ (k = attrTenantID ∧ v = tca_TenantID a) ∨
            (k = attrBackend ∧ v = tca_Backend a) ∨ (k = attrErrorType ∧ v = tca_ErrorType a)).
Proof.
  assert (∀ k' v', (k, v) ∈ optional_attr k' v' ↔ v ≠ "" ∧ k = k' ∧ v = v') as Hopt.
  { intros k' v'. unfold optional_attr, nonempty.
    destruct (String.eqb_spec v' ""); cbn; rewrite ?elem_of_nil, ?list_elem_of_singleton;
      naive_solver. }
  unfold tool_call_attributes. rewrite !elem_of_app, list_elem_of_singleton, !Hopt. naive_solver.
Qed.
