(* ===== verification/Telemetry.v ===== *)
(** * internal/observability: providers and instruments

    [Setup] builds the metrics provider with its instruments, and the tracer
    provider when an OTLP endpoint is configured; [Shutdown] stops both. The
    OpenTelemetry and Prometheus libraries are parameters: a record of the calls
    made on them, each of which may fail. *)

From Stdlib Require Import Ascii.
From stdpp Require Import base numbers option pretty gmap fin_maps sorting strings list.
From S2P Require Import Prelude GoStrings Config Http Observability.

#[local] Open Scope nat_scope.

(** ** The libraries *)

(** What the package calls; [None] is an error. Handles are opaque. *)
Record Libraries := mkLibraries {
  Resource : Type;
  Exporter : Type;
  SpanExporter : Type;
  MeterProvider : Type;
  TracerProvider : Type;
  Instrument : Type;
  Tracer_ : Type;
  resource_Merge : string → string → option Resource;
  promexporter_New : option Exporter;
  (** The resource, the reader, the view's instrument and its bucket boundaries
      (in milliseconds). *)
  NewMeterProvider : Resource → Exporter → string → list Z → MeterProvider;
  Float64Histogram : MeterProvider → string → string → option Instrument;
  Int64Counter : MeterProvider → string → option Instrument;
  otlptracegrpc_New : option SpanExporter;
  NewTracerProvider : Resource → SpanExporter → TracerProvider;
  provider_Tracer : TracerProvider → string → Tracer_;
  noop_Tracer : string → Tracer_;
  meter_Shutdown : MeterProvider → option string;
  tracer_Shutdown : TracerProvider → option string }.

(** The process-wide settings [Setup] installs. *)
Record Globals (L : Libraries) := mkGlobals {
  gl_propagator : bool;
  gl_meter : option (MeterProvider L);
  gl_tracer : option (TracerProvider L) }.
Arguments mkGlobals {L}. Arguments gl_propagator {L}. Arguments gl_meter {L}. Arguments gl_tracer {L}.

(** Seconds times a thousand. *)
Definition mcpHistogramBuckets : list Z :=
  [10; 20; 50; 100; 200; 500; 1000; 2000; 5000; 10000; 30000; 60000; 120000; 300000]%Z.

Definition scope_name : string := "github.com/loafoe/mt-mcp-proxy".

Record TelemetryConfig := mkTelemetryConfig {
  tc_MetricsListen : string;
  tc_MetricsPath : string;
  tc_ServiceName : string;
  tc_ServiceVersion : string }.

Section telemetry.
Context {L : Libraries}.

Record Instruments := mkInstruments {
  in_opDuration : Instrument L;
  in_opCount : Instrument L;
  in_sessionCount : Instrument L }.

Record Telemetry := mkTelemetry {
  tl_tracer : Tracer_ L;
  tl_meterProvider : MeterProvider L;
  tl_tracerProvider : option (TracerProvider L);
  tl_instruments : Instruments;
  tl_metricsListen : string;
  tl_metricsPath : string }.

Inductive setup_error :=
| BuildResource
| PrometheusExporter
| OperationDuration
| OperationCount
| SessionCount
| OtlpExporter.

(** ** Setting up *)

Definition required {E A} (e : E) (o : option A) : result E A :=
  match o with Some v => Ok v | None => Err e end.

Definition initInstruments (mp : MeterProvider L) : result setup_error Instruments :=
  duration ← required OperationDuration (Float64Histogram L mp "mcp.server.operation.duration" "s");
  count ← required OperationCount (Int64Counter L mp "mcp.server.operation.count");
  sessions ← required SessionCount (Int64Counter L mp "mcp.server.session.count");
  Ok (mkInstruments duration count sessions).

(** [os.Getenv]: an unset variable reads as empty. *)
Definition Getenv (LookupEnv : string → option string) (name : string) : string :=
  default "" (LookupEnv name).

Definition Setup (LookupEnv : string → option string) (cfg : TelemetryConfig)
    : M (Globals L) (result setup_error Telemetry) :=
  let name := or_default "mt-mcp-proxy" (tc_ServiceName cfg) in
  match resource_Merge L name (tc_ServiceVersion cfg) with
  | None => mret (Err BuildResource)
  | Some res =>
      _ ← modify (λ g, mkGlobals true (gl_meter g) (gl_tracer g));
      match promexporter_New L with
      | None => mret (Err PrometheusExporter)
      | Some promExp =>
          let mp := NewMeterProvider L res promExp "mcp.server.operation.duration" mcpHistogramBuckets in
          _ ← modify (λ g, mkGlobals (gl_propagator g) (Some mp) (gl_tracer g));
          match initInstruments mp with
          | Err e => mret (Err e)
          | Ok instruments =>
              let done tp tracer := Ok (mkTelemetry tracer mp tp instruments
                                          (tc_MetricsListen cfg) (tc_MetricsPath cfg)) in
              if nonempty (Getenv LookupEnv "OTEL_EXPORTER_OTLP_ENDPOINT") then
                match otlptracegrpc_New L with
                | None => mret (Err OtlpExporter)
                | Some exp =>
                    let tp := NewTracerProvider L res exp in
                    _ ← modify (λ g, mkGlobals (gl_propagator g) (gl_meter g) (Some tp));
                    mret (done (Some tp) (provider_Tracer L tp scope_name))
                end
              else mret (done None (noop_Tracer L scope_name))
          end
      end
  end.

(** ** Using it *)

(** A nil [*Observability] is [None]. *)
Definition Tracer (o : option Telemetry) : Tracer_ L :=
  match o with None => noop_Tracer L scope_name | Some o => tl_tracer o end.

(** Both providers are stopped; the first error is returned. The list records
    the providers [Shutdown] was called on. *)
Inductive stopped := TracerStopped (tp : TracerProvider L) | MeterStopped (mp : MeterProvider L).

Definition Shutdown (o : option Telemetry) : M (list stopped) (option string) :=
  match o with
  | None => mret None
  | Some o =>
      firstErr ← match tl_tracerProvider o with
                 | Some tp =>
                     _ ← modify (λ l, l ++ [TracerStopped tp]);
                     mret (tracer_Shutdown L tp)
                 | None => mret None
                 end;
      _ ← modify (λ l, l ++ [MeterStopped (tl_meterProvider o)]);
      let err := meter_Shutdown L (tl_meterProvider o) in
      mret (match firstErr with Some e => Some e | None => err end)
  end.

(** What [Observability.v] records starts empty. *)
Definition recordings (t : Telemetry) : Observability :=
  mkObservability [] [] 0 (tl_metricsListen t) (tl_metricsPath t).

(** ** Facts *)

Lemma initInstruments_Ok mp i :
  initInstruments mp = Ok i ↔
  Float64Histogram L mp "mcp.server.operation.duration" "s" = Some (in_opDuration i) ∧
  Int64Counter L mp "mcp.server.operation.count" = Some (in_opCount i) ∧
  Int64Counter L mp "mcp.server.session.count" = Some (in_sessionCount i).
Proof.
  unfold initInstruments. destruct (Float64Histogram _ _ _ _) as [d|]; cbn; [|naive_solver].
  destruct (Int64Counter L mp "mcp.server.operation.count") as [c|]; cbn; [|naive_solver].
  destruct (Int64Counter L mp "mcp.server.session.count") as [s|]; cbn; [|naive_solver].
  destruct i; naive_solver.
Qed.

Definition tracing_enabled (LookupEnv : string → option string) : bool :=
  nonempty (Getenv LookupEnv "OTEL_EXPORTER_OTLP_ENDPOINT").

(** What the providers of a [Telemetry] say when stopped, in order. *)
Definition shutdown_errors (t : Telemetry) : list string :=
  omap id [tl_tracerProvider t ≫= tracer_Shutdown L; meter_Shutdown L (tl_meterProvider t)].

Definition provider_list (t : Telemetry) : list stopped :=
  from_option (λ tp, [TracerStopped tp]) [] (tl_tracerProvider t) ++ [MeterStopped (tl_meterProvider t)].
End telemetry.

Arguments Telemetry L : clear implicits.
Arguments stopped L : clear implicits.

(** ** Theorems *)

Lemma Shutdown_run {L : Libraries} (t : Telemetry L) l :
  Shutdown (Some t) l = (Return (head (shutdown_errors t)), l ++ provider_list t).
Proof.
  unfold Shutdown, shutdown_errors, provider_list.
  destruct (tl_tracerProvider t) as [tp|]; [destruct (tracer_Shutdown L tp) as [e|] eqn:He|];
    destruct (meter_Shutdown L (tl_meterProvider t)) eqn:Hm;
    cbv [mbind M_bind modify mret M_ret]; cbn; rewrite ?He, <- ?app_assoc; done.
Qed.

Lemma Setup_returns {L : Libraries} env cfg (g : Globals L) : ∃ r g', Setup env cfg g = (Return r, g').
Proof.
  unfold Setup. destruct (resource_Merge L _ _); [|by eexists _, _]. cbn.
  destruct (promexporter_New L); [|by eexists _, _]. cbn.
  destruct (initInstruments _); [|by eexists _, _].
  destruct (nonempty _); [destruct (otlptracegrpc_New L)|]; by eexists _, _.
Qed.

Lemma Setup_listener {L : Libraries} env cfg (g g' : Globals L) t :
  Setup env cfg g = (Return (Ok t), g') →
  tl_metricsListen t = tc_MetricsListen cfg ∧ tl_metricsPath t = tc_MetricsPath cfg.
Proof.
  unfold Setup. destruct (resource_Merge L _ _); [|done]. cbn. destruct (promexporter_New L); [|done]. cbn.
  destruct (initInstruments _); [|done].
  destruct (nonempty _); [destruct (otlptracegrpc_New L)|]; intros [= <- <-] || done; done.
Qed.

(** C23: setting up telemetry. The metrics provider and its instruments are always
    built and installed, spans are exported exactly when an OTLP endpoint is
    configured and the tracer is a no-op otherwise, the listener's settings are
    the configured ones; a failure leaves no tracer provider installed, and only
    one of the very first call leaves the propagator out. *)
Theorem Setup_correct {L : Libraries} env cfg (g : Globals L) :
  let '(r, g') := Setup env cfg g in
  match r with
  | Return (Ok t) =>
      gl_propagator g' = true ∧ gl_meter g' = Some (tl_meterProvider t) ∧
      (if tracing_enabled env
       then ∃ tp, tl_tracerProvider t = Some tp ∧ gl_tracer g' = Some tp ∧
                  tl_tracer t = provider_Tracer L tp scope_name
       else tl_tracerProvider t = None ∧ gl_tracer g' = gl_tracer g ∧ tl_tracer t = noop_Tracer L scope_name) ∧
      initInstruments (tl_meterProvider t) = Ok (tl_instruments t) ∧
      tl_metricsListen t = tc_MetricsListen cfg ∧ tl_metricsPath t = tc_MetricsPath cfg
  | Return (Err e) =>
      gl_tracer g' = gl_tracer g ∧
      (gl_propagator g' = true ∨ e = BuildResource ∧ g' = g) ∧
      (e = OtlpExporter → tracing_enabled env = true)
  | Panic => False
  end.
Proof.
  unfold Setup, tracing_enabled.
  destruct (resource_Merge L _ _) as [res|]; cbn; [|naive_solver].
  destruct (promexporter_New L) as [exp|]; cbn; [|naive_solver].
  destruct (initInstruments _) as [i|e] eqn:Hi; cbn.
  - destruct (nonempty _); [destruct (otlptracegrpc_New L) as [sp|]|]; cbn; naive_solver.
  - split_and!; [done|by left|]. intros ->. unfold initInstruments in Hi.
    repeat (destruct (required _ _) eqn:? in Hi; cbn in Hi; simplify_eq).
    all: unfold required in *; repeat case_match; simplify_eq.
Qed.

(** Shutting down stops every provider there is, the tracer's first, whether
    or not stopping one fails, and reports the first error. *)
Theorem Shutdown_correct {L : Libraries} (t : Telemetry L) l :
  Shutdown (Some t) l = (Return (head (shutdown_errors t)), l ++ provider_list t).
Proof.
  apply Shutdown_run.
Qed.
