(* ===== verification/Handler.v ===== *)
(** * internal/proxy/handler.go: the MCP endpoint

    Every handler is a computation on the proxy's state: the session store, the
    catalogs with the heap of tools, the recordings, the goroutines still to run
    and the response being written. *)

From Stdlib Require Import Ascii.
From stdpp Require Import base numbers option pretty gmap fin_maps sorting strings list.
From S2P Require Import Prelude GoStrings Json Decode Config Registry Session Http.
From S2P Require Import Rpc Schema ParamHeaders Client Catalog Auth OAuth Observability.

#[local] Set Warnings "-clear-no-such-hyp".
#[local] Open Scope nat_scope.

(** ** State *)

(** [h_tasks]: the teardowns spawned and not yet run. [h_out]: the attributes
    [handleToolsCall] records when it returns. *)
Record State (E : Env) := mkState {
  h_store : Store;
  h_cat : CatState E;
  h_obs : option Observability;
  h_tasks : list (Tenant * string);
  h_out : ToolCallAttrs;
  h_w : Writer }.
Arguments mkState {E}.
Arguments h_store {E}. Arguments h_cat {E}. Arguments h_obs {E}. Arguments h_tasks {E}.
Arguments h_out {E}. Arguments h_w {E}.

(** The fields of [Handler] that never change. *)
Record Handler (V : Type) := mkHandler {
  Verifier_ : V;
  Registry_ : Registry;
  ServerCfg : ServerConfig;
  AuthCfg : AuthConfig }.
Arguments mkHandler {V}. Arguments Verifier_ {V}. Arguments Registry_ {V}.
Arguments ServerCfg {V}. Arguments AuthCfg {V}.

Section state.
Context {E : Env}.

Definition set_store (st : Store) (s : State E) : State E :=
  mkState st (h_cat s) (h_obs s) (h_tasks s) (h_out s) (h_w s).
Definition set_cat (c : CatState E) (s : State E) : State E :=
  mkState (h_store s) c (h_obs s) (h_tasks s) (h_out s) (h_w s).
Definition set_obs (o : option Observability) (s : State E) : State E :=
  mkState (h_store s) (h_cat s) o (h_tasks s) (h_out s) (h_w s).
Definition set_tasks (l : list (Tenant * string)) (s : State E) : State E :=
  mkState (h_store s) (h_cat s) (h_obs s) l (h_out s) (h_w s).
Definition set_out (a : ToolCallAttrs) (s : State E) : State E :=
  mkState (h_store s) (h_cat s) (h_obs s) (h_tasks s) a (h_w s).
Definition set_w (w : Writer) (s : State E) : State E :=
  mkState (h_store s) (h_cat s) (h_obs s) (h_tasks s) (h_out s) w.

Definition on_cat {A} (m : M (CatState E) A) : M (State E) A := zoom h_cat (λ c s, set_cat c s) m.
Definition on_out {A} (m : M (Outside E) A) : M (State E) A := on_cat (outside m).
Definition write (f : Writer → Writer) : M (State E) () := modify (λ s, set_w (f (h_w s)) s).
Definition record (f : option Observability → option Observability) : M (State E) () :=
  modify (λ s, set_obs (f (h_obs s)) s).
Definition note (f : ToolCallAttrs → ToolCallAttrs) : M (State E) () :=
  modify (λ s, set_out (f (h_out s)) s).

(** [defer]: the cleanup runs whether the body returns or panics. *)
Definition deferred {A} (cleanup : M (State E) ()) (m : M (State E) A) : M (State E) A := λ s,
  let '(r, s) := m s in (r, (cleanup s).2).

(** *** The store, with the clock and the random source *)

Definition session_Mint : M (State E) Session :=
  reap_now ← on_out now;
  t ← on_out now;
  random ← on_out rand_bytes;
  st ← gets h_store;
  let '(st, sess) := Mint reap_now t random st in
  _ ← modify (set_store st);
  mret sess.

Definition session_Get (id : string) : M (State E) (option Session) :=
  reap_now ← on_out now;
  t ← on_out now;
  st ← gets h_store;
  let '(st, sess) := Get reap_now t id st in
  _ ← modify (set_store st);
  mret sess.

Definition session_SetBackendSID (proxySID backend backendSID : string) : M (State E) () :=
  t ← on_out now;
  modify (λ s, set_store (SetBackendSID t proxySID backend backendSID (h_store s)) s).

Definition session_Delete (id : string) : M (State E) (option Session) :=
  st ← gets h_store;
  let '(st, sess) := Delete id st in
  _ ← modify (set_store st);
  mret sess.
End state.

(** ** Small results *)

Definition tenantList (tenants : list Tenant) : string :=
  join ", " (sort_strings (t_ID <$> tenants)).

Definition writeRPCError (id : option json) (code : Z) (msg : string) (w : Writer) : Writer :=
  w_write (jsonRPCErrorBytes id code msg) (w_set_header "Content-Type" "application/json" w).

Definition write_result (id : option json) (res : json) (w : Writer) : Writer :=
  w_write (writeJSONRPCResult id res) (w_set_header "Content-Type" "application/json" w).

Section handler.
Context {V : Type} `{Verifier V} (h : Handler V) {E : Env}.

Abbreviation reg := (Registry_ h).

Definition statelessize (result : gmap string json) : gmap string json :=
  if AllStateless reg then <["resultType" := JStr "complete"]> result else result.

Definition client_version : string :=
  if AllStateless reg then ProtocolVersionStateless else ProtocolVersionStateful.

Definition tools_capability : json :=
  go_map [("tools", go_map [("listChanged", JBool false)])].

Definition serverInfoResult : json :=
  go_map
    [("protocolVersion", JStr client_version);
     ("capabilities", tools_capability);
     ("serverInfo", go_map [("name", JStr "mt-mcp-proxy"); ("version", JStr "0")])].

Definition discoverResult : json :=
  go_map
    [("cacheScope", JStr "public");
     ("capabilities", tools_capability);
     ("resultType", JStr "complete");
     ("supportedVersions", marshal_strings [client_version]);
     ("ttlMs", marshal_int 0)].

Definition handleInitialize (req : jsonRPCRequest) : M (State E) () :=
  let res := serverInfoResult in
  _ ← write (w_set_header "Content-Type" "application/json");
  if AllStateless reg then write (w_write (writeJSONRPCResult (j_ID req) res)) else
  sess ← session_Mint;
  _ ← record RecordSession;
  _ ← write (w_set_header mcpSessionHeader (s_ID sess));
  write (w_write (writeJSONRPCResult (j_ID req) res)).

Definition handleDiscover (req : jsonRPCRequest) : M (State E) () :=
  write (write_result (j_ID req) discoverResult).

(** ** tools/list *)

Record union := mkUnion {
  un_order : list string;
  un_defs : gmap string nat;
  un_having : gmap string (list string) }.

(** One tool of one tenant's list; [r] is its reference. *)
Definition union_add (heap : list rawTool) (tenantID : string) (u : union) (r : nat) : union :=
  let name := toolName (default ∅ (heap !! r)) in
  let having := <[name := default [] (un_having u !! name) ++ [tenantID]]> (un_having u) in
  match un_defs u !! name with
  | Some _ => mkUnion (un_order u) (un_defs u) having
  | None => mkUnion (un_order u ++ [name]) (<[name := r]> (un_defs u)) having
  end.

Definition union_views (heap : list rawTool) (views : list (Tenant * list nat)) : union :=
  foldl (λ u v, foldl (union_add heap (t_ID v.1)) u v.2) (mkUnion [] ∅ ∅) views.

(** [cloneTool] with its allocation. *)
Definition alloc_clone (r : nat) : M (CatState E) nat := λ s,
  (Return (length (ct_heap s)),
   mkCatState (ct_heap s ++ [cloneTool (default ∅ (ct_heap s !! r))]) (ct_cats s) (ct_out s)).

(** [injectTenantArg] on the tool behind a reference. *)
Definition inject_at (r : nat) (schema : json) (required : bool) : M (CatState E) () :=
  modify (λ s, mkCatState
    (alter (λ t, injectTenantArg t schema required) r (ct_heap s)) (ct_cats s) (ct_out s)).

(** One round of the loop over [order]. *)
Definition list_tool (discovery : bool) (authorized : list Tenant) (u : union) (name : string)
    : M (CatState E) nat :=
  t ← alloc_clone (default 0 (un_defs u !! name));
  _ ← (if discovery then inject_at t (tenantSchema [] false) false
       else if 2 <=? length authorized then
         let ids := default [] (un_having u !! name) in
         inject_at t (tenantSchema ids (2 <=? length ids)) (2 <=? length ids)
       else mret ());
  mret t.

Fixpoint list_tools (discovery : bool) (authorized : list Tenant) (u : union)
    (order : list string) : M (CatState E) (list nat) :=
  match order with
  | [] => mret []
  | name :: order =>
      r ← list_tool discovery authorized u name;
      rs ← list_tools discovery authorized u order;
      mret (r :: rs)
  end.

Definition tools_result (tools : list rawTool) : json :=
  go_map
    ([("tools", JArr (marshal_map <$> tools))] ++
     if AllStateless reg then
       [("cacheScope", JStr "private"); ("resultType", JStr "complete"); ("ttlMs", marshal_int 0)]
     else []).

(** The tenants whose lists are shown, and whether this is discovery. *)
Definition listed_tenants (groups : result auth_error (list string)) : list Tenant * bool :=
  let authorized := match groups with Ok gs => AuthorizedTenants reg gs | Err _ => [] end in
  match authorized with
  | [] => (sort_on t_ID (Tenants reg), true)
  | _ => (authorized, false)
  end.

Definition handleToolsList (r : Request) (req : jsonRPCRequest) : M (State E) () :=
  t ← on_out now;
  let '(tenants, discovery) := listed_tenants (Groups (Verifier_ h) t r) in
  views ← on_cat (toolsFor tenants);
  match views with
  | Err _ => write (writeRPCError (j_ID req) (-32603) "failed to load tool catalog")
  | Ok views =>
      heap ← gets (λ s, ct_heap (h_cat s));
      let u := union_views heap views in
      let authorized := if discovery : bool then [] else tenants in
      out ← on_cat (list_tools discovery authorized u (un_order u));
      local ← on_cat (alloc_tools [listInstancesToolDef]);
      heap ← gets (λ s, ct_heap (h_cat s));
      write (write_result (j_ID req) (tools_result (deref heap (out ++ local))))
  end.

(** ** tools/call: selecting the tenant *)

Section select.
Variables (heap : list rawTool) (cs : Catalogs).

(** [found || !known]. *)
Definition may_have (toolName : string) (t : Tenant) : bool :=
  match cachedTool heap cs (t_ID t) toolName with NotListed => false | _ => true end.

Definition tenantsWithTool (toolName : string) (candidates : list Tenant) : list Tenant :=
  List.filter (may_have toolName) candidates.

Definition unavailable (toolName : string) (tenant : Tenant) (authorized : list Tenant) : string :=
  if may_have toolName tenant then "" else
  let msg := "tool " +:+ quote toolName +:+ " is not available for tenant " +:+ quote (t_ID tenant) in
  let others :=
    List.filter (λ t, negb (String.eqb (t_ID t) (t_ID tenant)))
      (tenantsWithTool toolName authorized) in
  match others with
  | [] => msg
  | _ => msg +:+ "; it is available on: " +:+ tenantList others
  end.

(** [Err] carries the message of the error result. *)
Definition selectTenant (toolName : string) (args : option json) (groups : list string)
    (authorized : list Tenant) : result string Tenant :=
  let explicit := extractTenantArg args in
  if nonempty explicit then
    match ResolveTenant reg explicit with
    | None => Err ("unknown tenant " +:+ quote explicit +:+ "; choose one of: " +:+ tenantList authorized)
    | Some tenant =>
        if negb (IsAuthorized tenant groups) then
          Err ("not authorized for tenant " +:+ quote explicit +:+ "; choose one of: " +:+
               tenantList authorized)
        else
          let msg := unavailable toolName tenant authorized in
          if nonempty msg then Err msg else Ok tenant
    end
  else
    match authorized with
    | [] => Err "no instances are authorized for your token"
    | [t] =>
        let msg := unavailable toolName t authorized in
        if nonempty msg then Err msg else Ok t
    | _ =>
        match tenantsWithTool toolName authorized with
        | [] => Err ("tool " +:+ quote toolName +:+ " is not available on any of your instances: " +:+
                     tenantList authorized)
        | [t] => Ok t
        | candidates =>
            Err ("multiple instances available; pass the " +:+ quote tenantArg +:+
                 " argument, one of: " +:+ tenantList candidates)
        end
    end.

Definition paramHeadersForCall (tenant : Tenant) (toolName : string) (args : option json)
    : gmap string string :=
  match cachedTool heap cs (t_ID tenant) toolName with
  | Listed tool => paramHeadersForTool tool args
  | _ => ∅
  end.
End select.
(** ** tools/call: routing *)

(** The tail shared by both kinds of backend. *)
Definition finish_call (id : option json) (resp : result client_error string)
    : M (State E) bool :=
  match resp with
  | Err _ => _ ← write (writeRPCError id (-32003) "backend call failed"); mret false
  | Ok bytes =>
      _ ← write (λ w, w_write bytes (w_set_header "Content-Type" "application/json" w));
      mret true
  end.

(** Opens the tenant's backend session and stores it under the caller's. *)
Definition open_backend_session (proxySID : string) (tenant : Tenant)
    : M (State E) (result client_error string) :=
  let cred := EffectiveCredential tenant in
  r ← on_out (initialize (t_Backend tenant) (Some defaultInitParams) cred);
  match r with
  | Err e => mret (Err e)
  | Ok (sid, _) =>
      _ ← (if nonempty sid then on_out (notifyInitialized (t_Backend tenant) sid cred)
           else mret ());
      _ ← session_SetBackendSID proxySID (t_ID tenant) sid;
      mret (Ok sid)
  end.

Definition routeToBackend (r : Request) (id : option json) (tenant : Tenant)
    (forwardBytes toolName : string) (paramHeaders : gmap string string) : M (State E) bool :=
  let b := t_Backend tenant in
  let cred := EffectiveCredential tenant in
  let headers := mergeHeaders [t_Headers tenant; paramHeaders] in
  if Stateless b then
    resp ← on_out (callTool b "" cred forwardBytes headers toolName);
    finish_call id resp
  else
    let proxySID := header_get mcpSessionHeader (r_Header r) in
    sess ← session_Get proxySID;
    match sess with
    | None =>
        _ ← write (writeRPCError id (-32000) "session not found; call initialize first");
        mret false
    | Some sess =>
        backendSID ← match BackendSID sess (t_ID tenant) with
                     | Some sid => mret (Ok sid)
                     | None => open_backend_session proxySID tenant
                     end;
        match backendSID with
        | Err _ =>
            _ ← write (writeRPCError id (-32002) "failed to open backend session");
            mret false
        | Ok backendSID =>
            resp ← on_out (callTool b backendSID cred forwardBytes headers toolName);
            finish_call id resp
        end
    end.

Definition instances_text (tenants : list Tenant) : string :=
  match tenants with
  | [] => "You are not authorized to access any instances."
  | _ =>
      "You are authorized to access the following instances (tenants):" +:+ newline +:+
      concat_str ((λ t, "- " +:+ t_ID t +:+ " (authorized via groups: " +:+
                        join ", " (t_Groups t) +:+ ")" +:+ newline) <$> tenants)
  end.

Definition writeInstances (id : option json) (tenants : list Tenant) (w : Writer) : Writer :=
  write_result id (marshal_map (statelessize (toolResultText (instances_text tenants) false))) w.

(** *** The outcome, as recorded *)

Definition with_error (e : string) (a : ToolCallAttrs) : ToolCallAttrs :=
  mkToolCallAttrs (tca_Method a) (tca_Tool a) (tca_TenantID a) (tca_Backend a) e.
Definition with_tool (tool : string) (a : ToolCallAttrs) : ToolCallAttrs :=
  mkToolCallAttrs (tca_Method a) tool (tca_TenantID a) (tca_Backend a) (tca_ErrorType a).
Definition with_tenant (t : Tenant) (a : ToolCallAttrs) : ToolCallAttrs :=
  mkToolCallAttrs (tca_Method a) (tca_Tool a) (t_ID t) (b_Name (t_Backend t)) (tca_ErrorType a).

(** *** Authentication failures *)

Definition insufficient_scope_header (r : Request) : string :=
  "Bearer error=" +:+ dquote +:+ "insufficient_scope" +:+ dquote +:+
  ", scope=" +:+ dquote +:+ join " " (ac_ScopesSupported (AuthCfg h)) +:+ dquote +:+
  ", resource_metadata=" +:+ dquote +:+ metadataURL (ServerCfg h) r +:+ dquote +:+
  ", error_description=" +:+ dquote +:+ "insufficient scope" +:+ dquote.

Definition unauthorized_header (r : Request) : string :=
  "Bearer resource_metadata=" +:+ dquote +:+ metadataURL (ServerCfg h) r +:+ dquote +:+
  match ac_ScopesSupported (AuthCfg h) with
  | [] => ""
  | scopes => ", scope=" +:+ dquote +:+ join " " scopes +:+ dquote
  end.

Definition auth_failure (r : Request) (id : option json) (e : auth_error) : M (State E) () :=
  match e with
  | ErrInsufficientScope =>
      _ ← note (with_error "insufficient_scope");
      _ ← write (w_set_header "WWW-Authenticate" (insufficient_scope_header r));
      write (writeHTTPError 403 id (-32001) "forbidden: insufficient scope")
  | ErrUnauthorized _ =>
      _ ← note (with_error "unauthorized");
      _ ← write (w_set_header "WWW-Authenticate" (unauthorized_header r));
      write (writeHTTPError 401 id (-32001) "unauthorized: a valid token is required for tool calls")
  | OtherAuthError =>
      _ ← note (with_error "auth_error");
      write (writeHTTPError 500 id (-32603) "internal error")
  end.

(** The body after the tenant is known. *)
Definition forward_call (r : Request) (req : jsonRPCRequest) (params : toolCallParams)
    (tenant : Tenant) : M (State E) () :=
  _ ← note (with_tenant tenant);
  match stripTenantArg (j_Params req) with
  | Err _ =>
      _ ← note (with_error "invalid_params");
      write (writeRPCError (j_ID req) (-32602) "invalid arguments")
  | Ok cleanParams =>
      let forwardReq := mkRPC "2.0" "tools/call" cleanParams (j_ID req) in
      let forwardBytes := print (marshal_request forwardReq) in
      paramHeaders ← gets (λ s, paramHeadersForCall (ct_heap (h_cat s)) (ct_cats (h_cat s))
                                  tenant (tp_Name params) (tp_Arguments params));
      ok ← routeToBackend r (j_ID req) tenant forwardBytes (tp_Name params) paramHeaders;
      if ok : bool then mret () else note (with_error "backend_error")
  end.

Definition tools_call_body (r : Request) (req : jsonRPCRequest) : M (State E) () :=
  t ← on_out now;
  match Groups (Verifier_ h) t r with
  | Err e => auth_failure r (j_ID req) e
  | Ok groups =>
      match match j_Params req with Some v => unmarshal_params v | None => Err BadSyntax end with
      | Err _ =>
          _ ← note (with_error "invalid_params");
          write (writeRPCError (j_ID req) (-32602) "invalid tools/call params")
      | Ok params =>
          _ ← note (with_tool (tp_Name params));
          let authorized := AuthorizedTenants reg groups in
          if String.eqb (tp_Name params) listInstancesTool then
            write (writeInstances (j_ID req) authorized)
          else
            selected ← gets (λ s, selectTenant (ct_heap (h_cat s)) (ct_cats (h_cat s))
                                    (tp_Name params) (tp_Arguments params) groups authorized);
            match selected with
            | Err errResult =>
                _ ← note (with_error "tenant_selection");
                write (write_result (j_ID req)
                         (marshal_map (statelessize (toolResultText errResult true))))
            | Ok tenant => forward_call r req params tenant
            end
      end
  end.

(** The deferred recording. *)
Definition record_op (start : Z) : M (State E) () :=
  t ← on_out now;
  a ← gets h_out;
  record (RecordToolCall a (t - start)).

Definition handleToolsCall (r : Request) (req : jsonRPCRequest) : M (State E) () :=
  start ← on_out now;
  _ ← note (λ _, mkToolCallAttrs "tools/call" "" "" "" "");
  deferred (record_op start) (tools_call_body r req).

(** ** DELETE *)

Definition teardown_sids (sess : Session) (tenants : list Tenant) : list (Tenant * string) :=
  omap (λ t, match BackendSID sess (t_ID t) with
             | Some bsid => if nonempty bsid then Some (t, bsid) else None
             | None => None
             end) tenants.

Definition handleDelete (r : Request) : M (State E) () :=
  if AllStateless reg then write (w_write_header 204) else
  let proxySID := header_get mcpSessionHeader (r_Header r) in
  sess ← session_Delete proxySID;
  _ ← match sess with
      | Some sess => modify (λ s, set_tasks (h_tasks s ++ teardown_sids sess (Tenants reg)) s)
      | None => mret ()
      end;
  write (w_write_header 204).

(** The goroutine [handleDelete] spawns. *)
Definition teardownBackend (t : Tenant) (backendSID : string) : M (Outside E) () :=
  match e_url_Parse E (u_String (b_URL (t_Backend t))) with
  | None => mret ()
  | Some u =>
      let hdr := applyAuth (t_Backend t) (EffectiveCredential t) ∅
                   (header_set mcpSessionHeader backendSID ∅) in
      _ ← do_request (mkOutRequest "DELETE" (u_String u) hdr "");
      mret ()
  end.

(** ** The entry point *)

Definition WarmCatalog : M (State E) (list client_error) := on_cat warm.

Definition dispatch (r : Request) (req : jsonRPCRequest) : M (State E) () :=
  let m := j_Method req in
  if String.eqb m "initialize" then handleInitialize req
  else if String.eqb m "notifications/initialized" then write (w_write_header 202)
  else if String.eqb m "server/discover" then handleDiscover req
  else if String.eqb m "tools/list" then handleToolsList r req
  else if String.eqb m "tools/call" then handleToolsCall r req
  else if String.eqb m "ping" then
    write (write_result (j_ID req) (marshal_map (statelessize ∅)))
  else if isNotification req then write (w_write_header 202)
  else write (writeRPCError (j_ID req) (-32601) ("method not found: " +:+ m)).

Definition ServeHTTP (r : Request) : M (State E) () :=
  if String.eqb (r_Method r) "DELETE" then handleDelete r
  else if String.eqb (r_Method r) "GET" then
    _ ← write (w_set_header "Content-Type" "text/event-stream");
    write (w_write_header 200)
  else if negb (String.eqb (r_Method r) "POST") then
    write (w_http_error "method not allowed" 405)
  else
    match r_Body r with
    | None => write (writeRPCError None (-32700) "failed to read request body")
    | Some bodyBytes =>
        match v ← parse_text bodyBytes; unmarshal_request v with
        | Err _ => write (writeRPCError None (-32700) "parse error")
        | Ok req =>
            _ ← (if AllStateless reg
                 then write (w_set_header mcpProtocolVersionHeader ProtocolVersionStateless)
                 else mret ());
            dispatch r req
        end
    end.

(** One request, from a fresh response to what the client receives. *)
Definition serve (r : Request) (s : State E) : outcome Writer * State E :=
  match ServeHTTP r (set_w new_writer s) with
  | (Return _, s) => (Return (w_finish (h_w s)), s)
  | (Panic, s) => (Panic, s)
  end.
End handler.

(** ** A small deployment *)

Definition handler_ex : Handler token_is_group :=
  mkHandler TokenIsGroup registry_ex (mkServerConfig ":8080" "/mcp" "")
    (mkAuthConfig AuthModeInsecure "groups" "" "" [] [] "" "" "").

Definition state_ex : State env_ex :=
  mkState (NewStore 1800) (mkCatState [] (NewCatalogs registry_ex 60) outside_ex)
    (Some (mkObservability [] [] 0 ":9090" "/metrics")) [] (mkToolCallAttrs "" "" "" "" "")
    new_writer.

(** A POST with this bearer token, session and body. *)
Definition post_ex (token session : string) (body : json) : Request :=
  mkRequest "POST"
    (header_set mcpSessionHeader session (header_set "Authorization" ("Bearer " +:+ token) ∅))
    "proxy" false (Some (print body)).

Definition rpc_ex (method : string) (params : option json) : json :=
  marshal_request (mkRPC "2.0" method params (Some (JNum "7"))).

Definition list_ex : Request := post_ex "dev" "" (rpc_ex "tools/list" None).
Definition call_ex (session tenant : string) : Request :=
  post_ex "dev" session
    (rpc_ex "tools/call"
       (Some (JObj [("name", JStr "get"); ("arguments", JObj [("tenant", JStr tenant)])]))).

(** The tools a response lists, with the names each requires. *)
Definition listed_ex {E : Env} (x : outcome Writer * State E) : list (string * list string) :=
  match x.1 with
  | Return w => (λ t, (toolName t, tool_required t)) <$> default [] (ok_or None (read_tools (w_body w)))
  | Panic => []
  end.

Example list_run :
  listed_ex (serve handler_ex list_ex state_ex) = [("get", ["tenant"]); ("list_instances", [])].
Proof. vm_compute. reflexivity. Qed.
