(* ===== verification/HandlerSelect.v ===== *)
(** * Selecting a tenant: what [tools/call] may reach

    Correctness of [selectTenant] and of the words it answers with, against the
    registry's authorization and the cached catalogs. *)

From Stdlib Require Import Ascii.
From stdpp Require Import base numbers option pretty gmap fin_maps sorting strings list.
From S2P Require Import Prelude GoStrings Json Decode Config Registry Session Http Rpc.
From S2P Require Import Schema ParamHeaders Client Catalog Auth OAuth Observability Handler.

#[local] Set Warnings "-clear-no-such-hyp".
#[local] Open Scope nat_scope.

Lemma nonempty_true s : nonempty s = true ↔ s ≠ "".
Proof. unfold nonempty. destruct (String.eqb_spec s ""); naive_solver. Qed.

Lemma nonempty_app_l s t : nonempty s = true → nonempty (s +:+ t) = true.
Proof. rewrite !nonempty_true. by destruct s. Qed.

Lemma unavailable_nonempty heap cs tool t authorized :
  nonempty (unavailable heap cs tool t authorized) = negb (may_have heap cs tool t).
Proof.
  unfold unavailable. destruct (may_have heap cs tool t); [done|].
  by destruct (List.filter _ (tenantsWithTool heap cs tool authorized)).
Qed.

Lemma elem_of_tenantsWithTool heap cs tool l t :
  t ∈ tenantsWithTool heap cs tool l ↔ t ∈ l ∧ may_have heap cs tool t = true.
Proof. unfold tenantsWithTool. by rewrite list_elem_of_In, filter_In, <- list_elem_of_In. Qed.

(** A duplicate-free list whose elements are all equal to [t]. *)
Lemma only_element {A} (l : list A) t :
  NoDup l → t ∈ l → (∀ t', t' ∈ l → t' = t) → l = [t].
Proof.
  intros Hnd Ht Hall. destruct l as [|a [|b l]]; [by apply elem_of_nil in Ht| |].
  - f_equal. apply Hall. by left.
  - assert (a = t) as -> by (apply Hall; by left).
    assert (b = t) as -> by (apply Hall; right; by left).
    apply NoDup_cons in Hnd as [Hnd _]. exfalso. apply Hnd. by left.
Qed.

Section select.
Context {V : Type} (h : Handler V) (heap : list rawTool) (cs : Catalogs).
Hypothesis Hreg : registry_wf (Registry_ h).

Abbreviation may := (may_have heap cs).

Lemma authorized_NoDup groups : NoDup (AuthorizedTenants (Registry_ h) groups).
Proof. eapply NoDup_fmap_1. by apply AuthorizedTenants_ids_NoDup. Qed.

Lemma tenantsWithTool_NoDup tool groups :
  NoDup (tenantsWithTool heap cs tool (AuthorizedTenants (Registry_ h) groups)).
Proof.
  unfold tenantsWithTool. rewrite NoDup_ListNoDup. apply List.NoDup_filter.
  rewrite <- NoDup_ListNoDup. apply authorized_NoDup.
Qed.

Lemma select_explicit tool args groups t :
  extractTenantArg args ≠ "" →
  selectTenant h heap cs tool args groups (AuthorizedTenants (Registry_ h) groups) = Ok t ↔
  t ∈ AuthorizedTenants (Registry_ h) groups ∧ may tool t = true ∧ t_ID t = extractTenantArg args.
Proof.
  intros Hne. unfold selectTenant. rewrite (proj2 (nonempty_true _) Hne).
  rewrite elem_of_AuthorizedTenants by done. unfold ResolveTenant.
  destruct (byTenant (Registry_ h) !! extractTenantArg args) as [t'|] eqn:Hl.
  - destruct (Hreg _ _ Hl) as [Hid _].
    destruct (IsAuthorized t' groups) eqn:Ha; cbn [negb].
    + rewrite unavailable_nonempty. destruct (may tool t') eqn:Hm; cbn [negb].
      * split; [intros [= <-]; rewrite Hid; done|]. intros ([Hb _] & _ & He).
        rewrite He, Hl in Hb. by injection Hb as ->.
      * split; [done|]. intros ([Hb _] & Hm' & He). rewrite He, Hl in Hb. injection Hb as ->. congruence.
    + split; [done|]. intros ([Hb Ha'] & _ & He). rewrite He, Hl in Hb. injection Hb as ->. congruence.
  - split; [done|]. intros ([Hb _] & _ & He). rewrite He in Hb. congruence.
Qed.

Lemma select_implicit tool args groups t :
  extractTenantArg args = "" →
  selectTenant h heap cs tool args groups (AuthorizedTenants (Registry_ h) groups) = Ok t ↔
  t ∈ AuthorizedTenants (Registry_ h) groups ∧ may tool t = true ∧
  ∀ t', t' ∈ AuthorizedTenants (Registry_ h) groups → may tool t' = true → t' = t.
Proof.
  intros He. unfold selectTenant. rewrite He. cbn [nonempty String.eqb negb].
  pose proof (tenantsWithTool_NoDup tool groups) as Hnd.
  set (auth := AuthorizedTenants (Registry_ h) groups) in *. clearbody auth.
  assert (∀ l, tenantsWithTool heap cs tool auth = l →
    (l = [t] ↔ t ∈ auth ∧ may tool t = true ∧ ∀ t', t' ∈ auth → may tool t' = true → t' = t)) as Hone.
  { intros l Hl. subst l. split.
    - intros Hl.
      assert (∀ t', t' ∈ auth ∧ may tool t' = true ↔ t' = t) as Heq.
      { intros t'. rewrite <- elem_of_tenantsWithTool, Hl. apply list_elem_of_singleton. }
      destruct (proj2 (Heq t) eq_refl) as [? ?]. split_and!; [done..|].
      intros t' ? ?. by apply Heq.
    - intros (Ht & Hm & Hall). apply only_element; [done| |].
      + by apply elem_of_tenantsWithTool.
      + intros t' [? ?]%elem_of_tenantsWithTool. by apply Hall. }
  destruct auth as [|a [|b auth]].
  - split; [done|]. intros (Ht & _). by apply elem_of_nil in Ht.
  - rewrite unavailable_nonempty. rewrite <- (Hone _ eq_refl). unfold tenantsWithTool. cbn [List.filter].
    destruct (may tool a); cbn [negb]; naive_solver.
  - rewrite <- (Hone _ eq_refl). destruct (tenantsWithTool heap cs tool (a :: b :: auth)) as [|x [|y l]];
      naive_solver.
Qed.

Lemma select_messages tool args groups authorized msg :
  selectTenant h heap cs tool args groups authorized = Err msg → nonempty msg = true.
Proof.
  unfold selectTenant. repeat case_match; intros [= <-]; try done; by apply nonempty_app_l.
Qed.
End select.

(** C10: a call reaches a tenant exactly when the caller is authorized for it,
    its catalog is not known to lack the tool, and it is the one the call names
    or, when the call names none, the only authorized tenant that may have the
    tool; otherwise the caller gets a message that is never empty. *)
Theorem selectTenant_correct {V} (h : Handler V) heap cs tool args groups :
  registry_wf (Registry_ h) →
  let authorized := AuthorizedTenants (Registry_ h) groups in
  (∀ t, selectTenant h heap cs tool args groups authorized = Ok t ↔
     t ∈ authorized ∧ may_have heap cs tool t = true ∧
     (if nonempty (extractTenantArg args) then t_ID t = extractTenantArg args
      else ∀ t', t' ∈ authorized → may_have heap cs tool t' = true → t' = t)) ∧
  (∀ msg, selectTenant h heap cs tool args groups authorized = Err msg → msg ≠ "").
Proof.
  intros Hreg authorized. split.
  - intros t. destruct (nonempty (extractTenantArg args)) eqn:Hn.
    + apply select_explicit; [done|by apply nonempty_true].
    + apply select_implicit; [done|].
      apply not_true_iff_false in Hn. rewrite nonempty_true in Hn.
      by destruct (decide (extractTenantArg args = "")).
  - intros msg Hm. apply nonempty_true. by eapply select_messages.
Qed.

Lemma selectTenant_correct_witness :
  t_ID <$> selectTenant handler_ex [] (NewCatalogs registry_ex 60) "get"
             (Some (JObj [("tenant", JStr "ro")])) ["dev"]
             (AuthorizedTenants (Registry_ handler_ex) ["dev"])
  = Ok "ro".
Proof.
  destruct (byTenant registry_ex !! "ro") as [t|] eqn:Ht; [|vm_compute in Ht; discriminate].
  rewrite (proj2 (proj1 (selectTenant_correct handler_ex [] (NewCatalogs registry_ex 60) "get"
    (Some (JObj [("tenant", JStr "ro")])) ["dev"] registry_ex_wf) t)).
  - vm_compute in Ht. injection Ht as <-. reflexivity.
  - rewrite elem_of_AuthorizedTenants by exact registry_ex_wf.
    vm_compute in Ht. injection Ht as <-. split_and!; vm_compute; reflexivity.
Defined.
