(* ===== verification/Mux.v ===== *)
(** * net/http.ServeMux: patterns, conflicts, routing

    The standard library's request multiplexer as [cmd/mt-mcp-proxy] uses it:
    patterns from the configuration are parsed, refused when they are malformed or
    overlap one already there ([Handle] panics), and a request goes to the most
    specific pattern that matches. Wildcard names are checked on ASCII. *)

From Stdlib Require Import Ascii.
From stdpp Require Import base numbers option pretty gmap fin_maps sorting strings list.
From S2P Require Import Prelude GoStrings Config Http.

#[local] Set Warnings "-clear-no-such-hyp".
#[local] Open Scope nat_scope.

(** ** Paths *)

Definition slash : ascii := ascii_of_nat 47.

(** The parts between slashes. *)
Fixpoint split_slash (s : string) : list string :=
  match s with
  | "" => [""]
  | String c s =>
      if code c =? 47 then "" :: split_slash s
      else match split_slash s with
           | part :: parts => String c part :: parts
           | [] => [String c ""]
           end
  end.

Definition hex_value (c : ascii) : option nat :=
  let n := code c in
  if in_range 48 57 c then Some (n - 48)
  else if in_range 97 102 c then Some (n - 87)
  else if in_range 65 70 c then Some (n - 55)
  else None.

(** [url.PathUnescape]. *)
Fixpoint unescape (s : string) : option string :=
  match s with
  | "" => Some ""
  | String c s' =>
      if code c =? 37 then
        match s' with
        | String a (String b rest) =>
            x ← hex_value a; y ← hex_value b; t ← unescape rest;
            Some (String (ascii_of_nat (16 * x + y)) t)
        | _ => None
        end
      else String c <$> unescape s'
  end.

(** A part that cannot be unescaped is kept. *)
Definition pathUnescape (s : string) : string := default s (unescape s).

(** [path.Clean] on the parts of a rooted path. *)
Definition clean_parts (parts : list string) : list string :=
  rev (foldl (λ acc p,
    if String.eqb p "" || String.eqb p "." then acc
    else if String.eqb p ".." then tail acc
    else p :: acc) [] parts).

Definition cleanPath (p : string) : string :=
  if String.eqb p "" then "/" else
  let np := "/" +:+ join "/" (clean_parts (split_slash p)) in
  if has_suffix "/" p && negb (String.eqb np "/") then np +:+ "/" else np.

(** ** Patterns *)

(** A trailing slash is a nameless multi wildcard, [{$}] the literal "/". *)
Record segment := mkSegment { sg_s : string; sg_wild : bool; sg_multi : bool }.

#[export] Instance segment_eq_dec : EqDecision segment.
Proof. solve_decision. Defined.

Record pattern := mkPattern {
  pt_method : string;
  pt_host : string;
  pt_segments : list segment }.

Definition is_blank (c : ascii) : bool := (code c =? 32) || (code c =? 9).

(** The text before the first byte satisfying [f], and from it on. *)
Fixpoint break (f : ascii → bool) (s : string) : string * string :=
  match s with
  | "" => ("", "")
  | String c s' => if f c then ("", s) else let '(a, b) := break f s' in (String c a, b)
  end.

Fixpoint drop_blanks (s : string) : string :=
  match s with String c s' => if is_blank c then drop_blanks s' else s | "" => "" end.

Definition validMethod (s : string) : bool := nonempty s && all_bytes is_token_byte s.

Definition is_letter (c : ascii) : bool := in_range 65 90 c || in_range 97 122 c || (code c =? 95).

Definition isValidWildcardName (s : string) : bool :=
  match s with
  | "" => false
  | String c s => is_letter c && all_bytes (λ c, is_letter c || in_range 48 57 c) s
  end.

Definition has_byte (n : nat) (s : string) : bool := negb (free_of n s).

(** One part of a pattern's path; [final] when it is the last. *)
Definition parse_segment (seen : list string) (final : bool) (part : string) : option segment :=
  if negb (has_byte 123 part) then Some (mkSegment (pathUnescape part) false false)
  else if negb (has_prefix "{" part && has_suffix "}" part) then None
  else
    let name := trim_suffix "}" (trim_prefix "{" part) in
    if String.eqb name "$" then if final then Some (mkSegment "/" false false) else None
    else
      let multi := has_suffix "..." name in
      let name := trim_suffix "..." name in
      if multi && negb final then None
      else if negb (isValidWildcardName name) || existsb (String.eqb name) seen then None
      else Some (mkSegment name true multi).

Fixpoint parse_segments (seen : list string) (parts : list string) : option (list segment) :=
  match parts with
  | [] => Some []
  | [""] => Some [mkSegment "" true true]
  | [part] => s ← parse_segment seen true part; Some [s]
  | part :: parts =>
      s ← parse_segment seen false part;
      rest ← parse_segments (if sg_wild s then sg_s s :: seen else seen) parts;
      Some (s :: rest)
  end.

Definition parsePattern (s : string) : option pattern :=
  let '(before, after) := break is_blank s in
  let '(method, rest) := if nonempty after then (before, drop_blanks after) else ("", before) in
  if nonempty after && negb (validMethod method) then None else
  let '(host, path) := break (λ c, code c =? 47) rest in
  if negb (nonempty path) || has_byte 123 host then None
  else if nonempty method && negb (String.eqb method "CONNECT") && negb (String.eqb (cleanPath path) path)
  then None
  else segs ← parse_segments [] (tail (split_slash path)); Some (mkPattern method host segs).

(** ** Conflicts *)

Inductive relationship := Equivalent | MoreGeneral | MoreSpecific | Disjoint | Overlaps.

#[export] Instance relationship_eq_dec : EqDecision relationship.
Proof. solve_decision. Defined.

Definition inverse (r : relationship) : relationship :=
  match r with MoreGeneral => MoreSpecific | MoreSpecific => MoreGeneral | r => r end.

Definition combine (r1 r2 : relationship) : relationship :=
  match r1 with
  | Equivalent => r2
  | Disjoint => Disjoint
  | Overlaps => match r2 with Disjoint => Disjoint | _ => Overlaps end
  | MoreGeneral | MoreSpecific =>
      match r2 with
      | Equivalent => r1
      | _ => if decide (r2 = inverse r1) then Overlaps else r2
      end
  end.

Definition compareSegments (s1 s2 : segment) : relationship :=
  if sg_multi s1 && sg_multi s2 then Equivalent
  else if sg_multi s1 then MoreGeneral
  else if sg_multi s2 then MoreSpecific
  else if sg_wild s1 && sg_wild s2 then Equivalent
  else if sg_wild s1 then if String.eqb (sg_s s2) "/" then Disjoint else MoreGeneral
  else if sg_wild s2 then if String.eqb (sg_s s1) "/" then Disjoint else MoreSpecific
  else if String.eqb (sg_s s1) (sg_s s2) then Equivalent else Disjoint.

Definition last_multi (l : list segment) : bool :=
  match last l with Some s => sg_multi s | None => false end.

(** The loop over corresponding segments, from what is known so far. *)
Fixpoint comparePaths_from (m1 m2 : bool) (rel : relationship) (l1 l2 : list segment) : relationship :=
  match l1, l2 with
  | s1 :: l1, s2 :: l2 =>
      match combine rel (compareSegments s1 s2) with
      | Disjoint => Disjoint
      | rel => comparePaths_from m1 m2 rel l1 l2
      end
  | [], [] => rel
  | [], _ => if m1 then combine rel MoreGeneral else Disjoint
  | _, [] => if m2 then combine rel MoreSpecific else Disjoint
  end.

Definition comparePaths (l1 l2 : list segment) : relationship :=
  if negb (length l1 =? length l2) && negb (last_multi l1) && negb (last_multi l2) then Disjoint
  else comparePaths_from (last_multi l1) (last_multi l2) Equivalent l1 l2.

Definition compareMethods (m1 m2 : string) : relationship :=
  if String.eqb m1 m2 then Equivalent
  else if String.eqb m1 "" then MoreGeneral
  else if String.eqb m2 "" then MoreSpecific
  else if String.eqb m1 "GET" && String.eqb m2 "HEAD" then MoreGeneral
  else if String.eqb m2 "GET" && String.eqb m1 "HEAD" then MoreSpecific
  else Disjoint.

Definition comparePathsAndMethods (p1 p2 : pattern) : relationship :=
  match compareMethods (pt_method p1) (pt_method p2) with
  | Disjoint => Disjoint
  | mrel => combine mrel (comparePaths (pt_segments p1) (pt_segments p2))
  end.

Definition conflictsWith (p1 p2 : pattern) : bool :=
  String.eqb (pt_host p1) (pt_host p2) &&
  match comparePathsAndMethods p1 p2 with Equivalent | Overlaps => true | _ => false end.

(** ** The multiplexer *)

Section mux.
Context {H : Type}.

Definition ServeMux : Type := list (pattern * H).

(** [None] is a panic: a bad pattern, or one that conflicts. *)
Definition Handle (s : string) (h : H) (mux : ServeMux) : option ServeMux :=
  p ← parsePattern s;
  if existsb (λ e, conflictsWith e.1 p) mux then None else Some (mux ++ [(p, h)]).

(** What is left of a pattern's path as its first segments match. *)
Abbreviation entry := (list segment * (pattern * H))%type.

Definition take_literal (seg : string) (e : entry) : option entry :=
  match e.1 with
  | s :: l => if negb (sg_wild s) && String.eqb (sg_s s) seg then Some (l, e.2) else None
  | [] => None
  end.
Definition take_wild (e : entry) : option entry :=
  match e.1 with s :: l => if sg_wild s && negb (sg_multi s) then Some (l, e.2) else None | [] => None end.
Definition take_multi (e : entry) : option (pattern * H) :=
  match e.1 with s :: _ => if sg_multi s then Some e.2 else None | [] => None end.
Definition take_end (e : entry) : option (pattern * H) :=
  match e.1 with [] => Some e.2 | _ => None end.

Definition or_else {A} (o1 o2 : option A) : option A := match o1 with Some v => Some v | None => o2 end.

(** Literals first, then a wildcard, then a multi wildcard. *)
Fixpoint matchPath (entries : list entry) (segs : list string) : option (pattern * H) :=
  match segs with
  | [] => head (omap take_end entries)
  | seg :: segs =>
      or_else (matchPath (omap (take_literal seg) entries) segs)
      (or_else (if String.eqb seg "/" then None else matchPath (omap take_wild entries) segs)
               (head (omap take_multi entries)))
  end.

(** The segments of a request's path: a trailing slash is one, "/". *)
Definition request_segments (path : string) : list string :=
  let parts := tail (split_slash path) in
  match last parts with
  | Some "" => (pathUnescape <$> removelast parts) ++ ["/"]
  | _ => pathUnescape <$> parts
  end.

Definition match_method (mux : ServeMux) (host method path : string) : option (pattern * H) :=
  matchPath (omap (λ e, if String.eqb (pt_host e.1) host && String.eqb (pt_method e.1) method
                        then Some (pt_segments e.1, e) else None) mux)
    (request_segments path).

Definition match_methods (mux : ServeMux) (host method path : string) : option (pattern * H) :=
  or_else (match_method mux host method path)
  (or_else (if String.eqb method "HEAD" then match_method mux host "GET" path else None)
           (match_method mux host "" path)).

Definition mux_match (mux : ServeMux) (host method path : string) : option (pattern * H) :=
  or_else (if nonempty host then match_methods mux host method path else None)
          (match_methods mux "" method path).

(** The match left no text for a multi wildcard. *)
Definition exactMatch (n : option (pattern * H)) (path : string) : bool :=
  match n with
  | None => false
  | Some (p, _) =>
      if negb (last_multi (pt_segments p)) then true
      else has_suffix "/" path && (length (pt_segments p) =? length (tail (split_slash path)))
  end.

Inductive routed := Found (h : H) | RedirectTo (path : string) | NotFound.

(** A request other than CONNECT, by its host without a port, method and escaped
    path. When no pattern matches, whether another method would is not asked:
    the answer is 404 or 405. *)
Definition findHandler (mux : ServeMux) (host method path : string) : routed :=
  let p := cleanPath path in
  let n := mux_match mux host method p in
  if negb (exactMatch n p) && negb (has_suffix "/" p) &&
     exactMatch (mux_match mux host method (p +:+ "/")) (p +:+ "/")
  then RedirectTo (p +:+ "/")
  else if negb (String.eqb p path) then RedirectTo p
  else match n with Some (_, h) => Found h | None => NotFound end.
End mux.

Arguments ServeMux H : clear implicits.
Arguments routed H : clear implicits.

(** ** Plain patterns

    An absolute path without wildcards, escapes, blanks or a method: what a
    configured path normally is. *)

Definition plain_byte (c : ascii) : bool :=
  negb (is_blank c) && negb (code c =? 123) && negb (code c =? 37).

Definition plain_path (s : string) : bool := has_prefix "/" s && all_bytes plain_byte s.

Definition literal (s : string) : segment := mkSegment s false false.
Definition trailing : segment := mkSegment "" true true.

Fixpoint plain_segments (parts : list string) : list segment :=
  match parts with
  | [] => []
  | [""] => [trailing]
  | part :: parts => literal part :: plain_segments parts
  end.

Definition path_parts (s : string) : list string := tail (split_slash s).

Lemma split_slash_cons s : ∃ part parts, split_slash s = part :: parts.
Proof.
  destruct s as [|c s]; [by eexists _, _|]. cbn. destruct (code c =? 47); [by eexists _, _|].
  destruct (split_slash s); by eexists _, _.
Qed.

Lemma join_segments2 x y l : join "/" (x :: y :: l) = x +:+ "/" +:+ join "/" (y :: l).
Proof. done. Qed.

(** Nothing is lost in splitting. *)
Lemma join_split s : join "/" (split_slash s) = s.
Proof.
  induction s as [|c s IH]; [done|]. cbn [split_slash].
  destruct (split_slash_cons s) as (part & parts & Hs). rewrite Hs in IH |- *.
  destruct (Nat.eqb_spec (code c) 47) as [Hc|_].
  - rewrite join_segments2, IH. unfold code in Hc. rewrite <- (ascii_nat_embedding c), Hc. done.
  - destruct parts as [|p parts]; [cbn in IH |- *; by rewrite IH|].
    rewrite join_segments2 in IH |- *. by rewrite <- IH.
Qed.

Lemma split_slash_all (f : ascii → bool) s :
  all_bytes f s = true → Forall (λ part, all_bytes f part = true) (split_slash s).
Proof.
  induction s as [|c s IH]; [by repeat constructor|]. cbn [all_bytes split_slash].
  intros [Hc Hs]%andb_true_iff. specialize (IH Hs). destruct (code c =? 47); [by constructor|].
  destruct (split_slash s) as [|part parts].
  - repeat constructor. cbn. by rewrite Hc.
  - apply Forall_cons in IH as [Hp IH]. constructor; [|done]. cbn. by rewrite Hc, Hp.
Qed.

Lemma split_slash_no_slash s : Forall (λ part, free_of 47 part = true) (split_slash s).
Proof.
  induction s as [|c s IH]; [by repeat constructor|]. cbn [split_slash].
  destruct (code c =? 47) eqn:Hc; [by constructor|].
  destruct (split_slash s) as [|part parts].
  - repeat constructor. unfold free_of. cbn. by rewrite Hc.
  - apply Forall_cons in IH as [Hp IH]. constructor; [|done]. unfold free_of in *. cbn. by rewrite Hc, Hp.
Qed.

Lemma plain_prefix s : plain_path s = true → ∃ s', s = String slash s' ∧ split_slash s = "" :: path_parts s.
Proof.
  unfold plain_path. destruct s as [|c s]; [done|]. cbn [has_prefix]. rewrite !andb_true_iff.
  intros [[Hc _] _]. apply Ascii.eqb_eq in Hc as <-. by exists s.
Qed.

Lemma path_parts_inj s1 s2 :
  plain_path s1 = true → plain_path s2 = true → path_parts s1 = path_parts s2 → s1 = s2.
Proof.
  intros (? & _ & H1)%plain_prefix (? & _ & H2)%plain_prefix He.
  rewrite <- (join_split s1), <- (join_split s2), H1, H2. by rewrite He.
Qed.

Lemma break_none f s : all_bytes (λ c, negb (f c)) s = true → break f s = (s, "").
Proof.
  induction s as [|c s IH]; [done|]. cbn. intros [Hc Hs]%andb_true_iff.
  apply negb_true_iff in Hc. by rewrite Hc, IH.
Qed.

Lemma all_bytes_mono (f g : ascii → bool) s :
  (∀ c, f c = true → g c = true) → all_bytes f s = true → all_bytes g s = true.
Proof.
  intros Hfg. induction s as [|c s IH]; [done|]. cbn. intros [Hc Hs]%andb_true_iff.
  by rewrite Hfg, IH.
Qed.

Lemma plain_app s t :
  plain_path s = true → all_bytes plain_byte t = true → plain_path (s +:+ t) = true.
Proof.
  intros Hs Ht. pose proof (plain_prefix s Hs) as (s' & -> & _). unfold plain_path in *.
  apply andb_true_iff in Hs as [_ Hs]. apply andb_true_iff. split; [done|].
  by rewrite all_bytes_app, Hs, Ht.
Qed.

Lemma plain_bytes s : plain_path s = true → all_bytes plain_byte s = true.
Proof. intros [_ ?]%andb_true_iff. done. Qed.

Lemma last_split_app u v : last (split_slash (u +:+ String slash v)) = last (split_slash v).
Proof.
  induction u as [|c u IH].
  - change ("" +:+ String slash v) with (String slash v). cbn [split_slash].
    change (code slash =? 47) with true. by destruct (split_slash_cons v) as (p & ps & ->).
  - change (String c u +:+ String slash v) with (String c (u +:+ String slash v)). rewrite <- IH.
    cbn [split_slash]. destruct (split_slash_cons (u +:+ String slash v)) as (p & [|p' ps] & Hsp);
      rewrite Hsp; [|by destruct (code c =? 47)].
    (* There is a slash, so that the first part is not all. *)
    pose proof (split_slash_no_slash (u +:+ String slash v)) as Hno.
    pose proof (join_split (u +:+ String slash v)) as Hj. rewrite Hsp in Hno, Hj. cbn in Hj. subst p.
    apply Forall_cons in Hno as [Hno _]. unfold free_of in Hno. rewrite all_bytes_app in Hno.
    cbn in Hno. by rewrite andb_false_r in Hno.
Qed.

Lemma unescape_plain s : all_bytes plain_byte s = true → pathUnescape s = s.
Proof.
  intros Hs. unfold pathUnescape. cut (unescape s = Some s); [by intros ->|].
  induction s as [|c s IH]; [done|]. cbn in Hs |- *. apply andb_true_iff in Hs as [Hc Hs].
  unfold plain_byte in Hc. destruct (code c =? 37); [by rewrite andb_false_r in Hc|]. by rewrite IH.
Qed.

Lemma plain_no_brace s : all_bytes plain_byte s = true → has_byte 123 s = false.
Proof.
  intros Hs. unfold has_byte, free_of. apply negb_false_iff. eapply all_bytes_mono; [|exact Hs].
  intros c. unfold plain_byte. by destruct (code c =? 123); rewrite ?andb_false_r.
Qed.

Lemma parse_segments_plain seen parts :
  Forall (λ part, all_bytes plain_byte part = true) parts →
  parse_segments seen parts = Some (plain_segments parts).
Proof.
  induction 1 as [|part parts Hp Hall IH]; [done|].
  assert (∀ final, parse_segment seen final part = Some (literal part)) as Hseg.
  { intros final. unfold parse_segment. rewrite plain_no_brace by done. cbn. by rewrite unescape_plain. }
  cbn [parse_segments plain_segments]. destruct parts as [|p parts].
  - destruct part; [done|]. by rewrite Hseg.
  - rewrite Hseg. cbn [mbind option_bind sg_wild literal]. rewrite IH. by destruct part.
Qed.

Lemma parsePattern_plain s :
  plain_path s = true → parsePattern s = Some (mkPattern "" "" (plain_segments (path_parts s))).
Proof.
  intros Hs. pose proof (plain_prefix s Hs) as (s' & -> & Hsplit).
  apply andb_true_iff in Hs as [_ Hs]. unfold parsePattern. rewrite break_none.
  2:{ eapply all_bytes_mono; [|exact Hs]. intros c. unfold plain_byte. by destruct (is_blank c). }
  pose proof (split_slash_all _ _ Hs) as Hall. rewrite Hsplit in Hall. apply Forall_cons in Hall as [_ Hall].
  cbn -[split_slash parse_segments code]. change (code slash =? 47) with true. cbn -[split_slash parse_segments].
  rewrite parse_segments_plain; [done|exact Hall].
Qed.

(** *** They conflict only when they are the same *)

Lemma plain_segments_cons part parts :
  (part = "" ∧ parts = [] ∧ plain_segments (part :: parts) = [trailing]) ∨
  plain_segments (part :: parts) = literal part :: plain_segments parts ∧ ¬ (part = "" ∧ parts = []).
Proof. destruct part as [|c part], parts as [|p parts]; naive_solver. Qed.

Lemma last_multi_literal part l : last_multi (literal part :: l) = last_multi l.
Proof. by destruct l. Qed.

Lemma comparePaths_plain parts1 parts2 :
  let l1 := plain_segments parts1 in let l2 := plain_segments parts2 in
  match comparePaths_from (last_multi l1) (last_multi l2) Equivalent l1 l2 with
  | Equivalent => parts1 = parts2
  | Overlaps => False
  | _ => parts1 ≠ parts2
  end.
Proof.
  revert parts2. induction parts1 as [|p1 parts1 IH]; intros [|p2 parts2]; cbn zeta; [done|..].
  - destruct (plain_segments_cons p2 parts2) as [(-> & -> & ->)|[-> _]]; done.
  - destruct (plain_segments_cons p1 parts1) as [(-> & -> & ->)|[-> _]]; [done|].
    cbn [comparePaths_from plain_segments]. done.
  - destruct (plain_segments_cons p1 parts1) as [(-> & -> & ->)|[-> H1]],
      (plain_segments_cons p2 parts2) as [(-> & -> & ->)|[-> H2]].
    + done.
    + cbn. destruct (plain_segments parts2); cbn; intros [= <- <-]; by apply H2.
    + rewrite last_multi_literal. cbn. destruct (plain_segments parts1); cbn; intros [= -> ->]; by apply H1.
    + rewrite !last_multi_literal. cbn [comparePaths_from compareSegments literal sg_multi sg_wild sg_s andb].
      destruct (String.eqb_spec p1 p2) as [<-|Hne]; cbn [combine]; [|congruence].
      specialize (IH parts2). cbn zeta in IH.
      destruct (comparePaths_from _ _ _ _ _); congruence.
Qed.

Lemma last_multi_lengths parts1 parts2 :
  parts1 = parts2 → comparePaths (plain_segments parts1) (plain_segments parts2) =
    comparePaths_from (last_multi (plain_segments parts1)) (last_multi (plain_segments parts2)) Equivalent
      (plain_segments parts1) (plain_segments parts2).
Proof. intros ->. unfold comparePaths. by rewrite Nat.eqb_refl. Qed.

(** Two plain patterns conflict exactly when they are one path. *)
Lemma conflictsWith_plain s1 s2 :
  plain_path s1 = true → plain_path s2 = true →
  conflictsWith (mkPattern "" "" (plain_segments (path_parts s1)))
    (mkPattern "" "" (plain_segments (path_parts s2))) = String.eqb s1 s2.
Proof.
  intros H1 H2. unfold conflictsWith, comparePathsAndMethods. cbn [pt_host pt_method pt_segments andb].
  change (compareMethods "" "") with Equivalent. change (String.eqb "" "") with true. cbn [combine andb].
  pose proof (comparePaths_plain (path_parts s1) (path_parts s2)) as Hc. cbn zeta in Hc.
  destruct (String.eqb_spec s1 s2) as [->|Hne].
  - rewrite last_multi_lengths by done. destruct (comparePaths_from _ _ _ _ _); done.
  - assert (path_parts s1 ≠ path_parts s2) as Hp by (intros ?; by apply Hne, path_parts_inj).
    unfold comparePaths. destruct (negb _ && _ && _); [done|]. by destruct (comparePaths_from _ _ _ _ _).
Qed.

Section plain.
Context {H : Type}.

(** A multiplexer with these plain paths. *)
Definition plain_mux (l : list (string * H)) : ServeMux H :=
  (λ e, (mkPattern "" "" (plain_segments (path_parts e.1)), e.2)) <$> l.

(** [Handle] refuses a plain path exactly when it is there already. *)
Lemma Handle_plain s h (l : list (string * H)) :
  plain_path s = true → Forall (λ e, plain_path e.1 = true) l →
  Handle s h (plain_mux l) =
  if decide (s ∈ l.*1) then None else Some (plain_mux (l ++ [(s, h)])).
Proof.
  intros Hs Hl. unfold Handle. rewrite parsePattern_plain by done. cbn [mbind option_bind].
  assert (existsb (λ e, conflictsWith e.1 (mkPattern "" "" (plain_segments (path_parts s)))) (plain_mux l) =
          bool_decide (s ∈ l.*1)) as ->.
  { induction Hl as [|e l He Hl IH]; [done|]. cbn [plain_mux fmap list_fmap existsb fst].
    rewrite conflictsWith_plain by done. fold (plain_mux l). rewrite IH. apply eq_iff_eq_true.
    rewrite orb_true_iff, !bool_decide_eq_true, String.eqb_eq, elem_of_cons. naive_solver. }
  case_bool_decide as Hin; [by rewrite decide_True|]. rewrite decide_False by done.
  unfold plain_mux. by rewrite fmap_app.
Qed.

(** *** Routing among plain paths without a trailing slash *)

Definition ends_in_slash (s : string) : bool :=
  match last (path_parts s) with Some "" => true | _ => false end.

Definition exact_path (s : string) : bool := plain_path s && negb (ends_in_slash s).

Lemma exact_app s t : plain_path s = true → exact_path t = true → exact_path (s +:+ t) = true.
Proof.
  intros Hs [Ht Hl]%andb_true_iff. apply andb_true_iff.
  split; [apply plain_app; [done|by apply plain_bytes]|].
  pose proof (plain_prefix s Hs) as (s' & -> & _). pose proof (plain_prefix t Ht) as (t' & -> & Hsp).
  unfold ends_in_slash in *. unfold path_parts in *.
  change (String slash s' +:+ String slash t') with (String slash (s' +:+ String slash t')).
  cbn [split_slash] in *. change (code slash =? 47) with true in *. cbn [tail] in *. by rewrite last_split_app.
Qed.

Lemma plain_segments_literal parts : last parts ≠ Some "" → plain_segments parts = literal <$> parts.
Proof.
  induction parts as [|p parts IH]; [done|]. intros Hl.
  destruct (plain_segments_cons p parts) as [(-> & -> & _)|[-> _]]; [done|].
  rewrite fmap_cons. f_equal. apply IH. destruct parts; [done|exact Hl].
Qed.

Lemma or_else_None {A} (o : option A) : or_else o None = o.
Proof. by destruct o. Qed.

Abbreviation literals entries := ((λ e : list string * (pattern * H), (literal <$> e.1, e.2)) <$> entries).

Lemma matchPath_literals entries segs :
  matchPath (literals entries) segs = snd <$> head (filter (λ e, e.1 = segs) entries).
Proof.
  revert entries. induction segs as [|seg segs IH]; intros entries.
  - cbn. induction entries as [|[[|p ps] x] entries IHe]; [done| |]; rewrite filter_cons.
    + by rewrite decide_True.
    + rewrite decide_False by done. exact IHe.
  - cbn [matchPath].
    assert (omap (take_literal seg) (literals entries) =
      literals (omap (λ e : list string * (pattern * H),
        match e.1 with p :: ps => if String.eqb p seg then Some (ps, e.2) else None | [] => None end) entries)) as ->.
    { induction entries as [|[[|p ps] x] entries IHe]; [done|exact IHe|].
      destruct (String.eqb p seg) eqn:Hp; cbn; rewrite Hp; cbn; [f_equal|]; exact IHe. }
    assert (omap take_wild (literals entries) = []) as ->
      by (induction entries as [|[[|p ps] x] entries IHe]; [done|exact IHe..]).
    assert (omap take_multi (literals entries) = []) as ->
      by (induction entries as [|[[|p ps] x] entries IHe]; [done|exact IHe..]).
    rewrite IH.
    assert (matchPath (H := H) [] segs = None) as -> by exact (IH []).
    destruct (String.eqb seg "/"); cbn [head or_else]; rewrite or_else_None.
    all: induction entries as [|[[|p ps] x] entries IHe]; [done|exact IHe|]; rewrite filter_cons; cbn [omap list_omap fst snd].
    all: destruct (String.eqb_spec p seg) as [->|Hne]; [|rewrite decide_False by congruence; exact IHe].
    all: rewrite filter_cons; cbn [fst]; destruct (decide (ps = segs)) as [->|Hps];
      [by rewrite decide_True|rewrite decide_False by congruence; exact IHe].
Qed.

Lemma request_segments_exact q :
  exact_path q = true → request_segments q = path_parts q.
Proof.
  intros [Hq Hs]%andb_true_iff. unfold request_segments, ends_in_slash in *. fold (path_parts q).
  assert (pathUnescape <$> path_parts q = path_parts q) as Hu.
  { pose proof (plain_prefix q Hq) as (s' & -> & Hsplit). apply andb_true_iff in Hq as [_ Hq].
    pose proof (split_slash_all _ _ Hq) as Hall. rewrite Hsplit in Hall. apply Forall_cons in Hall as [_ Hall].
    clear -Hall. induction Hall as [|p ps Hp _ IH]; [done|]. rewrite fmap_cons, IH. by rewrite unescape_plain. }
  destruct (last (path_parts q)) as [[|c p]|]; done.
Qed.

(** The entries a plain multiplexer searches. *)
Lemma match_method_plain (l : list (string * H)) host method segs :
  Forall (λ e, exact_path e.1 = true) l →
  matchPath (omap (λ e, if String.eqb (pt_host e.1) host && String.eqb (pt_method e.1) method
                        then Some (pt_segments e.1, e) else None) (plain_mux l)) segs =
  if String.eqb "" host && String.eqb "" method then
    (λ e, (mkPattern "" "" (plain_segments (path_parts e.1)), e.2)) <$>
      head (filter (λ e, path_parts e.1 = segs) l)
  else None.
Proof.
  intros Hl. set (mk := λ e : string * H, (mkPattern "" "" (plain_segments (path_parts e.1)), e.2)).
  assert (omap (λ e, if String.eqb (pt_host e.1) host && String.eqb (pt_method e.1) method
                     then Some (pt_segments e.1, e) else None) (plain_mux l) =
    (λ e, (literal <$> e.1, e.2)) <$>
      (if String.eqb "" host && String.eqb "" method then (λ e, (path_parts e.1, mk e)) <$> l else [])) as ->.
  { destruct (String.eqb "" host && String.eqb "" method) eqn:Hc.
    - induction Hl as [|e l He _ IH]; [done|]. cbn -[String.eqb]. rewrite Hc. cbn -[String.eqb]. f_equal; [|exact IH].
      apply andb_true_iff in He as [_ He]. unfold mk. cbn. rewrite plain_segments_literal; [done|].
      intros Hlast. unfold ends_in_slash in He. by rewrite Hlast in He.
    - induction Hl as [|e l He _ IH]; [done|]. cbn -[String.eqb]. rewrite Hc. exact IH. }
  rewrite matchPath_literals. destruct (_ && _); [|done].
  induction l as [|e l IH]; [done|]. rewrite fmap_cons, !filter_cons. cbn [fst].
  apply Forall_cons in Hl as [_ Hl]. destruct (decide (path_parts e.1 = segs)); [done|by apply IH].
Qed.

Definition lookup_path (l : list (string * H)) (q : string) : option H :=
  snd <$> head (filter (λ e, e.1 = q) l).

Lemma mux_match_plain (l : list (string * H)) host method path :
  Forall (λ e, exact_path e.1 = true) l →
  mux_match (plain_mux l) host method path =
  (λ e, (mkPattern "" "" (plain_segments (path_parts e.1)), e.2)) <$>
    head (filter (λ e, path_parts e.1 = request_segments path) l).
Proof.
  intros Hl. set (r := _ <$> head _). unfold mux_match, match_methods, match_method.
  rewrite !match_method_plain by done. fold r.
  assert (∀ host, host ≠ "" → String.eqb "" host = false) as Hne by (intros x ?; by apply String.eqb_neq).
  destruct (nonempty host) eqn:Hhost.
  - unfold nonempty in Hhost. apply negb_true_iff, String.eqb_neq in Hhost. rewrite (Hne host) by done.
    destruct (String.eqb method "HEAD"), (String.eqb "" method), r; done.
  - destruct (String.eqb method "HEAD"), (String.eqb "" method), r; done.
Qed.

Lemma filter_parts_eq (l : list (string * H)) q :
  Forall (λ e, exact_path e.1 = true) l → plain_path q = true →
  filter (λ e, path_parts e.1 = path_parts q) l = filter (λ e, e.1 = q) l.
Proof.
  intros Hl Hq. induction Hl as [|e l He _ IH]; [done|]. rewrite !filter_cons, IH.
  apply andb_true_iff in He as [He _].
  destruct (decide (path_parts e.1 = path_parts q)) as [Hp|Hp].
  - apply path_parts_inj in Hp; [|done..]. by rewrite decide_True.
  - rewrite decide_False; [done|]. intros He'. apply Hp. by rewrite He'.
Qed.

(** No registered path ends in a slash: a request's that does is not matched. *)
Lemma slash_match (l : list (string * H)) host method q :
  Forall (λ e, exact_path e.1 = true) l → ends_in_slash q = true →
  mux_match (plain_mux l) host method q = None.
Proof.
  intros Hl Hq. rewrite mux_match_plain by done.
  assert (∃ segs, request_segments q = segs ++ ["/"]) as (segs & ->).
  { unfold request_segments, ends_in_slash, path_parts in *.
    destruct (last (tail (split_slash q))) as [[|c p]|]; [by eexists|done..]. }
  replace (filter _ l) with ([] : list (string * H)); [done|]. symmetry.
  induction l as [|e l IH]; [done|]. apply Forall_cons in Hl as [_ Hl]. rewrite filter_cons, decide_False; [by apply IH|].
  intros Hp. pose proof (split_slash_no_slash e.1) as Hno. apply Forall_tail in Hno.
  fold (path_parts e.1) in Hno. rewrite Hp in Hno. apply Forall_app in Hno as [_ Hno].
  by apply Forall_cons in Hno as [Hno _].
Qed.

Lemma ends_in_slash_app q : ends_in_slash (q +:+ "/") = true.
Proof.
  unfold ends_in_slash, path_parts.
  assert (∀ s, split_slash (s +:+ "/") = split_slash s ++ [""]) as Hsplit.
  { clear. induction s as [|c s IH]; [done|].
    change (String c s +:+ "/") with (String c (s +:+ "/")). cbn [split_slash]. rewrite IH.
    destruct (code c =? 47); [done|]. by destruct (split_slash_cons s) as (p & ps & ->). }
  rewrite Hsplit. destruct (split_slash_cons q) as (p & ps & ->). cbn [app tail]. by rewrite last_snoc.
Qed.

(** *** A clean path is served by the pattern equal to it *)
Lemma findHandler_plain (l : list (string * H)) host method q :
  Forall (λ e, exact_path e.1 = true) l → plain_path q = true → cleanPath q = q →
  findHandler (plain_mux l) host method q =
  match lookup_path l q with Some h => Found h | None => NotFound end.
Proof.
  intros Hl Hq Hclean. unfold findHandler. rewrite Hclean.
  rewrite (slash_match l host method (q +:+ "/")) by (done || apply ends_in_slash_app).
  cbn [exactMatch]. rewrite andb_false_r, String.eqb_refl. cbn [negb].
  destruct (ends_in_slash q) eqn:Hs.
  - rewrite slash_match by done. unfold lookup_path.
    replace (filter (λ e, e.1 = q) l) with ([] : list (string * H)); [done|]. symmetry.
    induction Hl as [|e l He _ IH]; [done|]. rewrite filter_cons, decide_False; [exact IH|].
    intros Heq. unfold exact_path in He. by rewrite Heq, Hs, andb_false_r in He.
  - rewrite mux_match_plain by done.
    rewrite request_segments_exact, filter_parts_eq by (done || unfold exact_path; by rewrite Hq, Hs).
    unfold lookup_path. by destruct (head (filter (λ e, e.1 = q) l)).
Qed.
End plain.
