(* ===== verification/Main.v ===== *)
(** * cmd/mt-mcp-proxy: wiring, and the steps of a running proxy

    [boot] composes loading, the verifier and the registry, [start] goes on from
    the initial state [proxy_init] to the multiplexers, and [run] puts them
    together with telemetry and its deferred shutdown. [step] is what can happen to
    a running proxy: a request, a spawned teardown, a warm-up attempt. How
    listening ends is an argument of [run]; [Lifecycle.v] models what is behind it. *)

From Stdlib Require Import Ascii.
From stdpp Require Import base numbers option pretty gmap fin_maps sorting strings list relations.
From S2P Require Import Prelude GoStrings Json Decode Config Registry Session Http Rpc.
From S2P Require Import Schema ParamHeaders Client Catalog Auth OAuth Observability Telemetry Handler Mux.

#[local] Set Warnings "-clear-no-such-hyp".
#[local] Open Scope nat_scope.

(** ** Start-up *)

Inductive boot_error :=
| ConfigFailed (e : load_error)
| VerifierFailed (e : new_error)
| RegistryFailed (e : registry_error).

Definition minute : Z := 60 * 1000000000.

Section setup.
Context {PublicKey KeySet : Type} {E : Env}.
Variable LookupEnv : string → option string.
Variable ReadFile : string → option string.
Variable yaml_Unmarshal : string → option Config.
Variable pem_Decode : string → option string.
Variable ParsePKIXPublicKey : string → option PublicKey.
Variable url_Path : URL → string.
Variable url_with_Path : URL → string → string.
Variable NewKeySet : string → M (Outside E) (option KeySet).

(** The configuration and the handler built from it. *)
Definition boot (configPath : string)
    : M (Outside E) (result boot_error (Config * Handler (verifier PublicKey KeySet))) :=
  match Load LookupEnv ReadFile yaml_Unmarshal configPath with
  | Err e => mret (Err (ConfigFailed e))
  | Ok cfg =>
      v ← NewVerifier ReadFile pem_Decode ParsePKIXPublicKey url_Path url_with_Path NewKeySet
            (c_Auth cfg);
      mret match v with
      | Err e => Err (VerifierFailed e)
      | Ok v =>
          match New (e_url_Parse E) (c_Backends cfg) with
          | Err e => Err (RegistryFailed e)
          | Ok r => Ok (cfg, mkHandler v r (c_Server cfg) (c_Auth cfg))
          end
      end
  end.

Definition setup (configPath : string)
    : M (Outside E) (result boot_error (Handler (verifier PublicKey KeySet))) :=
  r ← boot configPath; mret (snd <$> r).
End setup.

(** The store keeps sessions for 30 minutes, a catalog is fresh for 5. *)
Definition proxy_init {V} {E : Env} (h : Handler V) (obs : Observability) (o : Outside E)
    : State E :=
  mkState (NewStore (30 * minute)) (mkCatState [] (NewCatalogs (Registry_ h) (5 * minute)) o)
    (Some obs) [] (mkToolCallAttrs "" "" "" "" "") new_writer.

(** One attempt of [warmCatalog]; it is retried until it reports success. *)
Definition warm_attempt {E : Env} : M (State E) bool :=
  errs ← WarmCatalog;
  mret (match errs with [] => true | _ => false end).

(** The ticker's loop, for [n] ticks: it stops at the first attempt that succeeds. *)
Fixpoint warm_retries {E : Env} (n : nat) : M (State E) bool :=
  match n with
  | 0 => mret false
  | S n => warmed ← warm_attempt; if warmed : bool then mret true else warm_retries n
  end.

(** ** Listening *)

Definition healthz (w : Writer) : Writer := w_write "ok" (w_write_header 200 w).

Inductive endpoint := ServeMCP | ServeMetadata | ServeHealth | ServeMetrics.

(** The data plane's multiplexer; [None] when registering panics. *)
Definition data_mux (path : string) : option (ServeMux endpoint) :=
  mux ← Handle path ServeMCP [];
  mux ← Handle "/.well-known/oauth-protected-resource" ServeMetadata mux;
  mux ← Handle ("/.well-known/oauth-protected-resource" +:+ path) ServeMetadata mux;
  Handle "/healthz" ServeHealth mux.

(** The scrape listener's. *)
Definition metrics_mux (path : string) : option (ServeMux endpoint) :=
  mux ← Handle path ServeMetrics [];
  Handle "/healthz" ServeHealth mux.

(** What listening starts from. *)
Record Serving (V : Type) (E : Env) := mkServing {
  sv_handler : Handler V;
  sv_state : State E;
  sv_retrying : bool;
  sv_mux : ServeMux endpoint;
  sv_metrics : option (string * ServeMux endpoint) }.
Arguments mkServing {V E}. Arguments sv_handler {V E}. Arguments sv_state {V E}.
Arguments sv_retrying {V E}. Arguments sv_mux {V E}. Arguments sv_metrics {V E}.

Inductive run_error :=
| BootFailed (e : boot_error)
| TelemetryFailed (e : setup_error)
| ListenFailed (e : string).

(** The process: its dealings with the outside, the OpenTelemetry globals and the
    providers it has stopped. *)
Record Process (E : Env) (L : Libraries) := mkProcess {
  pr_out : Outside E;
  pr_globals : Globals L;
  pr_stopped : list (stopped L) }.
Arguments mkProcess {E L}. Arguments pr_out {E L}. Arguments pr_globals {E L}. Arguments pr_stopped {E L}.

Section run.
Context {V : Type} {E : Env} {L : Libraries}.

Definition with_process_out {A} (m : M (Outside E) A) : M (Process E L) A :=
  zoom pr_out (λ o p, mkProcess o (pr_globals p) (pr_stopped p)) m.
Definition with_globals {A} (m : M (Globals L) A) : M (Process E L) A :=
  zoom pr_globals (λ g p, mkProcess (pr_out p) g (pr_stopped p)) m.
Definition with_stopped {A} (m : M (list (stopped L)) A) : M (Process E L) A :=
  zoom pr_stopped (λ l p, mkProcess (pr_out p) (pr_globals p) l) m.

(** From the store to the listeners. The main goroutine's panics are [panic]. *)
Definition start (cfg : Config) (h : Handler V) (obs : Telemetry L) : M (Process E L) (Serving V E) :=
  x ← with_process_out (λ o,
        let '(r, s) := warm_attempt (proxy_init h (recordings obs) o) in
        match r with Return warmed => (Return (warmed, s), ct_out (h_cat s)) | Panic => (Panic, ct_out (h_cat s)) end);
  match data_mux (sc_Path (c_Server cfg)) with
  | None => panic
  | Some mux =>
      let addr := tl_metricsListen obs in
      if nonempty addr then
        match metrics_mux (MetricsPath (Some (recordings obs))) with
        | None => panic
        | Some obsMux => mret (mkServing h x.2 (negb x.1) mux (Some (addr, obsMux)))
        end
      else mret (mkServing h x.2 (negb x.1) mux None)
  end.

(** [defer]: also when the body panics. *)
Definition shutting_down {A} (obs : Telemetry L) (m : M (Process E L) A) : M (Process E L) A := λ p,
  let '(r, p) := m p in (r, (with_stopped (Shutdown (Some obs)) p).2).

(** [listen] is how serving ends: [None] when the server was closed. *)
Definition run_with (boot : M (Outside E) (result boot_error (Config * Handler V)))
    (LookupEnv : string → option string) (version : string) (listen : Serving V E → option string)
    : M (Process E L) (result run_error (Serving V E)) :=
  r ← with_process_out boot;
  match r with
  | Err e => mret (Err (BootFailed e))
  | Ok (cfg, h) =>
      let oc := c_Observability cfg in
      obs ← with_globals (Setup LookupEnv
              (mkTelemetryConfig (oc_MetricsListen oc) (oc_MetricsPath oc) "mt-mcp-proxy" version));
      match obs with
      | Err e => mret (Err (TelemetryFailed e))
      | Ok obs =>
          shutting_down obs
            (sv ← start cfg h obs;
             mret match listen sv with Some e => Err (ListenFailed e) | None => Ok sv end)
      end
  end.
End run.

Definition run {PublicKey KeySet : Type} {E : Env} {L : Libraries} LookupEnv ReadFile yaml_Unmarshal
    pem_Decode (ParsePKIXPublicKey : string → option PublicKey) url_Path url_with_Path
    (NewKeySet : string → M (Outside E) (option KeySet)) (configPath version : string)
    (listen : Serving (verifier PublicKey KeySet) E → option string)
    : M (Process E L) (result run_error (Serving (verifier PublicKey KeySet) E)) :=
  run_with (boot LookupEnv ReadFile yaml_Unmarshal pem_Decode ParsePKIXPublicKey url_Path url_with_Path
              NewKeySet configPath) LookupEnv version listen.

(** A request to the data plane, by its host and path; [None] when the
    multiplexer itself redirects it. The scrape handler is not reached from here. *)
Definition serve_path {V} `{Verifier V} {E : Env} (sv : Serving V E) (host path : string) (r : Request)
    (s : State E) : option (outcome Writer * State E) :=
  let answer f := Some (Return (w_finish (f new_writer)), s) in
  match findHandler (sv_mux sv) host (r_Method r) path with
  | Found ServeMCP => Some (serve (sv_handler sv) r s)
  | Found ServeMetadata =>
      answer (ServeProtectedResourceMetadata (ServerCfg (sv_handler sv)) (AuthCfg (sv_handler sv)) r)
  | Found ServeHealth => answer healthz
  | Found ServeMetrics | NotFound => answer (w_http_error "404 page not found" 404)
  | RedirectTo _ => None
  end.

(** ** Running *)

(** A panicking request is recovered by the HTTP server: the state stays. *)
Inductive step {V} `{Verifier V} {E : Env} (h : Handler V) : State E → State E → Prop :=
| step_serve r s : step h s (serve h r s).2
| step_teardown t sid l1 l2 s :
    h_tasks s = l1 ++ (t, sid) :: l2 →
    step h s (on_out (teardownBackend t sid) (set_tasks (l1 ++ l2) s)).2
| step_warm s : step h s (warm_attempt s).2.

(** Every state the proxy can get into. *)
Definition reachable {V} `{Verifier V} {E : Env} (h : Handler V) (obs : Observability)
    (o : Outside E) (s : State E) : Prop :=
  rtc (step h) (proxy_init h obs o) s.
