(* ===== verification/Isolation.v ===== *)
(** * Isolation: which credential opens which session

    The log of everything sent to backends, in every reachable state of the
    proxy: each request goes to a registered tenant's backend with that tenant's
    credential, and a session it names was issued by that backend in answer to a
    request with the same credential. *)

From Stdlib Require Import Ascii.
From stdpp Require Import base numbers option pretty gmap fin_maps sorting strings list relations.
From S2P Require Import Prelude GoStrings Json Decode Config Registry Session Http Rpc Schema.
From S2P Require Import ParamHeaders Client Catalog Auth OAuth Observability Handler HandlerSelect Main.

#[local] Set Warnings "-clear-no-such-hyp".
#[local] Open Scope nat_scope.

(** ** The log *)

Section log.
Context {E : Env} (reg : Registry).

(** Some registered tenant calls this backend with this credential. *)
Definition tenant_auth (b : Backend) (cred : string) : Prop :=
  ∃ t, t ∈ Tenants reg ∧ t_Backend t = b ∧ EffectiveCredential t = cred.

(** The backend issued this session id in answer to a request with this
    credential. *)
Definition opened (log : list exchange) (b : Backend) (cred sid : string) : Prop :=
  ∃ x extra p, x ∈ log ∧ carries (E := E) b cred extra x ∧ x.2 = Some p ∧
    header_get mcpSessionHeader (p_Header p) = sid.

Definition named (log : list exchange) (b : Backend) (cred sid : string) : Prop :=
  sid = "" ∨ opened log b cred sid.

(** The DELETE of [teardownBackend]. *)
Definition tears_down (b : Backend) (cred sid : string) (x : exchange) : Prop :=
  ∃ u, e_url_Parse E (u_String (b_URL b)) = Some u ∧ q_URL x.1 = u_String u ∧
    q_Header x.1 = applyAuth b cred ∅ (header_set mcpSessionHeader sid ∅).

Definition allowed (log : list exchange) (x : exchange) : Prop :=
  ∃ b cred sid, tenant_auth b cred ∧ named log b cred sid ∧
    ((∃ extra, carries_on (E := E) b cred sid extra x) ∨ tears_down b cred sid x).

(** Every exchange was allowed by those before it. *)
Inductive isolated : list exchange → Prop :=
| isolated_nil : isolated []
| isolated_snoc log x : isolated log → allowed log x → isolated (log ++ [x]).

Lemma opened_mono log log' b cred sid :
  log `prefix_of` log' → opened log b cred sid → opened log' b cred sid.
Proof.
  intros [k ->] (x & extra & p & Hx & ?). exists x, extra, p. split; [set_solver|done].
Qed.

Lemma named_mono log log' b cred sid :
  log `prefix_of` log' → named log b cred sid → named log' b cred sid.
Proof. intros Hp [?|Ho]; [by left|right; by eapply opened_mono]. Qed.

(** ** The client's methods *)

Abbreviation outside_run := (run_ok (S := Outside E) o_log (λ o, isolated (o_log o))).

Context (b : Backend) (cred : string) (Hauth : tenant_auth b cred).

Lemma post_iso payload sid extra m name o :
  isolated (o_log o) → named (o_log o) b cred sid →
  outside_run (post b payload sid cred extra m name)
    (λ r o', ∀ body sid', r = Ok (body, sid') → opened (o_log o') b cred sid') o.
Proof.
  intros Hiso Hn. destruct (e_url_Parse E (u_String (b_URL b))) as [u|] eqn:Hu.
  2:{ unfold post. rewrite Hu. by apply run_ret. }
  unfold run_ok. rewrite (post_log _ _ _ _ _ _ _ _ _ Hu). cbn [fst snd o_log].
  set (q := mkOutRequest _ _ _ _). set (answer := (e_roundtrip E (o_net o) q).2).
  assert (carries_on (E := E) b cred sid extra (q, answer)) as Hc by by exists u, (o_net o), m, name.
  split_and!; [by eexists| |].
  - apply isolated_snoc; [done|]. exists b, cred, sid. split_and!; [done..|]. left. by exists extra.
  - intros body sid' Hr. apply read_response_Ok in Hr as (p & Hp & _ & ->).
    exists (q, answer), extra, p. split_and!; [set_solver|by exists sid|done|done].
Qed.

Lemma initialize_iso ip o :
  isolated (o_log o) →
  outside_run (initialize b ip cred)
    (λ r o', ∀ sid res, r = Ok (sid, res) → opened (o_log o') b cred sid) o.
Proof.
  intros Hiso. unfold initialize. eapply run_bind; [by apply post_iso; [|left]|].
  intros r o' Hiso' _ Hr. apply run_ret; [done|]. intros sid res Heq.
  destruct r as [[body sid']|e]; cbn in Heq; [|done].
  destruct (read_initialize body); [|done]. injection Heq as -> _. by eapply Hr.
Qed.

Lemma notify_iso sid o :
  isolated (o_log o) → named (o_log o) b cred sid →
  outside_run (notifyInitialized b sid cred) (λ _ _, True) o.
Proof.
  intros Hiso Hn. unfold notifyInitialized. eapply run_bind; [by apply post_iso|].
  intros. by apply run_ret.
Qed.

Lemma inject_meta_iso params o :
  isolated (o_log o) → outside_run (inject_meta params) (λ _ o', o_log o' = o_log o) o.
Proof.
  intros Hiso. unfold inject_meta.
  destruct (injectMeta params); [by apply run_ret|by apply run_panic].
Qed.

Lemma listTools_iso sid headers o :
  isolated (o_log o) → named (o_log o) b cred sid →
  outside_run (listTools b sid cred headers) (λ _ _, True) o.
Proof.
  intros Hiso Hn. unfold listTools. apply run_bind with (λ _ o', o_log o' = o_log o).
  - destruct (Stateless b); [by apply inject_meta_iso|by apply run_ret].
  - intros params o' Hiso' _ Ho'. eapply run_bind; [apply post_iso; [done|by rewrite Ho']|].
    intros. by apply run_ret.
Qed.

Lemma callTool_iso sid bytes headers name o :
  isolated (o_log o) → named (o_log o) b cred sid →
  outside_run (callTool b sid cred bytes headers name) (λ _ _, True) o.
Proof.
  intros Hiso Hn. unfold callTool. apply run_bind with (λ _ o', o_log o' = o_log o).
  - destruct (Stateless b); [|by apply run_ret].
    destruct (v ← parse_text bytes; unmarshal_request v) as [req|e]; [|by apply run_ret].
    eapply run_bind; [by apply inject_meta_iso|]. intros. by apply run_ret.
  - intros [req|e] o' Hiso' _ Ho'; [|by apply run_ret].
    eapply run_bind; [apply post_iso; [done|by rewrite Ho']|]. intros. by apply run_ret.
Qed.

Lemma teardown_iso t sid o :
  t_Backend t = b → EffectiveCredential t = cred →
  isolated (o_log o) → named (o_log o) b cred sid →
  outside_run (teardownBackend t sid) (λ _ _, True) o.
Proof.
  intros Hb Hc Hiso Hn. unfold teardownBackend. rewrite Hb, Hc.
  destruct (e_url_Parse E (u_String (b_URL b))) as [u|] eqn:Hu; [|by apply run_ret].
  eapply run_bind with (λ _ _, True); [|intros; by apply run_ret].
  unfold run_ok, do_request. destruct (e_roundtrip E (o_net o) _) as [n p]. cbn.
  split_and!; [by eexists| |done]. apply isolated_snoc; [done|].
  exists b, cred, sid. split_and!; [done..|]. right. by exists u.
Qed.
End log.

(** ** The catalogs *)

Section catalogs.
Context {E : Env} (reg : Registry).

(** Every catalog is some registered tenant's view. *)
Definition cat_auth (c : CatState E) : Prop :=
  ∀ k, k ∈ cs_unique (ct_cats c) → tenant_auth reg (k_backend k) (k_cred k).

Definition cat_iso (c : CatState E) : Prop := isolated (E := E) reg (cat_log c) ∧ cat_auth c.

Abbreviation cat_run := (run_ok (S := CatState E) cat_log cat_iso).

Lemma fetch_iso k (o : Outside E) :
  tenant_auth reg (k_backend k) (k_cred k) → isolated (E := E) reg (o_log o) →
  run_ok o_log (λ o, isolated (E := E) reg (o_log o)) (fetch k) (λ _ _, True) o.
Proof.
  intros Ha Hiso. unfold fetch. destruct (Stateless (k_backend k)); [by apply listTools_iso; [..|left]|].
  eapply run_bind; [by apply initialize_iso|]. intros [[sid res]|e] o' Hiso' _ Hsid; [|by apply run_ret].
  assert (opened (E := E) (o_log o') (k_backend k) (k_cred k) sid) as Ho by by eapply Hsid.
  apply run_bind with (λ _ _, True).
  - destruct (nonempty sid); [by apply notify_iso; [..|right]|by apply run_ret].
  - intros _ o'' Hiso'' Hp _. apply listTools_iso; [done..|]. right. by eapply opened_mono.
Qed.

Lemma run_outside {A} (m : M (Outside E) A) Q c :
  cat_iso c → run_ok o_log (λ o, isolated (E := E) reg (o_log o)) m (λ v o, Q v (o_log o)) (ct_out c) →
  cat_run (outside m) (λ v c', Q v (cat_log c') ∧ ct_cats c' = ct_cats c) c.
Proof.
  intros [Hiso Ha] Hm. eapply run_zoom; [exact Hm|done|done| |].
  - intros o Ho _. by split.
  - intros v o _ _ Hq. by split.
Qed.

Lemma get_iso i c : cat_iso c → cat_run (get i) (λ _ _, True) c.
Proof.
  intros Hc. unfold get. apply run_gets.
  destruct (cs_unique (ct_cats c) !! i) as [k|] eqn:Hi; [|by apply run_panic].
  assert (tenant_auth reg (k_backend k) (k_cred k)) as Hk.
  { apply Hc. by eapply list_elem_of_lookup_2. }
  assert (∀ c', ct_cats c' = ct_cats c → cat_auth c') as Hsame.
  { intros c' He k' Hk'. apply Hc. by rewrite <- He. }
  apply run_bind with (λ _ c', ct_cats c' = ct_cats c).
  { unfold is_fresh. destruct (k_tools k); [|by apply run_ret].
    apply run_bind with (λ _ c', ct_cats c' = ct_cats c); [|intros; by apply run_ret].
    eapply run_mono; [apply (run_outside now (λ _ _, True)); [done|]|by intros ? ? ? ? [_ ?]].
    split_and!; [done|apply Hc|done]. }
  intros fresh c1 Hc1 _ He1. destruct fresh; [by apply run_ret|].
  apply run_bind with (λ _ c', ct_cats c' = ct_cats c).
  { eapply run_mono; [apply (run_outside (fetch k) (λ _ _, True)); [done|]|].
    - apply fetch_iso; [done|]. apply Hc1.
    - intros v c' _ _ [_ He]. congruence. }
  intros [tools|e] c2 Hc2 _ He2; [|by apply run_ret].
  apply run_bind with (λ _ c', ct_cats c' = ct_cats c).
  { destruct tools as [ts|]; [|by apply run_ret]. apply run_bind with (λ _ c', ct_cats c' = ct_cats c);
      [|intros; by apply run_ret].
    unfold run_ok, alloc_tools. cbn. split_and!; [done| |done].
    split; [apply Hc2|]. by apply Hsame. }
  intros refs c3 Hc3 _ He3. apply run_bind with (λ _ c', ct_cats c' = ct_cats c).
  { eapply run_mono; [apply (run_outside now (λ _ _, True)); [done|]|].
    - split_and!; [done|apply Hc3|done].
    - intros v c' _ _ [_ He]. congruence. }
  intros t c4 Hc4 _ He4. apply run_bind with (λ _ _, True); [|intros; by apply run_ret].
  apply run_modify; [done| |done]. split; [apply Hc4|].
  intros k' Hk'. cbn in Hk'. rewrite He4 in Hk'. apply list_elem_of_lookup in Hk' as [j Hj].
  apply list_lookup_insert_Some in Hj as [(_ & <- & _)|[_ Hj]]; [done|].
  apply Hc. by eapply list_elem_of_lookup_2.
Qed.

Lemma collect_tools_iso ts c : cat_iso c → cat_run (collect_tools ts) (λ _ _, True) c.
Proof.
  revert c. induction ts as [|t ts IH]; intros c Hc; [by apply run_ret|].
  cbn [collect_tools]. apply run_gets. destruct (forTenant (ct_cats c) (t_ID t)); [|by apply IH].
  eapply run_bind; [by apply get_iso|]. intros r c1 Hc1 _ _.
  eapply run_bind; [by apply IH|]. intros. by apply run_ret.
Qed.

Lemma toolsFor_iso ts c : cat_iso c → cat_run (toolsFor ts) (λ _ _, True) c.
Proof.
  intros Hc. unfold toolsFor. eapply run_bind; [by apply collect_tools_iso|].
  intros. by apply run_ret.
Qed.

Lemma warm_iso c : cat_iso c → cat_run warm (λ _ _, True) c.
Proof.
  intros Hc. unfold warm. apply run_gets. generalize (seq 0 (length (cs_unique (ct_cats c)))) as l.
  intros l. revert c Hc. induction l as [|i l IH]; intros c Hc; [by apply run_ret|].
  cbn [warm_from]. eapply run_bind; [by apply get_iso|]. intros r c1 Hc1 _ _.
  eapply run_bind; [by apply IH|]. intros. by apply run_ret.
Qed.

Lemma NewCatalogs_auth ttl heap (o : Outside E) :
  registry_wf reg → cat_auth (mkCatState heap (NewCatalogs reg ttl) o).
Proof.
  intros Hwf k Hk. destruct (NewCatalogs_views reg ttl Hwf) as (byKey & Hv).
  apply list_elem_of_lookup in Hk as [i Hi]. cbn in Hi.
  destruct (vo_unique _ _ _ _ Hv i) as (key & Hkey); [by eapply lookup_lt_Some|].
  destruct (vo_key _ _ _ _ Hv key i Hkey) as (t & Ht & _ & Hi'). rewrite Hi in Hi'.
  injection Hi' as ->. apply elem_of_sort_on in Ht. by exists t.
Qed.
End catalogs.

(** ** The proxy *)

Section proxy.
Context {V : Type} `{Verifier V} (h : Handler V) {E : Env}.
Hypothesis Hreg : registry_wf (Registry_ h).

Abbreviation reg := (Registry_ h).

Definition s_log (s : State E) : list exchange := cat_log (h_cat s).

(** Stored backend sessions and pending teardowns belong to their tenant. *)
Definition store_iso (log : list exchange) (st : Store) : Prop :=
  ∀ pid t sid, t ∈ Tenants reg → session_sid st pid (t_ID t) = Some sid →
    named (E := E) log (t_Backend t) (EffectiveCredential t) sid.

Definition task_iso (log : list exchange) (task : Tenant * string) : Prop :=
  task.1 ∈ Tenants reg ∧
  named (E := E) log (t_Backend task.1) (EffectiveCredential task.1) task.2.

Record state_iso (s : State E) : Prop := {
  si_cat : cat_iso reg (h_cat s);
  si_store : store_iso (s_log s) (h_store s);
  si_tasks : Forall (task_iso (s_log s)) (h_tasks s) }.

Abbreviation state_run := (run_ok s_log state_iso).

Lemma store_iso_mono log log' st : log `prefix_of` log' → store_iso log st → store_iso log' st.
Proof. intros Hp Hst pid t sid Ht Hs. eapply named_mono; [done|]. by eapply Hst. Qed.

Lemma tasks_iso_mono log log' l :
  log `prefix_of` log' → Forall (task_iso log) l → Forall (task_iso log') l.
Proof.
  intros Hp Hl. eapply Forall_impl; [exact Hl|]. intros task [Ht Hn]. split; [done|].
  by eapply named_mono.
Qed.

Lemma run_on_cat {A} (m : M (CatState E) A) Q s :
  state_iso s → run_ok cat_log (cat_iso reg) m Q (h_cat s) →
  state_run (on_cat m) (λ v s', Q v (h_cat s') ∧ h_store s' = h_store s) s.
Proof.
  intros [Hc Hst Ht] Hm. eapply run_zoom; [exact Hm|done|done| |].
  - intros c Hc' Hp. split; [done|by eapply store_iso_mono|by eapply tasks_iso_mono].
  - intros v c _ _ Hq. by split.
Qed.

Lemma run_on_out {A} (m : M (Outside E) A) Q s :
  state_iso s →
  run_ok o_log (λ o, isolated (E := E) reg (o_log o)) m (λ v o, Q v (o_log o)) (ct_out (h_cat s)) →
  state_run (on_out m) (λ v s', Q v (s_log s') ∧ h_store s' = h_store s) s.
Proof.
  intros Hs Hm. eapply run_mono; [apply run_on_cat; [done|]|].
  - apply run_outside; [apply Hs|exact Hm].
  - cbn. by intros v s' _ _ [[? _] ?].
Qed.

Lemma run_now s : state_iso s → state_run (on_out now) (λ _ s', h_store s' = h_store s) s.
Proof.
  intros Hs. eapply run_mono; [apply (run_on_out now (λ _ _, True)); [done|]|by intros ? ? ? ? [_ ?]].
  split_and!; [done|apply Hs|done].
Qed.

Lemma run_rand s : state_iso s → state_run (on_out rand_bytes) (λ _ s', h_store s' = h_store s) s.
Proof.
  intros Hs.
  eapply run_mono; [apply (run_on_out rand_bytes (λ _ _, True)); [done|]|by intros ? ? ? ? [_ ?]].
  split_and!; [done|apply Hs|done].
Qed.

(** Changes to the response, the recordings and the attributes. *)
Lemma run_local f s :
  (∀ s, h_cat (f s) = h_cat s) → (∀ s, h_store (f s) = h_store s) →
  (∀ s, h_tasks (f s) = h_tasks s) → state_iso s →
  state_run (modify f) (λ _ s', h_store s' = h_store s) s.
Proof.
  intros Hc Hst Ht [Ic Is It]. apply run_modify; unfold s_log; rewrite ?Hc; [done| |done].
  split; unfold s_log; by rewrite ?Hc, ?Hst, ?Ht.
Qed.

Lemma run_write f s : state_iso s → state_run (write f) (λ _ s', h_store s' = h_store s) s.
Proof. by apply run_local. Qed.
Lemma run_note f s : state_iso s → state_run (note f) (λ _ s', h_store s' = h_store s) s.
Proof. by apply run_local. Qed.
Lemma run_record f s : state_iso s → state_run (record f) (λ _ s', h_store s' = h_store s) s.
Proof. by apply run_local. Qed.

(** Replacing the store by one with no more sessions. *)
Lemma run_set_store st s :
  state_iso s → store_iso (s_log s) st → state_run (modify (set_store st)) (λ _ _, True) s.
Proof. intros [Ic Is It] Hst. by apply run_modify. Qed.

Lemma session_Mint_iso s : state_iso s → state_run session_Mint (λ _ _, True) s.
Proof.
  intros Hs. unfold session_Mint.
  eapply run_bind; [by apply run_now|]. intros r s1 H1 _ _.
  eapply run_bind; [by apply run_now|]. intros t s2 H2 _ _.
  eapply run_bind; [by apply run_rand|]. intros rnd s3 H3 _ _. apply run_gets.
  destruct (Mint r t rnd (h_store s3)) as [st sess] eqn:Hm.
  eapply run_bind; [apply run_set_store; [done|]|intros; by apply run_ret].
  intros pid t' sid Ht Hsid. eapply si_store; [done|done|].
  apply (Mint_sid r t rnd). by rewrite Hm.
Qed.

Lemma session_Get_iso id s :
  state_iso s →
  state_run (session_Get id)
    (λ r s', ∀ sess t sid, r = Some sess → t ∈ Tenants reg → BackendSID sess (t_ID t) = Some sid →
       named (E := E) (s_log s') (t_Backend t) (EffectiveCredential t) sid) s.
Proof.
  intros Hs. unfold session_Get.
  eapply run_bind; [by apply run_now|]. intros r s1 H1 _ _.
  eapply run_bind; [by apply run_now|]. intros t s2 H2 _ _. apply run_gets.
  destruct (Get r t id (h_store s2)) as [st sess] eqn:Hm.
  apply run_bind with (λ _ s', s_log s' = s_log s2).
  - apply run_modify; [done| |done]. destruct H2 as [Ic Is It]. split; [done| |done].
    intros pid t' sid Ht Hsid. eapply Is; [done|]. apply (Get_sid r t id). by rewrite Hm.
  - intros _ s3 H3 _ Hl. apply run_ret; [done|]. intros sess' t' sid -> Ht Hb. rewrite Hl.
    eapply (si_store _ H2); [done|]. eapply (Get_sid_result r t id); [by rewrite Hm|done].
Qed.

Lemma session_Delete_iso id s :
  state_iso s →
  state_run (session_Delete id)
    (λ r s', ∀ sess t sid, r = Some sess → t ∈ Tenants reg → BackendSID sess (t_ID t) = Some sid →
       named (E := E) (s_log s') (t_Backend t) (EffectiveCredential t) sid) s.
Proof.
  intros Hs. unfold session_Delete. apply run_gets.
  destruct (Delete id (h_store s)) as [st sess] eqn:Hm.
  apply run_bind with (λ _ s', s_log s' = s_log s).
  - apply run_modify; [done| |done]. destruct Hs as [Ic Is It]. split; [done| |done].
    intros pid t' sid Ht Hsid. eapply Is; [done|]. apply (Delete_sid id). by rewrite Hm.
  - intros _ s3 H3 _ Hl. apply run_ret; [done|]. intros sess' t' sid -> Ht Hb. rewrite Hl.
    eapply (si_store _ Hs); [done|]. eapply (Delete_sid_result id); [by rewrite Hm|done].
Qed.

Lemma session_Set_iso pid t sid s :
  state_iso s → t ∈ Tenants reg →
  named (E := E) (s_log s) (t_Backend t) (EffectiveCredential t) sid →
  state_run (session_SetBackendSID pid (t_ID t) sid)
    (λ _ s', named (E := E) (s_log s') (t_Backend t) (EffectiveCredential t) sid) s.
Proof.
  intros Hs Ht Hn. unfold session_SetBackendSID.
  apply run_bind with (λ _ s', named (E := E) (s_log s') (t_Backend t) (EffectiveCredential t) sid).
  { eapply run_mono; [by apply run_now|]. intros now s' _ Hp _. by eapply named_mono. }
  intros now s1 H1 _ Hn1. apply run_modify; [done| |done].
  destruct H1 as [Ic Is It]. split; [done| |done].
  intros pid' t' sid' Ht' Hsid. apply SetBackendSID_sid in Hsid as [Hsid|(-> & Hid & ->)].
  - by eapply Is.
  - assert (t' = t) as ->; [|done].
    eapply (NoDup_fmap_key_eq t_ID); [by apply Tenants_ids_NoDup|done..].
Qed.

(** ** The handlers *)

Abbreviation ok_run m s := (state_run m (λ _ _, True) s).

Lemma run_weaken {A} (m : M (State E) A) Q s : state_run m Q s → ok_run m s.
Proof. intros Hm. by eapply run_mono. Qed.

Lemma write_iso f s : state_iso s → ok_run (write f) s.
Proof. intros. by eapply run_weaken, run_write. Qed.
Lemma note_iso f s : state_iso s → ok_run (note f) s.
Proof. intros. by eapply run_weaken, run_note. Qed.
Lemma record_iso f s : state_iso s → ok_run (record f) s.
Proof. intros. by eapply run_weaken, run_record. Qed.
Lemma now_iso s : state_iso s → ok_run (on_out now) s.
Proof. intros. by eapply run_weaken, run_now. Qed.
Lemma ret_iso {A} (v : A) s : state_iso s → ok_run (mret v) s.
Proof. intros. by apply run_ret. Qed.

Lemma bind_iso {A B} (m : M (State E) A) (k : A → M (State E) B) s :
  ok_run m s → (∀ v s', state_iso s' → ok_run (k v) s') → ok_run (m ≫= k) s.
Proof. intros Hm Hk. eapply run_bind; [exact Hm|]. intros. by apply Hk. Qed.

Lemma deferred_iso {A} cleanup (m : M (State E) A) s :
  ok_run m s → (∀ s', state_iso s' → ok_run cleanup s') → ok_run (deferred cleanup m) s.
Proof.
  intros (Hp & Hi & _) Hc. unfold run_ok, deferred. destruct (m s) as [r s1]. cbn [fst snd] in *.
  destruct (Hc s1 Hi) as (Hp' & Hi' & _). split_and!; [by trans (s_log s1)|done|by destruct r].
Qed.

#[local] Hint Resolve write_iso note_iso record_iso now_iso ret_iso bind_iso : proxy.

Lemma tenant_auth_of t : t ∈ Tenants reg → tenant_auth reg (t_Backend t) (EffectiveCredential t).
Proof. intros Ht. by exists t. Qed.

Lemma callTool_state_iso t sid bytes headers name s :
  state_iso s → t ∈ Tenants reg →
  named (E := E) (s_log s) (t_Backend t) (EffectiveCredential t) sid →
  ok_run (on_out (callTool (t_Backend t) sid (EffectiveCredential t) bytes headers name)) s.
Proof.
  intros Hs Ht Hn. eapply run_weaken, (run_on_out _ (λ _ _, True)); [done|].
  apply callTool_iso; [by apply tenant_auth_of|apply Hs|done].
Qed.

Lemma finish_call_iso id resp s : state_iso s → ok_run (finish_call id resp) s.
Proof. intros. unfold finish_call. destruct resp; auto with proxy. Qed.

Lemma open_backend_session_iso pid t s :
  state_iso s → t ∈ Tenants reg →
  state_run (open_backend_session pid t)
    (λ r s', ∀ sid, r = Ok sid →
       named (E := E) (s_log s') (t_Backend t) (EffectiveCredential t) sid) s.
Proof.
  intros Hs Ht. unfold open_backend_session.
  eapply run_bind.
  { eapply (run_on_out _ (λ r log, ∀ sid res, r = Ok (sid, res) →
      opened (E := E) log (t_Backend t) (EffectiveCredential t) sid)); [done|].
    apply initialize_iso; [by apply tenant_auth_of|apply Hs]. }
  intros [[sid res]|e] s1 H1 _ [Hsid _]; [|by apply run_ret].
  assert (named (E := E) (s_log s1) (t_Backend t) (EffectiveCredential t) sid) as Hn
    by (right; by eapply Hsid).
  apply run_bind with (λ _ _, True).
  { destruct (nonempty sid); [|by apply run_ret].
    eapply run_weaken, (run_on_out _ (λ _ _, True)); [done|].
    apply notify_iso; [by apply tenant_auth_of|apply H1|done]. }
  intros _ s2 H2 Hp2 _.
  assert (named (E := E) (s_log s2) (t_Backend t) (EffectiveCredential t) sid) as Hn2
    by by eapply named_mono.
  eapply run_bind; [by apply session_Set_iso|]. intros v s3 H3 _ Hn3.
  apply run_ret; [done|]. intros sid' Heq. by simplify_eq.
Qed.

Lemma routeToBackend_iso r id t bytes name ph s :
  state_iso s → t ∈ Tenants reg → ok_run (routeToBackend r id t bytes name ph) s.
Proof.
  intros Hs Ht. unfold routeToBackend. destruct (Stateless (t_Backend t)).
  { apply bind_iso; [apply callTool_state_iso; [done..|by left]|]. intros. by apply finish_call_iso. }
  eapply run_bind; [by apply session_Get_iso|]. intros [sess|] s1 H1 _ Hsess;
    [|apply bind_iso; auto with proxy].
  apply run_bind with (λ r s', ∀ sid, r = Ok sid →
    named (E := E) (s_log s') (t_Backend t) (EffectiveCredential t) sid).
  - destruct (BackendSID sess (t_ID t)) as [sid|] eqn:Hb; [|by apply open_backend_session_iso].
    apply run_ret; [done|]. intros sid' [= <-]. by eapply Hsess.
  - intros [sid|e] s2 H2 _ Hn; [|apply bind_iso; auto with proxy].
    apply bind_iso; [apply callTool_state_iso; auto|]. intros. by apply finish_call_iso.
Qed.

Lemma forward_call_iso r req params t s :
  state_iso s → t ∈ Tenants reg → ok_run (forward_call r req params t) s.
Proof.
  intros Hs Ht. unfold forward_call. apply bind_iso; [auto with proxy|]. intros _ s1 H1.
  destruct (stripTenantArg (j_Params req)) as [clean|e]; [|auto with proxy].
  apply run_gets. apply bind_iso; [by apply routeToBackend_iso|]. intros [] s2 H2; auto with proxy.
Qed.

Lemma auth_failure_iso r id e s : state_iso s → ok_run (auth_failure h r id e) s.
Proof. intros. unfold auth_failure. destruct e; auto 6 with proxy. Qed.

Lemma tools_call_body_iso r req s : state_iso s → ok_run (tools_call_body h r req) s.
Proof.
  intros Hs. unfold tools_call_body. apply bind_iso; [auto with proxy|]. intros t s1 H1.
  destruct (Groups (Verifier_ h) t r) as [groups|e]; [|by apply auth_failure_iso].
  destruct (match j_Params req with Some v => unmarshal_params v | None => Err BadSyntax end)
    as [params|e]; [|auto with proxy].
  apply bind_iso; [auto with proxy|]. intros _ s2 H2.
  destruct (String.eqb (tp_Name params) listInstancesTool); [auto with proxy|].
  apply run_gets.
  destruct (selectTenant h (ct_heap (h_cat s2)) (ct_cats (h_cat s2)) (tp_Name params)
    (tp_Arguments params) groups (AuthorizedTenants reg groups)) as [tenant|msg] eqn:Hsel;
    [|auto with proxy].
  apply forward_call_iso; [done|].
  assert (tenant ∈ AuthorizedTenants reg groups) as Hin.
  { destruct (decide (extractTenantArg (tp_Arguments params) = "")) as [He|He].
    - by apply select_implicit in Hsel as [? _].
    - by apply select_explicit in Hsel as [? _]. }
  apply elem_of_AuthorizedTenants in Hin as [Hin _]; [|done]. by apply elem_of_Tenants.
Qed.

Lemma handleToolsCall_iso r req s : state_iso s → ok_run (handleToolsCall h r req) s.
Proof.
  intros Hs. unfold handleToolsCall. apply bind_iso; [auto with proxy|]. intros start s1 H1.
  apply bind_iso; [auto with proxy|]. intros _ s2 H2. apply deferred_iso; [by apply tools_call_body_iso|].
  intros s3 H3. unfold record_op. apply bind_iso; [auto with proxy|]. intros t s4 H4.
  apply run_gets. auto with proxy.
Qed.

(** Heap changes only. *)
Lemma heap_iso {A} (m : M (CatState E) A) s :
  state_iso s → (∀ c, ct_cats (m c).2 = ct_cats c ∧ ct_out (m c).2 = ct_out c) →
  ok_run (on_cat m) s.
Proof.
  intros Hs Hm. eapply run_weaken, (run_on_cat _ (λ _ _, True)); [done|].
  unfold run_ok. destruct (Hm (h_cat s)) as [Hc Ho]. unfold cat_log. rewrite Ho.
  split_and!; [done| |by destruct (m (h_cat s)) as [[] ?]].
  destruct (si_cat _ Hs) as [Hi Ha]. split; unfold cat_log, cat_auth; by rewrite ?Ho, ?Hc.
Qed.

Lemma list_tools_local d a u order (c : CatState E) :
  ct_cats (list_tools d a u order c).2 = ct_cats c ∧ ct_out (list_tools d a u order c).2 = ct_out c.
Proof.
  revert c. induction order as [|name order IH]; intros c; [done|].
  cbn [list_tools]. unfold mbind, M_bind.
  assert (∃ r c', list_tool d a u name c = (Return r, c') ∧ ct_cats c' = ct_cats c ∧ ct_out c' = ct_out c)
    as (r & c' & -> & Hc & Ho).
  { unfold list_tool. destruct d; [|destruct (2 <=? length a)]; by eexists _, _. }
  destruct (IH c') as [IHc IHo].
  destruct (list_tools d a u order c') as [[rs|] c'']; cbn in *; split; congruence.
Qed.

Lemma handleToolsList_iso r req s : state_iso s → ok_run (handleToolsList h r req) s.
Proof.
  intros Hs. unfold handleToolsList. apply bind_iso; [auto with proxy|]. intros t s1 H1.
  destruct (listed_tenants h (Groups (Verifier_ h) t r)) as [tenants discovery].
  apply bind_iso.
  { eapply run_weaken, (run_on_cat _ (λ _ _, True)); [done|]. apply toolsFor_iso. apply H1. }
  intros [views|errs] s2 H2; [|auto with proxy]. apply run_gets.
  apply bind_iso; [by apply heap_iso; [|apply list_tools_local]|]. intros out s3 H3.
  apply bind_iso; [by apply heap_iso|]. intros local s4 H4. apply run_gets. auto with proxy.
Qed.

Lemma handleInitialize_iso req s : state_iso s → ok_run (handleInitialize h req) s.
Proof.
  intros Hs. unfold handleInitialize. apply bind_iso; [auto with proxy|]. intros _ s1 H1.
  destruct (AllStateless reg); [auto with proxy|].
  apply bind_iso; [by apply session_Mint_iso|]. intros sess s2 H2. auto 6 with proxy.
Qed.

Lemma handleDelete_iso r s : state_iso s → ok_run (handleDelete h r) s.
Proof.
  intros Hs. unfold handleDelete. destruct (AllStateless reg); [auto with proxy|].
  eapply run_bind; [by apply session_Delete_iso|]. intros [sess|] s1 H1 _ Hsess; [|auto with proxy].
  apply bind_iso; [|auto with proxy]. apply run_modify; [done| |done].
  destruct H1 as [Ic Is It]. split; [done..|]. apply Forall_app. split; [done|].
  apply Forall_forall. intros [t sid] Hin. unfold teardown_sids in Hin.
  apply list_elem_of_omap in Hin as (t' & Ht & Hm).
  destruct (BackendSID sess (t_ID t')) as [sid'|] eqn:Hb; [|done].
  destruct (nonempty sid'); [|done]. injection Hm as -> ->. split; [done|]. by eapply Hsess.
Qed.

Lemma ServeHTTP_iso r s : state_iso s → ok_run (ServeHTTP h r) s.
Proof.
  intros Hs. unfold ServeHTTP. destruct (String.eqb (r_Method r) "DELETE"); [by apply handleDelete_iso|].
  destruct (String.eqb (r_Method r) "GET"); [auto with proxy|].
  destruct (negb (String.eqb (r_Method r) "POST")); [auto with proxy|].
  destruct (r_Body r) as [body|]; [|auto with proxy].
  destruct (v ← parse_text body; unmarshal_request v) as [req|e]; [|auto with proxy].
  apply bind_iso; [destruct (AllStateless reg); auto with proxy|]. intros _ s1 H1. unfold dispatch.
  repeat case_match; auto using handleInitialize_iso, handleToolsList_iso, handleToolsCall_iso with proxy.
  by apply write_iso.
Qed.
End proxy.

(** ** Reachable states *)

Section reachable.
Context {V : Type} `{Verifier V} (h : Handler V) {E : Env}.
Hypothesis Hreg : registry_wf (Registry_ h).

Lemma set_w_iso w (s : State E) : state_iso h s → state_iso h (set_w w s).
Proof. by intros [? ? ?]. Qed.

Lemma run_ok_inv {A} (m : M (State E) A) Q s :
  run_ok s_log (state_iso h) m Q s → state_iso h (m s).2.
Proof. by intros (_ & ? & _). Qed.

Lemma serve_iso r (s : State E) : state_iso h s → state_iso h (serve h r s).2.
Proof.
  intros Hs. pose proof (run_ok_inv _ _ _ (ServeHTTP_iso h Hreg r _ (set_w_iso new_writer s Hs))) as Hi.
  unfold serve. by destruct (ServeHTTP h r (set_w new_writer s)) as [[[]|] s'].
Qed.

Lemma warm_attempt_iso (s : State E) : state_iso h s → state_iso h (warm_attempt s).2.
Proof.
  intros Hs. eapply run_ok_inv, bind_iso; [|intros; by apply ret_iso].
  eapply run_weaken, (run_on_cat h _ (λ _ _, True)); [done|]. apply warm_iso, Hs.
Qed.

Lemma step_iso (s s' : State E) : step h s s' → state_iso h s → state_iso h s'.
Proof.
  intros [r s0|t sid l1 l2 s0 Ht|s0] Hs; [by apply serve_iso| |by apply warm_attempt_iso].
  destruct Hs as [Ic Is It]. rewrite Ht in It.
  apply Forall_app in It as [H1 H2]. apply Forall_cons in H2 as [[Hin Hn] H2].
  eapply run_ok_inv, (run_on_out h _ (λ _ _, True)).
  - split; [done|done|]. cbn. by apply Forall_app.
  - eapply teardown_iso; [|done|done|apply Ic|done]. by exists t.
Qed.

Lemma init_iso obs o : o_log o = [] → state_iso h (proxy_init h obs o : State E).
Proof.
  intros Ho. split.
  - split; [unfold cat_log; cbn; rewrite Ho; constructor|by apply NewCatalogs_auth].
  - intros pid t sid _. unfold session_sid, proxy_init. cbn. by rewrite lookup_empty.
  - constructor.
Qed.

Lemma reachable_iso obs o s : o_log o = [] → reachable h obs o s → state_iso h (E := E) s.
Proof.
  intros Ho Hr. apply (init_iso obs) in Ho. revert Ho. unfold reachable in Hr.
  induction Hr as [|s1 s2 s3 Hstep _ IH]; [done|]. intros Hs. apply IH. by eapply step_iso.
Qed.
End reachable.

(** ** Theorems *)

(** Isolation. Whatever requests come in, in whatever order, and however
    backends answer: every request the proxy has ever sent went to a registered
    tenant's backend with that tenant's credential, and the session it named (if
    any) was issued by that backend in answer to an earlier request with the same
    credential; stored sessions and pending teardowns are equally bound to their
    tenant. *)
Theorem reachable_isolated {V} `{Verifier V} {E : Env} (h : Handler V) obs (o : Outside E) s :
  registry_wf (Registry_ h) → o_log o = [] → reachable h obs o s →
  isolated (E := E) (Registry_ h) (s_log s) ∧
  (∀ pid t sid, t ∈ Tenants (Registry_ h) → session_sid (h_store s) pid (t_ID t) = Some sid →
     named (E := E) (s_log s) (t_Backend t) (EffectiveCredential t) sid) ∧
  Forall (λ task, task.1 ∈ Tenants (Registry_ h) ∧
    named (E := E) (s_log s) (t_Backend task.1) (EffectiveCredential task.1) task.2) (h_tasks s).
Proof.
  intros Hreg Ho Hr. destruct (reachable_iso h Hreg obs o s Ho Hr) as [[Hiso _] Hst Ht].
  split_and!; [exact Hiso|exact Hst|exact Ht].
Qed.

Lemma reachable_isolated_witness :
  let s := (serve handler_ex list_ex (proxy_init handler_ex
              (mkObservability [] [] 0 ":9090" "/metrics") outside_ex)).2 in
  length (s_log s) = 4 ∧ isolated (E := env_ex) registry_ex (s_log s).
Proof.
  split; [vm_compute; reflexivity|].
  refine (proj1 (reachable_isolated handler_ex (mkObservability [] [] 0 ":9090" "/metrics")
    outside_ex _ registry_ex_wf eq_refl _)).
  apply rtc_once. apply step_serve.
Defined.
