(* ===== verification/Calls.v ===== *)
(** * tools/call: whom a call reaches, and what it does not depend on

    Every request a call makes is for one tenant the caller is authorized for;
    the caller's token influences nothing but its groups; every call is recorded
    once. *)

From Stdlib Require Import Ascii.
From stdpp Require Import base numbers option pretty gmap fin_maps sorting strings list relations.
From S2P Require Import Prelude GoStrings Json Decode Config Registry Session Http Rpc Schema.
From S2P Require Import ParamHeaders Client Catalog Auth OAuth Observability Handler HandlerSelect Main Isolation.

#[local] Set Warnings "-clear-no-such-hyp".
#[local] Open Scope nat_scope.

(** ** Steps that send nothing *)

Section silent.
Context {E : Env}.

Definition silent {A} (m : M (State E) A) : Prop := ∀ s, s_log (m s).2 = s_log s.

(** What [m] appends to the log from [s]. *)
Definition sends_at {A} (R : list exchange → Prop) (m : M (State E) A) (s : State E) : Prop :=
  ∃ l, s_log (m s).2 = s_log s ++ l ∧ R l.

Lemma silent_sends {A} R (m : M (State E) A) s : silent m → R [] → sends_at R m s.
Proof. intros Hm HR. exists []. by rewrite Hm, app_nil_r. Qed.

Lemma sends_at_bind {A B} (R : list exchange → Prop) (m : M (State E) A) (k : A → M (State E) B) s :
  silent m → R [] → (∀ v s', (m s).1 = Return v → (m s).2 = s' → sends_at R (k v) s') →
  sends_at R (m ≫= k) s.
Proof.
  intros Hm HR Hk. specialize (Hm s). unfold sends_at, mbind, M_bind in *.
  destruct (m s) as [[v|] s']; cbn [fst snd] in *.
  - destruct (Hk v s' eq_refl eq_refl) as (l & Hl & HRl). exists l. by rewrite Hl, Hm.
  - exists []. by rewrite Hm, app_nil_r.
Qed.

Lemma sends_only_at {A} P (m : M (State E) A) s :
  sends_only s_log P m → sends_at (Forall P) m s.
Proof. intros Hm. apply Hm. Qed.

Lemma silent_write f : silent (write (E := E) f).
Proof. done. Qed.
Lemma silent_note f : silent (note (E := E) f).
Proof. done. Qed.
Lemma silent_record f : silent (record (E := E) f).
Proof. done. Qed.
Lemma silent_now : silent (on_out now).
Proof. done. Qed.
Lemma silent_ret {A} (v : A) : silent (mret v).
Proof. done. Qed.
Lemma silent_bind {A B} (m : M (State E) A) (k : A → M (State E) B) :
  silent m → (∀ v, silent (k v)) → silent (m ≫= k).
Proof.
  intros Hm Hk s. unfold mbind, M_bind. specialize (Hm s).
  destruct (m s) as [[v|] s']; cbn in *; [|done]. by rewrite Hk.
Qed.

Lemma silent_sends_only {A} P (m : M (State E) A) : silent m → sends_only s_log P m.
Proof. intros Hm s. exists []. by rewrite Hm, app_nil_r. Qed.

Lemma silent_session_Get id : silent (session_Get id).
Proof.
  unfold session_Get. repeat (apply silent_bind; [done|intros ?]).
  intros s. by destruct (Get _ _ _ _).
Qed.

Lemma silent_session_Set pid b sid : silent (session_SetBackendSID pid b sid).
Proof. done. Qed.

Lemma sends_on_out {A} P (m : M (Outside E) A) :
  sends_only o_log P m → sends_only s_log P (on_out m).
Proof.
  intros Hm. apply (sends_zoom s_log cat_log); [done|done|]. by apply (sends_zoom cat_log o_log).
Qed.
End silent.

#[local] Hint Resolve silent_write silent_note silent_record silent_now silent_ret silent_bind
  silent_session_Get silent_session_Set silent_sends_only : proxy.

(** ** The requests of one call *)

Section calls.
Context {E : Env}.

(** A request of a call routed to [t]: its backend, its credential, and its
    headers with at most the call's own on top. *)
Definition tenant_exchange (t : Tenant) (x : exchange) : Prop :=
  ∃ extra, carries (E := E) (t_Backend t) (EffectiveCredential t) extra x ∧
    (extra = ∅ ∨ ∃ ph, extra = mergeHeaders [t_Headers t; ph]).

Lemma plain_exchange {A} t (m : M (Outside E) A) :
  sends_only o_log (carries (E := E) (t_Backend t) (EffectiveCredential t) ∅) m →
  sends_only s_log (tenant_exchange t) (on_out m).
Proof.
  intros Hm. apply sends_on_out. eapply sends_mono; [|exact Hm]. intros x Hx.
  exists ∅. by split; [|left].
Qed.

Lemma routeToBackend_sends r id t bytes name ph :
  sends_only s_log (tenant_exchange t) (routeToBackend (E := E) r id t bytes name ph).
Proof.
  assert (∀ sid, sends_only s_log (tenant_exchange t)
    (on_out (E := E) (callTool (t_Backend t) sid (EffectiveCredential t) bytes
                        (mergeHeaders [t_Headers t; ph]) name))) as Hcall.
  { intros sid. apply sends_on_out. eapply sends_mono; [|apply callTool_sends]. intros x Hx.
    eexists. split; [exact Hx|]. right. by exists ph. }
  assert (∀ resp, sends_only s_log (tenant_exchange t) (finish_call (E := E) id resp)) as Hfin.
  { intros [bytes'|e]; unfold finish_call; auto with proxy. }
  unfold routeToBackend. destruct (Stateless (t_Backend t)); [by apply sends_bind|].
  apply sends_bind; [auto with proxy|]. intros [sess|]; [|auto with proxy].
  apply sends_bind; [|intros [sid|e]; [by apply sends_bind|auto with proxy]].
  destruct (BackendSID sess (t_ID t)); [auto with proxy|].
  unfold open_backend_session. apply sends_bind; [apply plain_exchange, initialize_sends|].
  intros [[sid res]|e]; [|auto with proxy]. apply sends_bind; [|auto with proxy].
  destruct (nonempty sid); [apply plain_exchange, notifyInitialized_sends|auto with proxy].
Qed.

Lemma forward_call_sends r req params t :
  sends_only s_log (tenant_exchange t) (forward_call (E := E) r req params t).
Proof.
  unfold forward_call. apply sends_bind; [auto with proxy|]. intros _.
  destruct (stripTenantArg (j_Params req)); [|auto with proxy].
  apply sends_bind; [auto with proxy|]. intros phs.
  apply sends_bind; [apply routeToBackend_sends|]. intros []; auto with proxy.
Qed.
End calls.

Section authorized.
Context {V : Type} `{Verifier V} (h : Handler V) {E : Env}.
Hypothesis Hreg : registry_wf (Registry_ h).

Abbreviation reg := (Registry_ h).

(** No request at all, or all for one authorized tenant. *)
Definition authorized_log (r : Request) (l : list exchange) : Prop :=
  l = [] ∨ ∃ now groups t, Groups (Verifier_ h) now r = Ok groups ∧
    t ∈ AuthorizedTenants reg groups ∧ Forall (tenant_exchange (E := E) t) l.

Lemma selected_authorized heap cs tool args groups t :
  selectTenant h heap cs tool args groups (AuthorizedTenants reg groups) = Ok t →
  t ∈ AuthorizedTenants reg groups.
Proof.
  intros Hsel. destruct (decide (extractTenantArg args = "")) as [He|He].
  - by apply select_implicit in Hsel as [? _].
  - by apply select_explicit in Hsel as [? _].
Qed.

Lemma auth_failure_silent r id e : silent (E := E) (auth_failure h r id e).
Proof. destruct e; unfold auth_failure; auto with proxy. Qed.

Lemma tools_call_body_authorized r req (s : State E) :
  sends_at (authorized_log r) (tools_call_body h r req) s.
Proof.
  assert (∀ A (m : M (State E) A) s, silent m → sends_at (authorized_log r) m s) as Hsil
    by (intros; apply silent_sends; [done|by left]).
  unfold tools_call_body. apply sends_at_bind; [done|by left|]. intros t s1 _ _.
  destruct (Groups (Verifier_ h) t r) as [groups|e] eqn:Hg; [|apply Hsil, auth_failure_silent].
  destruct (match j_Params req with Some v => unmarshal_params v | None => Err BadSyntax end)
    as [params|e]; [|auto with proxy].
  apply sends_at_bind; [done|by left|]. intros _ s2 _ _.
  destruct (String.eqb (tp_Name params) listInstancesTool); [auto with proxy|].
  apply sends_at_bind; [done|by left|]. intros sel s3 Hsel _. injection Hsel as Hsel.
  destruct sel as [tenant|msg]; [|auto with proxy].
  destruct (forward_call_sends r req params tenant s3) as (l & Hl & HP).
  exists l. split; [done|]. right. exists t, groups, tenant. split_and!; [done| |done].
  by eapply selected_authorized.
Qed.

Lemma sends_at_deferred {A} R cleanup (m : M (State E) A) s :
  sends_at R m s → silent cleanup → sends_at R (deferred cleanup m) s.
Proof.
  intros (l & Hl & HR) Hc. exists l. unfold deferred. destruct (m s) as [x s']. cbn in *.
  by rewrite Hc.
Qed.

Lemma handleToolsCall_authorized r req (s : State E) :
  sends_at (authorized_log r) (handleToolsCall h r req) s.
Proof.
  unfold handleToolsCall. apply sends_at_bind; [done|by left|]. intros start s1 _ _.
  apply sends_at_bind; [done|by left|]. intros _ s2 _ _.
  apply sends_at_deferred; [apply tools_call_body_authorized|]. done.
Qed.
End authorized.

(** ** The recording *)

Section recording.
Context {V : Type} `{Verifier V} (h : Handler V) {E : Env}.

(** What a step leaves alone: the recordings, and the operation's name. *)
Definition op_state (s : State E) : option Observability * string :=
  (h_obs s, tca_Method (h_out s)).

Definition keeps_op {A} (m : M (State E) A) : Prop := ∀ s, op_state (m s).2 = op_state s.

Lemma keeps_ret {A} (v : A) : keeps_op (mret v).
Proof. done. Qed.
Lemma keeps_write f : keeps_op (write f).
Proof. done. Qed.
Lemma keeps_gets {A} (f : State E → A) : keeps_op (gets f).
Proof. done. Qed.
Lemma keeps_on_out {A} (m : M (Outside E) A) : keeps_op (on_out m).
Proof. intros s. unfold on_out, on_cat, outside, zoom. by destruct (m (ct_out (h_cat s))). Qed.
Lemma keeps_error e : keeps_op (note (with_error e)).
Proof. done. Qed.
Lemma keeps_tool e : keeps_op (note (with_tool e)).
Proof. done. Qed.
Lemma keeps_tenant t : keeps_op (note (with_tenant t)).
Proof. done. Qed.
Lemma keeps_store st : keeps_op (modify (set_store st)).
Proof. done. Qed.
Lemma keeps_bind {A B} (m : M (State E) A) (k : A → M (State E) B) :
  keeps_op m → (∀ v, keeps_op (k v)) → keeps_op (m ≫= k).
Proof.
  intros Hm Hk s. unfold mbind, M_bind. specialize (Hm s).
  destruct (m s) as [[v|] s']; cbn in *; [|done]. by rewrite Hk.
Qed.

#[local] Hint Resolve keeps_ret keeps_write keeps_gets keeps_on_out keeps_error keeps_tool
  keeps_tenant keeps_store keeps_bind : proxy.

Lemma keeps_session_Get id : keeps_op (session_Get id).
Proof.
  unfold session_Get. repeat (apply keeps_bind; [auto with proxy|intros ?]).
  intros s. by destruct (Get _ _ _ _).
Qed.

Lemma keeps_session_Set pid b sid : keeps_op (session_SetBackendSID pid b sid).
Proof. unfold session_SetBackendSID. apply keeps_bind; [auto with proxy|]. done. Qed.

Lemma keeps_finish id resp : keeps_op (finish_call id resp).
Proof. destruct resp; unfold finish_call; auto with proxy. Qed.

#[local] Hint Resolve keeps_session_Get keeps_session_Set keeps_finish : proxy.

Lemma keeps_routeToBackend r id t bytes name ph : keeps_op (routeToBackend r id t bytes name ph).
Proof.
  unfold routeToBackend. destruct (Stateless (t_Backend t)); [auto with proxy|].
  apply keeps_bind; [auto with proxy|]. intros [sess|]; [|auto with proxy].
  apply keeps_bind; [|intros [sid|e]; auto with proxy].
  destruct (BackendSID sess (t_ID t)); [auto with proxy|].
  unfold open_backend_session. apply keeps_bind; [auto with proxy|].
  intros [[sid res]|e]; [|auto with proxy]. apply keeps_bind; [|auto with proxy].
  destruct (nonempty sid); auto with proxy.
Qed.

Lemma keeps_tools_call_body r req : keeps_op (tools_call_body h r req).
Proof.
  unfold tools_call_body. apply keeps_bind; [auto with proxy|]. intros t.
  destruct (Groups (Verifier_ h) t r) as [groups|e];
    [|destruct e; unfold auth_failure; auto with proxy].
  destruct (match j_Params req with Some v => unmarshal_params v | None => Err BadSyntax end)
    as [params|e]; [|auto with proxy].
  apply keeps_bind; [auto with proxy|]. intros _.
  destruct (String.eqb (tp_Name params) listInstancesTool); [auto with proxy|].
  apply keeps_bind; [auto with proxy|]. intros [tenant|msg]; [|auto with proxy].
  unfold forward_call. apply keeps_bind; [auto with proxy|]. intros _.
  destruct (stripTenantArg (j_Params req)); [|auto with proxy].
  apply keeps_bind; [auto with proxy|]. intros phs.
  apply keeps_bind; [apply keeps_routeToBackend|]. intros []; auto with proxy.
Qed.
End recording.

Lemma record_run {E : Env} start (s : State E) :
  h_obs (record_op start s).2 =
  RecordToolCall (h_out s) (e_clock E (o_ticks (ct_out (h_cat s))) - start) (h_obs s).
Proof. reflexivity. Qed.

(** ** What a run does not depend on *)

Section same.
Context {V : Type} `{Verifier V} (h : Handler V) {E : Env} (r r' : Request).
Hypothesis Hmethod : r_Method r = r_Method r'.
Hypothesis Hbody : r_Body r = r_Body r'.
Hypothesis Hsession :
  header_get mcpSessionHeader (r_Header r) = header_get mcpSessionHeader (r_Header r').
Hypothesis Hurl : metadataURL (ServerCfg h) r = metadataURL (ServerCfg h) r'.
Hypothesis Hgroups : ∀ now, Groups (Verifier_ h) now r = Groups (Verifier_ h) now r'.

Implicit Types s : State E.

Lemma bind_same {A B} (m : M (State E) A) (k k' : A → M (State E) B) s :
  (∀ v s', k v s' = k' v s') → (m ≫= k) s = (m ≫= k') s.
Proof. intros Hk. unfold mbind, M_bind. destruct (m s) as [[v|] s']; [apply Hk|done]. Qed.

Lemma forward_call_same req params t s :
  forward_call r req params t s = forward_call r' req params t s.
Proof.
  unfold forward_call. apply bind_same. intros _ s1.
  destruct (stripTenantArg (j_Params req)); [|done]. apply bind_same. intros phs s2.
  unfold routeToBackend. by rewrite Hsession.
Qed.

Lemma tools_call_body_same req s : tools_call_body h r req s = tools_call_body h r' req s.
Proof.
  unfold tools_call_body. apply bind_same. intros t s1. rewrite Hgroups.
  destruct (Groups (Verifier_ h) t r') as [groups|e].
  - destruct (match j_Params req with Some v => unmarshal_params v | None => Err BadSyntax end);
      [|done]. apply bind_same. intros _ s2. destruct (String.eqb _ _); [done|].
    apply bind_same. intros [t'|msg] s3; [apply forward_call_same|done].
  - unfold auth_failure, insufficient_scope_header, unauthorized_header. by rewrite Hurl.
Qed.

Lemma dispatch_same req s : dispatch h r req s = dispatch h r' req s.
Proof.
  unfold dispatch. repeat (destruct (String.eqb _ _); [first [done|idtac]|]); try done.
  - unfold handleToolsList. apply bind_same. intros t s1. by rewrite Hgroups.
  - unfold handleToolsCall. apply bind_same. intros start s1. apply bind_same. intros _ s2.
    unfold deferred. by rewrite tools_call_body_same.
Qed.

Lemma ServeHTTP_same s : ServeHTTP h r s = ServeHTTP h r' s.
Proof.
  unfold ServeHTTP. rewrite Hmethod, Hbody. destruct (String.eqb (r_Method r') "DELETE").
  { unfold handleDelete. by rewrite Hsession. }
  destruct (String.eqb (r_Method r') "GET"); [done|].
  destruct (negb (String.eqb (r_Method r') "POST")); [done|].
  destruct (r_Body r') as [body|]; [|done].
  destruct (v ← parse_text body; unmarshal_request v) as [req|e]; [|done].
  apply bind_same. intros _ s1. apply dispatch_same.
Qed.
End same.

(** ** Theorems *)

(** A tool call sends nothing, or it sends requests for a single tenant
    that the caller's verified groups authorize: to that tenant's backend, with
    that tenant's credential and headers. In particular a caller whose token is
    refused causes no request. *)
Theorem tools_call_authorized {V} `{Verifier V} {E : Env} (h : Handler V) r req (s : State E) :
  registry_wf (Registry_ h) →
  ∃ l, s_log (handleToolsCall h r req s).2 = s_log s ++ l ∧
    (l = [] ∨ ∃ now groups t, Groups (Verifier_ h) now r = Ok groups ∧
       t ∈ AuthorizedTenants (Registry_ h) groups ∧ Forall (tenant_exchange (E := E) t) l).
Proof. intros Hreg. by apply handleToolsCall_authorized. Qed.

Lemma tools_call_authorized_witness :
  let req := mkRPC "2.0" "tools/call"
    (Some (JObj [("name", JStr "get"); ("arguments", JObj [("tenant", JStr "dash")])]))
    (Some (JNum "7")) in
  let s' := (handleToolsCall handler_ex (call_ex "" "dash") req state_ex).2 in
  length (s_log s') = 1 ∧
  ∃ now groups t, Groups TokenIsGroup now (call_ex "" "dash") = Ok groups ∧
    t ∈ AuthorizedTenants registry_ex groups ∧ Forall (tenant_exchange (E := env_ex) t) (s_log s').
Proof.
  intros req s'. assert (length (s_log s') = 1) as Hlen by (vm_compute; reflexivity).
  split; [exact Hlen|].
  destruct (tools_call_authorized handler_ex (call_ex "" "dash") req state_ex registry_ex_wf)
    as (l & Hl & Hcase).
  fold s' in Hl. change (s_log state_ex) with (@nil exchange) in Hl. cbn [app] in Hl.
  rewrite Hl in Hlen |- *. destruct Hcase as [->|Hcase]; [discriminate Hlen|exact Hcase].
Defined.

(** C7: nothing of the caller's request but its method, its body, its session
    id and the groups its token stands for can influence anything the proxy does
    or sends (the public URL its own 401 and 403 answers mention apart): the
    token itself is never forwarded, nor is any other header. *)
Theorem serve_depends_only_on {V} `{Verifier V} {E : Env} (h : Handler V) r r' (s : State E) :
  r_Method r = r_Method r' → r_Body r = r_Body r' →
  header_get mcpSessionHeader (r_Header r) = header_get mcpSessionHeader (r_Header r') →
  metadataURL (ServerCfg h) r = metadataURL (ServerCfg h) r' →
  (∀ now, Groups (Verifier_ h) now r = Groups (Verifier_ h) now r') →
  serve h r s = serve h r' s.
Proof.
  intros Hm Hb Hs Hu Hg. unfold serve. by rewrite (ServeHTTP_same h r r').
Qed.

Lemma serve_depends_only_on_witness :
  let other := mkRequest "POST"
    (header_set "Cookie" "secret" (header_set "Authorization" ("bearer   dev") ∅)) "proxy" false
    (r_Body (call_ex "" "dash")) in
  serve handler_ex (call_ex "" "dash") state_ex = serve handler_ex other state_ex.
Proof.
  intros other. apply (serve_depends_only_on handler_ex (call_ex "" "dash") other state_ex);
    try reflexivity; vm_compute; reflexivity.
Defined.

(** C32: every tool call is recorded exactly once, whatever happens to it (a
    panic included): one duration and one count, under the same attributes. *)
Theorem tool_call_recorded {V} `{Verifier V} {E : Env} (h : Handler V) r req (s : State E) obs :
  h_obs s = Some obs →
  ∃ obs' d a, h_obs (handleToolsCall h r req s).2 = Some obs' ∧ tca_Method a = "tools/call" ∧
    ob_opCount obs' = ob_opCount obs ++ [tool_call_attributes a] ∧
    ob_opDuration obs' = ob_opDuration obs ++ [(d, tool_call_attributes a)] ∧
    ob_sessionCount obs' = ob_sessionCount obs.
Proof.
  intros Hobs. unfold handleToolsCall. unfold mbind at 1, M_bind.
  change (on_out now s) with (Return (e_clock E (o_ticks (ct_out (h_cat s)))), (on_out now s).2).
  unfold mbind at 1, M_bind, note at 1, modify. cbv beta iota zeta.
  set (s1 := set_out _ _). unfold deferred.
  pose proof (keeps_tools_call_body h r req s1) as Hkeep.
  destruct (tools_call_body h r req s1) as [x s2]. cbn [snd] in Hkeep |- *.
  unfold op_state in Hkeep. cbn in Hkeep. injection Hkeep as Ho Hmethod.
  rewrite Hobs in Ho. cbv beta iota zeta. cbn [snd]. rewrite record_run, Ho. cbn [RecordToolCall].
  eexists _, _, (h_out s2). split_and!; [reflexivity|done|reflexivity..].
Qed.

Lemma tool_call_recorded_witness :
  h_obs state_ex = Some (mkObservability [] [] 0 ":9090" "/metrics") ∧
  ∃ obs' d a, h_obs (handleToolsCall handler_ex (call_ex "" "dash")
                       (mkRPC "2.0" "tools/call" None None) state_ex).2 = Some obs' ∧
    tca_Method a = "tools/call" ∧ ob_opCount obs' = [tool_call_attributes a] ∧
    ob_opDuration obs' = [(d, tool_call_attributes a)] ∧ ob_sessionCount obs' = 0.
Proof.
  split; [reflexivity|].
  apply (tool_call_recorded handler_ex (call_ex "" "dash") (mkRPC "2.0" "tools/call" None None)
    state_ex (mkObservability [] [] 0 ":9090" "/metrics") eq_refl).
Defined.
