(* ===== verification/Forward.v ===== *)
(** * What a tool call forwards

    The requests one call makes, with their bodies: the handshake where a
    backend session has to be opened, then the caller's own request without the
    tenant selector, with the client identity added for a stateless backend. *)

From Stdlib Require Import Ascii.
From stdpp Require Import base numbers option pretty gmap fin_maps sorting strings list relations.
From S2P Require Import Prelude GoStrings Json Parse Decode Config Registry Session Http Rpc Schema.
From S2P Require Import ParamHeaders Client Catalog Auth OAuth Observability Handler HandlerSelect.
From S2P Require Import Main Isolation Calls.

#[local] Set Warnings "-clear-no-such-hyp".
#[local] Open Scope nat_scope.

(** ** Values the decoder accepts again

    Well formed, and at most [d] deep. *)

Definition json_within (d : N) (v : json) : Prop := json_ok v = true ∧ (json_depth v <= d)%N.

Lemma json_within_mono d d' v : (d <= d')%N → json_within d v → json_within d' v.
Proof. intros Hd [Hok Hv]. split; [done|lia]. Qed.

Lemma deepest_member_le d l :
  (deepest_member l <= d)%N ↔ Forall (λ kv, json_depth kv.2 <= d)%N l.
Proof.
  induction l as [|kv l IH]; [split; [constructor|unfold deepest_member; simpl; lia]|].
  rewrite Forall_cons, <- IH. unfold deepest_member in *. cbn [foldr]. lia.
Qed.

Lemma json_within_obj d l :
  json_within (N.succ d) (JObj l) ↔
  Forall (λ kv, utf8_valid kv.1 = true ∧ json_within d kv.2) l.
Proof.
  unfold json_within. cbn [json_ok json_depth]. fold (deepest_member l).
  rewrite <- N.succ_le_mono, deepest_member_le.
  induction l as [|kv l IH]; [done|]. rewrite !Forall_cons, <- IH. cbn [forallb].
  rewrite !andb_true_iff. tauto.
Qed.

Lemma json_within_members d l v :
  struct_members v = Ok l → json_within d v →
  Forall (λ kv, utf8_valid kv.1 = true ∧ json_within (N.pred d) kv.2) l.
Proof.
  destruct v as [| | | | |l']; intros [= <-]; [constructor|]. intros Hw.
  apply json_within_obj. destruct Hw as [? Hd]. split; [done|]. cbn [json_depth] in *. lia.
Qed.

Lemma raw_field_member field l v : raw_field field l = Some v → ∃ k, (k, v) ∈ l.
Proof.
  unfold raw_field. induction l as [|[k w] l IH] using rev_ind; [done|].
  rewrite foldl_app. cbn [foldl fst snd]. destruct (names_field field k).
  - intros [= ->]. exists k. set_solver.
  - intros (k' & Hk')%IH. exists k'. set_solver.
Qed.

Lemma obj_map_member l k v : obj_map l !! k = Some v → (k, v) ∈ l.
Proof.
  induction l as [|[k' w] l IH] using rev_ind.
  { change (obj_map []) with (∅ : gmap string json). by rewrite lookup_empty. }
  rewrite obj_map_snoc. destruct (decide (k' = k)) as [->|Hk].
  - rewrite lookup_insert_eq. intros [= ->]. set_solver.
  - rewrite lookup_insert_ne by done. set_solver.
Qed.

(** The members of a decoded map. *)
Definition map_within (d : N) (m : gmap string json) : Prop :=
  ∀ k v, m !! k = Some v → utf8_valid k = true ∧ json_within d v.

Lemma marshal_map_within d m : map_within d m → json_within (N.succ d) (marshal_map m).
Proof.
  intros Hm. unfold marshal_map. apply json_within_obj, Forall_forall. intros [k v] Hin.
  apply Hm. by rewrite elem_of_sort_on, elem_of_map_to_list in Hin.
Qed.

Lemma map_within_insert d m k v :
  utf8_valid k = true → json_within d v → map_within d m → map_within d (<[k := v]> m).
Proof.
  intros Hk Hv Hm k' v'. destruct (decide (k = k')) as [<-|Hne].
  - rewrite lookup_insert_eq. by intros [= <-].
  - rewrite lookup_insert_ne by done. apply Hm.
Qed.

Lemma map_within_delete d m k : map_within d m → map_within d (delete k m).
Proof. intros Hm k' v' [_ H]%lookup_delete_Some. by apply Hm. Qed.

Lemma unmarshal_map_within d v p :
  unmarshal_map v = Ok p → json_within d v → map_within (N.pred d) (nil_map p).
Proof.
  intros Hv Hw. assert (∃ l, struct_members v = Ok l ∧ nil_map p = obj_map l) as (l & Hl & ->).
  { destruct v as [| | | | |l]; try done; injection Hv as <-; [by exists []|by exists l]. }
  pose proof (json_within_members d l v Hl Hw) as Hall. rewrite Forall_forall in Hall.
  intros k x Hx%obj_map_member. by apply (Hall (k, x)).
Qed.

(** ** The forwarded request *)

Lemma unmarshal_request_within d v req :
  unmarshal_request v = Ok req → json_within d v →
  (∀ p, j_Params req = Some p → json_within (N.pred d) p) ∧
  (∀ i, j_ID req = Some i → json_within (N.pred d) i).
Proof.
  unfold unmarshal_request. destruct (struct_members v) as [l|] eqn:Hl; [|done].
  cbn [mbind result_bind]. destruct (string_field "jsonrpc" l); [|done]. cbn [mbind result_bind].
  destruct (string_field "method" l); [|done]. cbn [mbind result_bind]. intros [= <-] Hw.
  pose proof (json_within_members d l v Hl Hw) as Hall. rewrite Forall_forall in Hall.
  split; intros x (k & Hk)%raw_field_member; by apply (Hall (k, x)).
Qed.

Lemma stripTenantArg_within d p p' :
  stripTenantArg (Some p) = Ok (Some p') → json_within d p → json_within d p'.
Proof.
  unfold stripTenantArg. destruct (unmarshal_map p) as [m|] eqn:Hm; [|done]. cbn [mbind result_bind].
  intros Hs Hw. pose proof (unmarshal_map_within d p m Hm Hw) as Hin. revert Hs.
  destruct (nil_map m !! "arguments") as [a|] eqn:Ha; [|by intros [= <-]].
  destruct (unmarshal_map a) as [args|] eqn:Hargs; [|done]. cbn [mbind result_bind].
  destruct (nil_map args !! tenantArg) as [x|] eqn:Hx; [|by intros [= <-]]. intros [= <-].
  apply Hin in Ha as [_ Ha]. pose proof (unmarshal_map_within _ a args Hargs Ha) as Hargs'.
  assert (1 < d)%N as Hd.
  { destruct a as [| | | | |l]; try done; injection Hargs as <-; [done|].
    destruct Ha as [_ Ha]. cbn [json_depth] in Ha. lia. }
  rewrite <- (N.succ_pred d) by lia. apply marshal_map_within, map_within_insert; [done| |done].
  rewrite <- (N.succ_pred (N.pred d)) by lia. by apply marshal_map_within, map_within_delete.
Qed.

Lemma stripTenantArg_Some o o' :
  stripTenantArg o = Ok o' → ∃ p p', o = Some p ∧ o' = Some p'.
Proof.
  unfold stripTenantArg. destruct o as [p|]; [|done]. intros Hs. exists p. revert Hs.
  destruct (unmarshal_map p) as [m|]; [|done]. cbn [mbind result_bind].
  destruct (nil_map m !! "arguments") as [a|]; [|intros [= <-]; by exists p].
  destruct (unmarshal_map a) as [args|]; [|done]. cbn [mbind result_bind].
  destruct (nil_map args !! tenantArg); intros [= <-]; by eexists.
Qed.

(** What [injectMeta] adds fits in three levels. *)
Lemma injectMeta_within d p p' :
  (4 <= d)%N → injectMeta (Some p) = Some p' → json_within d p → json_within d p'.
Proof.
  intros Hd Hi Hw. unfold injectMeta in Hi.
  assert (∃ m, p' = marshal_map (<["_meta" := statelessClientMeta]> m) ∧ map_within (N.pred d) m)
    as (m & -> & Hm).
  { destruct (unmarshal_map p) as [[m|]|e] eqn:Hm; simplify_eq/=.
    - exists m. split; [done|]. by apply (unmarshal_map_within d p (Some m)).
    - exists ∅. split; [done|]. by intros ? ? ?%lookup_empty_Some. }
  rewrite <- (N.succ_pred d) by lia. apply marshal_map_within, map_within_insert; [done| |done].
  split; [vm_compute; reflexivity|]. trans 2%N; [vm_compute; discriminate|lia].
Qed.

Lemma marshal_request_within d method params id :
  utf8_valid method = true →
  (∀ p, params = Some p → json_within d p) → (∀ i, id = Some i → json_within d i) →
  json_within (N.succ d) (marshal_request (mkRPC "2.0" method params id)).
Proof.
  intros Hm Hp Hi. unfold marshal_request. apply json_within_obj.
  assert (∀ k o, utf8_valid k = true → (∀ v, o = Some v → json_within d v) →
    Forall (λ kv, utf8_valid kv.1 = true ∧ json_within d kv.2) (omit_empty k o)) as Homit.
  { intros k [v|] Hk Ho; [|constructor]. constructor; [|constructor]. by split; [|apply Ho]. }
  cbn [app j_JSONRPC j_Method j_Params j_ID].
  constructor; [split; [done|split; [done|simpl; lia]]|].
  constructor; [split; [done|split; [done|simpl; lia]]|].
  apply Forall_app. split; by apply Homit.
Qed.

(** ** The requests of one call, in order *)

Definition bodies (l : list exchange) : list string := q_Body ∘ fst <$> l.

Definition initialize_body : string :=
  print (marshal_request (mkRPC "2.0" "initialize" (Some defaultInitParams) (Some (JNum "1")))).
Definition initialized_body : string :=
  print (marshal_request (mkRPC "2.0" "notifications/initialized" None None)).

(** The possible sequences of bodies when the call itself is [call]: nothing
    further is sent after a failure, the handshake only opens a session, and its
    notification only names a session the backend issued. *)
Definition call_plans (b : Backend) (call : string) : list (list string) :=
  if Stateless b then [[]; [call]]
  else [[]; [call]; [initialize_body]; [initialize_body; call];
        [initialize_body; initialized_body; call]].

(** The request a backend of this kind is sent. *)
Definition forwarded (b : Backend) (params : json) (id : option json) : option jsonRPCRequest :=
  params ← (if Stateless b then injectMeta (Some params) else Some params);
  Some (mkRPC "2.0" "tools/call" (Some params) id).

Section bodies.
Context {E : Env}.

(** [sends_bodies ps m]: the bodies [m] sends, in order, are one of [ps]. *)
Definition sends_bodies {A} (ps : list (list string)) (m : M (State E) A) : Prop :=
  ∀ s, ∃ l, s_log (m s).2 = s_log s ++ l ∧ bodies l ∈ ps.

Lemma bodies_app l1 l2 : bodies (l1 ++ l2) = bodies l1 ++ bodies l2.
Proof. apply fmap_app. Qed.

Lemma sends_bodies_mono {A} ps ps' (m : M (State E) A) :
  (∀ l, l ∈ ps → l ∈ ps') → sends_bodies ps m → sends_bodies ps' m.
Proof. intros Hps Hm s. destruct (Hm s) as (l & Hl & Hin). exists l. auto. Qed.

Lemma silent_bodies {A} (m : M (State E) A) : silent m → sends_bodies [[]] m.
Proof. intros Hm s. exists []. rewrite Hm, app_nil_r. split; [done|]. set_solver. Qed.

Lemma sends_bodies_silent_bind {A B} ps (m : M (State E) A) (k : A → M (State E) B) :
  silent m → [] ∈ ps → (∀ v, sends_bodies ps (k v)) → sends_bodies ps (m ≫= k).
Proof.
  intros Hm Hps Hk s. specialize (Hm s). unfold mbind, M_bind.
  destruct (m s) as [[v|] s']; cbn [snd] in *.
  - destruct (Hk v s') as (l & Hl & Hin). exists l. by rewrite Hl, Hm.
  - exists []. by rewrite Hm, app_nil_r.
Qed.

Lemma sends_bodies_bind_silent {A B} ps (m : M (State E) A) (k : A → M (State E) B) :
  sends_bodies ps m → (∀ v, silent (k v)) → sends_bodies ps (m ≫= k).
Proof.
  intros Hm Hk s. destruct (Hm s) as (l & Hl & Hin). exists l. unfold mbind, M_bind.
  destruct (m s) as [[v|] s']; cbn [snd] in *; [by rewrite Hk|done].
Qed.

(** A run that returns, followed by what it enables. *)
Lemma sends_bodies_then {A B} (ps : list (list string)) qs (m : M (State E) A) (k : A → M (State E) B) (Q : A → list string → Prop) :
  (∀ s, ∃ l, s_log (m s).2 = s_log s ++ l ∧
     match (m s).1 with Return v => Q v (bodies l) | Panic => bodies l ∈ ps end) →
  (∀ v l, Q v l → sends_bodies (qs v l) (k v) ∧ (∀ l', l' ∈ qs v l → l ++ l' ∈ ps)) →
  sends_bodies ps (m ≫= k).
Proof.
  intros Hm Hk s. destruct (Hm s) as (l & Hl & HQ). unfold mbind, M_bind.
  destruct (m s) as [[v|] s']; cbn [fst snd] in *; [|by exists l].
  destruct (Hk v _ HQ) as [Hk' Hps]. destruct (Hk' s') as (l' & Hl' & Hin).
  exists (l ++ l'). rewrite Hl', Hl, app_assoc, bodies_app. auto.
Qed.

(** *** The client's calls *)

Definition emits {A} (ps : list (list string)) (m : M (Outside E) A) : Prop :=
  ∀ o, ∃ l, o_log (m o).2 = o_log o ++ l ∧ bodies l ∈ ps.

Lemma emits_bind {A B} ps (m : M (Outside E) A) (k : A → M (Outside E) B) :
  emits ps m → (∀ v o, (k v o).2 = o) → emits ps (m ≫= k).
Proof.
  intros Hm Hk o. destruct (Hm o) as (l & Hl & Hin). exists l. unfold mbind, M_bind.
  destruct (m o) as [[v|] o']; cbn [snd] in *; by rewrite ?Hk.
Qed.

Lemma emits_on_out {A} ps (m : M (Outside E) A) : emits ps m → sends_bodies ps (on_out m).
Proof.
  intros Hm s. destruct (Hm (ct_out (h_cat s))) as (l & Hl & Hin). exists l.
  unfold on_out, on_cat, outside, zoom. by destruct (m (ct_out (h_cat s))).
Qed.

Section client_bodies.
Variables (b : Backend) (u : URL).
Hypothesis Hurl : e_url_Parse E (u_String (b_URL b)) = Some u.

Lemma post_emits payload sid credential extra m name :
  emits [[payload]] (post b payload sid credential extra m name).
Proof.
  intros o. rewrite (post_log _ _ _ _ _ _ _ _ _ Hurl). eexists. split; [reflexivity|].
  apply list_elem_of_singleton. reflexivity.
Qed.

Lemma initialize_emits credential :
  emits [[initialize_body]] (initialize b (Some defaultInitParams) credential).
Proof. apply emits_bind; [apply post_emits|done]. Qed.

Lemma notified_emits sid credential :
  emits [[initialized_body]] (notifyInitialized b sid credential).
Proof. apply emits_bind; [apply post_emits|done]. Qed.

(** The call itself: exactly one request, or a panic before anything is sent. *)
Lemma callTool_emits sid credential params id headers name :
  let req := mkRPC "2.0" "tools/call" (Some params) id in
  parse (print (marshal_request req)) = Some (marshal_request req) →
  emits (match forwarded b params id with
         | Some req => [[print (marshal_request req)]]
         | None => [[]]
         end)
    (callTool b sid credential (print (marshal_request req)) headers name).
Proof.
  intros req Hp. unfold callTool, forwarded. unfold parse_text. rewrite Hp.
  cbn [mbind result_bind]. rewrite unmarshal_marshal_request. unfold inject_meta.
  cbn [j_JSONRPC j_Method j_Params j_ID req].
  destruct (Stateless b); [destruct (injectMeta (Some params)) as [p'|]|].
  - refine (emits_bind _ _ _ (post_emits _ _ _ _ _ _) _). done.
  - intros o. exists []. rewrite app_nil_r. split; [done|]. by apply list_elem_of_singleton.
  - refine (emits_bind _ _ _ (post_emits _ _ _ _ _ _) _). done.
Qed.
End client_bodies.

(** *** Routing *)

Lemma silent_finish_call id resp : silent (finish_call (E := E) id resp).
Proof. by destruct resp. Qed.

(** A backend whose URL does not parse is sent nothing. *)
Lemma routeToBackend_bad_url r id t bytes name ph :
  e_url_Parse E (u_String (b_URL (t_Backend t))) = None →
  sends_bodies [[]] (routeToBackend (E := E) r id t bytes name ph).
Proof.
  intros Hurl s. destruct (routeToBackend_sends r id t bytes name ph s) as (l & Hl & Hx).
  exists l. split; [exact Hl|]. destruct Hx as [|x l (extra & (sid & u & n & m & nm & Hu & _) & _)].
  - by apply list_elem_of_singleton.
  - by rewrite Hurl in Hu.
Qed.

Lemma returns_on_out {A} (m : M (Outside E) A) : returns m → returns (on_out m).
Proof. intros Hm. unfold on_out, on_cat, outside. auto with proxy. Qed.

(** A call that returns, with what it sent. *)
Lemma on_out_run {A} body (m : M (Outside E) A) s :
  returns m → emits [[body]] m →
  ∃ v l s', on_out m s = (Return v, s') ∧ s_log s' = s_log s ++ l ∧ bodies l = [body].
Proof.
  intros Hret He%emits_on_out. destruct (returns_on_out m Hret s) as (v & s' & Hr). destruct (He s) as (l & Hl & Hin).
  apply list_elem_of_singleton in Hin. rewrite Hr in Hl. by exists v, l, s'.
Qed.

(** Opening a session: on success at least the handshake's first request. *)
Lemma open_backend_session_bodies proxySID t u :
  e_url_Parse E (u_String (b_URL (t_Backend t))) = Some u →
  ∀ s : State E, ∃ l, s_log (open_backend_session proxySID t s).2 = s_log s ++ l ∧
    ∃ v, (open_backend_session proxySID t s).1 = Return v ∧
    match v with
    | Err _ => bodies l = [initialize_body]
    | Ok _ => bodies l ∈ [[initialize_body]; [initialize_body; initialized_body]]
    end.
Proof.
  intros Hu s. unfold open_backend_session.
  destruct (on_out_run _ _ s (initialize_returns (t_Backend t) _ (EffectiveCredential t))
              (initialize_emits _ u Hu _)) as (v & l & s1 & Hr & Hl & Hb).
  unfold mbind at 1 4, M_bind. rewrite Hr.
  destruct v as [[sid res]|e]; [|exists l; split; [done|]; eexists; split; [reflexivity|done]].
  destruct (nonempty sid).
  - destruct (on_out_run _ _ s1 (notifyInitialized_returns (t_Backend t) sid (EffectiveCredential t))
                (notified_emits _ u Hu _ _)) as ([] & l2 & s2 & Hr2 & Hl2 & Hb2).
    unfold mbind, M_bind. rewrite Hr2. exists (l ++ l2). split.
    + trans (s_log s2); [done|]. by rewrite Hl2, Hl, app_assoc.
    + eexists. split; [reflexivity|]. rewrite bodies_app, Hb, Hb2. cbn. set_solver.
  - exists l. split; [exact Hl|]. eexists. split; [reflexivity|]. rewrite Hb. set_solver.
Qed.

Definition plans (b : Backend) (params : json) (id : option json) : list (list string) :=
  match forwarded b params id with
  | Some req => call_plans b (print (marshal_request req))
  | None => [[]]
  end.

Lemma plans_nil b params id : [] ∈ plans b params id.
Proof.
  unfold plans, call_plans. destruct (forwarded b params id), (Stateless b); set_solver.
Qed.

Lemma silent_plans {A} b params id (m : M (State E) A) :
  silent m → sends_bodies (plans b params id) m.
Proof.
  intros Hm%silent_bodies. eapply sends_bodies_mono; [|exact Hm].
  intros l ->%list_elem_of_singleton. apply plans_nil.
Qed.

Lemma routeToBackend_bodies r id t params name ph :
  let req := mkRPC "2.0" "tools/call" (Some params) id in
  parse (print (marshal_request req)) = Some (marshal_request req) →
  sends_bodies (plans (t_Backend t) params id)
    (routeToBackend (E := E) r id t (print (marshal_request req)) name ph).
Proof.
  intros req Hp. destruct (e_url_Parse E (u_String (b_URL (t_Backend t)))) as [u|] eqn:Hu.
  2: { eapply sends_bodies_mono; [|by apply routeToBackend_bad_url].
       intros l ->%list_elem_of_singleton. apply plans_nil. }
  pose proof (λ sid, emits_on_out _ _ (callTool_emits _ u Hu sid (EffectiveCredential t) params id
    (mergeHeaders [t_Headers t; ph]) name Hp)) as Hcall. fold req in Hcall.
  unfold routeToBackend. destruct (Stateless (t_Backend t)) eqn:Hs.
  - apply sends_bodies_bind_silent; [|apply silent_finish_call].
    eapply sends_bodies_mono; [|apply Hcall]. intros l. unfold plans, call_plans. rewrite Hs.
    destruct (forwarded _ _ _); [by right|done].
  - assert (forwarded (t_Backend t) params id = Some req) as Hf
      by (unfold forwarded; by rewrite Hs).
    rewrite Hf in Hcall.
    apply sends_bodies_silent_bind; [apply silent_session_Get|apply plans_nil|].
    intros [sess|]; [|by apply silent_plans].
    set (call := print (marshal_request req)).
    apply (sends_bodies_then _ (λ v _, match v with Ok _ => [[call]] | Err _ => [[]] end) _ _
      (λ v l, match v with
              | Err _ => l = [initialize_body]
              | Ok _ => l ∈ [[]; [initialize_body]; [initialize_body; initialized_body]]
              end)).
    + intros s. destruct (BackendSID sess (t_ID t)) as [sid|].
      * exists []. rewrite app_nil_r. split; [done|left].
      * destruct (open_backend_session_bodies (header_get mcpSessionHeader (r_Header r)) t u Hu s)
          as (l & Hl & v & Hv & Hb). exists l. rewrite Hv. split; [exact Hl|].
        destruct v; [by right|done].
    + unfold plans, call_plans. rewrite Hf, Hs. fold call. intros [sid|e] l Hl; split.
      * apply sends_bodies_bind_silent; [apply Hcall|apply silent_finish_call].
      * intros l' ->%list_elem_of_singleton.
        apply elem_of_cons in Hl as [->|[->| ->%list_elem_of_singleton]%elem_of_cons];
          [do 1 right; left|do 3 right; left|do 4 right; left].
      * by apply silent_bodies.
      * intros l' ->%list_elem_of_singleton. subst l. do 2 right. left.
Qed.
End bodies.

(** ** From the request's body to the backend *)

(** A parsed request stays within the decoder's limits once its selector is
    removed, so the backend client decodes exactly what was built. *)
Lemma forward_roundtrip body req p' :
  (v ← parse_text body; unmarshal_request v) = Ok req →
  stripTenantArg (j_Params req) = Ok (Some p') →
  json_within (N.pred max_depth) p' ∧
  ∀ i, j_ID req = Some i → json_within (N.pred max_depth) i.
Proof.
  unfold parse_text. destruct (parse body) as [v|] eqn:Hv; [|done]. cbn [mbind result_bind].
  intros Hreq Hstrip. apply parse_sound in Hv.
  destruct (unmarshal_request_within _ v req Hreq Hv) as [Hp Hi]. split; [|exact Hi].
  destruct (j_Params req) as [p|]; [|done]. eapply stripTenantArg_within; [exact Hstrip|].
  by apply Hp.
Qed.

Lemma built_roundtrip params id :
  json_within (N.pred max_depth) params →
  (∀ i, id = Some i → json_within (N.pred max_depth) i) →
  let req := mkRPC "2.0" "tools/call" (Some params) id in
  parse (print (marshal_request req)) = Some (marshal_request req).
Proof.
  intros Hp Hi req.
  destruct (marshal_request_within (N.pred max_depth) "tools/call" (Some params) id) as [Hok Hd];
    [done|by intros p [= <-]|done|]. by apply parse_print.
Qed.

(** What the backend decodes is what was forwarded. *)
Lemma forwarded_roundtrip b params id req :
  json_within (N.pred max_depth) params →
  (∀ i, id = Some i → json_within (N.pred max_depth) i) →
  forwarded b params id = Some req →
  parse (print (marshal_request req)) = Some (marshal_request req).
Proof.
  intros Hp Hi. unfold forwarded. destruct (Stateless b).
  - destruct (injectMeta (Some params)) as [p'|] eqn:Hinj; [|done]. intros [= <-].
    apply built_roundtrip; [|done]. eapply injectMeta_within; [|exact Hinj|done]. done.
  - intros [= <-]. by apply built_roundtrip.
Qed.

Section serve.
Context {V : Type} `{Verifier V} (h : Handler V) {E : Env}.

(** A tenant the caller's verified groups authorize, at some reading of the clock. *)
Definition authorized_for (r : Request) (t : Tenant) : Prop :=
  ∃ n groups, Groups (Verifier_ h) (e_clock E n) r = Ok groups ∧ t ∈ AuthorizedTenants (Registry_ h) groups.

(** What a tools/call may add to the log: nothing, or requests to one tenant, an
    authorized one, whose bodies, in order, are a plan for the request without its
    selector. *)
Definition call_log (r : Request) (req : jsonRPCRequest) (l : list exchange) : Prop :=
  l = [] ∨ ∃ t p call, authorized_for r t ∧
    Forall (tenant_exchange (E := E) t) l ∧
    stripTenantArg (j_Params req) = Ok (Some p) ∧
    forwarded (t_Backend t) p (j_ID req) = Some call ∧
    bodies l ∈ call_plans (t_Backend t) (print (marshal_request call)).

Variables (body : string) (req : jsonRPCRequest).
Hypothesis Hreq : (v ← parse_text body; unmarshal_request v) = Ok req.

Hypothesis Hreg : registry_wf (Registry_ h).

Lemma forward_call_log r params t (s : State E) :
  authorized_for r t → sends_at (call_log r req) (forward_call r req params t) s.
Proof.
  intros Ht.
  destruct (forward_call_sends r req params t s) as (l & Hl & Hx). exists l. split; [exact Hl|].
  destruct (stripTenantArg (j_Params req)) as [[p|]|e] eqn:Hs.
  - destruct (forward_roundtrip body req p Hreq Hs) as [Hp Hi].
    assert (sends_bodies (plans (t_Backend t) p (j_ID req)) (forward_call (E := E) r req params t))
      as Hb.
    { unfold forward_call. apply sends_bodies_silent_bind; [done|apply plans_nil|]. intros _.
      rewrite Hs. apply sends_bodies_silent_bind; [done|apply plans_nil|]. intros phs.
      apply sends_bodies_bind_silent; [|by intros []].
      by apply routeToBackend_bodies, built_roundtrip. }
    destruct (Hb s) as (l' & Hl' & Hin). rewrite Hl in Hl'. apply app_inv_head in Hl' as <-.
    unfold plans in Hin. destruct (forwarded (t_Backend t) p (j_ID req)) as [call|] eqn:Hf.
    + right. exists t, p, call. done.
    + left. apply list_elem_of_singleton in Hin. by destruct l.
  - by apply stripTenantArg_Some in Hs as (? & ? & _ & ?).
  - left. unfold forward_call in Hl. rewrite Hs in Hl.
    assert (s_log s ++ [] = s_log s ++ l) as Hn by (rewrite app_nil_r; exact Hl).
    by apply app_inv_head in Hn as <-.
Qed.

Lemma tools_call_body_log r (s : State E) :
  sends_at (call_log r req) (tools_call_body h r req) s.
Proof.
  assert (∀ A (m : M (State E) A) s, silent m → sends_at (call_log r req) m s) as Hsil
    by (intros; apply silent_sends; [done|by left]).
  unfold tools_call_body. apply sends_at_bind; [done|by left|]. intros t s1 Ht _.
  destruct (Groups (Verifier_ h) t r) as [groups|e] eqn:Hg; [|apply Hsil, auth_failure_silent].
  destruct (match j_Params req with Some v => unmarshal_params v | None => Err BadSyntax end)
    as [params|e]; [|by apply Hsil].
  apply sends_at_bind; [done|by left|]. intros _ s2 _ _.
  destruct (String.eqb (tp_Name params) listInstancesTool); [by apply Hsil|].
  apply sends_at_bind; [done|by left|]. intros [tenant|msg] s3 Hsel _; [|by apply Hsil].
  injection Ht as Ht. injection Hsel as Hsel. apply forward_call_log. rewrite <- Ht in Hg.
  eexists _, groups. split; [exact Hg|by eapply selected_authorized].
Qed.

Lemma handleToolsCall_log r (s : State E) :
  sends_at (call_log r req) (handleToolsCall h r req) s.
Proof.
  unfold handleToolsCall. apply sends_at_bind; [done|by left|]. intros start s1 _ _.
  apply sends_at_bind; [done|by left|]. intros _ s2 _ _.
  apply sends_at_deferred; [apply tools_call_body_log|done].
Qed.

(** A POST whose body is this request runs its handler on a fresh response. *)
Lemma serve_tools_call r (s : State E) :
  r_Method r = "POST" → r_Body r = Some body → j_Method req = "tools/call" →
  ∃ w, serve h r s = match handleToolsCall h r req (set_w w s) with
                     | (Return _, s) => (Return (w_finish (h_w s)), s)
                     | (Panic, s) => (Panic, s)
                     end.
Proof.
  intros Hm Hb Hcall. unfold serve, ServeHTTP. rewrite Hm, Hb. cbn [String.eqb Ascii.eqb Bool.eqb negb].
  rewrite Hreq. unfold dispatch. rewrite Hcall. cbn [String.eqb Ascii.eqb Bool.eqb].
  unfold mbind at 1, M_bind. destruct (AllStateless (Registry_ h)); eexists; reflexivity.
Qed.
End serve.

(** ** Theorem *)


