(* ===== verification/Listing.v ===== *)
(** * tools/list: the union a caller sees

    What the response lists, for which tenants, and that building it leaves the
    cached tools alone; and that the selector it advertises is the one tools/call
    accepts. *)

From Stdlib Require Import Ascii.
From stdpp Require Import base numbers option pretty gmap fin_maps sorting strings list relations.
From S2P Require Import Prelude GoStrings Json Decode Config Registry Session Http Rpc.
From S2P Require Import Schema ParamHeaders Client Catalog Auth OAuth Observability Handler HandlerSelect.

#[local] Set Warnings "-clear-no-such-hyp".
#[local] Open Scope nat_scope.

(** ** The union *)

Section union.
Variable heap : list rawTool.

Definition tool_at (r : nat) : rawTool := default ∅ (heap !! r).

(** The tools of the views, one by one, with their tenant. *)
Definition entries (views : list (Tenant * list nat)) : list (Tenant * nat) :=
  v ← views; (pair v.1) <$> v.2.

Definition entry_name (e : Tenant * nat) : string := toolName (tool_at e.2).

(** The entries of one name, in order. *)
Definition named_entries (l : list (Tenant * nat)) (name : string) : list (Tenant * nat) :=
  filter (λ e, entry_name e = name) l.

Record union_of (l : list (Tenant * nat)) (u : union) : Prop := {
  uo_NoDup : NoDup (un_order u);
  uo_order : ∀ name, name ∈ un_order u ↔ name ∈ entry_name <$> l;
  uo_defs : ∀ name, un_defs u !! name = snd <$> head (named_entries l name);
  uo_having : ∀ name, default [] (un_having u !! name) = t_ID ∘ fst <$> named_entries l name }.

Lemma union_views_entries views :
  union_views heap views =
  foldl (λ u e, union_add heap (t_ID e.1) u e.2) (mkUnion [] ∅ ∅) (entries views).
Proof.
  unfold union_views, entries. generalize (mkUnion [] ∅ ∅) as u.
  induction views as [|[t refs] views IH]; intros u; [done|].
  cbn [foldl]. rewrite bind_cons, foldl_app, <- IH. f_equal. cbn [fst snd].
  revert u. induction refs as [|r refs IHr]; intros u; [done|]. cbn. apply IHr.
Qed.

Lemma named_entries_app l e name :
  named_entries (l ++ [e]) name =
  named_entries l name ++ (if decide (entry_name e = name) then [e] else []).
Proof. unfold named_entries. by rewrite filter_app, filter_cons. Qed.

Lemma union_of_add l u e :
  union_of l u → union_of (l ++ [e]) (union_add heap (t_ID e.1) u e.2).
Proof.
  intros [Hnd Ho Hd Hh]. unfold union_add. fold (tool_at e.2). fold (entry_name e).
  assert (∀ name, name ∈ un_order u ↔ is_Some (un_defs u !! name)) as Hdom.
  { intros name. rewrite Ho, Hd. unfold named_entries. split.
    - intros (e' & -> & He')%list_elem_of_fmap.
      destruct (filter (λ x, entry_name x = entry_name e') l) as [|x k] eqn:Hf; [|by eexists].
      exfalso. apply (not_elem_of_nil e'). rewrite <- Hf. by apply list_elem_of_filter.
    - intros [r Hr]. destruct (filter (λ x, entry_name x = name) l) as [|x k] eqn:Hf; [done|].
      assert (x ∈ filter (λ x, entry_name x = name) l) as Hx by (rewrite Hf; left).
      apply list_elem_of_filter in Hx as [<- Hx]. by apply list_elem_of_fmap_2. }
  assert (∀ name, default [] (<[entry_name e := default [] (un_having u !! entry_name e) ++ [t_ID e.1]]>
            (un_having u) !! name) = t_ID ∘ fst <$> named_entries (l ++ [e]) name) as Hhav.
  { intros name. rewrite named_entries_app, fmap_app.
    destruct (decide (entry_name e = name)) as [<-|Hne].
    - rewrite lookup_insert_eq. cbn. by rewrite Hh.
    - rewrite lookup_insert_ne, app_nil_r by done. apply Hh. }
  destruct (un_defs u !! entry_name e) as [r|] eqn:Hdef.
  - assert (entry_name e ∈ un_order u) as Hin by (apply Hdom; by eexists).
    split; cbn; [done| |intros name|exact Hhav].
    + intros name. rewrite Ho, fmap_app, elem_of_app. cbn. rewrite list_elem_of_singleton.
      split; [by left|]. intros [?| ->]; [done|]. by apply Ho.
    + rewrite named_entries_app, Hd. case_decide as He; [|by rewrite app_nil_r].
      subst name. rewrite Hd in Hdef. by destruct (named_entries l (entry_name e)).
  - assert (entry_name e ∉ un_order u) as Hnin.
    { rewrite Hdom, Hdef. by intros [? ?]. }
    split; cbn; [| |intros name|exact Hhav].
    + apply NoDup_app. split_and!; [done| |apply NoDup_singleton].
      intros name Hn ->%list_elem_of_singleton. done.
    + intros name. rewrite fmap_app, !elem_of_app, Ho. cbn. done.
    + rewrite named_entries_app. case_decide as He.
      * subst name. rewrite lookup_insert_eq. rewrite Hd in Hdef.
        by destruct (named_entries l (entry_name e)).
      * by rewrite lookup_insert_ne, app_nil_r, Hd.
Qed.

Lemma union_views_spec views : union_of (entries views) (union_views heap views).
Proof.
  rewrite union_views_entries. induction (entries views) as [|e l IH] using rev_ind.
  - split; cbn; [constructor|done|done|done].
  - rewrite foldl_app. cbn. by apply union_of_add.
Qed.
End union.

(** ** The copies *)

Section copies.
Context {E : Env}.

(** The tool a caller is shown for a name. *)
Definition shown_tool (heap : list rawTool) (discovery : bool) (authorized : list Tenant)
    (u : union) (name : string) : rawTool :=
  let t := tool_at heap (default 0 (un_defs u !! name)) in
  if discovery then injectTenantArg t (tenantSchema [] false) false
  else if 2 <=? length authorized then
    let ids := default [] (un_having u !! name) in
    injectTenantArg t (tenantSchema ids (2 <=? length ids)) (2 <=? length ids)
  else t.

Lemma alter_last (f : rawTool → rawTool) heap t :
  alter f (length heap) (heap ++ [t]) = heap ++ [f t].
Proof. by rewrite alter_app_r_alt, Nat.sub_diag. Qed.

Lemma list_tool_run d a u name (c : CatState E) :
  list_tool d a u name c =
  (Return (length (ct_heap c)),
   mkCatState (ct_heap c ++ [shown_tool (ct_heap c) d a u name]) (ct_cats c) (ct_out c)).
Proof.
  unfold list_tool, shown_tool, tool_at. unfold mbind, M_bind, alloc_clone. rewrite cloneTool_id.
  destruct d; [|destruct (2 <=? length a)]; cbn -[Nat.leb alter]; by rewrite ?alter_last.
Qed.

Lemma shown_tool_app heap l d a u name :
  default 0 (un_defs u !! name) < length heap →
  shown_tool (heap ++ l) d a u name = shown_tool heap d a u name.
Proof. intros Hr. unfold shown_tool, tool_at. by rewrite lookup_app_l. Qed.

Lemma list_tools_run d a u order (c : CatState E) heap :
  heap `prefix_of` ct_heap c →
  Forall (λ name, default 0 (un_defs u !! name) < length heap) order →
  list_tools d a u order c =
  (Return (seq (length (ct_heap c)) (length order)),
   mkCatState (ct_heap c ++ (shown_tool heap d a u <$> order)) (ct_cats c) (ct_out c)).
Proof.
  revert c. induction order as [|name order IH]; intros c Hp Hall.
  { cbn. rewrite app_nil_r. by destruct c. }
  apply Forall_cons in Hall as [Hn Hall]. cbn [list_tools].
  unfold mbind at 1, M_bind. rewrite list_tool_run.
  unfold mbind at 1, M_bind. rewrite IH; [|by apply prefix_app_r|done].
  cbn [mret M_ret length seq ct_heap ct_cats ct_out fmap list_fmap].
  rewrite length_app, Nat.add_1_r, <- app_assoc.
  destruct Hp as [l ->]. by rewrite shown_tool_app.
Qed.
End copies.

(** ** The handler *)

Lemma union_defs_in heap views u n :
  union_of heap (entries views) u → Forall (λ v, Forall (λ r, r < n) v.2) views →
  Forall (λ name, default 0 (un_defs u !! name) < n) (un_order u).
Proof.
  intros Hu Hin. apply Forall_forall. intros name Hname. rewrite (uo_defs _ _ _ Hu).
  apply (uo_order _ _ _ Hu), list_elem_of_fmap in Hname as (e & -> & He).
  destruct (named_entries heap (entries views) (entry_name heap e)) as [|x l] eqn:Hl.
  - exfalso. apply (not_elem_of_nil e). rewrite <- Hl. unfold named_entries.
    by apply list_elem_of_filter.
  - cbn. assert (x ∈ named_entries heap (entries views) (entry_name heap e)) as Hx by (rewrite Hl; left).
    apply list_elem_of_filter in Hx as [_ Hx]. unfold entries in Hx.
    apply list_elem_of_bind in Hx as (v & Hx & Hv).
    apply list_elem_of_fmap in Hx as (r & -> & Hr). cbn.
    rewrite Forall_forall in Hin. specialize (Hin v Hv). rewrite Forall_forall in Hin. by apply Hin.
Qed.

Lemma deref_app_seq heap ts t :
  deref ((heap ++ ts) ++ [t]) (seq (length heap) (length ts) ++ [length (heap ++ ts)]) = ts ++ [t].
Proof.
  rewrite <- app_assoc. replace (seq (length heap) (length ts) ++ [length (heap ++ ts)])
    with (seq (length heap) (length (ts ++ [t]))).
  - apply deref_seq.
  - by rewrite !length_app, seq_app.
Qed.

Section handler.
Context {V : Type} `{Verifier V} (h : Handler V) {E : Env}.

(** What the handler does with the lists it was given. *)
Definition listing (tenants : list Tenant) (discovery : bool) (req : jsonRPCRequest)
    (c : CatState E) (views : list (Tenant * list nat)) (w : Writer) : Writer :=
  let u := union_views (ct_heap c) views in
  write_result (j_ID req)
    (tools_result h ((shown_tool (ct_heap c) discovery (if discovery then [] else tenants) u <$>
                        un_order u) ++ [listInstancesToolDef])) w.

Lemma handleToolsList_run r req (s : State E) :
  cat_wf (h_cat s) →
  let t := e_clock E (o_ticks (ct_out (h_cat s))) in
  let '(tenants, discovery) := listed_tenants h (Groups (Verifier_ h) t r) in
  ∃ x c, toolsFor tenants (with_out (h_cat s) (tick (ct_out (h_cat s)))) = (Return x, c) ∧
    extends (h_cat s) c ∧ cat_wf c ∧
    let '(res, s') := handleToolsList h r req s in
    res = Return () ∧ ct_cats (h_cat s') = ct_cats c ∧ ct_out (h_cat s') = ct_out c ∧
    ct_heap c `prefix_of` ct_heap (h_cat s') ∧
    h_w s' = match x with
             | Err _ => writeRPCError (j_ID req) (-32603) "failed to load tool catalog" (h_w s)
             | Ok views => listing tenants discovery req c views (h_w s)
             end ∧
    match x with
    | Err errs => length errs = length (listed (ct_cats (h_cat s)) tenants) ∧ errs ≠ []
    | Ok views => views.*1 `sublist_of` tenants
    end.
Proof.
  intros Hwf t. destruct (listed_tenants h (Groups (Verifier_ h) t r)) as [tenants discovery] eqn:Hl.
  set (c0 := with_out (h_cat s) (tick (ct_out (h_cat s)))).
  assert (cat_wf c0 ∧ extends (h_cat s) c0) as [Hwf0 Hex0].
  { split; [by destruct Hwf|]. apply (extends_with_out _ _ []); [by rewrite app_nil_r|done]. }
  destruct (toolsFor_spec tenants c0 Hwf0) as (x & c & Hrun & Hex & Hwfc & Hx).
  exists x, c. split_and!; [done|by apply extends_trans with c0|done|].
  unfold handleToolsList. unfold mbind at 1, M_bind.
  change (on_out now s) with (Return t, set_cat c0 s). cbv beta iota. rewrite Hl.
  unfold mbind at 1, M_bind, on_cat at 1, zoom. cbn [h_cat set_cat]. rewrite Hrun.
  destruct x as [views|errs]; [|done]. destruct Hx as (Hsub & Hin & _).
  unfold mbind at 1, M_bind, gets at 1. cbn [h_cat set_cat].
  set (u := union_views (ct_heap c) views).
  unfold mbind at 1, M_bind, on_cat at 1, zoom. cbn [h_cat set_cat].
  rewrite (list_tools_run _ _ _ _ _ (ct_heap c)); [|done|].
  2:{ eapply union_defs_in; [apply union_views_spec|exact Hin]. }
  unfold mbind at 1, M_bind, on_cat at 1, zoom, alloc_tools. cbn [h_cat set_cat ct_heap ct_cats ct_out].
  unfold mbind at 1, M_bind, gets at 1. cbn [h_cat set_cat ct_heap ct_cats ct_out].
  unfold write, modify. cbn [set_w h_w h_cat set_cat ct_heap ct_cats ct_out length seq].
  split_and!; [done..| | |done].
  - rewrite <- app_assoc. by eexists.
  - unfold listing. fold u. f_equal. f_equal. rewrite <- (length_fmap (shown_tool (ct_heap c) discovery
      (if discovery then [] else tenants) u)). apply deref_app_seq.
Qed.
End handler.

(** ** The selector that is advertised and the one that is accepted *)

(** Filtering a list or a part of it that has every element kept. *)
Lemma filter_sublist_eq {A} (f : A → bool) l1 l2 :
  l1 `sublist_of` l2 → NoDup l2 → (∀ x, x ∈ l2 → x ∉ l1 → f x = false) →
  List.filter f l2 = List.filter f l1.
Proof.
  induction 1 as [|x l1 l2 Hs IH|x l1 l2 Hs IH]; [done|..]; intros [Hx Hnd]%NoDup_cons Hf; cbn [List.filter].
  - rewrite IH; [done..|]. intros y Hy Hn. apply Hf; [by right|]. intros [->|?]%elem_of_cons; done.
  - rewrite Hf; [|by left|]; [|intros Hin; by apply Hx; eapply elem_of_sublist].
    apply IH; [done|]. intros y Hy Hn. apply Hf; [by right|done].
Qed.

Section agreement.
Variables (heap : list rawTool) (cs : Catalogs).

(** The view is the tenant's cached list, without a repeated name. *)
Definition cached_view (v : Tenant * list nat) : Prop :=
  ∃ k, (forTenant cs (t_ID v.1) ≫= λ i, cs_unique cs !! i) = Some k ∧ k_tools k = Some v.2 ∧
    Forall (λ r, r < length heap) v.2 ∧ NoDup (toolName ∘ tool_at heap <$> v.2).

Lemma deref_tool_at refs :
  Forall (λ r, r < length heap) refs → deref heap refs = tool_at heap <$> refs.
Proof.
  induction 1 as [|r refs Hr _ IH]; [done|]. unfold deref in *. cbn.
  apply lookup_lt_is_Some in Hr as [t Ht]. unfold tool_at at 1. rewrite Ht. cbn. by rewrite IH.
Qed.

Lemma filter_names (refs : list nat) name :
  filter (λ t, toolName t = name) (tool_at heap <$> refs) =
  tool_at heap <$> filter (λ r, toolName (tool_at heap r) = name) refs.
Proof.
  induction refs as [|r refs IH]; [done|]. rewrite fmap_cons, !filter_cons.
  case_decide; [by rewrite fmap_cons, IH|done].
Qed.

Lemma filter_entries (t : Tenant) (refs : list nat) name :
  filter (λ e, entry_name heap e = name) (pair t <$> refs) =
  pair t <$> filter (λ r, toolName (tool_at heap r) = name) refs.
Proof.
  induction refs as [|r refs IH]; [done|]. rewrite fmap_cons, !filter_cons.
  change (entry_name heap (t, r)) with (toolName (tool_at heap r)).
  case_decide; [by rewrite fmap_cons, IH|done].
Qed.

Lemma filter_unique (refs : list nat) name :
  NoDup (toolName ∘ tool_at heap <$> refs) →
  length (filter (λ r, toolName (tool_at heap r) = name) refs) <= 1.
Proof.
  induction refs as [|r refs IH]; [cbn; lia|]. rewrite fmap_cons. intros [Hr Hnd]%NoDup_cons.
  rewrite filter_cons. case_decide as He; [|by apply IH]. cbn.
  destruct (filter (λ r, toolName (tool_at heap r) = name) refs) as [|x l] eqn:Hl; [cbn; lia|].
  exfalso. assert (x ∈ filter (λ r, toolName (tool_at heap r) = name) refs) as Hx by (rewrite Hl; left).
  apply list_elem_of_filter in Hx as [Hxn Hx]. apply Hr. apply list_elem_of_fmap.
  exists x. cbn. by rewrite He, Hxn.
Qed.

(** The tenant's cached list has the tool; the tenant has no cached list. *)
Definition lists (name : string) (t : Tenant) : bool :=
  match cachedTool heap cs (t_ID t) name with Listed _ => true | _ => false end.

Definition uncached (t : Tenant) : Prop :=
  (forTenant cs (t_ID t) ≫= λ i, cs_unique cs !! i) ≫= k_tools = None.

Lemma may_have_lists name t : may_have heap cs name t = true ↔ lists name t = true ∨ uncached t.
Proof.
  unfold may_have, lists, uncached, cachedTool, cached.
  destruct (forTenant cs (t_ID t) ≫= λ i, cs_unique cs !! i) as [k|]; cbn [mbind option_bind]; [|naive_solver].
  destruct (k_tools k) as [refs|]; [|naive_solver].
  destruct (filter _ _); naive_solver.
Qed.

Lemma uncached_not_listed name t : uncached t → lists name t = false.
Proof.
  unfold lists, uncached, cachedTool, cached.
  destruct (forTenant cs (t_ID t) ≫= λ i, cs_unique cs !! i) as [k|]; cbn [mbind option_bind]; [|done].
  by intros ->.
Qed.

(** A view shows the tenant's cached list, or nothing when there is none. *)
Definition current_view (v : Tenant * list nat) : Prop := cached_view v ∨ (uncached v.1 ∧ v.2 = []).

Lemma view_ids v name :
  current_view v →
  t_ID ∘ fst <$> filter (λ e, entry_name heap e = name) (pair v.1 <$> v.2) =
  (if lists name v.1 then [t_ID v.1] else []).
Proof.
  intros [(k & Hk & Htools & Hin & Hnd)|[Hun Hv]]; [|by rewrite Hv, (uncached_not_listed name v.1 Hun)].
  unfold lists, cachedTool. rewrite Hk. unfold cached.
  rewrite Htools, deref_tool_at, filter_names, filter_entries by done.
  pose proof (filter_unique v.2 name Hnd) as Hlen.
  destruct (filter (λ r, toolName (tool_at heap r) = name) v.2) as [|x [|y l]]; [done|done|].
  cbn in Hlen. lia.
Qed.

Lemma having_ids views name :
  Forall current_view views →
  t_ID ∘ fst <$> named_entries heap (entries views) name =
  t_ID <$> List.filter (lists name) views.*1.
Proof.
  unfold named_entries, entries. induction 1 as [|v views Hv _ IH]; [done|].
  rewrite bind_cons, filter_app, fmap_app, IH, view_ids by done. rewrite fmap_cons. cbn [List.filter].
  by destruct (lists name v.1).
Qed.
End agreement.

Lemma deref_prefix heap heap' refs :
  heap `prefix_of` heap' → Forall (λ r, r < length heap) refs → deref heap' refs = deref heap refs.
Proof.
  intros [l ->]. induction 1 as [|r refs Hr _ IH]; [done|]. unfold deref in *. cbn.
  by rewrite lookup_app_l, IH.
Qed.

Lemma listed_tenants_registered {V} (h : Handler V) groups tenants discovery :
  registry_wf (Registry_ h) → listed_tenants h groups = (tenants, discovery) →
  (∀ t, t ∈ tenants → t ∈ Tenants (Registry_ h)) ∧
  (if discovery then ∀ gs, groups = Ok gs → AuthorizedTenants (Registry_ h) gs = []
   else ∃ gs, groups = Ok gs ∧ tenants = AuthorizedTenants (Registry_ h) gs ∧ tenants ≠ []).
Proof.
  intros Hreg. unfold listed_tenants. destruct groups as [gs|e].
  - destruct (AuthorizedTenants (Registry_ h) gs) as [|t l] eqn:Ha; intros [= <- <-].
    + split; [intros t; by rewrite elem_of_sort_on|]. by intros ? [= <-].
    + split; [|by exists gs]. intros t' Ht'. rewrite <- Ha in Ht'.
      apply elem_of_AuthorizedTenants in Ht' as [Ht' _]; [|done]. by apply elem_of_Tenants.
  - intros [= <- <-]. split; [intros t; by rewrite elem_of_sort_on|done].
Qed.

(** ** Theorems *)


(** C11: tools/list and tools/call agree. Take the lists shown to a caller:
    those of its authorized tenants that have a cached list, as cached, without a
    repeated name. For a name on the list, the advertised ids are those of the
    tenants whose cached list has the tool; a call naming a tenant is accepted
    exactly for an advertised id or for a tenant without a cached list (one whose
    catalog could not be read), and a call naming none exactly when there is one
    such tenant only. So when every tenant's list is cached a call may name exactly
    the advertised ids, and the selector is required exactly when a call without
    one is refused. *)
Theorem list_call_agree {V} (h : Handler V) heap cs groups views name args :
  registry_wf (Registry_ h) →
  let authorized := AuthorizedTenants (Registry_ h) groups in
  views.*1 `sublist_of` authorized → Forall (current_view heap cs) views →
  (∀ t, t ∈ authorized → t ∉ views.*1 → uncached cs t) →
  name ∈ un_order (union_views heap views) →
  let ids := default [] (un_having (union_views heap views) !! name) in
  let selected := selectTenant h heap cs name args groups authorized in
  let accepted t := t ∈ authorized ∧ (t_ID t ∈ ids ∨ uncached cs t) in
  ids = t_ID <$> List.filter (lists heap cs name) authorized ∧
  (extractTenantArg args ≠ "" → ∀ t, selected = Ok t ↔ accepted t ∧ t_ID t = extractTenantArg args) ∧
  (extractTenantArg args = "" → ∀ t, selected = Ok t ↔ accepted t ∧ ∀ t', accepted t' → t' = t) ∧
  ((∀ t, t ∈ authorized → ¬ uncached cs t) →
   (extractTenantArg args ≠ "" →
      (extractTenantArg args ∈ ids ↔ ∃ t, selected = Ok t ∧ t_ID t = extractTenantArg args)) ∧
   (extractTenantArg args = "" →
      if 2 <=? length ids then ∃ msg, selected = Err msg else ∃ t, selected = Ok t ∧ ids = [t_ID t])).
Proof.
  intros Hreg authorized Hsub Hc Hun Hname ids selected accepted.
  pose proof (union_views_spec heap views) as Hu.
  pose proof (AuthorizedTenants_ids_NoDup (Registry_ h) groups Hreg) as Hndi. fold authorized in Hndi.
  assert (ids = t_ID <$> List.filter (lists heap cs name) authorized) as Hids.
  { unfold ids. rewrite (uo_having _ _ _ Hu), (having_ids heap cs views name Hc). f_equal. symmetry.
    apply filter_sublist_eq; [done|by eapply NoDup_fmap_1|].
    intros t Ht Hn. by apply uncached_not_listed, Hun. }
  assert (∀ t, t ∈ authorized → may_have heap cs name t = true ↔ t_ID t ∈ ids ∨ uncached cs t) as Hmay.
  { intros t Ht. rewrite may_have_lists, Hids, list_elem_of_fmap.
    setoid_rewrite list_elem_of_In. setoid_rewrite filter_In. setoid_rewrite <- list_elem_of_In. split.
    - intros [?|?]; [left; by exists t|by right].
    - intros [(t' & He & Ht' & Hl)|?]; [left|by right]. by rewrite (NoDup_fmap_key_eq t_ID authorized t t'). }
  assert (extractTenantArg args ≠ "" → ∀ t, selected = Ok t ↔ accepted t ∧ t_ID t = extractTenantArg args) as Hexp.
  { intros He t. pose proof (select_explicit h heap cs Hreg name args groups t He) as Hs. fold authorized in Hs.
    unfold selected, accepted. rewrite Hs.
    split; [intros (Ht & Hm & ?)|intros ([Ht Hm] & ?)]; (split_and!; [done|by apply Hmay|done]). }
  assert (extractTenantArg args = "" → ∀ t, selected = Ok t ↔ accepted t ∧ ∀ t', accepted t' → t' = t) as Himp.
  { intros He t. pose proof (select_implicit h heap cs Hreg name args groups t He) as Hs. fold authorized in Hs.
    unfold selected, accepted. rewrite Hs. split.
    - intros (Ht & Hm & Hall). split; [split; [done|by apply Hmay]|]. intros t' [Ht' Hm']. apply Hall; [done|by apply Hmay].
    - intros ([Ht Hm] & Hall). split_and!; [done|by apply Hmay|]. intros t' Ht' Hm'. apply Hall. split; [done|by apply Hmay]. }
  split_and!; [exact Hids|exact Hexp|exact Himp|]. intros Hall.
  assert (∀ t, accepted t ↔ t ∈ List.filter (lists heap cs name) authorized) as Hacc.
  { intros t. rewrite list_elem_of_In, filter_In, <- list_elem_of_In. unfold accepted. split.
    - intros [Ht Hm]. split; [done|]. apply Hmay, may_have_lists in Hm as [?|?]; [done| |done]. by destruct (Hall t Ht).
    - intros [Ht Hl]. split; [done|]. apply Hmay; [done|]. apply may_have_lists. by left. }
  split.
  - intros He. rewrite Hids. split.
    + intros (t & Hid & Ht)%list_elem_of_fmap. exists t. split; [|done]. apply (Hexp He). split; [by apply Hacc|done].
    + intros (t & [Ha Hid]%(Hexp He) & _). rewrite <- Hid. by apply list_elem_of_fmap_2, Hacc.
  - intros He. specialize (Himp He). rewrite Hids, length_fmap.
    assert (NoDup (List.filter (lists heap cs name) authorized)) as Hnd.
    { eapply NoDup_fmap_1. by apply (filter_sublist_NoDup (lists heap cs name) t_ID). }
    assert (ids ≠ []) as Hne.
    { unfold ids. rewrite (uo_having _ _ _ Hu). apply (uo_order _ _ _ Hu), list_elem_of_fmap in Hname as (e & Hn & Hel).
      intros Hnil. apply (not_elem_of_nil (t_ID e.1)). rewrite <- Hnil. apply list_elem_of_fmap. exists e.
      split; [done|]. by apply list_elem_of_filter. }
    destruct (List.filter (lists heap cs name) authorized) as [|t [|t2 l]] eqn:Hl; [by rewrite Hids in Hne|cbn|].
    + exists t. split; [|done]. apply Himp. split; [apply Hacc; left|]. intros t' Ht'%Hacc. by apply list_elem_of_singleton.
    + cbn [length Nat.leb]. assert (∀ t', selected ≠ Ok t') as Hno.
      { intros t' [_ Hone]%Himp. apply NoDup_cons in Hnd as [Hnd _]. apply Hnd.
        rewrite (Hone t) by (apply Hacc; left). rewrite <- (Hone t2) by (apply Hacc; right; left). left. }
      clearbody selected. destruct selected as [t'|msg]; [by destruct (Hno t')|by exists msg].
Qed.

(** ** Witnesses *)

Definition rpc_list_ex : jsonRPCRequest := mkRPC "2.0" "tools/list" None (Some (JNum "7")).

Lemma state_ex_wf : cat_wf (h_cat state_ex).
Proof. exact (NewCatalogs_wf registry_ex 60 [] outside_ex registry_ex_wf). Qed.


(** The catalogs after that listing, and the lists it showed. *)
Definition cat_after_ex : CatState env_ex :=
  h_cat (handleToolsList handler_ex list_ex rpc_list_ex state_ex).2.

Definition views_ex : list (Tenant * list nat) :=
  zip (AuthorizedTenants registry_ex ["dev"]) [[0]; [1]].

Lemma list_call_agree_witness :
  let selected args := selectTenant handler_ex (ct_heap cat_after_ex) (ct_cats cat_after_ex) "get"
                         args ["dev"] (AuthorizedTenants registry_ex ["dev"]) in
  (∃ msg, selected None = Err msg) ∧
  (∃ t, selected (Some (JObj [("tenant", JStr "ro")])) = Ok t ∧ t_ID t = "ro").
Proof.
  assert (views_ex.*1 = AuthorizedTenants registry_ex ["dev"]) as Hv by (vm_compute; reflexivity).
  assert (views_ex.*1 `sublist_of` AuthorizedTenants registry_ex ["dev"]) as Hsub by (rewrite Hv; reflexivity).
  assert (Forall (current_view (ct_heap cat_after_ex) (ct_cats cat_after_ex)) views_ex) as Hc.
  { repeat constructor; eexists; (split; [vm_compute; reflexivity|]);
      (split; [vm_compute; reflexivity|]); (split; [apply (bool_decide_unpack _); vm_compute; exact I|]);
      apply (bool_decide_unpack _); vm_compute; exact I. }
  assert (∀ t, t ∈ AuthorizedTenants registry_ex ["dev"] → ¬ uncached (ct_cats cat_after_ex) t) as Hall.
  { apply Forall_forall. rewrite <- Hv. repeat constructor; vm_compute; discriminate. }
  assert (∀ t, t ∈ AuthorizedTenants registry_ex ["dev"] → t ∉ views_ex.*1 → uncached (ct_cats cat_after_ex) t) as Hun
    by (intros t Ht Hn; rewrite Hv in Hn; contradiction).
  assert ("get" ∈ un_order (union_views (ct_heap cat_after_ex) views_ex)) as Hn
    by (apply (bool_decide_unpack _); vm_compute; exact I).
  intros selected. split.
  - destruct (list_call_agree handler_ex _ _ ["dev"] views_ex "get" None registry_ex_wf Hsub Hc Hun Hn)
      as (_ & _ & _ & H). exact (proj2 (H Hall) eq_refl).
  - destruct (list_call_agree handler_ex _ _ ["dev"] views_ex "get"
      (Some (JObj [("tenant", JStr "ro")])) registry_ex_wf Hsub Hc Hun Hn) as (_ & _ & _ & H).
    apply (proj1 (H Hall)); [vm_compute; discriminate|].
    apply (bool_decide_unpack _); vm_compute; exact I.
Defined.
