(* ===== verification/Total.v ===== *)
(** * Every request is answered

    In every state the proxy can reach the catalogs are consistent, so that no
    handler panics but for one request: a tools/call whose params are [null]. *)

From Stdlib Require Import Ascii.
From stdpp Require Import base numbers option pretty gmap fin_maps sorting strings list relations.
From S2P Require Import Prelude GoStrings Json Parse Decode Config Registry Session Http Rpc Schema.
From S2P Require Import ParamHeaders Client Catalog Auth OAuth Observability Handler HandlerSelect.
From S2P Require Import Main Isolation Calls Forward Listing.

#[local] Set Warnings "-clear-no-such-hyp".
#[local] Open Scope nat_scope.

(** ** Consistent catalogs, kept by every handler *)

Section safe.
Context {E : Env}.
Implicit Types s : State E.

Definition consistent s : Prop := cat_wf (h_cat s).

Definition safe {A} (m : M (State E) A) : Prop := ∀ s, consistent s → consistent (m s).2.

Lemma safe_ret {A} (v : A) : safe (mret v).
Proof. by intros s. Qed.
Lemma safe_gets {A} (f : State E → A) : safe (gets f).
Proof. by intros s. Qed.
Lemma safe_write f : safe (write f).
Proof. by intros s. Qed.
Lemma safe_note f : safe (note f).
Proof. by intros s. Qed.
Lemma safe_record f : safe (record f).
Proof. by intros s. Qed.
Lemma safe_set_store f : safe (modify (λ s, set_store (f s) s)).
Proof. by intros s. Qed.
Lemma safe_set_tasks f : safe (modify (λ s, set_tasks (f s) s)).
Proof. by intros s. Qed.
Lemma safe_bind {A B} (m : M (State E) A) (k : A → M (State E) B) :
  safe m → (∀ v, safe (k v)) → safe (m ≫= k).
Proof.
  intros Hm Hk s Hs. unfold mbind, M_bind. specialize (Hm s Hs).
  destruct (m s) as [[v|] s']; [by apply Hk|done].
Qed.
(** Dealings with the outside leave the catalogs and the heap alone. *)
Lemma safe_on_out {A} (m : M (Outside E) A) : safe (on_out m).
Proof.
  intros s [Hr Hi]. unfold consistent, on_out, on_cat, outside, zoom.
  by destruct (m (ct_out (h_cat s))).
Qed.

#[local] Hint Resolve safe_ret safe_gets safe_write safe_note safe_record safe_set_store
  safe_set_tasks safe_bind safe_on_out : proxy.

Lemma safe_session_Mint : safe session_Mint.
Proof.
  unfold session_Mint. do 4 (apply safe_bind; [auto with proxy|intros ?]).
  destruct (Mint _ _ _ _). by intros ?.
Qed.
Lemma safe_session_Get id : safe (session_Get id).
Proof.
  unfold session_Get. do 3 (apply safe_bind; [auto with proxy|intros ?]).
  destruct (Get _ _ _ _). by intros ?.
Qed.
Lemma safe_session_Set pid b sid : safe (session_SetBackendSID pid b sid).
Proof. unfold session_SetBackendSID. auto with proxy. Qed.
Lemma safe_session_Delete id : safe (session_Delete id).
Proof.
  unfold session_Delete. apply safe_bind; [auto with proxy|]. intros st.
  destruct (Delete id st). by intros ?.
Qed.
Lemma safe_finish_call id resp : safe (finish_call id resp).
Proof. destruct resp; unfold finish_call; auto with proxy. Qed.
Lemma safe_deferred {A} cleanup (m : M (State E) A) : safe cleanup → safe m → safe (deferred cleanup m).
Proof.
  intros Hc Hm s Hs. unfold deferred. specialize (Hm s Hs). destruct (m s). by apply Hc.
Qed.

#[local] Hint Resolve safe_session_Mint safe_session_Get safe_session_Set safe_session_Delete
  safe_finish_call : proxy.

Lemma safe_open_backend_session pid t : safe (open_backend_session pid t).
Proof.
  unfold open_backend_session. apply safe_bind; [auto with proxy|]. intros [[sid res]|e];
    [|auto with proxy]. apply safe_bind; [destruct (nonempty sid)|]; auto with proxy.
Qed.

Lemma safe_routeToBackend r id t bytes name ph : safe (routeToBackend r id t bytes name ph).
Proof.
  unfold routeToBackend. destruct (Stateless (t_Backend t)); [auto with proxy|].
  apply safe_bind; [auto with proxy|]. intros [sess|]; [|auto with proxy].
  apply safe_bind; [destruct (BackendSID sess (t_ID t)); auto using safe_open_backend_session with proxy|].
  intros [sid|e]; auto with proxy.
Qed.

Lemma safe_forward_call r req params t : safe (forward_call r req params t).
Proof.
  unfold forward_call. apply safe_bind; [auto with proxy|]. intros _.
  destruct (stripTenantArg (j_Params req)); [|auto with proxy].
  apply safe_bind; [auto with proxy|]. intros phs.
  apply safe_bind; [apply safe_routeToBackend|]. intros []; auto with proxy.
Qed.
End safe.

#[export] Hint Resolve safe_ret safe_gets safe_write safe_note safe_record safe_set_store
  safe_set_tasks safe_bind safe_on_out safe_session_Mint safe_session_Get safe_session_Set
  safe_session_Delete safe_finish_call safe_forward_call : proxy.

Section handlers.
Context {V : Type} `{Verifier V} (h : Handler V) {E : Env}.
Implicit Types s : State E.

Lemma safe_auth_failure r id e : safe (E := E) (auth_failure h r id e).
Proof. destruct e; unfold auth_failure; auto with proxy. Qed.

Lemma safe_handleToolsCall r req : safe (E := E) (handleToolsCall h r req).
Proof.
  unfold handleToolsCall. do 2 (apply safe_bind; [auto with proxy|intros _ || intros ?]).
  apply safe_deferred; [unfold record_op; auto with proxy|]. unfold tools_call_body.
  apply safe_bind; [auto with proxy|]. intros t.
  destruct (Groups (Verifier_ h) t r); [|apply safe_auth_failure].
  destruct (match j_Params req with Some v => unmarshal_params v | None => Err BadSyntax end)
    as [params|e]; [|auto with proxy].
  apply safe_bind; [auto with proxy|]. intros _.
  destruct (String.eqb (tp_Name params) listInstancesTool); [auto with proxy|].
  apply safe_bind; [auto with proxy|]. intros [tenant|msg]; auto with proxy.
Qed.

(** Copies for the response only add to the heap. *)
Lemma cat_wf_heap (c c' : CatState E) :
  cat_wf c → ct_cats c' = ct_cats c → ct_heap c `prefix_of` ct_heap c' → cat_wf c'.
Proof.
  intros [Hr Hi] Hc [l Hl]. split.
  - intros k refs Hk Ht. rewrite Hc in Hk. eapply Forall_impl; [by eapply Hr|].
    intros i. cbn. rewrite Hl, length_app. lia.
  - intros id i. unfold indexes_ok in Hi. rewrite Hc. apply Hi.
Qed.

Lemma safe_handleToolsList r req : safe (E := E) (handleToolsList h r req).
Proof.
  intros s Hs. pose proof (handleToolsList_run h r req s Hs) as Hrun. cbv zeta in Hrun.
  destruct (listed_tenants h _) as [tenants discovery].
  destruct Hrun as (x & c & _ & _ & Hwf & Hrest).
  destruct (handleToolsList h r req s) as [res s']. destruct Hrest as (_ & Hc & _ & Hp & _).
  by eapply cat_wf_heap.
Qed.

Lemma safe_handleDelete r : safe (E := E) (handleDelete h r).
Proof.
  unfold handleDelete. destruct (AllStateless _); [auto with proxy|].
  apply safe_bind; [auto with proxy|]. intros [sess|]; apply safe_bind; auto with proxy.
Qed.

Lemma safe_dispatch r req : safe (E := E) (dispatch h r req).
Proof.
  unfold dispatch, handleInitialize, handleDiscover.
  repeat case_match; eauto 8 using safe_handleToolsCall, safe_handleToolsList with proxy.
Qed.

Lemma safe_ServeHTTP r : safe (E := E) (ServeHTTP h r).
Proof.
  unfold ServeHTTP. destruct (String.eqb _ _); [apply safe_handleDelete|].
  destruct (String.eqb _ _); [auto with proxy|]. destruct (negb _); [auto with proxy|].
  destruct (r_Body r) as [b|]; [|auto with proxy].
  destruct (v ← parse_text b; unmarshal_request v); [|auto with proxy].
  apply safe_bind; [destruct (AllStateless _); auto with proxy|]. intros _. apply safe_dispatch.
Qed.

Lemma serve_consistent r s : consistent s → consistent (serve h r s).2.
Proof.
  intros Hs. unfold serve. pose proof (safe_ServeHTTP r (set_w new_writer s) Hs) as Hsafe.
  by destruct (ServeHTTP h r (set_w new_writer s)) as [[]].
Qed.
End handlers.

(** ** Answers *)

Section answers.
Context {E : Env}.
Implicit Types s : State E.

Definition answers {A} (m : M (State E) A) : Prop :=
  ∀ s, consistent s → ∃ v s', m s = (Return v, s').

Lemma answers_returns {A} (m : M (State E) A) : returns m → answers m.
Proof. intros Hm s _. apply Hm. Qed.

Lemma answers_bind {A B} (m : M (State E) A) (k : A → M (State E) B) :
  answers m → safe m → (∀ v, answers (k v)) → answers (m ≫= k).
Proof.
  intros Hm Hsafe Hk s Hs. destruct (Hm s Hs) as (v & s' & Hr). specialize (Hsafe s Hs).
  rewrite Hr in Hsafe. destruct (Hk v s' Hsafe) as (v' & s'' & Hr'). exists v', s''.
  unfold mbind, M_bind. by rewrite Hr.
Qed.

Lemma returns_write f : returns (write (E := E) f).
Proof. apply returns_modify. Qed.
Lemma returns_note f : returns (note (E := E) f).
Proof. apply returns_modify. Qed.
Lemma returns_record f : returns (record (E := E) f).
Proof. apply returns_modify. Qed.

#[local] Hint Resolve returns_write returns_note returns_record returns_on_out : proxy.

Lemma returns_session_Mint : returns (session_Mint (E := E)).
Proof.
  unfold session_Mint. do 4 (apply returns_bind; [auto with proxy|intros ?]).
  destruct (Mint _ _ _ _). auto with proxy.
Qed.
Lemma returns_session_Get id : returns (session_Get (E := E) id).
Proof.
  unfold session_Get. do 3 (apply returns_bind; [auto with proxy|intros ?]).
  destruct (Get _ _ _ _). auto with proxy.
Qed.
Lemma returns_session_Set pid b sid : returns (session_SetBackendSID (E := E) pid b sid).
Proof. unfold session_SetBackendSID. auto with proxy. Qed.
Lemma returns_session_Delete id : returns (session_Delete (E := E) id).
Proof.
  unfold session_Delete. apply returns_bind; [auto with proxy|]. intros st.
  destruct (Delete id st). auto with proxy.
Qed.
Lemma returns_finish_call id resp : returns (finish_call (E := E) id resp).
Proof. destruct resp; unfold finish_call; auto with proxy. Qed.

#[local] Hint Resolve returns_session_Mint returns_session_Get returns_session_Set
  returns_session_Delete returns_finish_call initialize_returns notifyInitialized_returns : proxy.

(** A call the client can decode and add its identity to. *)
Lemma callTool_returns b sid credential params id headers name :
  let req := mkRPC "2.0" "tools/call" (Some params) id in
  parse (print (marshal_request req)) = Some (marshal_request req) → params ≠ JNull →
  returns (callTool (E := E) b sid credential (print (marshal_request req)) headers name).
Proof.
  intros req Hp Hnull. unfold callTool, parse_text. rewrite Hp. cbn [mbind result_bind].
  rewrite unmarshal_marshal_request. apply returns_bind.
  - destruct (Stateless b); [|auto with proxy]. unfold inject_meta. cbn [req j_Params].
    destruct (injectMeta (Some params)) eqn:Hi; [auto with proxy|].
    destruct params; done.
  - intros [bytes|e]; [|auto with proxy]. apply returns_bind; [apply post_returns|auto with proxy].
Qed.

Lemma routeToBackend_returns r id t params name ph :
  let req := mkRPC "2.0" "tools/call" (Some params) id in
  parse (print (marshal_request req)) = Some (marshal_request req) → params ≠ JNull →
  returns (routeToBackend (E := E) r id t (print (marshal_request req)) name ph).
Proof.
  intros req Hp Hnull.
  pose proof (λ b sid credential headers name, returns_on_out _
    (callTool_returns b sid credential params id headers name Hp Hnull)) as Hcall. fold req in Hcall.
  unfold routeToBackend. destruct (Stateless (t_Backend t)); [auto with proxy|].
  apply returns_bind; [auto with proxy|]. intros [sess|]; [|auto with proxy].
  apply returns_bind; [|intros [sid|e]; auto with proxy].
  destruct (BackendSID sess (t_ID t)); [auto with proxy|].
  unfold open_backend_session. apply returns_bind; [auto with proxy|].
  intros [[sid res]|e]; [|auto with proxy]. apply returns_bind; [|auto with proxy].
  destruct (nonempty sid); auto with proxy.
Qed.

Lemma stripTenantArg_null p p' :
  stripTenantArg (Some p) = Ok (Some p') → p ≠ JNull → p' ≠ JNull.
Proof.
  unfold stripTenantArg. intros Hs Hp. revert Hs.
  destruct (unmarshal_map p) as [m|]; [|done]. cbn [mbind result_bind].
  destruct (nil_map m !! "arguments") as [a|]; [|by intros [= <-]].
  destruct (unmarshal_map a) as [args|]; [|done]. cbn [mbind result_bind].
  destruct (nil_map args !! tenantArg); by intros [= <-].
Qed.

(** The request the handler panics on, when it reaches a stateless backend. *)
Definition null_call (req : jsonRPCRequest) : Prop :=
  j_Method req = "tools/call" ∧ j_Params req = Some JNull.

#[export] Instance null_call_dec req : Decision (null_call req).
Proof. unfold null_call. apply _. Defined.

Lemma forward_call_returns body r req params t :
  (v ← parse_text body; unmarshal_request v) = Ok req → j_Params req ≠ Some JNull →
  returns (forward_call (E := E) r req params t).
Proof.
  intros Hreq Hnull. unfold forward_call. apply returns_bind; [auto with proxy|]. intros _.
  destruct (stripTenantArg (j_Params req)) as [o|e] eqn:Hs; [|auto with proxy].
  pose proof Hs as (p & p' & Hp & ->)%stripTenantArg_Some.
  destruct (forward_roundtrip body req p' Hreq Hs) as [Hw Hi].
  apply returns_bind; [auto with proxy|]. intros phs. apply returns_bind; [|intros []; auto with proxy].
  apply routeToBackend_returns; [by apply built_roundtrip|].
  rewrite Hp in Hs. eapply stripTenantArg_null; [exact Hs|congruence].
Qed.
End answers.

#[export] Hint Resolve returns_write returns_note returns_record returns_on_out
  returns_session_Mint returns_session_Get returns_session_Set returns_session_Delete : proxy.

Section serve.
Context {V : Type} `{Verifier V} (h : Handler V) {E : Env}.
Implicit Types s : State E.

Lemma tools_call_body_returns body r req :
  (v ← parse_text body; unmarshal_request v) = Ok req → j_Params req ≠ Some JNull →
  returns (tools_call_body (E := E) h r req).
Proof.
  intros Hreq Hnull. unfold tools_call_body. apply returns_bind; [auto with proxy|]. intros t.
  destruct (Groups (Verifier_ h) t r) as [groups|e];
    [|destruct e; unfold auth_failure; auto with proxy].
  destruct (match j_Params req with Some v => unmarshal_params v | None => Err BadSyntax end)
    as [params|e]; [|auto with proxy].
  apply returns_bind; [auto with proxy|]. intros _.
  destruct (String.eqb (tp_Name params) listInstancesTool); [auto with proxy|].
  apply returns_bind; [auto with proxy|]. intros [tenant|msg]; [|auto with proxy].
  by eapply forward_call_returns.
Qed.

Lemma handleToolsCall_returns body r req :
  (v ← parse_text body; unmarshal_request v) = Ok req → j_Params req ≠ Some JNull →
  returns (handleToolsCall (E := E) h r req).
Proof.
  intros Hreq Hnull. unfold handleToolsCall. do 2 (apply returns_bind; [auto with proxy|intros ?]).
  intros s. destruct (tools_call_body_returns body r req Hreq Hnull s) as (x & s' & Hr).
  unfold deferred. rewrite Hr. by eexists _, _.
Qed.

Lemma handleToolsList_answers r req : answers (E := E) (handleToolsList h r req).
Proof.
  intros s Hs. pose proof (handleToolsList_run h r req s Hs) as Hrun. cbv zeta in Hrun.
  destruct (listed_tenants h _) as [tenants discovery]. destruct Hrun as (x & c & _ & _ & _ & Hrest).
  destruct (handleToolsList h r req s) as [res s']. destruct Hrest as (-> & _). by eexists _, _.
Qed.

Lemma dispatch_answers body r req :
  (v ← parse_text body; unmarshal_request v) = Ok req → ¬ null_call req →
  answers (E := E) (dispatch h r req).
Proof.
  intros Hreq Hnull. unfold dispatch.
  destruct (String.eqb_spec (j_Method req) "initialize").
  { apply answers_returns. unfold handleInitialize. destruct (AllStateless _); auto 8 with proxy. }
  destruct (String.eqb_spec (j_Method req) "notifications/initialized").
  { apply answers_returns. auto with proxy. }
  destruct (String.eqb_spec (j_Method req) "server/discover").
  { apply answers_returns. unfold handleDiscover. auto with proxy. }
  destruct (String.eqb_spec (j_Method req) "tools/list"); [apply handleToolsList_answers|].
  destruct (String.eqb_spec (j_Method req) "tools/call").
  { apply answers_returns. eapply handleToolsCall_returns; [exact Hreq|]. intros Hp. by apply Hnull. }
  apply answers_returns. destruct (String.eqb _ _); [auto with proxy|].
  destruct (isNotification req); auto with proxy.
Qed.

(** The request is a POST that decodes to [req]. *)
Definition decodes_to (r : Request) (req : jsonRPCRequest) : Prop :=
  r_Method r = "POST" ∧ ∃ body, r_Body r = Some body ∧
    (v ← parse_text body; unmarshal_request v) = Ok req.

Lemma ServeHTTP_answers r :
  (∀ req, decodes_to r req → ¬ null_call req) → answers (E := E) (ServeHTTP h r).
Proof.
  intros Hnull. unfold ServeHTTP. destruct (String.eqb _ _).
  { apply answers_returns. unfold handleDelete. destruct (AllStateless _); [auto with proxy|].
    apply returns_bind; [auto with proxy|]. intros [sess|]; apply returns_bind; auto with proxy. }
  destruct (String.eqb _ _); [apply answers_returns; auto with proxy|].
  destruct (negb _) eqn:Hpost; [apply answers_returns; auto with proxy|].
  apply negb_false_iff, String.eqb_eq in Hpost.
  destruct (r_Body r) as [b|] eqn:Hb; [|apply answers_returns; auto with proxy].
  destruct (v ← parse_text b; unmarshal_request v) as [req|e] eqn:Hreq;
    [|apply answers_returns; auto with proxy].
  apply answers_bind; [|destruct (AllStateless _); auto with proxy|].
  - apply answers_returns. destruct (AllStateless _); auto with proxy.
  - intros _. apply (dispatch_answers b); [done|]. apply Hnull. split; [done|]. by exists b.
Qed.

Lemma step_consistent s s' : step h s s' → consistent s → consistent s'.
Proof.
  intros Hstep Hs. destruct Hstep as [r s|t sid l1 l2 s Ht|s].
  - by apply serve_consistent.
  - by apply safe_on_out.
  - unfold warm_attempt, WarmCatalog, on_cat, zoom, mbind, M_bind.
    destruct (warm_spec (h_cat s) Hs) as (errs & c & -> & _ & Hwf). exact Hwf.
Qed.

Lemma reachable_consistent obs o s :
  registry_wf (Registry_ h) → reachable h obs o s → consistent s.
Proof.
  intros Hreg. unfold reachable. intros Hr.
  assert (consistent (proxy_init h obs o)) as Hinit by (by apply NewCatalogs_wf).
  revert Hinit. induction Hr as [|s1 s2 s3 Hstep _ IH]; [done|].
  intros Hs. apply IH. by eapply step_consistent.
Qed.
End serve.

(** The exception is real: with a single, stateless tenant, [null] params select
    it and the client panics before anything is sent. *)
Definition stateless_ex : Handler token_is_group :=
  let r := match New url_ex (drop 1 config_ex) with Ok r => r | Err _ => mkRegistry ∅ [] end in
  mkHandler TokenIsGroup r (ServerCfg handler_ex) (AuthCfg handler_ex).

Example null_call_panics :
  let s := proxy_init stateless_ex (mkObservability [] [] 0 ":9090" "/metrics") outside_ex in
  let x := serve stateless_ex (post_ex "dev" "" (rpc_ex "tools/call" (Some JNull))) s in
  x.1 = Panic ∧ s_log x.2 = [].
Proof. vm_compute. by split. Qed.

(** ** Theorem *)

(** In every state the proxy can get into, every request gets a response
    but one kind: a tools/call whose params are [null]. So do a warm-up attempt
    and a pending teardown return. *)
Theorem serve_answers {V} `{Verifier V} {E : Env} (h : Handler V) obs o (s : State E) :
  registry_wf (Registry_ h) → reachable h obs o s →
  (∀ r, (∀ req, decodes_to r req → ¬ null_call req) →
     ∃ w s', serve h r s = (Return w, s') ∧ w_status w ≠ 0%Z) ∧
  (∃ warmed s', warm_attempt s = (Return warmed, s')) ∧
  (∀ t sid, ∃ s', on_out (teardownBackend t sid) s = (Return (), s')).
Proof.
  intros Hreg Hr. pose proof (reachable_consistent h obs o s Hreg Hr) as Hs. split_and!.
  - intros r Hnull. destruct (ServeHTTP_answers h r Hnull (set_w new_writer s) Hs) as ([] & s' & Hrun).
    exists (w_finish (h_w s')), s'. unfold serve. rewrite Hrun. split; [done|].
    unfold w_finish, w_write_header. destruct (Z.eqb_spec (w_status (h_w s')) 0); [done|done].
  - unfold warm_attempt, WarmCatalog, on_cat, zoom, mbind, M_bind.
    destruct (warm_spec (h_cat s) Hs) as (errs & c & -> & _ & _). by eexists _, _.
  - intros t sid. destruct (returns_on_out (E := E) (teardownBackend t sid)) with (s := s) as ([] & s' & Hrun);
      [|by exists s']. unfold teardownBackend. destruct (e_url_Parse _ _); auto with proxy.
Qed.

(** The example deployment, just started: listing is answered and warming up
    returns. *)
Definition started_ex : State env_ex :=
  proxy_init handler_ex (mkObservability [] [] 0 ":9090" "/metrics") outside_ex.

Lemma serve_answers_witness :
  registry_wf registry_ex ∧
  (∃ w s', serve handler_ex list_ex started_ex = (Return w, s') ∧ w_status w ≠ 0%Z) ∧
  (∃ warmed s', warm_attempt started_ex = (Return warmed, s')).
Proof.
  destruct (serve_answers (E := env_ex) handler_ex (mkObservability [] [] 0 ":9090" "/metrics")
    outside_ex started_ex registry_ex_wf (rtc_refl _ _)) as (Hserve & Hwarm & _).
  split_and!; [exact registry_ex_wf| |exact Hwarm].
  apply Hserve. intros req [_ (body & [= <-] & Hreq)] [Hm _].
  vm_compute in Hreq. injection Hreq as <-. discriminate Hm.
Defined.
