(* ===== verification/Typed.v ===== *)
(** * The messages the proxy writes are well typed

    A small language of JSON types, the type of each method's answer, and the
    proof that what a handler writes parses to a value of that type, whatever
    bytes the strings in it hold: a JSON-RPC message with the caller's id and
    exactly one of [result] and [error]. *)

From Stdlib Require Import Ascii.
From stdpp Require Import base numbers option pretty gmap fin_maps sorting strings list relations.
From S2P Require Import Prelude GoStrings Json Parse Decode Config Registry Session Http Rpc Schema.
From S2P Require Import ParamHeaders Client Catalog Auth OAuth Observability Handler HandlerSelect.
From S2P Require Import Main Isolation Calls Forward Listing Total.

#[local] Set Warnings "-clear-no-such-hyp,-register-all".
#[local] Open Scope nat_scope.

(** ** Types *)

(** [TObj] lists the members an object has, and says whether it may have more. *)
Inductive ty :=
| TAny | TString | TBool | TInt
| TConst (v : json)
| TArr (t : ty)
| TObj (members : list (string * ty)) (more : bool).

Definition is_integer (lit : string) : bool :=
  match num_run NStart lit with Some (NZero | NInt) => true | _ => false end.

Fixpoint has_type (t : ty) (v : json) : bool :=
  match t, v with
  | TAny, _ => true
  | TString, JStr _ => true
  | TBool, JBool _ => true
  | TInt, JNum lit => is_integer lit
  | TConst c, v => bool_decide (v = c)
  | TArr t, JArr l => forallb (has_type t) l
  | TObj members more, JObj l =>
      forallb (λ kt, match obj_map l !! kt.1 with Some w => has_type kt.2 w | None => false end) members &&
      (more || (length l =? length members))
  | _, _ => false
  end.

(** *** Answers *)

Definition when {A} (b : bool) (l : list A) : list A := if b then l else [].

Definition capabilities_ty : ty := TObj [("tools", TObj [("listChanged", TBool)] false)] false.
Definition text_ty : ty := TObj [("type", TConst (JStr "text")); ("text", TString)] false.
Definition complete_ty : string * ty := ("resultType", TConst (JStr "complete")).

(** The [result] of each method; [stateless] when every backend is. *)
Definition result_ty (stateless : bool) (method : string) : ty :=
  if String.eqb method "initialize" then
    TObj [("protocolVersion", TString); ("capabilities", capabilities_ty);
          ("serverInfo", TObj [("name", TString); ("version", TString)] false)] false
  else if String.eqb method "server/discover" then
    TObj [("cacheScope", TString); ("capabilities", capabilities_ty); complete_ty;
          ("supportedVersions", TArr TString); ("ttlMs", TInt)] false
  else if String.eqb method "tools/list" then
    TObj (("tools", TArr (TObj [] true)) ::
          when stateless [("cacheScope", TString); complete_ty; ("ttlMs", TInt)]) false
  else if String.eqb method "tools/call" then
    TObj ([("content", TArr text_ty); ("isError", TBool)] ++ when stateless [complete_ty]) false
  else TObj (when stateless [complete_ty]) false.

(** A member of the envelope only when the request had one. *)
Definition id_ty (id : option json) : list (string * ty) :=
  match id with Some i => [("id", TConst i)] | None => [] end.

(** [inl] a result of this type, [inr] an error. *)
Definition rpc_ty (id : option json) (payload : ty + ()) : ty :=
  TObj (("jsonrpc", TConst (JStr "2.0")) ::
        match payload with
        | inl t => ("result", t)
        | inr _ => ("error", TObj [("code", TInt); ("message", TString)] false)
        end :: id_ty id) false.

(** ** Values that print and fit the reader's limit on nesting *)

Definition fits (d : N) (v : json) : Prop := nums_ok v = true ∧ (json_depth v <= d)%N.

Definition map_fits (d : N) (m : gmap string json) : Prop := map_Forall (λ _, fits d) m.

Lemma within_fits d v : json_within d v → fits d v.
Proof. intros [[Hn _]%clean_ok Hd]. by split. Qed.

Lemma fits_mono d d' v : (d <= d')%N → fits d v → fits d' v.
Proof. intros Hd [? ?]. split; [done|lia]. Qed.

Lemma fits_obj d l : fits (N.succ d) (JObj l) ↔ Forall (λ kv, fits d kv.2) l.
Proof.
  unfold fits. cbn [nums_ok json_depth]. fold (deepest_member l).
  rewrite <- N.succ_le_mono, deepest_member_le.
  induction l as [|kv l IH]; [done|]. rewrite !Forall_cons, <- IH. cbn [forallb].
  rewrite andb_true_iff. tauto.
Qed.

Lemma fits_arr d l : fits (N.succ d) (JArr l) ↔ Forall (fits d) l.
Proof.
  unfold fits. cbn [nums_ok json_depth]. rewrite <- N.succ_le_mono.
  induction l as [|v l IH]; [cbn; split; [constructor|intros _; split; [done|lia]]|].
  rewrite !Forall_cons, <- IH. cbn [forallb foldr]. rewrite andb_true_iff. split; intros; split_and!; try lia; tauto.
Qed.

Lemma marshal_map_fits d m : map_fits d m → fits (N.succ d) (marshal_map m).
Proof.
  intros Hm. unfold marshal_map. apply fits_obj, Forall_forall. intros [k v] Hin.
  apply (Hm k). by rewrite elem_of_sort_on, elem_of_map_to_list in Hin.
Qed.

Lemma go_map_fits d l : Forall (λ kv, fits d kv.2) l → fits (N.succ d) (go_map l).
Proof.
  intros Hl. apply marshal_map_fits. intros k v Hk%elem_of_list_to_map_2.
  rewrite Forall_forall in Hl. exact (Hl _ Hk).
Qed.

Lemma strings_fit d l : (0 < d)%N → fits d (marshal_strings l).
Proof.
  intros Hd. apply (fits_mono 1); [lia|]. apply (fits_arr 0), Forall_forall.
  intros v (s & -> & _)%list_elem_of_fmap. by split.
Qed.

Lemma unmarshal_map_fits d v p : unmarshal_map v = Ok p → fits d v → map_fits (N.pred d) (nil_map p).
Proof.
  intros Hv Hf. destruct v as [| | | | |l]; try done; injection Hv as <-.
  { apply map_Forall_empty. }
  intros k x Hx%obj_map_member. destruct (decide (d = 0%N)) as [->|Hd].
  { destruct Hf as [_ Hf]. cbn [json_depth] in Hf. lia. }
  rewrite <- (N.succ_pred d), fits_obj, Forall_forall in Hf by done. exact (Hf _ Hx).
Qed.

Lemma object_member_fits d k m m' :
  map_fits d m → object_member k m = Some m' → map_fits (N.pred d) m'.
Proof.
  unfold object_member. intros Hm Hk. destruct (m !! k) as [raw|] eqn:Hr; [|done].
  destruct (unmarshal_map raw) as [o|] eqn:Ho; [|done]. cbn in Hk. subst o.
  by apply (unmarshal_map_fits d raw (Some m')), (Hm k).
Qed.

(** ** The tools of the catalogs and of an answer *)

(** A tool from a backend's list sits three levels below the answer's own. *)
Definition tool_depth : N := 9996.

Definition tool_ok (t : rawTool) : Prop := map_fits tool_depth t.

Lemma cloneTool_ok t : tool_ok t → tool_ok (cloneTool t).
Proof. by rewrite cloneTool_id. Qed.

Lemma empty_ok : tool_ok ∅.
Proof. apply map_Forall_empty. Qed.

Lemma tenantSchema_fits ids required : fits 2 (tenantSchema ids required).
Proof.
  apply (go_map_fits 1). apply Forall_app. split.
  - by repeat (constructor; [by destruct required|]).
  - destruct ids; constructor; [by apply strings_fit|constructor].
Qed.

Lemma injectTenantArg_ok t ids b required : tool_ok t → tool_ok (injectTenantArg t (tenantSchema ids b) required).
Proof.
  intros Ht. unfold injectTenantArg. cbv zeta.
  set (sch := default {["type" := JStr "object"]} (object_member "inputSchema" t)).
  assert (map_fits 9995 sch) as Hsch.
  { unfold sch. destruct (object_member "inputSchema" t) as [m|] eqn:Hm.
    - exact (object_member_fits tool_depth _ _ _ Ht Hm).
    - apply map_Forall_singleton. by split. }
  set (props := default ∅ (object_member "properties" sch)).
  assert (map_fits 9994 props) as Hprops.
  { unfold props. destruct (object_member "properties" sch) as [m|] eqn:Hm; [|apply map_Forall_empty].
    exact (object_member_fits 9995 _ _ _ Hsch Hm). }
  clearbody sch props. apply map_Forall_insert_2; [|exact Ht]. apply (marshal_map_fits 9995).
  assert (map_fits 9995 (<["properties" := marshal_map (<[tenantArg := tenantSchema ids b]> props)]> sch)) as Hs.
  { apply map_Forall_insert_2; [|exact Hsch]. apply (marshal_map_fits 9994).
    apply map_Forall_insert_2; [|exact Hprops]. apply (fits_mono 2), tenantSchema_fits. lia. }
  destruct required; [|exact Hs]. apply map_Forall_insert_2; [|exact Hs]. by apply strings_fit.
Qed.

Lemma listInstances_ok : tool_ok listInstancesToolDef.
Proof.
  intros k v Hk%elem_of_list_to_map_2. unfold tool_depth.
  repeat (apply elem_of_cons in Hk as [[= -> ->]|Hk]; [vm_compute; by split|]). by apply elem_of_nil in Hk.
Qed.

(** ** Envelopes *)

(** The text [v] prints as, with the newline an encoder may add. *)
Definition encodes (v : json) (text : string) : Prop := text = print v ∨ text = print v +:+ newline.

Lemma encodes_parse v text : fits max_depth v → encodes v text → parse text = Some (clean v).
Proof.
  intros [Hn Hd] [->| ->]; [|by apply parse_print_clean].
  rewrite <- (app_nil_r_str (print v)). by apply parse_print_clean.
Qed.

(** What the id of a decoded request allows. *)
Definition id_ok (id : option json) : Prop := ∀ i, id = Some i → json_within 9999 i.

Lemma id_ok_None : id_ok None.
Proof. by intros i. Qed.

Lemma omit_id_fits id : id_ok id → Forall (λ kv, fits 9999 kv.2) (omit_empty "id" id).
Proof. intros Hid. destruct id as [i|]; [|constructor]. constructor; [by apply within_fits, Hid|constructor]. Qed.

Lemma result_fits id res : id_ok id → fits 9999 res → fits max_depth (result_envelope id res).
Proof.
  intros Hid Hres. apply (go_map_fits 9999). apply Forall_app. split; [|by apply omit_id_fits].
  constructor; [by split|]. by constructor.
Qed.

Lemma error_fits id code msg :
  id_ok id → fits 0 (marshal_int code) → fits max_depth (error_envelope id code msg).
Proof.
  intros Hid Hc. apply (go_map_fits 9999). apply Forall_app. split; [|by apply omit_id_fits].
  constructor; [by split|]. constructor; [|constructor]. apply (fits_mono 1); [done|]. apply (go_map_fits 0).
  constructor; [done|]. constructor; [by split|constructor].
Qed.

Lemma has_type_const v : has_type (TConst v) v = true.
Proof. by apply bool_decide_eq_true. Qed.

Lemma clean_id id i : id_ok id → id = Some i → clean i = i.
Proof. intros Hid Hi. by apply clean_ok, Hid. Qed.

(** An envelope has its type as soon as its payload has. *)
Lemma result_typed id t res :
  id_ok id → has_type t (clean res) = true →
  has_type (rpc_ty id (inl t)) (clean (result_envelope id res)) = true.
Proof.
  intros Hid Ht. destruct id as [i|].
  - assert (has_type (rpc_ty (Some i) (inl t)) (clean (result_envelope (Some i) res)) =
      has_type t (clean res) && (has_type (TConst i) (clean i) && true) && true) as -> by reflexivity.
    by rewrite Ht, (clean_id _ i Hid), has_type_const.
  - assert (has_type (rpc_ty None (inl t)) (clean (result_envelope None res)) =
      has_type t (clean res) && true && true) as -> by reflexivity.
    by rewrite Ht.
Qed.

Lemma error_typed id code msg :
  id_ok id → has_type TInt (marshal_int code) = true →
  has_type (rpc_ty id (inr ())) (clean (error_envelope id code msg)) = true.
Proof.
  intros Hid Ht. destruct id as [i|].
  - assert (has_type (rpc_ty (Some i) (inr ())) (clean (error_envelope (Some i) code msg)) =
      (has_type TInt (marshal_int code) && true && true) && (has_type (TConst i) (clean i) && true) && true)
      as -> by reflexivity.
    by rewrite Ht, (clean_id _ i Hid), has_type_const.
  - assert (has_type (rpc_ty None (inr ())) (clean (error_envelope None code msg)) =
      (has_type TInt (marshal_int code) && true && true) && true && true) as -> by reflexivity.
    by rewrite Ht.
Qed.

(** *** What a backend lists *)

Definition tools_ok (o : option (list rawTool)) : Prop := Forall tool_ok (default [] o).

(** A fold that stops at the first error keeps what its steps keep. *)
Lemma foldl_result_ok {A B X} (P : B → Prop) (f : B → A → result X B) l b c :
  P b → (∀ b a b', a ∈ l → P b → f b a = Ok b' → P b') →
  foldl (λ acc a, cur ← acc; f cur a) (Ok b) l = Ok c → P c.
Proof.
  revert b. induction l as [|a l IH]; intros b Hb Hf; cbn [foldl]; [by intros [= <-]|].
  cbn [mbind result_bind]. destruct (f b a) as [b'|e] eqn:Ha.
  - apply IH; [apply (Hf b a); [by left|done|done]|]. intros b1 a1 b2 Ha1. apply Hf. by right.
  - clear. assert (foldl (λ acc a, cur ← acc; f cur a) (Err e) l = Err e) as ->; [|done].
    by induction l.
Qed.

Lemma unmarshal_tools_ok v o : unmarshal_tools v = Ok o → fits 9998 v → tools_ok o.
Proof.
  unfold unmarshal_tools. destruct v as [| | | |l|]; try done; [intros [= <-] _; by constructor|].
  destruct (result_mapM unmarshal_tool l) as [ts|] eqn:Hts; [|done]. intros [= <-] Hf%(fits_arr 9997).
  apply result_mapM_Ok in Hts. unfold tools_ok. cbn [default id].
  induction Hts as [|v t l ts Ht _ IH]; [constructor|]. apply Forall_cons in Hf as [Hv Hf].
  constructor; [|by apply IH]. unfold unmarshal_tool in Ht. destruct (unmarshal_map v) as [m|] eqn:Hm; [|done].
  injection Ht as <-. exact (unmarshal_map_fits 9997 _ _ Hm Hv).
Qed.

Lemma struct_members_fit d v l : struct_members v = Ok l → fits (N.succ d) v → Forall (λ kv, fits d kv.2) l.
Proof. destruct v; intros [= <-]; [by constructor|apply fits_obj]. Qed.

Lemma read_tools_ok body o : read_tools body = Ok o → tools_ok o.
Proof.
  unfold read_tools. destruct (response_members body) as [l|] eqn:Hl; [|done]. cbn [mbind result_bind].
  destruct (response_tools l) as [ts|] eqn:Hts; [|done]. cbn [mbind result_bind].
  destruct (raw_field "error" l); [done|]. intros [= ->].
  unfold response_members, parse_text in Hl. destruct (parse body) as [v|] eqn:Hv; [|done].
  cbn [mbind result_bind] in Hl. apply parse_sound in Hv.
  pose proof (struct_members_fit 9999 v l Hl (within_fits max_depth v Hv)) as Hall.
  rewrite Forall_forall in Hall. unfold response_tools in Hts.
  refine (foldl_result_ok tools_ok (λ cur kv, if names_field "result" kv.1 then tools_of_result cur kv.2 else Ok cur)
    l None o _ _ Hts); [constructor|].
  intros cur kv cur' Hkv Hcur. destruct (names_field "result" kv.1); [|by intros [= <-]].
  unfold tools_of_result. destruct (struct_members kv.2) as [l'|] eqn:Hl'; [|done]. cbn [mbind result_bind].
  pose proof (struct_members_fit 9998 _ l' Hl' (Hall _ Hkv)) as Hall'. rewrite Forall_forall in Hall'.
  apply foldl_result_ok; [done|]. intros c kv' c' Hkv' Hc.
  destruct (names_field "tools" kv'.1); [|by intros [= <-]]. intros Hu. by eapply unmarshal_tools_ok; [|apply Hall'].
Qed.

(** ** The heap of tools, kept by the catalogs *)

Section heap.
Context {E : Env}.
Implicit Types c : CatState E.

Definition heap_ok c : Prop := Forall tool_ok (ct_heap c).

(** Runs that keep the heap well formed; no log is tracked. *)
Abbreviation heap_run := (run_ok (S := CatState E) (λ _, []) heap_ok).

Lemma heap_outside {A} (m : M (Outside E) A) (Q : A → Prop) c :
  heap_ok c → (∀ o v o', m o = (Return v, o') → Q v) → heap_run (outside m) (λ v _, Q v) c.
Proof.
  intros Hc Hm. unfold run_ok, outside, zoom. destruct (m (ct_out c)) as [[v|] o] eqn:Hr; cbn.
  - split_and!; [done..|]. by eapply Hm.
  - by split_and!.
Qed.

Lemma listTools_ok b sid credential headers o x o' :
  listTools (E := E) b sid credential headers o = (Return x, o') → ∀ ts, x = Ok ts → tools_ok ts.
Proof.
  unfold listTools. unfold mbind at 1, M_bind.
  destruct ((if Stateless b then inject_meta None else mret None) o) as [[params|] o1]; [|done].
  unfold mbind at 1, M_bind. destruct (post _ _ _ _ _ _ _ o1) as [[r|] o2]; [|done].
  intros [= <- <-] ts. destruct r as [[body s]|e]; cbn; [|done]. apply read_tools_ok.
Qed.

Lemma fetch_ok k o x o' : fetch (E := E) k o = (Return x, o') → ∀ ts, x = Ok ts → tools_ok ts.
Proof.
  unfold fetch. destruct (Stateless (k_backend k)); [apply listTools_ok|].
  unfold mbind at 1, M_bind. destruct (initialize _ _ _ o) as [[[[sid res]|e]|] o1]; [|by intros [= <- <-]|done].
  unfold mbind at 1, M_bind. destruct ((if nonempty sid then notifyInitialized (k_backend k) sid (k_cred k) else mret tt) o1)
    as [[u|] o2]; [|done].
  apply listTools_ok.
Qed.

Lemma heap_get i c : heap_ok c → heap_run (get i) (λ _ _, True) c.
Proof.
  intros Hc. unfold get. apply run_gets. destruct (cs_unique (ct_cats c) !! i) as [k|]; [|by apply run_panic].
  apply run_bind with (λ _ _, True).
  { unfold is_fresh. destruct (k_tools k); [|by apply run_ret].
    eapply run_bind; [by apply (heap_outside now (λ _, True))|]. intros. by apply run_ret. }
  intros [] c1 Hc1 _ _; [by apply run_ret|].
  eapply run_bind; [apply (heap_outside (fetch k) (λ x, ∀ ts, x = Ok ts → tools_ok ts)); [done|]|].
  { intros o v o' Hr. by eapply fetch_ok. }
  intros [ts|e] c2 Hc2 _ Hts; [|by apply run_ret]. specialize (Hts ts eq_refl).
  apply run_bind with (λ _ _, True).
  { destruct ts as [ts|]; [|by apply run_ret]. eapply run_bind with (λ _ _, True); [|intros; by apply run_ret].
    split_and!; [done| |done]. apply Forall_app. by split. }
  intros refs c3 Hc3 _ _. eapply run_bind; [by apply (heap_outside now (λ _, True))|]. intros t c4 Hc4 _ _.
  eapply run_bind with (λ _ _, True); [|intros; by apply run_ret]. by apply run_modify.
Qed.

Lemma heap_toolsFor ts c : heap_ok c → heap_run (toolsFor ts) (λ _ _, True) c.
Proof.
  intros Hc. unfold toolsFor. eapply run_bind with (λ _ _, True); [|intros; by apply run_ret].
  revert c Hc. induction ts as [|t ts IH]; intros c Hc; [by apply run_ret|]. cbn [collect_tools].
  apply run_gets. destruct (forTenant _ _); [|by apply IH]. eapply run_bind; [by apply heap_get|].
  intros r c1 Hc1 _ _. eapply run_bind; [by apply IH|]. intros. by apply run_ret.
Qed.

Lemma heap_warm c : heap_ok c → heap_run warm (λ _ _, True) c.
Proof.
  intros Hc. unfold warm. apply run_gets. generalize (seq 0 (length (cs_unique (ct_cats c)))) as l.
  intros l. revert c Hc. induction l as [|i l IH]; intros c Hc; [by apply run_ret|].
  cbn [warm_from]. eapply run_bind; [by apply heap_get|]. intros r c1 Hc1 _ _.
  eapply run_bind; [by apply IH|]. intros. by apply run_ret.
Qed.

(** *** Copies for an answer *)

Lemma lookup_ok c r : heap_ok c → tool_ok (default ∅ (ct_heap c !! r)).
Proof.
  intros Hc. destruct (ct_heap c !! r) as [t|] eqn:Ht; [|apply empty_ok].
  exact (Forall_lookup_1 _ _ _ _ Hc Ht).
Qed.

Lemma heap_clone r c : heap_ok c → heap_run (alloc_clone r) (λ _ _, True) c.
Proof.
  intros Hc. split_and!; [done| |done]. apply Forall_app. split; [done|]. constructor; [|constructor].
  by apply cloneTool_ok, lookup_ok.
Qed.

Lemma heap_inject r ids b required c :
  heap_ok c → heap_run (inject_at r (tenantSchema ids b) required) (λ _ _, True) c.
Proof.
  intros Hc. apply run_modify; [done| |done]. apply Forall_lookup. cbn [ct_heap]. intros i t Hi.
  destruct (decide (r = i)) as [<-|Hne].
  - rewrite list_lookup_alter_eq in Hi. apply fmap_Some in Hi as (t' & Ht' & ->).
    apply injectTenantArg_ok. exact (Forall_lookup_1 _ _ _ _ Hc Ht').
  - rewrite list_lookup_alter_ne in Hi by done. exact (Forall_lookup_1 _ _ _ _ Hc Hi).
Qed.

Lemma heap_list_tools discovery authorized u order c :
  heap_ok c → heap_run (list_tools discovery authorized u order) (λ _ _, True) c.
Proof.
  revert c. induction order as [|name order IH]; intros c Hc; [by apply run_ret|]. cbn [list_tools].
  apply run_bind with (λ _ _, True).
  - unfold list_tool. eapply run_bind; [by apply heap_clone|]. intros r c1 Hc1 _ _.
    apply run_bind with (λ _ _, True); [|intros; by apply run_ret].
    destruct discovery; [by apply heap_inject|]. destruct (2 <=? length authorized); [by apply heap_inject|by apply run_ret].
  - intros r c1 Hc1 _ _. eapply run_bind; [by apply IH|]. intros. by apply run_ret.
Qed.

Lemma heap_alloc ts c : Forall tool_ok ts → heap_ok c → heap_run (alloc_tools ts) (λ _ _, True) c.
Proof. intros Hts Hc. split_and!; [done| |done]. apply Forall_app. by split. Qed.

Lemma deref_ok c refs : heap_ok c → Forall tool_ok (deref (ct_heap c) refs).
Proof.
  intros Hc. apply Forall_forall. intros t (r & _ & Hr)%list_elem_of_omap.
  exact (Forall_lookup_1 _ _ _ _ Hc Hr).
Qed.
End heap.

(** ** Results *)

Section results.
Context {V : Type} (h : Handler V).

(** A result that prints and has this type. *)
Definition result_ok (t : ty) (res : json) : Prop := fits 9999 res ∧ has_type t (clean res) = true.

Abbreviation stateless := (AllStateless (Registry_ h)).

(** A closed tree but for its strings. *)
#[local] Ltac known := split; [split; [reflexivity|vm_compute; discriminate]|reflexivity].

Lemma serverInfo_ok : result_ok (result_ty stateless "initialize") (serverInfoResult h).
Proof. unfold serverInfoResult, client_version. destruct stateless; known. Qed.

Lemma discover_ok : result_ok (result_ty stateless "server/discover") (discoverResult h).
Proof. unfold discoverResult, client_version. destruct stateless; known. Qed.

Lemma ping_ok : result_ok (result_ty stateless "ping") (marshal_map (statelessize h ∅)).
Proof. unfold statelessize. destruct stateless; known. Qed.

Lemma text_ok text isError :
  result_ok (result_ty stateless "tools/call") (marshal_map (statelessize h (toolResultText text isError))).
Proof. unfold statelessize. destruct stateless; known. Qed.

Lemma tools_result_ok tools :
  Forall tool_ok tools → result_ok (result_ty stateless "tools/list") (tools_result h tools).
Proof.
  intros Htools.
  assert (fits 9998 (JArr (marshal_map <$> tools))) as Hf.
  { apply (fits_arr 9997), Forall_fmap. eapply Forall_impl; [exact Htools|]. by apply marshal_map_fits. }
  assert (has_type (TArr (TObj [] true)) (clean (JArr (marshal_map <$> tools))) = true) as Ht.
  { cbn [clean has_type]. clear. by induction tools. }
  unfold tools_result. destruct stateless eqn:Hs; split.
  - apply (go_map_fits 9998). constructor; [done|]. by repeat (constructor; [by split|]).
  - assert (∀ a, has_type (result_ty true "tools/list") (clean (go_map ([("tools", a)] ++
      [("cacheScope", JStr "private"); ("resultType", JStr "complete"); ("ttlMs", marshal_int 0)]))) =
      has_type (TArr (TObj [] true)) (clean a) && true && true) as -> by reflexivity. by rewrite Ht.
  - apply (go_map_fits 9998). by constructor.
  - assert (∀ a, has_type (result_ty false "tools/list") (clean (go_map ([("tools", a)] ++ []))) =
      has_type (TArr (TObj [] true)) (clean a) && true && true) as -> by reflexivity. by rewrite Ht.
Qed.
End results.

(** ** What the client is sent *)

(** JSON of this type, labelled as such. *)
Definition speaks (t : ty) (w : Writer) : Prop :=
  header_get "Content-Type" (w_sent w) = "application/json" ∧
  ∃ v, parse (w_body w) = Some v ∧ has_type t v = true.

Definition unwritten (w : Writer) : Prop := w_status w = 0%Z ∧ w_body w = "".

Lemma write_speaks t v text w :
  unwritten w → header_get "Content-Type" (w_header w) = "application/json" →
  fits max_depth v → encodes v text → has_type t (clean v) = true →
  speaks t (w_write text w) ∧ w_status (w_write text w) = 200%Z.
Proof.
  intros [Hs Hb] Hh Hf He Ht. unfold w_write. rewrite w_write_header_fresh by done.
  cbn [w_status w_body w_sent]. rewrite Hb. split; [|done]. split; [done|]. exists (clean v).
  split; [by apply encodes_parse|done].
Qed.

Lemma writeRPCError_speaks id code msg w :
  unwritten w → id_ok id → has_type TInt (marshal_int code) = true → fits 0 (marshal_int code) →
  speaks (rpc_ty id (inr ())) (writeRPCError id code msg w) ∧ w_status (writeRPCError id code msg w) = 200%Z.
Proof.
  intros Hw Hid Ht Hf. eapply write_speaks; [by destruct Hw|apply header_get_set| |by left|by apply error_typed].
  by apply error_fits.
Qed.

Lemma write_result_speaks id t res w :
  unwritten w → id_ok id → result_ok t res →
  speaks (rpc_ty id (inl t)) (write_result id res w) ∧ w_status (write_result id res w) = 200%Z.
Proof.
  intros Hw Hid [Hf Ht]. eapply write_speaks; [by destruct Hw|apply header_get_set| |by right|by apply result_typed].
  by apply result_fits.
Qed.

Lemma writeHTTPError_speaks status id code msg w :
  unwritten w → status ≠ 0%Z → id_ok id → has_type TInt (marshal_int code) = true → fits 0 (marshal_int code) →
  speaks (rpc_ty id (inr ())) (writeHTTPError status id code msg w) ∧
  w_status (writeHTTPError status id code msg w) = status.
Proof.
  intros [Hs Hb] Hne Hid Ht Hf. unfold writeHTTPError. rewrite w_write_header_fresh by done.
  rewrite w_write_started by done. cbn [w_status w_body w_sent w_header w_set_header]. rewrite Hb.
  split; [|done]. split; [apply header_get_set|]. exists (clean (error_envelope id code msg)).
  split; [|by apply error_typed]. apply encodes_parse; [by apply error_fits|by left].
Qed.

(** The answer to the request [req]; a payload passed on is from one of these
    exchanges. *)
Inductive answer_ok (stateless : bool) (req : jsonRPCRequest) (from : exchange → Prop) (w : Writer) : Prop :=
| answer_result :
    w_status w = 200%Z → speaks (rpc_ty (j_ID req) (inl (result_ty stateless (j_Method req)))) w →
    answer_ok stateless req from w
| answer_error :
    w_status w ∈ [200; 401; 403; 500]%Z → speaks (rpc_ty (j_ID req) (inr ())) w →
    answer_ok stateless req from w
| answer_backend x sid :
    j_Method req = "tools/call" → from x → read_response x.2 = Ok (w_body w, sid) →
    w_status w = 200%Z → header_get "Content-Type" (w_sent w) = "application/json" →
    answer_ok stateless req from w
| answer_none :
    j_Method req = "notifications/initialized" ∨ isNotification req = true →
    w_status w = 202%Z → w_body w = "" → answer_ok stateless req from w.

Lemma answer_from stateless req (from from' : exchange → Prop) w :
  (∀ x, from x → from' x) → answer_ok stateless req from w → answer_ok stateless req from' w.
Proof.
  intros Hf [| |x sid Hm Hx Hr Hs Ht|]; [by apply answer_result|by apply answer_error| |by apply answer_none].
  by apply (answer_backend _ _ _ _ x sid); [..|apply Hf|done|done|done].
Qed.

Lemma answer_finish stateless req x w : answer_ok stateless req x w → answer_ok stateless req x (w_finish w).
Proof.
  intros Ha. assert (w_status w ≠ 0%Z) as Hne.
  { destruct Ha as [->|H|? ? ? ? ? ->|? ->]; [done| |done|done]. intros Heq. rewrite Heq in H. set_solver. }
  unfold w_finish, w_write_header. by rewrite (proj2 (Z.eqb_neq _ _)).
Qed.

(** ** The handlers *)

Section state.
Context {E : Env}.
Implicit Types s : State E.

Definition state_ok s : Prop := heap_ok (h_cat s).

(** The last exchange. *)
Definition last_of s (x : exchange) : Prop := last (s_log s) = Some x.

Abbreviation state_run := (run_ok (S := State E) (λ _, []) state_ok).

(** Steps that leave the tools and the response alone. *)
Definition muted {A} (m : M (State E) A) : Prop :=
  ∀ s, h_w (m s).2 = h_w s ∧ ct_heap (h_cat (m s).2) = ct_heap (h_cat s).

Lemma muted_ret {A} (v : A) : muted (mret v).
Proof. done. Qed.
Lemma muted_gets {A} (f : State E → A) : muted (gets f).
Proof. done. Qed.
Lemma muted_note f : muted (note f).
Proof. done. Qed.
Lemma muted_record f : muted (record f).
Proof. done. Qed.
Lemma muted_set_store f : muted (modify (λ s, set_store (f s) s)).
Proof. done. Qed.
Lemma muted_on_out {A} (m : M (Outside E) A) : muted (on_out m).
Proof.
  intros s. unfold on_out, on_cat, outside, zoom. by destruct (m (ct_out (h_cat s))).
Qed.
Lemma muted_bind {A B} (m : M (State E) A) (k : A → M (State E) B) :
  muted m → (∀ v, muted (k v)) → muted (m ≫= k).
Proof.
  intros Hm Hk s. unfold mbind, M_bind. destruct (Hm s) as [Hw Hh].
  destruct (m s) as [[v|] s']; [|done]. cbn [snd] in *. destruct (Hk v s') as [-> ->]. done.
Qed.

#[local] Hint Resolve muted_ret muted_gets muted_note muted_record muted_set_store muted_on_out
  muted_bind : proxy.

Lemma muted_Mint : muted session_Mint.
Proof.
  unfold session_Mint. do 4 (apply muted_bind; [auto with proxy|intros ?]).
  destruct (Mint _ _ _ _). by apply muted_bind.
Qed.
Lemma muted_Get id : muted (session_Get id).
Proof.
  unfold session_Get. do 3 (apply muted_bind; [auto with proxy|intros ?]).
  destruct (Get _ _ _ _). by apply muted_bind.
Qed.
Lemma muted_Set pid b sid : muted (session_SetBackendSID pid b sid).
Proof. unfold session_SetBackendSID. auto with proxy. Qed.
Lemma muted_Delete id : muted (session_Delete id).
Proof.
  unfold session_Delete. apply muted_bind; [auto with proxy|]. intros st.
  destruct (Delete id st). by apply muted_bind.
Qed.

#[local] Hint Resolve muted_Mint muted_Get muted_Set muted_Delete : proxy.

Lemma muted_open pid t : muted (open_backend_session pid t).
Proof.
  unfold open_backend_session. apply muted_bind; [auto with proxy|]. intros [[sid res]|e]; [|auto with proxy].
  apply muted_bind; [destruct (nonempty sid)|]; auto with proxy.
Qed.

Lemma muted_run {A} (m : M (State E) A) s :
  muted m → state_ok s → state_run m (λ _ s', h_w s' = h_w s) s.
Proof.
  intros Hm Hs. destruct (Hm s) as [Hw Hh]. split_and!; [done| |by destruct (m s).1].
  unfold state_ok, heap_ok. by rewrite Hh.
Qed.

Lemma on_cat_run {A} (m : M (CatState E) A) s :
  run_ok (λ _, []) heap_ok m (λ _ _, True) (h_cat s) → state_run (on_cat m) (λ _ s', h_w s' = h_w s) s.
Proof. intros Hm. by eapply run_zoom; [exact Hm|..]. Qed.

(** *** The answer of a request *)

Variables (stateless : bool) (req : jsonRPCRequest).
Hypothesis Hid : id_ok (j_ID req).

Definition answered_ok s : Prop := answer_ok stateless req (last_of s) (h_w s).

Definition open_ok s : Prop := state_ok s ∧ unwritten (h_w s).

(** Handlers that answer, whatever they return. *)
Definition replies {A} (m : M (State E) A) : Prop :=
  ∀ s, open_ok s → state_run m (λ _ s', answered_ok s') s.

Lemma replies_after {A B} (m : M (State E) A) (k : A → M (State E) B) :
  muted m → (∀ v, replies (k v)) → replies (m ≫= k).
Proof.
  intros Hm Hk s [Hs Hw]. eapply run_bind; [by apply muted_run|]. intros v s' Hs' _ Hw'.
  apply Hk. split; [done|by rewrite Hw'].
Qed.

Lemma write_answers f s :
  state_ok s → answer_ok stateless req (λ _, False) (f (h_w s)) → state_run (write f) (λ _ s', answered_ok s') s.
Proof.
  intros Hs Ha. apply run_modify; [done..|]. unfold answered_ok. cbn [h_w set_w].
  eapply answer_from; [|exact Ha]. done.
Qed.

Lemma replies_write f :
  (∀ w, unwritten w → answer_ok stateless req (λ _, False) (f w)) → replies (write f).
Proof. intros Hf s [Hs Hw]. apply write_answers; auto. Qed.

(** What comes after the answer changes neither the response nor the log. *)
Definition trailing {A} (m : M (State E) A) : Prop := ∀ s, muted m ∧ s_log (m s).2 = s_log s.

Lemma replies_then {A B} (m : M (State E) A) (k : A → M (State E) B) :
  replies m → (∀ v, trailing (k v)) → replies (m ≫= k).
Proof.
  intros Hm Hk s Hs. eapply run_bind; [by apply Hm|]. intros v s' Hs' _ Ha.
  destruct (Hk v s') as [Hsil Hlog]. pose proof (muted_run (k v) s' Hsil Hs') as (Hp & Hs'' & Hw).
  split_and!; [done..|]. destruct (k v s') as [[x|] s'']; [|done]. cbn [fst snd] in *.
  unfold answered_ok, last_of. by rewrite Hlog, Hw.
Qed.

Lemma trailing_ret {A} (v : A) : trailing (mret v).
Proof. by intros s. Qed.
Lemma trailing_note f : trailing (note f).
Proof. by intros s. Qed.

Lemma replies_error code msg :
  has_type TInt (marshal_int code) = true → fits 0 (marshal_int code) →
  replies (write (writeRPCError (j_ID req) code msg)).
Proof.
  intros Ht Hf. apply replies_write. intros w Hw.
  destruct (writeRPCError_speaks (j_ID req) code msg w Hw Hid Ht Hf) as [Hsp Hst].
  apply answer_error; [rewrite Hst; set_solver|done].
Qed.

Lemma replies_result res :
  result_ok (result_ty stateless (j_Method req)) res → replies (write (write_result (j_ID req) res)).
Proof.
  intros Hr. apply replies_write. intros w Hw.
  destruct (write_result_speaks (j_ID req) _ res w Hw Hid Hr) as [Hsp Hst]. by apply answer_result.
Qed.

(** A call's answer is the last exchange's. *)
Lemma callTool_last b sid credential bytes headers name (o : Outside E) body o' :
  callTool b sid credential bytes headers name o = (Return (Ok body), o') →
  ∃ x sid', o_log o' = o_log o ++ [x] ∧ read_response x.2 = Ok (body, sid').
Proof.
  unfold callTool. unfold mbind at 1, M_bind.
  match goal with |- context [match ?m o with _ => _ end] =>
    assert (sends_only o_log (λ _, False) m) as Hm end.
  { destruct (Stateless b); [|auto with proxy].
    destruct (v ← parse_text bytes; unmarshal_request v); auto using inject_meta_sends with proxy. }
  destruct (Hm o) as (xs & Hlog & Hxs).
  match goal with |- context [match ?m o with _ => _ end] => destruct (m o) as [[[bytes'|e]|] o1] end; [|done..].
  assert (o_log o1 = o_log o) as Ho.
  { destruct xs; [by rewrite app_nil_r in Hlog|]. by apply Forall_cons in Hxs as [[] _]. }
  unfold mbind at 1, M_bind. destruct (e_url_Parse E (u_String (b_URL b))) as [u|] eqn:Hu.
  2:{ unfold post. by rewrite Hu. }
  rewrite (post_log _ _ _ _ _ _ _ _ _ Hu). intros [= Hr <-]. cbn [o_log]. rewrite Ho.
  destruct (read_response _) as [[body' sid']|e] eqn:He; [|done]. injection Hr as ->. by eexists _, sid'.
Qed.

Lemma replies_call b sid credential bytes headers name :
  j_Method req = "tools/call" →
  replies (resp ← on_out (callTool b sid credential bytes headers name); finish_call (j_ID req) resp).
Proof.
  intros Hm s [Hs Hw]. unfold mbind at 1, M_bind.
  pose proof (muted_run (on_out (callTool b sid credential bytes headers name)) s (muted_on_out _) Hs)
    as (_ & Hs' & Hw').
  unfold on_out, on_cat, outside, zoom in Hs', Hw' |- *. unfold run_ok.
  destruct (callTool _ _ _ _ _ _ (ct_out (h_cat s))) as [[[body|e]|] o'] eqn:Hc;
    cbn [fst snd finish_call] in *; [| |by split_and!].
  - destruct (callTool_last _ _ _ _ _ _ _ _ _ Hc) as (x & sid' & Hl & Hr).
    set (s1 := set_cat _ s) in *. destruct Hw as [Hw1 Hw2].
    split_and!; [done|exact Hs'|]. unfold write, modify, mbind, M_bind, mret, M_ret. cbn [fst snd].
    unfold answered_ok. cbn [h_w set_w]. unfold w_write. rewrite w_write_header_fresh by done.
    apply (answer_backend _ _ _ _ x sid'); [done| | |done|apply header_get_set].
    { unfold last_of, s_log, cat_log. cbn. by rewrite Hl, last_snoc. }
    cbn [w_body w_set_header]. subst s1. cbn [h_w set_cat]. by rewrite Hw2.
  - refine (replies_then _ _ _ (λ _, trailing_ret _) _ _); [by apply replies_error|by split].
Qed.
End state.

#[export] Hint Resolve muted_ret muted_gets muted_note muted_record muted_set_store muted_on_out
  muted_bind muted_Mint muted_Get muted_Set muted_Delete muted_open trailing_ret trailing_note : proxy.

Section handlers.
Context {V : Type} `{Verifier V} (h : Handler V) {E : Env}.
Implicit Types s : State E.

Abbreviation stateless := (AllStateless (Registry_ h)).
Abbreviation state_run := (run_ok (S := State E) (λ _, []) state_ok).

Variable req : jsonRPCRequest.
Hypothesis Hid : id_ok (j_ID req).

Abbreviation replies := (replies (E := E) stateless req).

Lemma replies_route r t bytes name phs :
  j_Method req = "tools/call" → replies (routeToBackend r (j_ID req) t bytes name phs).
Proof.
  intros Hm. unfold routeToBackend. destruct (Stateless (t_Backend t)); [by apply replies_call|].
  assert (∀ code msg, has_type TInt (marshal_int code) = true → fits 0 (marshal_int code) →
    replies (_ ← write (writeRPCError (j_ID req) code msg); mret false)) as Herr.
  { intros code msg Ht Hf. apply replies_then; [by apply replies_error|auto with proxy]. }
  apply replies_after; [auto with proxy|]. intros [sess|]; [|by apply Herr].
  apply replies_after; [destruct (BackendSID sess (t_ID t)); auto with proxy|].
  intros [sid|e]; [by apply replies_call|by apply Herr].
Qed.

Lemma replies_forward r params t :
  j_Method req = "tools/call" → replies (forward_call r req params t).
Proof.
  intros Hm. unfold forward_call. apply replies_after; [auto with proxy|]. intros _.
  destruct (stripTenantArg (j_Params req)).
  - apply replies_after; [auto with proxy|]. intros phs.
    apply replies_then; [by apply replies_route|]. intros []; auto with proxy.
  - apply replies_after; [auto with proxy|]. intros _. by apply replies_error.
Qed.

Lemma replies_auth r e : replies (auth_failure h r (j_ID req) e).
Proof.
  assert (∀ status f code msg, status ∈ [401; 403; 500]%Z → has_type TInt (marshal_int code) = true →
    fits 0 (marshal_int code) → (∀ w, unwritten w → unwritten (f w)) →
    replies (write (writeHTTPError status (j_ID req) code msg ∘ f))) as Hend.
  { intros status f code msg Hin Ht Hf Hw. apply replies_write. intros w Hw'%Hw.
    destruct (writeHTTPError_speaks status (j_ID req) code msg (f w) Hw') as [Hsp Hst]; [set_solver|done..|].
    apply answer_error; [|done]. change (w_status _) with (w_status (writeHTTPError status (j_ID req) code msg (f w))).
    rewrite Hst. set_solver. }
  assert (∀ status hdr code msg, status ∈ [401; 403; 500]%Z → has_type TInt (marshal_int code) = true →
    fits 0 (marshal_int code) →
    replies (_ ← write (w_set_header "WWW-Authenticate" hdr); write (writeHTTPError status (j_ID req) code msg)))
    as Hchallenge.
  { intros status hdr code msg Hin Ht Hf.
    exact (Hend status (w_set_header "WWW-Authenticate" hdr) code msg Hin Ht Hf (λ _ Hw, Hw)). }
  destruct e; unfold auth_failure; (apply replies_after; [auto with proxy|]; intros _).
  1-2: apply Hchallenge; [set_solver|done..].
  apply (Hend 500%Z id); [set_solver|done..].
Qed.

Lemma replies_call_body r : j_Method req = "tools/call" → replies (tools_call_body h r req).
Proof.
  intros Hm. unfold tools_call_body. apply replies_after; [auto with proxy|]. intros t.
  destruct (Groups (Verifier_ h) t r) as [groups|e]; [|apply replies_auth].
  destruct (match j_Params req with Some v => unmarshal_params v | None => Err BadSyntax end) as [params|e].
  2:{ apply replies_after; [auto with proxy|]. intros _. by apply replies_error. }
  pose proof (text_ok h) as Htext. rewrite <- Hm in Htext.
  apply replies_after; [auto with proxy|]. intros _. destruct (String.eqb _ _).
  { unfold writeInstances. by apply replies_result. }
  apply replies_after; [auto with proxy|]. intros [tenant|msg]; [by apply replies_forward|].
  apply replies_after; [auto with proxy|]. intros _. by apply replies_result.
Qed.

Lemma replies_tools_call r : j_Method req = "tools/call" → replies (handleToolsCall h r req).
Proof.
  intros Hm. unfold handleToolsCall. do 2 (apply replies_after; [auto with proxy|intros ?]).
  intros s Hs. destruct (replies_call_body r Hm s Hs) as (_ & Hs' & Ha). unfold deferred, run_ok.
  destruct (tools_call_body h r req s) as [x s']. cbn [fst snd] in *. by split_and!.
Qed.

Lemma replies_tools_list r : j_Method req = "tools/list" → replies (handleToolsList h r req).
Proof.
  intros Hm. unfold handleToolsList. apply replies_after; [auto with proxy|]. intros t.
  destruct (listed_tenants h _) as [tenants discovery]. intros s [Hs Hw].
  eapply run_bind; [apply on_cat_run, heap_toolsFor, Hs|]. intros [views|e] s1 Hs1 _ Hw1.
  2:{ apply replies_error; [done..|]. split; [done|by rewrite Hw1]. }
  apply run_gets. eapply run_bind; [by apply on_cat_run, heap_list_tools|]. intros out s2 Hs2 _ Hw2.
  eapply run_bind; [apply on_cat_run, heap_alloc; [constructor; [apply listInstances_ok|constructor]|done]|].
  intros local s3 Hs3 _ Hw3. apply run_gets.
  apply replies_result; [done| |split; [done|by rewrite Hw3, Hw2, Hw1]].
  rewrite Hm. by apply tools_result_ok, deref_ok.
Qed.

(** The response headers may name a session. *)
Lemma initialize_answer w w' :
  unwritten w → w_status w' = w_status w → w_body w' = w_body w →
  header_get "Content-Type" (w_header w') = "application/json" → j_Method req = "initialize" →
  answer_ok stateless req (λ _, False) (w_write (writeJSONRPCResult (j_ID req) (serverInfoResult h)) w').
Proof.
  intros [Hs Hb] Hs' Hb' Hh Hm. pose proof (serverInfo_ok h) as [Hf Ht]. rewrite <- Hm in Ht.
  destruct (write_speaks (rpc_ty (j_ID req) (inl (result_ty stateless (j_Method req))))
    (result_envelope (j_ID req) (serverInfoResult h)) (writeJSONRPCResult (j_ID req) (serverInfoResult h)) w')
    as [Hsp Hst]; [by split; congruence|done|by apply result_fits|by right|by apply result_typed|].
  by apply answer_result.
Qed.

Lemma replies_initialize : j_Method req = "initialize" → replies (handleInitialize h req).
Proof.
  intros Hm s [Hs Hw]. unfold handleInitialize.
  eapply run_bind with (λ _ s', h_w s' = w_set_header "Content-Type" "application/json" (h_w s));
    [by apply run_modify|]. intros _ s1 Hs1 _ Hw1. destruct (AllStateless (Registry_ h)) eqn:Hsl.
  { rewrite <- Hsl. apply write_answers; [done|]. rewrite Hw1.
    by apply (initialize_answer (h_w s)); [..|apply header_get_set|]. }
  rewrite <- Hsl. eapply run_bind; [by apply (muted_run session_Mint); [apply muted_Mint|]|].
  intros sess s2 Hs2 _ Hw2. eapply run_bind; [by apply (muted_run (record RecordSession))|]. intros u3 s3 Hs3 _ Hw3.
  eapply run_bind with (λ _ s', h_w s' = w_set_header mcpSessionHeader (s_ID sess) (h_w s3));
    [by apply run_modify|]. intros _ s4 Hs4 _ Hw4. apply write_answers; [done|]. rewrite Hw4, Hw3, Hw2, Hw1.
  apply (initialize_answer (h_w s)); [done..| |done].
  unfold header_get, w_set_header, header_set. cbn [w_header].
  rewrite lookup_insert_ne by (vm_compute; done). by rewrite lookup_insert_eq.
Qed.

Lemma replies_202 :
  j_Method req = "notifications/initialized" ∨ isNotification req = true →
  replies (write (w_write_header 202)).
Proof.
  intros Hn. apply replies_write. intros w [Hs Hb]. rewrite w_write_header_fresh by done.
  by apply answer_none.
Qed.

Lemma replies_dispatch r : replies (dispatch h r req).
Proof.
  unfold dispatch. cbv zeta.
  destruct (String.eqb_spec (j_Method req) "initialize") as [Hm|H1]; [by apply replies_initialize|].
  destruct (String.eqb_spec (j_Method req) "notifications/initialized") as [Hm|H2].
  { apply replies_202. by left. }
  destruct (String.eqb_spec (j_Method req) "server/discover") as [Hm|H3].
  { apply replies_result; [done|]. rewrite Hm. apply discover_ok. }
  destruct (String.eqb_spec (j_Method req) "tools/list") as [Hm|H4]; [by apply replies_tools_list|].
  destruct (String.eqb_spec (j_Method req) "tools/call") as [Hm|H5]; [by apply replies_tools_call|].
  destruct (String.eqb_spec (j_Method req) "ping") as [Hm|H6].
  { apply replies_result; [done|]. rewrite Hm. apply ping_ok. }
  destruct (isNotification req) eqn:Hn; [apply replies_202; by right|by apply replies_error].
Qed.
End handlers.

Section serve.
Context {V : Type} `{Verifier V} (h : Handler V) {E : Env}.
Implicit Types s : State E.

Lemma decodes_to_id r req : decodes_to r req → id_ok (j_ID req).
Proof.
  intros [_ (body & _ & Hreq)]. unfold parse_text in Hreq.
  destruct (parse body) as [v|] eqn:Hv; [|done]. cbn [mbind result_bind] in Hreq.
  exact (proj2 (unmarshal_request_within max_depth v req Hreq (parse_sound _ _ Hv))).
Qed.

(** A request handled from a fresh response keeps the tools well formed, and its
    answer is typed. *)
Lemma ServeHTTP_typed r s :
  state_ok s →
  run_ok (S := State E) (λ _, []) state_ok (ServeHTTP h r)
    (λ _ s', ∀ req, decodes_to r req →
       answer_ok (AllStateless (Registry_ h)) req (last_of s') (h_w s')) (set_w new_writer s).
Proof.
  intros Hs. unfold ServeHTTP.
  assert (∀ f, ¬ (∃ req, decodes_to r req) → run_ok (S := State E) (λ _, []) state_ok (write f)
    (λ _ s', ∀ req, decodes_to r req →
       answer_ok (AllStateless (Registry_ h)) req (last_of s') (h_w s')) (set_w new_writer s)) as Hnone.
  { intros f Hno. apply run_modify; [done..|]. intros req Hd. exfalso. eauto. }
  destruct (String.eqb_spec (r_Method r) "DELETE") as [Hm|H1].
  { assert (¬ ∃ req, decodes_to r req) as Hno by (intros (req & Hp & _); congruence).
    unfold handleDelete. destruct (AllStateless (Registry_ h)) eqn:Hsl; [by apply Hnone|].
    eapply run_bind; [by apply (muted_run (session_Delete _)); [apply muted_Delete|]|].
    intros o s1 Hs1 _ _. apply run_bind with (λ _ _, True).
    { destruct o; [by apply run_modify|by apply run_ret]. }
    intros u s2 Hs2 _ _. apply run_modify; [done..|]. intros req Hd. exfalso. eauto. }
  destruct (String.eqb_spec (r_Method r) "GET") as [Hm|H2].
  { eapply run_bind with (λ _ _, True); [by apply run_modify|]. intros u s1 Hs1 _ _.
    apply run_modify; [done..|]. intros req [Hp _]. congruence. }
  destruct (String.eqb_spec (r_Method r) "POST") as [Hm|H3]; cbn [negb].
  2:{ apply Hnone. by intros (req & Hp & _). }
  destruct (r_Body r) as [body|] eqn:Hb.
  2:{ apply Hnone. intros (req & _ & body & Hb' & _). congruence. }
  destruct (v ← parse_text body; unmarshal_request v) as [req|e] eqn:Hreq.
  2:{ apply Hnone. intros (req & _ & body' & [= <-]%(eq_trans (eq_sym Hb)) & Hreq'). congruence. }
  assert (decodes_to r req) as Hd by (split; [done|by exists body]).
  apply run_bind with (λ _ s', unwritten (h_w s')).
  { destruct (AllStateless (Registry_ h)); [by apply run_modify|by apply run_ret]. }
  intros u s1 Hs1 _ Hw1.
  eapply run_mono; [apply (replies_dispatch h req (decodes_to_id r req Hd) r); by split|].
  intros v s2 _ _ Ha req' Hd'. assert (req' = req) as ->; [|done].
  destruct Hd' as [_ (body' & [= <-]%(eq_trans (eq_sym Hb)) & Hreq')]. congruence.
Qed.

Lemma serve_state_ok r s : state_ok s → state_ok (serve h r s).2.
Proof.
  intros Hs. pose proof (ServeHTTP_typed r s Hs) as (_ & Hs' & _). unfold serve.
  by destruct (ServeHTTP h r (set_w new_writer s)) as [[]].
Qed.

Lemma reachable_state_ok obs o s : reachable h obs o s → state_ok s.
Proof.
  unfold reachable. intros Hr. assert (state_ok (proxy_init h obs o)) as Hinit by constructor.
  revert Hinit. induction Hr as [|s1 s2 s3 Hstep _ IH]; [done|]. intros Hs. apply IH.
  destruct Hstep as [r s|t sid l1 l2 s Ht|s].
  - by apply serve_state_ok.
  - by apply (muted_run (on_out (teardownBackend t sid)) (set_tasks (l1 ++ l2) s) (muted_on_out _)).
  - unfold warm_attempt. apply (run_bind (λ _ : State E, []) state_ok _ _ (λ _ _, True) (λ _ _, True)); [|].
    + eapply run_mono; [apply on_cat_run, heap_warm, Hs|done].
    + intros. by apply run_ret.
Qed.

Lemma serve_answer r req s :
  state_ok s → decodes_to r req → ∀ w s', serve h r s = (Return w, s') →
  answer_ok (AllStateless (Registry_ h)) req (last_of s') w.
Proof.
  intros Hs Hd w s'. pose proof (ServeHTTP_typed r s Hs) as (_ & _ & Ha). unfold serve.
  destruct (ServeHTTP h r (set_w new_writer s)) as [[v|] s'']; [|done]. intros [= <- <-].
  by apply answer_finish, Ha.
Qed.
End serve.

(** ** Theorem *)

(** Every JSON-RPC message the proxy writes is well typed. In every state the
    proxy can get into, a request with a method and an id (or none) is answered with
    no body (202, for notifications only), with the payload of the last backend
    answer (tools/call only), or with JSON that parses, whatever bytes tenant
    ids, tool names or messages hold, to an envelope with exactly the caller's id
    and either a result of the method's type or an error of code and message. *)
Theorem serve_typed {V} `{Verifier V} {E : Env} (h : Handler V) obs o (s : State E) r req :
  registry_wf (Registry_ h) → reachable h obs o s → decodes_to r req → ¬ null_call req →
  ∃ w s', serve h r s = (Return w, s') ∧
    answer_ok (AllStateless (Registry_ h)) req (last_of s') w.
Proof.
  intros Hreg Hr Hd Hnull.
  destruct (ServeHTTP_answers (E := E) h r) with (s := set_w new_writer s) as ([] & s' & Hrun).
  - intros req' [_ (body' & Hb' & Hreq')]. destruct Hd as [_ (body & Hb & Hreq)].
    assert (req' = req) as -> by congruence. done.
  - by apply (reachable_consistent h obs o s).
  - exists (w_finish (h_w s')), s'. assert (serve h r s = (Return (w_finish (h_w s')), s')) as Hs.
    { unfold serve. by rewrite Hrun. }
    split; [done|]. by apply (serve_answer h r req s (reachable_state_ok h obs o s Hr)).
Qed.

(** tools/list in the example deployment. *)
Lemma serve_typed_witness :
  ∃ req w s', decodes_to list_ex req ∧ serve handler_ex list_ex started_ex = (Return w, s') ∧
    answer_ok false req (last_of s') w.
Proof.
  assert (decodes_to list_ex (mkRPC "2.0" "tools/list" None (Some (JNum "7")))) as Hd.
  { split; [reflexivity|]. eexists. split; [reflexivity|]. vm_compute. reflexivity. }
  eexists. destruct (serve_typed (E := env_ex) handler_ex (mkObservability [] [] 0 ":9090" "/metrics")
    outside_ex started_ex list_ex _ registry_ex_wf (rtc_refl _ _) Hd) as (w & s' & Hs & Ha).
  - intros [Hm _]. discriminate Hm.
  - exists w, s'. split; [exact Hd|]. split; [exact Hs|exact Ha].
Defined.
