(* ===== verification/Threads.v ===== *)
(** * Goroutines: interleaved computations with mutexes

    A thread is a tree of atomic steps on the shared world and its own local
    state, with mutexes to acquire and release and goroutines to start. A pool
    runs its threads one step at a time in any order. The meta-theory used for the
    proxy: invariants by rely and guarantee, freedom from deadlock, termination
    of every schedule, and what a thread does when it runs alone. *)

From Stdlib Require Import Ascii.
From stdpp Require Import base numbers option gmap fin_maps list relations.
From S2P Require Import Prelude GoStrings Registry Http.

#[local] Set Warnings "-clear-no-such-hyp".
#[local] Open Scope nat_scope.

(** ** Threads

    [W] is shared, [L] is the thread's own, [F] names what it can start. *)

Section thread.
Context {W L F : Type}.

Inductive thread (A : Type) : Type :=
| Done (o : outcome A)
| Step {B : Type} (m : M (W * L) B) (k : outcome B → thread A)
| Acquire (i : nat) (k : thread A)
| Release (i : nat) (k : thread A)
| Start (f : F) (k : thread A).
#[global] Arguments Done {A} o.
#[global] Arguments Step {A B} m k.
#[global] Arguments Acquire {A} i k.
#[global] Arguments Release {A} i k.
#[global] Arguments Start {A} f k.

(** Sequencing, whatever the first part's outcome. *)
Fixpoint after {A B} (t : thread A) (k : outcome A → thread B) : thread B :=
  match t with
  | Done o => k o
  | Step m k' => Step m (λ o, after (k' o) k)
  | Acquire i t => Acquire i (after t k)
  | Release i t => Release i (after t k)
  | Start f t => Start f (after t k)
  end.

#[global] Instance thread_ret : MRet thread := λ A v, Done (Return v).
#[global] Instance thread_bind : MBind thread := λ A B k t,
  after t (λ o, match o with Return v => k v | Panic => Done Panic end).

Definition atomic {A} (m : M (W * L) A) : thread A := Step m Done.

(** [defer]. *)
Definition deferring {A} (cleanup : thread ()) (t : thread A) : thread A :=
  after t (λ o, after cleanup (λ _, Done o)).

(** [mu.Lock(); defer mu.Unlock()] around a body. *)
Definition locking {A} (i : nat) (t : thread A) : thread A :=
  Acquire i (after t (λ o, Release i (Done o))).

(** ** Pools *)

Record pool := mkPool {
  po_world : W;
  po_locks : gset nat;
  po_threads : list (thread () * L) }.

(** Starting a goroutine: its code, and a local state of its own. *)
Context (start : F → thread ()) (fresh : L).

(** One step of thread [i]; [None] when there is none: it is done, or waits. *)
Definition pool_step (i : nat) (p : pool) : option pool :=
  '(t, l) ← po_threads p !! i;
  match t with
  | Done _ => None
  | Step m k =>
      let '(o, (w, l)) := m (po_world p, l) in
      Some (mkPool w (po_locks p) (<[i := (k o, l)]> (po_threads p)))
  | Acquire j k =>
      if decide (j ∈ po_locks p) then None
      else Some (mkPool (po_world p) ({[j]} ∪ po_locks p) (<[i := (k, l)]> (po_threads p)))
  | Release j k =>
      Some (mkPool (po_world p) (po_locks p ∖ {[j]}) (<[i := (k, l)]> (po_threads p)))
  | Start f k =>
      Some (mkPool (po_world p) (po_locks p)
              (<[i := (k, l)]> (po_threads p) ++ [(start f, fresh)]))
  end.

(** A schedule: which thread moves next; a thread that cannot is passed over. *)
Definition run_schedule (sched : list nat) (p : pool) : pool :=
  foldl (λ p i, default p (pool_step i p)) p sched.

Definition pool_moves (p p' : pool) : Prop := ∃ i, pool_step i p = Some p'.

Definition is_done (t : thread ()) : bool := match t with Done _ => true | _ => false end.

Definition all_done (p : pool) : Prop := Forall (λ tl, is_done tl.1 = true) (po_threads p).

Lemma run_schedule_moves sched p : rtc pool_moves p (run_schedule sched p).
Proof.
  revert p. induction sched as [|i sched IH]; intros p; [done|]. cbn.
  destruct (pool_step i p) as [p'|] eqn:Hs; [|apply IH]. eapply rtc_l; [by exists i|apply IH].
Qed.

(** ** Mutexes: a thread holds at most one, and gives it back *)

Fixpoint bracketed {A} (held : option nat) (t : thread A) : Prop :=
  match t with
  | Done _ => held = None
  | Step m k => ∀ o, bracketed held (k o)
  | Acquire i t => held = None ∧ bracketed (Some i) t
  | Release i t => held = Some i ∧ bracketed None t
  | Start f t => bracketed held t
  end.

(** A stretch of code that leaves the mutexes as it finds them. *)
Fixpoint lockless {A} (t : thread A) : Prop :=
  match t with
  | Done _ => True
  | Step m k => ∀ o, lockless (k o)
  | Acquire _ _ | Release _ _ => False
  | Start f t => lockless t
  end.

Lemma bracketed_after {A B} held (t : thread A) (k : outcome A → thread B) :
  bracketed held t → (∀ o, bracketed None (k o)) → bracketed held (after t k).
Proof.
  revert held. induction t as [o|B' m k' IH|i t IH|i t IH|f t IH]; intros held Ht Hk; cbn in *.
  - by subst.
  - intros o. by apply IH.
  - destruct Ht. auto.
  - destruct Ht. auto.
  - auto.
Qed.

Lemma bracketed_lockless {A B} held (t : thread A) (k : outcome A → thread B) :
  lockless t → (∀ o, bracketed held (k o)) → bracketed held (after t k).
Proof. induction t; cbn; naive_solver. Qed.

Lemma lockless_after {A B} (t : thread A) (k : outcome A → thread B) :
  lockless t → (∀ o, lockless (k o)) → lockless (after t k).
Proof. induction t; cbn; naive_solver. Qed.

Lemma lockless_bind {A B} (t : thread A) (k : A → thread B) :
  lockless t → (∀ v, lockless (k v)) → lockless (t ≫= k).
Proof. intros Ht Hk. apply lockless_after; [done|]. by intros [v|]. Qed.

Lemma lockless_bracketed {A} (t : thread A) : lockless t → bracketed None t.
Proof. induction t; cbn; naive_solver. Qed.

Lemma bracketed_bind {A B} (t : thread A) (k : A → thread B) :
  bracketed None t → (∀ v, bracketed None (k v)) → bracketed None (t ≫= k).
Proof. intros Ht Hk. apply bracketed_after; [done|]. by intros [v|]. Qed.

Lemma bracketed_deferring {A} cleanup (t : thread A) :
  bracketed None t → bracketed None cleanup → bracketed None (deferring cleanup t).
Proof. intros Ht Hc. apply bracketed_after; [done|]. intros o. by apply bracketed_after. Qed.

Lemma bracketed_locking {A} i (t : thread A) : lockless t → bracketed None (locking i t).
Proof. intros Ht. split; [done|]. by apply bracketed_lockless. Qed.

Lemma lockless_atomic {A} (m : M (W * L) A) : lockless (atomic m).
Proof. done. Qed.

Lemma bracketed_atomic {A} (m : M (W * L) A) : bracketed None (atomic m).
Proof. done. Qed.

Lemma bracketed_ret {A} (v : A) : bracketed None (mret v : thread A).
Proof. done. Qed.

(** The mutexes taken are those the threads hold, each by one thread. *)
Definition locks_held (p : pool) : Prop :=
  ∃ helds, Forall2 (λ tl held, bracketed held tl.1) (po_threads p) helds ∧
    (∀ a b j, helds !! a = Some (Some j) → helds !! b = Some (Some j) → a = b) ∧
    ∀ j, j ∈ po_locks p ↔ ∃ a, helds !! a = Some (Some j).

Lemma locks_held_init w (ts : list (thread () * L)) :
  Forall (λ tl, bracketed None tl.1) ts → locks_held (mkPool w ∅ ts).
Proof.
  intros Hts. exists (replicate (length ts) None). split_and!.
  - apply Forall2_replicate_r; [done|]. exact Hts.
  - intros a b j [Ha _]%lookup_replicate. done.
  - intros j. split; [set_solver|]. intros (a & [Ha _]%lookup_replicate). done.
Qed.

(** Thread [i] moves from holding [held] to holding [held'], and the set of
    taken mutexes follows. *)
Lemma locks_held_update w w' locks locks' ts i t l t' l' :
  ts !! i = Some (t, l) →
  (∀ held, bracketed held t → ∃ held', bracketed held' t' ∧
     ((held' = held ∧ locks' = locks) ∨
      (∃ j, held = None ∧ held' = Some j ∧ (j ∉ locks) ∧ locks' = {[j]} ∪ locks) ∨
      (∃ j, held = Some j ∧ held' = None ∧ locks' = locks ∖ {[j]}))) →
  locks_held (mkPool w locks ts) → locks_held (mkPool w' locks' (<[i := (t', l')]> ts)).
Proof.
  intros Hi Hstep (helds & Hf & Huniq & Hlocks). cbn [po_threads po_locks] in *.
  destruct (Forall2_lookup_l _ _ _ _ _ Hf Hi) as (held & Hh & Hb). cbn in Hb.
  destruct (Hstep held Hb) as (held' & Hb' & Hcase).
  pose proof (lookup_lt_Some _ _ _ Hh) as Hlt.
  exists (<[i := held']> helds). cbn [po_threads po_locks].
  split; [by apply Forall2_insert|].
  assert (∀ a, a ≠ i → (<[i := held']> helds) !! a = helds !! a) as Hne
    by (intros; by apply list_lookup_insert_ne).
  assert ((<[i := held']> helds) !! i = Some held') as Heq by (by apply list_lookup_insert_eq).
  destruct Hcase as [[-> ->]|[(j & -> & -> & Hj & ->)|(j & -> & -> & ->)]].
  - rewrite list_insert_id by done. done.
  - assert (∀ a, helds !! a ≠ Some (Some j)) as Hfree.
    { intros a Ha. apply Hj, Hlocks. by exists a. }
    split.
    + intros a b j'. destruct (decide (a = i)) as [->|Ha], (decide (b = i)) as [->|Hb'']; [done|..].
      * rewrite Heq, Hne by done. intros [= <-] Hl. by apply Hfree in Hl.
      * rewrite Heq, Hne by done. intros Hl [= <-]. by apply Hfree in Hl.
      * rewrite !Hne by done. apply Huniq.
    + intros j'. rewrite elem_of_union, elem_of_singleton, Hlocks. split.
      * intros [->|(a & Ha)]; [by exists i|]. exists a. rewrite Hne; [done|]. intros ->. by rewrite Hh in Ha.
      * intros (a & Ha). destruct (decide (a = i)) as [->|Hai].
        { rewrite Heq in Ha. injection Ha as <-. by left. }
        rewrite Hne in Ha by done. right. by exists a.
  - split.
    + intros a b j'. destruct (decide (a = i)) as [->|Ha], (decide (b = i)) as [->|Hb'']; [done|..].
      * by rewrite Heq.
      * intros _. by rewrite Heq.
      * rewrite !Hne by done. apply Huniq.
    + intros j'. rewrite elem_of_difference, elem_of_singleton, Hlocks. split.
      * intros [(a & Ha) Hj']. exists a. rewrite Hne; [done|]. intros ->. rewrite Hh in Ha. by injection Ha as ->.
      * intros (a & Ha). destruct (decide (a = i)) as [->|Hai]; [by rewrite Heq in Ha|].
        rewrite Hne in Ha by done. split; [by exists a|]. intros ->. apply Hai. by eapply Huniq.
Qed.

Hypothesis start_bracketed : ∀ f, bracketed None (start f).

Lemma locks_held_step i p p' : pool_step i p = Some p' → locks_held p → locks_held p'.
Proof.
  destruct p as [w locks ts]. unfold pool_step. cbn [po_threads po_world po_locks].
  destruct (ts !! i) as [[t l]|] eqn:Hi; [|done]. cbn [mbind option_bind]. intros Hs Hl. revert Hs.
  destruct t as [o|B m k|j k|j k|f k]; [done| | | |].
  - destruct (m (w, l)) as [o [w' l']]. intros [= <-].
    eapply locks_held_update; [exact Hi| |exact Hl]. intros held Hb. exists held. split; [apply Hb|by left].
  - case_decide as Hj; [done|]. intros [= <-]. eapply locks_held_update; [exact Hi| |exact Hl].
    intros held [-> Hb]. exists (Some j). split; [done|]. right; left. by exists j.
  - intros [= <-]. eapply locks_held_update; [exact Hi| |exact Hl].
    intros held [-> Hb]. exists None. split; [done|]. right; right. by exists j.
  - intros [= <-].
    assert (locks_held (mkPool w locks (<[i := (k, l)]> ts))) as (helds & Hf & Hu & Hk).
    { eapply locks_held_update; [exact Hi| |exact Hl]. intros held Hb. exists held. split; [exact Hb|by left]. }
    cbn [po_threads po_locks] in *. exists (helds ++ [None]). cbn [po_threads po_locks]. split_and!.
    + apply Forall2_app; [done|]. constructor; [apply start_bracketed|constructor].
    + intros a b j. rewrite !lookup_app_Some. intros [Ha|[_ Ha]] [Hb|[_ Hb]]; eauto;
        apply list_lookup_singleton_Some in Ha || apply list_lookup_singleton_Some in Hb; naive_solver.
    + intros j. rewrite Hk. split; intros (a & Ha); exists a; [by apply lookup_app_l_Some|].
      apply lookup_app_Some in Ha as [?|[_ Ha]]; [done|]. apply list_lookup_singleton_Some in Ha. naive_solver.
Qed.

(** *** No deadlock: unless every goroutine is done, one can move. *)
Lemma no_deadlock p : locks_held p → all_done p ∨ ∃ i p', pool_step i p = Some p'.
Proof.
  destruct p as [w locks ts]. intros (helds & Hf & _ & Hlocks). cbn [po_threads po_locks] in *.
  assert (∀ i t l, ts !! i = Some (t, l) → is_done t = false →
            (∀ j k, t = Acquire j k → j ∉ locks) → ∃ p', pool_step i (mkPool w locks ts) = Some p') as Hmove.
  { intros i t l Hi Hd Hj. unfold pool_step. cbn [po_threads po_world po_locks]. rewrite Hi.
    cbn [mbind option_bind]. destruct t as [o|B m k|j k|j k|f k]; [done| | | |]; eauto.
    - destruct (m (w, l)) as [o [w' l']]. eauto.
    - rewrite decide_False by (by eapply Hj). eauto. }
  destruct (decide (Exists (λ held, is_Some held) helds)) as [Hex|Hno].
  - (* The holder of a mutex does not wait. *)
    apply Exists_exists in Hex as (held & Hin & [j ->]).
    apply list_elem_of_lookup in Hin as [i Hh].
    destruct (Forall2_lookup_r _ _ _ _ _ Hf Hh) as ([t l] & Hi & Hb). right. exists i.
    apply (Hmove i t l Hi).
    + destruct t; [done..].
    + intros j' k ->. by destruct Hb.
  - destruct (decide (Forall (λ tl, is_done tl.1 = true) ts)) as [Hd|Hd]; [by left|].
    apply not_Forall_Exists in Hd; [|intros ?; apply _].
    apply Exists_exists in Hd as ([t l] & Hin & Hd). apply list_elem_of_lookup in Hin as [i Hi].
    right. exists i. apply (Hmove i t l Hi); [by apply not_true_iff_false|].
    intros j k -> (a & Ha)%Hlocks. apply Hno, Exists_exists. exists (Some j).
    split; [by eapply list_elem_of_lookup_2|by eexists].
Qed.

(** ** Termination: every schedule comes to an end

    [within n t]: [t] takes at most [n] steps, those of the goroutines it starts
    included, whatever the outcomes of its steps. *)

Context (cost : F → nat).

Fixpoint within {A} (n : nat) (t : thread A) : Prop :=
  match t with
  | Done _ => True
  | Step m k => match n with 0 => False | S n => ∀ o, within n (k o) end
  | Acquire _ t | Release _ t => match n with 0 => False | S n => within n t end
  | Start f t => S (cost f) <= n ∧ within (n - S (cost f)) t
  end.

Lemma within_mono {A} n n' (t : thread A) : n <= n' → within n t → within n' t.
Proof.
  revert n n'. induction t as [o|B m k IH|i t IH|i t IH|f t IH]; intros n n' Hn Ht; cbn in *; [done|..].
  - destruct n as [|n], n' as [|n']; try done; try lia. intros o. eapply IH; [|apply Ht]. lia.
  - destruct n as [|n], n' as [|n']; try done; try lia. eapply IH; [|apply Ht]. lia.
  - destruct n as [|n], n' as [|n']; try done; try lia. eapply IH; [|apply Ht]. lia.
  - destruct Ht as [Hc Ht]. split; [lia|]. eapply IH; [|apply Ht]. lia.
Qed.

Lemma within_after {A B} n n' (t : thread A) (k : outcome A → thread B) :
  within n t → (∀ o, within n' (k o)) → within (n + n') (after t k).
Proof.
  revert n. induction t as [o|B' m k' IH|i t IH|i t IH|f t IH]; intros n Ht Hk; cbn in *.
  - eapply within_mono; [|apply Hk]. lia.
  - destruct n as [|n]; [done|]. intros o. by apply IH.
  - destruct n as [|n]; [done|]. by apply IH.
  - destruct n as [|n]; [done|]. by apply IH.
  - destruct Ht as [Hc Ht]. split; [lia|]. eapply within_mono; [|apply IH; [exact Ht|exact Hk]]. lia.
Qed.

Lemma within_bind {A B} n n' (t : thread A) (k : A → thread B) :
  within n t → (∀ v, within n' (k v)) → within (n + n') (t ≫= k).
Proof. intros Ht Hk. apply within_after; [done|]. by intros [v|]. Qed.

Lemma within_deferring {A} n n' cleanup (t : thread A) :
  within n t → within n' cleanup → within (n + n') (deferring cleanup t).
Proof.
  intros Ht Hc. apply within_after; [done|]. intros o. rewrite <- (Nat.add_0_r n').
  by apply within_after.
Qed.

Lemma within_locking {A} n i (t : thread A) : within n t → within (S (n + 1)) (locking i t).
Proof. intros Ht. cbn. by apply within_after. Qed.

Lemma within_atomic {A} (m : M (W * L) A) : within 1 (atomic m).
Proof. done. Qed.

(** The steps left in a pool. *)
Definition pool_within (n : nat) (p : pool) : Prop :=
  ∃ ns, Forall2 (λ tl n, within n tl.1) (po_threads p) ns ∧ sum_list ns = n.

Hypothesis start_within : ∀ f, within (cost f) (start f).

Lemma sum_list_cons x (l : list nat) : sum_list (x :: l) = x + sum_list l.
Proof. done. Qed.

Lemma sum_list_insert i n m (l : list nat) :
  l !! i = Some n → sum_list (<[i := m]> l) + n = sum_list l + m.
Proof.
  revert i. induction l as [|x l IH]; intros [|i] Hi; [done|done| |].
  - injection Hi as ->. change (<[0 := m]> (n :: l)) with (m :: l). rewrite !sum_list_cons. lia.
  - specialize (IH _ Hi). change (<[S i := m]> (x :: l)) with (x :: <[i := m]> l).
    rewrite !sum_list_cons. lia.
Qed.

Lemma sum_list_app' (l1 l2 : list nat) : sum_list (l1 ++ l2) = sum_list l1 + sum_list l2.
Proof. induction l1 as [|x l1 IH]; [done|]. rewrite <- app_comm_cons, !sum_list_cons, IH. lia. Qed.

Lemma pool_step_within n i p p' :
  pool_step i p = Some p' → pool_within n p → ∃ n', n' < n ∧ pool_within n' p'.
Proof.
  destruct p as [w locks ts]. unfold pool_step. cbn [po_threads po_world po_locks].
  destruct (ts !! i) as [[t l]|] eqn:Hi; [|done]. cbn [mbind option_bind].
  intros Hs (ns & Hf & <-). cbn [po_threads] in Hf.
  destruct (Forall2_lookup_l _ _ _ _ _ Hf Hi) as (m & Hm & Ht). cbn in Ht.
  assert (∀ t' l' m' w' locks', within m' t' → m' < m →
    ∃ n', n' < sum_list ns ∧ pool_within n' (mkPool w' locks' (<[i := (t', l')]> ts))) as Hupd.
  { intros t' l' m' w' locks' Ht' Hlt. exists (sum_list (<[i := m']> ns)).
    pose proof (sum_list_insert _ _ m' _ Hm). split; [lia|]. exists (<[i := m']> ns).
    split; [|done]. by apply Forall2_insert. }
  destruct t as [o|B a k|j k|j k|f k]; [done| | | |].
  - destruct (a (w, l)) as [o [w' l']]. injection Hs as <-. destruct m as [|m]; [done|].
    apply (Hupd _ _ m); [apply Ht|lia].
  - case_decide; [done|]. injection Hs as <-. destruct m as [|m]; [done|].
    apply (Hupd _ _ m); [exact Ht|lia].
  - injection Hs as <-. destruct m as [|m]; [done|].
    apply (Hupd _ _ m); [exact Ht|lia].
  - injection Hs as <-. destruct Ht as [Hc Ht]. set (m' := m - S (cost f)) in *.
    pose proof (sum_list_insert _ _ m' _ Hm) as Hsum.
    exists (sum_list (<[i := m']> ns ++ [cost f])). split.
    + rewrite sum_list_app'. cbn. subst m'. lia.
    + exists (<[i := m']> ns ++ [cost f]). split; [|done]. cbn [po_threads].
      apply Forall2_app; [by apply Forall2_insert|]. constructor; [apply start_within|constructor].
Qed.

(** A bound every goroutine keeps. *)
Definition each_within (n : nat) (p : pool) : Prop := Forall (λ tl, within n tl.1) (po_threads p).

Lemma each_within_sum n p : each_within n p → pool_within (length (po_threads p) * n) p.
Proof.
  intros Hall. exists (replicate (length (po_threads p)) n). split; [by apply Forall2_replicate_r|].
  induction (length (po_threads p)) as [|m IH]; [done|]. cbn [replicate]. rewrite sum_list_cons, IH. lia.
Qed.

Lemma within_pred {A} n (t : thread A) :
  match n with 0 => False | S n => within n t end → within n t.
Proof. destruct n as [|n]; [done|]. apply within_mono. lia. Qed.

Lemma pool_step_each_within n i p p' :
  (∀ f, cost f <= n) → pool_step i p = Some p' → each_within n p → each_within n p'.
Proof.
  intros Hcost. destruct p as [w locks ts]. unfold pool_step, each_within. cbn [po_threads po_world po_locks].
  destruct (ts !! i) as [[t l]|] eqn:Hi; [|done]. cbn [mbind option_bind]. intros Hs Hts.
  pose proof (Forall_lookup_1 _ _ _ _ Hts Hi) as Ht. cbn in Ht.
  destruct t as [o|B a k|j k|j k|f k]; [done| | | |].
  - destruct (a (w, l)) as [o [w' l']]. injection Hs as <-. apply Forall_insert; [done|].
    apply within_pred. destruct n; [done|]. apply Ht.
  - case_decide; [done|]. injection Hs as <-. apply Forall_insert; [done|]. by apply within_pred.
  - injection Hs as <-. apply Forall_insert; [done|]. by apply within_pred.
  - injection Hs as <-. destruct Ht as [Hc Ht]. apply Forall_app. split.
    + apply Forall_insert; [done|]. eapply within_mono; [|exact Ht]. lia.
    + constructor; [|constructor]. eapply within_mono; [apply Hcost|apply start_within].
Qed.

(** No schedule is longer than the steps left, and one that cannot be continued
    has finished every goroutine. *)
Lemma moves_within n p p' :
  rtc pool_moves p p' → pool_within n p → ∃ n', n' <= n ∧ pool_within n' p'.
Proof.
  intros Hr. revert n. induction Hr as [|p1 p2 p3 [i Hi] _ IH]; intros n Hn; [by exists n|].
  destruct (pool_step_within _ _ _ _ Hi Hn) as (n' & Hlt & Hn').
  destruct (IH _ Hn') as (n'' & ? & ?). exists n''. split; [lia|done].
Qed.

Lemma nsteps_within n k p p' : nsteps pool_moves k p p' → pool_within n p → k <= n.
Proof.
  intros Hr. revert n. induction Hr as [|k p1 p2 p3 [i Hi] _ IH]; intros n Hn; [lia|].
  destruct (pool_step_within _ _ _ _ Hi Hn) as (n' & Hlt & Hn'). specialize (IH _ Hn'). lia.
Qed.

Lemma locks_held_moves p p' : rtc pool_moves p p' → locks_held p → locks_held p'.
Proof. induction 1 as [|p1 p2 p3 [i Hi] _ IH]; [done|]. intros Hl. by apply IH, (locks_held_step i p1). Qed.

Lemma finishes n p :
  pool_within n p → locks_held p → ∃ p', rtc pool_moves p p' ∧ all_done p'.
Proof.
  revert p. induction (lt_wf n) as [n _ IH]. intros p Hn Hl.
  destruct (no_deadlock p Hl) as [Hd|(i & p1 & Hi)]; [by exists p|].
  destruct (pool_step_within _ _ _ _ Hi Hn) as (n' & Hlt & Hn').
  destruct (IH n' Hlt p1 Hn') as (p' & Hr & Hd); [by eapply locks_held_step|].
  exists p'. split; [|done]. eapply rtc_l; [by exists i|done].
Qed.

(** ** Rely and guarantee

    [I] holds of the world between steps; [R] is how other goroutines may have
    changed it since; [J] is what starting a goroutine requires. A thread is good
    from [w] when each of its steps, taken from any world the others may have
    made of the last one it saw, keeps [I] and is one [G] allows a thread with its
    local state, which is within [R]. *)

Context (I : W → Prop) (R : W → W → Prop) (G : L → W → W → Prop) (J : F → W → Prop).

Fixpoint good {A} (Q : outcome A → W → L → Prop) (t : thread A) (w : W) (l : L) : Prop :=
  match t with
  | Done o => Q o w l
  | Step m k => ∀ w', I w' → R w w' →
      G l w' (m (w', l)).2.1 ∧ I (m (w', l)).2.1 ∧
      good Q (k (m (w', l)).1) (m (w', l)).2.1 (m (w', l)).2.2
  | Acquire _ t | Release _ t => good Q t w l
  | Start f t => J f w ∧ good Q t w l
  end.

Definition stable {A} (Q : outcome A → W → L → Prop) : Prop :=
  ∀ o w w' l, R w w' → Q o w l → Q o w' l.

Context `{!PreOrder R}.
Hypothesis G_R : ∀ l w w', G l w w' → R w w'.
Hypothesis J_stable : ∀ f w w', R w w' → J f w → J f w'.

Lemma good_stable {A} (Q : outcome A → W → L → Prop) t w w' l :
  stable Q → R w w' → good Q t w l → good Q t w' l.
Proof.
  intros HQ HR. induction t as [o|B m k IH|i t IH|i t IH|f t IH]; cbn; [by eapply HQ| |done|done|].
  - intros Hk w1 HI HR1. apply Hk; [done|]. by trans w'.
  - intros [HJ Ht]. split; [by eapply J_stable|by apply IH].
Qed.

Lemma good_mono {A} (Q Q' : outcome A → W → L → Prop) t w l :
  (∀ o w l, Q o w l → Q' o w l) → good Q t w l → good Q' t w l.
Proof.
  intros HQ. revert w l. induction t as [o|B m k IH|i t IH|i t IH|f t IH]; intros w l; cbn; [apply HQ| |apply IH|apply IH|].
  - intros Hk w' HI HR. destruct (Hk w' HI HR) as (HR1 & HI1 & Hg). exact (conj HR1 (conj HI1 (IH _ _ _ Hg))).
  - intros [? ?]. split; [done|by apply IH].
Qed.

(** The world a thread ends in is one its steps and the others' lead to. *)
Lemma good_reaches {A} (Q : outcome A → W → L → Prop) t w l :
  good Q t w l → good (λ o w' l', R w w' ∧ Q o w' l') t w l.
Proof.
  assert (∀ w0, R w0 w → good Q t w l → good (λ o w' l', R w0 w' ∧ Q o w' l') t w l) as Hw0; [|by apply Hw0].
  revert w l. induction t as [o|B m k IH|i t IH|i t IH|f t IH]; intros w l w0 HR0; cbn; [done| |by apply IH|by apply IH|].
  - intros Hk w' HI HR. destruct (Hk w' HI HR) as (HG & HI1 & Hg). split_and!; [done..|].
    apply IH; [|done]. trans w; [done|]. trans w'; [done|]. by eapply G_R.
  - intros [? ?]. split; [done|by apply IH].
Qed.

(** What runs next starts from a world this part's steps lead to. *)
Lemma good_after {A B} (Q : outcome A → W → L → Prop) (Q' : outcome B → W → L → Prop) t k w l :
  good Q t w l → (∀ o w' l, R w w' → Q o w' l → good Q' (k o) w' l) → good Q' (after t k) w l.
Proof.
  revert w l. induction t as [o|B' m k' IH|i t IH|i t IH|f t IH]; intros w l; cbn.
  - intros HQ Hk. by apply Hk.
  - intros Ht Hk w' HI HR. destruct (Ht w' HI HR) as (HR1 & HI1 & Hg). split_and!; [done..|].
    apply IH; [done|]. intros o w2 l2 HR2. apply Hk. trans w'; [done|].
    trans (m (w', l)).2.1; [by eapply G_R|done].
  - apply IH.
  - apply IH.
  - intros [? Ht] Hk. split; [done|by apply IH].
Qed.

Lemma good_atomic {A} (Q : outcome A → W → L → Prop) (m : M (W * L) A) w l :
  (∀ w', I w' → R w w' →
     G l w' (m (w', l)).2.1 ∧ I (m (w', l)).2.1 ∧ Q (m (w', l)).1 (m (w', l)).2.1 (m (w', l)).2.2) →
  good Q (atomic m) w l.
Proof. done. Qed.

Lemma good_locking {A} (Q : outcome A → W → L → Prop) i t w l :
  good Q t w l → good Q (locking i t) w l.
Proof. intros Ht. cbn. eapply good_after; [exact Ht|done]. Qed.

(** Every goroutine of a pool is good from the present world; [fin i] is how the
    [i]th may end. *)
Context (fin : nat → outcome () → W → L → Prop).

Definition pool_good (p : pool) : Prop :=
  I (po_world p) ∧ ∀ i t l, po_threads p !! i = Some (t, l) → good (fin i) t (po_world p) l.

Hypothesis fin_stable : ∀ i, stable (fin i).

Lemma pool_step_good i p p' :
  (∀ f w, J f w → good (fin (length (po_threads p))) (start f) w fresh) →
  pool_step i p = Some p' → pool_good p → pool_good p'.
Proof.
  destruct p as [w locks ts]. unfold pool_step. cbn [po_threads po_world po_locks]. intros Hstart.
  destruct (ts !! i) as [[t l]|] eqn:Hi; [|done]. cbn [mbind option_bind].
  intros Hs [HI Hts]. cbn [po_threads po_world] in *. pose proof (Hts _ _ _ Hi) as Ht.
  assert (∀ w' t' l' locks', I w' → R w w' → good (fin i) t' w' l' →
            pool_good (mkPool w' locks' (<[i := (t', l')]> ts))) as Hupd.
  { intros w' t' l' locks' HI' HR Ht'. split; [done|]. cbn [po_threads po_world]. intros j t1 l1 Hj.
    apply list_lookup_insert_Some in Hj as [(-> & [= -> ->] & _)|[_ Hj]]; [done|].
    eapply good_stable; [apply fin_stable|exact HR|by apply Hts]. }
  destruct t as [o|B m k|j k|j k|f k]; [done| | | |].
  - pose proof (Ht w HI (reflexivity w)) as (HR%G_R & HI' & Hk).
    destruct (m (w, l)) as [o [w' l']]. injection Hs as <-. by apply Hupd.
  - case_decide; [done|]. injection Hs as <-. by apply Hupd.
  - injection Hs as <-. by apply Hupd.
  - injection Hs as <-. destruct Ht as [HJ Ht]. destruct (Hupd w k l locks HI (reflexivity w) Ht) as [_ Hk].
    split; [done|]. cbn [po_threads po_world] in *. intros j t1 l1 [Hj|[Hlen Hj]]%lookup_app_Some; [by apply Hk|].
    rewrite length_insert in Hlen, Hj. apply list_lookup_singleton_Some in Hj as [Hj [= <- <-]].
    replace j with (length ts) by lia. by apply Hstart.
Qed.

Lemma pool_step_relies i p p' :
  pool_step i p = Some p' → pool_good p → R (po_world p) (po_world p').
Proof.
  destruct p as [w locks ts]. unfold pool_step. cbn [po_threads po_world po_locks].
  destruct (ts !! i) as [[t l]|] eqn:Hi; [|done]. cbn [mbind option_bind]. intros Hs [HI Hts].
  pose proof (Hts _ _ _ Hi) as Ht.
  destruct t as [o|B m k|j k|j k|f k]; [done| |try case_decide; simplify_eq; cbn; reflexivity..].
  destruct (Ht w HI (reflexivity w)) as [HR%G_R _]. destruct (m (w, l)) as [o [w' l']].
  by injection Hs as <-.
Qed.

(** What the moving thread does is what [G] allows it, or leaves the world alone. *)
Lemma pool_step_guarantees i p p' t l :
  pool_step i p = Some p' → pool_good p → po_threads p !! i = Some (t, l) →
  po_world p' = po_world p ∨ G l (po_world p) (po_world p').
Proof.
  destruct p as [w locks ts]. unfold pool_step. cbn [po_threads po_world po_locks]. intros Hs [HI Hts] Hi.
  rewrite Hi in Hs. cbn [mbind option_bind] in Hs. pose proof (Hts _ _ _ Hi) as Ht.
  destruct t as [o|B m k|j k|j k|f k]; [done| |left; try case_decide; by simplify_eq..].
  destruct (Ht w HI (reflexivity w)) as [HG _]. right. destruct (m (w, l)) as [o [w' l']].
  by injection Hs as <-.
Qed.

(** A thread that joins. *)
Lemma pool_good_snoc w locks ts t l :
  good (fin (length ts)) t w l → pool_good (mkPool w locks ts) → pool_good (mkPool w locks (ts ++ [(t, l)])).
Proof.
  intros Ht [HI Hts]. split; [done|]. cbn [po_threads po_world] in *.
  intros j t1 l1 [Hj|[Hlen Hj]]%lookup_app_Some; [by apply Hts|].
  apply list_lookup_singleton_Some in Hj as [Hj [= <- <-]]. by replace j with (length ts) by lia.
Qed.

(** ** A thread on its own

    The outcome, the state it leaves and what it starts, when nothing else
    runs in between. *)

Fixpoint solo {A} (t : thread A) (s : W * L) : outcome A * (W * L) * list F :=
  match t with
  | Done o => (o, s, [])
  | Step m k => let '(o, s) := m s in solo (k o) s
  | Acquire _ t | Release _ t => solo t s
  | Start f t => let '(r, fs) := solo t s in (r, f :: fs)
  end.

Lemma solo_after {A B} (t : thread A) (k : outcome A → thread B) s :
  solo (after t k) s =
  let '(o, s1, fs1) := solo t s in
  let '(o', s2, fs2) := solo (k o) s1 in (o', s2, fs1 ++ fs2).
Proof.
  revert s. induction t as [o|B' m k' IH|i t IH|i t IH|f t IH]; intros s; cbn; [|by destruct (m s)|done|done|].
  - by destruct (solo (k o) s) as [[??]?].
  - rewrite IH. destruct (solo t s) as [[o s1] fs1]. by destruct (solo (k o) s1) as [[??]?].
Qed.

Lemma solo_bind {A B} (t : thread A) (k : A → thread B) s :
  solo (t ≫= k) s =
  match solo t s with
  | (Return v, s1, fs1) => let '(o', s2, fs2) := solo (k v) s1 in (o', s2, fs1 ++ fs2)
  | (Panic, s1, fs1) => (Panic, s1, fs1)
  end.
Proof.
  unfold mbind, thread_bind. rewrite solo_after.
  destruct (solo t s) as [[[v|] s1] fs1]; [done|]. cbn. by rewrite app_nil_r.
Qed.

Lemma solo_atomic {A} (m : M (W * L) A) s : solo (atomic m) s = (m s, []).
Proof. unfold atomic. cbn. by destruct (m s). Qed.

Lemma solo_locking {A} i (t : thread A) s : solo (locking i t) s = solo t s.
Proof.
  cbn. rewrite solo_after. destruct (solo t s) as [[o s1] fs1]. cbn. by rewrite app_nil_r.
Qed.

Lemma solo_deferring {A} cleanup (t : thread A) s :
  solo (deferring cleanup t) s =
  let '(o, s1, fs1) := solo t s in
  let '(_, s2, fs2) := solo cleanup s1 in (o, s2, fs1 ++ fs2).
Proof.
  unfold deferring. rewrite solo_after. destruct (solo t s) as [[o s1] fs1]. rewrite solo_after.
  destruct (solo cleanup s1) as [[o' s2] fs2]. cbn. by rewrite app_nil_r.
Qed.

(** A pool can always run one of its threads to the end before any other. *)
Lemma pool_step_at (t : thread ()) w l locks ts0 ts1 :
  pool_step (length ts0) (mkPool w locks (ts0 ++ (t, l) :: ts1)) =
  match t with
  | Done _ => None
  | Step m k => let '(o, (w, l)) := m (w, l) in Some (mkPool w locks (ts0 ++ (k o, l) :: ts1))
  | Acquire j k =>
      if decide (j ∈ locks) then None
      else Some (mkPool w ({[j]} ∪ locks) (ts0 ++ (k, l) :: ts1))
  | Release j k => Some (mkPool w (locks ∖ {[j]}) (ts0 ++ (k, l) :: ts1))
  | Start f k => Some (mkPool w locks (ts0 ++ (k, l) :: (ts1 ++ [(start f, fresh)])))
  end.
Proof.
  assert (∀ x, <[length ts0 := x]> (ts0 ++ (t, l) :: ts1) = ts0 ++ x :: ts1) as Hset.
  { intros x. rewrite insert_app_r_alt by done. by rewrite Nat.sub_diag. }
  unfold pool_step. cbn [po_threads po_world po_locks]. rewrite list_lookup_middle by done.
  cbn [mbind option_bind]. destruct t as [o|B m k|j k|j k|f k]; [done| | | |].
  - destruct (m (w, l)) as [o [w' l']]. by rewrite Hset.
  - by rewrite Hset.
  - by rewrite Hset.
  - by rewrite Hset, <- app_assoc.
Qed.

Lemma solo_moves (t : thread ()) w l held ts0 ts :
  bracketed held t →
  let '(o, (w', l'), fs) := solo t (w, l) in
  rtc pool_moves (mkPool w (from_option singleton ∅ held) (ts0 ++ (t, l) :: ts))
    (mkPool w' ∅ (ts0 ++ (Done o, l') :: ts ++ ((λ f, (start f, fresh)) <$> fs))).
Proof.
  revert w l held ts.
  induction t as [o|B m k IH|i t IH|i t IH|f t IH]; intros w l held ts Hb; cbn in Hb; cbn [solo].
  - subst. cbn. by rewrite app_nil_r.
  - destruct (m (w, l)) as [o [w1 l1]] eqn:Hm. specialize (IH o w1 l1 held ts (Hb o)).
    destruct (solo (k o) (w1, l1)) as [[o' [w' l']] fs].
    eapply rtc_l; [|exact IH]. exists (length ts0). by rewrite pool_step_at, Hm.
  - destruct Hb as [-> Hb]. specialize (IH w l (Some i) ts Hb).
    destruct (solo t (w, l)) as [[o' [w' l']] fs].
    eapply rtc_l; [|exact IH]. exists (length ts0). rewrite pool_step_at. cbn.
    by rewrite (right_id_L ∅ (∪)).
  - destruct Hb as [-> Hb]. specialize (IH w l None ts Hb).
    destruct (solo t (w, l)) as [[o' [w' l']] fs].
    eapply rtc_l; [|exact IH]. exists (length ts0). rewrite pool_step_at. cbn. by rewrite difference_diag_L.
  - specialize (IH w l held (ts ++ [(start f, fresh)]) Hb).
    destruct (solo t (w, l)) as [[o' [w' l']] fs].
    eapply rtc_l; [exists (length ts0); by rewrite pool_step_at|].
    rewrite fmap_cons. rewrite <- app_assoc in IH. exact IH.
Qed.
End thread.

Arguments thread W L F A : clear implicits.
Arguments pool W L F : clear implicits.

#[export] Hint Resolve bracketed_bind bracketed_atomic bracketed_ret bracketed_deferring
  bracketed_locking lockless_atomic lockless_bind : proxy.
