(* ===== verification/Concurrent.v ===== *)
(** * The handlers as goroutines

    The definitions of [Handler.v] once more, now as the steps other goroutines
    can come between: every access to the session store or a catalog under its
    mutex, every read through a session pointer, every exchange with a backend.
    Steps on the response and the call's attributes touch only the goroutine's
    own state. *)

From Stdlib Require Import Ascii.
From stdpp Require Import base numbers option pretty gmap fin_maps sorting strings list relations.
From S2P Require Import Prelude GoStrings Json Decode Config Registry Session Cells Http Rpc Schema.
From S2P Require Import ParamHeaders Client Catalog Auth OAuth Observability Handler Threads Main.

#[local] Set Warnings "-clear-no-such-hyp".
#[local] Open Scope nat_scope.

(** ** The shared world and a goroutine's own state *)

Record World (E : Env) := mkWorld {
  g_sessions : PStore;
  g_cat : CatState E;
  g_obs : option Observability }.
Arguments mkWorld {E}.
Arguments g_sessions {E}. Arguments g_cat {E}. Arguments g_obs {E}.

(** [l_req]: the request it serves, if any. *)
Record Local := mkLocal {
  l_req : option Request;
  l_out : ToolCallAttrs;
  l_w : Writer }.

Definition new_local (r : option Request) : Local :=
  mkLocal r (mkToolCallAttrs "" "" "" "" "") new_writer.

(** What a handler can start: a teardown. *)
Abbreviation goroutine E := (thread (World E) Local (Tenant * string)).
Abbreviation proxy_pool E := (pool (World E) Local (Tenant * string)).

Section steps.
Context {E : Env}.

Definition with_cat (c : CatState E) (s : World E * Local) : World E * Local :=
  (mkWorld (g_sessions s.1) c (g_obs s.1), s.2).

Definition cat_step {A} (m : M (CatState E) A) : goroutine E A :=
  atomic (zoom (λ s, g_cat s.1) with_cat m).
Definition out_step {A} (m : M (Outside E) A) : goroutine E A := cat_step (outside m).
Definition gets_step {A} (f : World E → A) : goroutine E A := atomic (gets (λ s, f s.1)).

Definition write_step (f : Writer → Writer) : goroutine E () :=
  atomic (modify (λ s, (s.1, mkLocal (l_req s.2) (l_out s.2) (f (l_w s.2))))).
Definition note_step (f : ToolCallAttrs → ToolCallAttrs) : goroutine E () :=
  atomic (modify (λ s, (s.1, mkLocal (l_req s.2) (f (l_out s.2)) (l_w s.2)))).
Definition record_step (f : option Observability → option Observability) : goroutine E () :=
  atomic (modify (λ s, (mkWorld (g_sessions s.1) (g_cat s.1) (f (g_obs s.1)), s.2))).
Definition out_attrs : goroutine E ToolCallAttrs := atomic (gets (λ s, l_out s.2)).

(** *** The store: one critical section per method, which reads the clock *)

Definition out_m {A} (m : M (Outside E) A) : M (World E * Local) A :=
  zoom (λ s, g_cat s.1) with_cat (outside m).

Definition on_sessions {A} (f : PStore → PStore * A) : M (World E * Local) A := λ s,
  let '(st, v) := f (g_sessions s.1) in (Return v, (mkWorld st (g_cat s.1) (g_obs s.1), s.2)).

Lemma on_sessions_eq {A} (f : PStore → PStore * A) (s : World E * Local) :
  on_sessions f s =
  (Return (f (g_sessions s.1)).2, (mkWorld (f (g_sessions s.1)).1 (g_cat s.1) (g_obs s.1), s.2)).
Proof. unfold on_sessions. by destruct (f (g_sessions s.1)). Qed.

Definition mint_step : goroutine E nat := atomic (
  reap_now ← out_m now;
  t ← out_m now;
  random ← out_m rand_bytes;
  on_sessions (p_Mint reap_now t random)).

Definition get_step (id : string) : goroutine E (option nat) := atomic (
  reap_now ← out_m now;
  t ← out_m now;
  on_sessions (p_Get reap_now t id)).

Definition set_step (proxySID backend backendSID : string) : goroutine E () := atomic (
  t ← out_m now;
  on_sessions (λ st, (p_SetBackendSID t proxySID backend backendSID st, ()))).

Definition delete_step (id : string) : goroutine E (option nat) :=
  atomic (on_sessions (p_Delete id)).

(** Through the pointer, without the mutex. *)
Definition read_sid_step (p : nat) (backend : string) : goroutine E (option string) :=
  gets_step (λ w, p_BackendSID (g_sessions w) p backend).

(** *** The catalogs: a mutex each, held through a fetch *)

Definition fetch_steps (c : catalog)
    : goroutine E (result client_error (option (list rawTool))) :=
  let cred := k_cred c in
  if Stateless (k_backend c) then out_step (listTools (k_backend c) "" cred (k_headers c))
  else
    r ← out_step (initialize (k_backend c) (Some defaultInitParams) cred);
    match r with
    | Err e => mret (Err e)
    | Ok (sid, _) =>
        _ ← (if nonempty sid then out_step (notifyInitialized (k_backend c) sid cred) else mret ());
        out_step (listTools (k_backend c) sid cred (k_headers c))
    end.

(** [get] between [Lock] and [Unlock]. *)
Definition get_body (i : nat) : goroutine E (result client_error (option (list nat))) :=
  c ← cat_step (gets (λ s, cs_unique (ct_cats s) !! i));
  match c with
  | None => Done Panic
  | Some c =>
      fresh ← cat_step (is_fresh c);
      if fresh : bool then mret (Ok (k_tools c)) else
      r ← fetch_steps c;
      match r with
      | Err e => mret (match k_tools c with Some _ => Ok (k_tools c) | None => Err e end)
      | Ok tools =>
          refs ← match tools with
                 | Some ts => rs ← cat_step (alloc_tools ts); mret (Some rs)
                 | None => mret None
                 end;
          t ← out_step now;
          _ ← cat_step (set_catalog i
                (mkCatalog (k_backend c) (k_cred c) (k_headers c) (k_ttl c) refs t));
          mret (Ok refs)
      end
  end.

Definition get_steps (i : nat) : goroutine E (result client_error (option (list nat))) :=
  locking i (get_body i).

Fixpoint collect_steps (tenants : list Tenant)
    : goroutine E (list (Tenant * list nat) * list client_error) :=
  match tenants with
  | [] => mret ([], [])
  | t :: tenants =>
      c ← cat_step (gets (λ s, forTenant (ct_cats s) (t_ID t)));
      match c with
      | None => collect_steps tenants
      | Some i =>
          r ← get_steps i;
          rest ← collect_steps tenants;
          mret match r with
          | Ok refs => ((t, default [] refs) :: rest.1, rest.2)
          | Err e => (rest.1, e :: rest.2)
          end
      end
  end.

Definition toolsFor_steps (tenants : list Tenant)
    : goroutine E (result (list client_error) (list (Tenant * list nat))) :=
  r ← collect_steps tenants;
  mret match r with
       | ([], (_ :: _) as errs) => Err errs
       | (out, _) => Ok out
       end.

Fixpoint warm_from_steps (pending : list nat) : goroutine E (list client_error) :=
  match pending with
  | [] => mret []
  | i :: pending =>
      r ← get_steps i;
      errs ← warm_from_steps pending;
      mret match r with Ok _ => errs | Err e => e :: errs end
  end.

(** One attempt over [n] catalogs; what it reports is only logged. *)
Definition warm_steps (n : nat) : goroutine E () :=
  _ ← warm_from_steps (seq 0 n);
  mret ().

Definition cached_at (i : nat) (s : CatState E) : option (list nat) :=
  c ← cs_unique (ct_cats s) !! i; cached c.

(** [cached], under the catalog's mutex; the tools themselves never change. *)
Definition cachedTool_steps (tenantID name : string) : goroutine E cached_lookup :=
  c ← cat_step (gets (λ s, forTenant (ct_cats s) tenantID));
  match c with
  | None => mret NotCached
  | Some i =>
      tools ← locking i (cat_step (gets (cached_at i)));
      match tools with
      | None => mret NotCached
      | Some refs =>
          heap ← cat_step (gets ct_heap);
          mret match filter (λ t, Catalog.toolName t = name) (deref heap refs) with
               | t :: _ => Listed t
               | [] => NotListed
               end
      end
  end.
End steps.

(** ** The handlers *)

Section handlers.
Context {V : Type} `{Verifier V} (h : Handler V) {E : Env}.

Abbreviation reg := (Registry_ h).

(** *** Selecting the tenant: a lookup in a catalog at a time *)

Definition may_have_steps (toolName : string) (t : Tenant) : goroutine E bool :=
  c ← cachedTool_steps (t_ID t) toolName;
  mret match c with NotListed => false | _ => true end.

Fixpoint tenantsWithTool_steps (toolName : string) (candidates : list Tenant)
    : goroutine E (list Tenant) :=
  match candidates with
  | [] => mret []
  | t :: candidates =>
      b ← may_have_steps toolName t;
      rest ← tenantsWithTool_steps toolName candidates;
      mret (if b : bool then t :: rest else rest)
  end.

Definition unavailable_message (toolName : string) (tenant : Tenant) (having : list Tenant) : string :=
  let msg := "tool " +:+ quote toolName +:+ " is not available for tenant " +:+ quote (t_ID tenant) in
  match List.filter (λ t, negb (String.eqb (t_ID t) (t_ID tenant))) having with
  | [] => msg
  | others => msg +:+ "; it is available on: " +:+ tenantList others
  end.

Definition unavailable_steps (toolName : string) (tenant : Tenant) (authorized : list Tenant)
    : goroutine E string :=
  b ← may_have_steps toolName tenant;
  if b : bool then mret "" else
  having ← tenantsWithTool_steps toolName authorized;
  mret (unavailable_message toolName tenant having).

Definition selectTenant_steps (toolName : string) (args : option json) (groups : list string)
    (authorized : list Tenant) : goroutine E (result string Tenant) :=
  let explicit := extractTenantArg args in
  if nonempty explicit then
    match ResolveTenant reg explicit with
    | None => mret (Err ("unknown tenant " +:+ quote explicit +:+ "; choose one of: " +:+ tenantList authorized))
    | Some tenant =>
        if negb (IsAuthorized tenant groups) then
          mret (Err ("not authorized for tenant " +:+ quote explicit +:+ "; choose one of: " +:+
                     tenantList authorized))
        else
          msg ← unavailable_steps toolName tenant authorized;
          mret (if nonempty msg then Err msg else Ok tenant)
    end
  else
    match authorized with
    | [] => mret (Err "no instances are authorized for your token")
    | [t] =>
        msg ← unavailable_steps toolName t authorized;
        mret (if nonempty msg then Err msg else Ok t)
    | _ =>
        candidates ← tenantsWithTool_steps toolName authorized;
        mret match candidates with
             | [] => Err ("tool " +:+ quote toolName +:+ " is not available on any of your instances: " +:+
                          tenantList authorized)
             | [t] => Ok t
             | candidates =>
                 Err ("multiple instances available; pass the " +:+ quote tenantArg +:+
                      " argument, one of: " +:+ tenantList candidates)
             end
    end.

Definition paramHeadersForCall_steps (tenant : Tenant) (toolName : string) (args : option json)
    : goroutine E (gmap string string) :=
  c ← cachedTool_steps (t_ID tenant) toolName;
  mret match c with Listed tool => paramHeadersForTool tool args | _ => ∅ end.

(** *** Routing *)

Definition finish_call_steps (id : option json) (resp : result client_error string)
    : goroutine E bool :=
  match resp with
  | Err _ => _ ← write_step (writeRPCError id (-32003) "backend call failed"); mret false
  | Ok bytes =>
      _ ← write_step (λ w, w_write bytes (w_set_header "Content-Type" "application/json" w));
      mret true
  end.

Definition open_backend_session_steps (proxySID : string) (tenant : Tenant)
    : goroutine E (result client_error string) :=
  let cred := EffectiveCredential tenant in
  r ← out_step (initialize (t_Backend tenant) (Some defaultInitParams) cred);
  match r with
  | Err e => mret (Err e)
  | Ok (sid, _) =>
      _ ← (if nonempty sid then out_step (notifyInitialized (t_Backend tenant) sid cred)
           else mret ());
      _ ← set_step proxySID (t_ID tenant) sid;
      mret (Ok sid)
  end.

Definition routeToBackend_steps (r : Request) (id : option json) (tenant : Tenant)
    (forwardBytes toolName : string) (paramHeaders : gmap string string) : goroutine E bool :=
  let b := t_Backend tenant in
  let cred := EffectiveCredential tenant in
  let headers := mergeHeaders [t_Headers tenant; paramHeaders] in
  if Stateless b then
    resp ← out_step (callTool b "" cred forwardBytes headers toolName);
    finish_call_steps id resp
  else
    let proxySID := header_get mcpSessionHeader (r_Header r) in
    sess ← get_step proxySID;
    match sess with
    | None =>
        _ ← write_step (writeRPCError id (-32000) "session not found; call initialize first");
        mret false
    | Some sess =>
        have ← read_sid_step sess (t_ID tenant);
        backendSID ← match have with
                     | Some sid => mret (Ok sid)
                     | None => open_backend_session_steps proxySID tenant
                     end;
        match backendSID with
        | Err _ =>
            _ ← write_step (writeRPCError id (-32002) "failed to open backend session");
            mret false
        | Ok backendSID =>
            resp ← out_step (callTool b backendSID cred forwardBytes headers toolName);
            finish_call_steps id resp
        end
    end.

Definition forward_call_steps (r : Request) (req : jsonRPCRequest) (params : toolCallParams)
    (tenant : Tenant) : goroutine E () :=
  _ ← note_step (with_tenant tenant);
  match stripTenantArg (j_Params req) with
  | Err _ =>
      _ ← note_step (with_error "invalid_params");
      write_step (writeRPCError (j_ID req) (-32602) "invalid arguments")
  | Ok cleanParams =>
      let forwardReq := mkRPC "2.0" "tools/call" cleanParams (j_ID req) in
      let forwardBytes := print (marshal_request forwardReq) in
      paramHeaders ← paramHeadersForCall_steps tenant (tp_Name params) (tp_Arguments params);
      ok ← routeToBackend_steps r (j_ID req) tenant forwardBytes (tp_Name params) paramHeaders;
      if ok : bool then mret () else note_step (with_error "backend_error")
  end.

Definition auth_failure_steps (r : Request) (id : option json) (e : auth_error) : goroutine E () :=
  match e with
  | ErrInsufficientScope =>
      _ ← note_step (with_error "insufficient_scope");
      _ ← write_step (w_set_header "WWW-Authenticate" (insufficient_scope_header h r));
      write_step (writeHTTPError 403 id (-32001) "forbidden: insufficient scope")
  | ErrUnauthorized _ =>
      _ ← note_step (with_error "unauthorized");
      _ ← write_step (w_set_header "WWW-Authenticate" (unauthorized_header h r));
      write_step (writeHTTPError 401 id (-32001) "unauthorized: a valid token is required for tool calls")
  | OtherAuthError =>
      _ ← note_step (with_error "auth_error");
      write_step (writeHTTPError 500 id (-32603) "internal error")
  end.

Definition tools_call_steps (r : Request) (req : jsonRPCRequest) : goroutine E () :=
  t ← out_step now;
  match Groups (Verifier_ h) t r with
  | Err e => auth_failure_steps r (j_ID req) e
  | Ok groups =>
      match match j_Params req with Some v => unmarshal_params v | None => Err BadSyntax end with
      | Err _ =>
          _ ← note_step (with_error "invalid_params");
          write_step (writeRPCError (j_ID req) (-32602) "invalid tools/call params")
      | Ok params =>
          _ ← note_step (with_tool (tp_Name params));
          let authorized := AuthorizedTenants reg groups in
          if String.eqb (tp_Name params) listInstancesTool then
            write_step (writeInstances h (j_ID req) authorized)
          else
            selected ← selectTenant_steps (tp_Name params) (tp_Arguments params) groups authorized;
            match selected with
            | Err errResult =>
                _ ← note_step (with_error "tenant_selection");
                write_step (write_result (j_ID req)
                              (marshal_map (statelessize h (toolResultText errResult true))))
            | Ok tenant => forward_call_steps r req params tenant
            end
      end
  end.

Definition record_op_steps (start : Z) : goroutine E () :=
  t ← out_step now;
  a ← out_attrs;
  record_step (RecordToolCall a (t - start)).

Definition handleToolsCall_steps (r : Request) (req : jsonRPCRequest) : goroutine E () :=
  start ← out_step now;
  _ ← note_step (λ _, mkToolCallAttrs "tools/call" "" "" "" "");
  deferring (record_op_steps start) (tools_call_steps r req).

Definition handleInitialize_steps (req : jsonRPCRequest) : goroutine E () :=
  let res := serverInfoResult h in
  _ ← write_step (w_set_header "Content-Type" "application/json");
  if AllStateless reg then write_step (w_write (writeJSONRPCResult (j_ID req) res)) else
  sess ← mint_step;
  _ ← record_step RecordSession;
  id ← gets_step (λ w, p_ID (g_sessions w) sess);
  _ ← write_step (w_set_header mcpSessionHeader id);
  write_step (w_write (writeJSONRPCResult (j_ID req) res)).

(** The copies are the handler's own: making and changing them is one step. *)
Definition handleToolsList_steps (r : Request) (req : jsonRPCRequest) : goroutine E () :=
  t ← out_step now;
  let '(tenants, discovery) := listed_tenants h (Groups (Verifier_ h) t r) in
  views ← toolsFor_steps tenants;
  match views with
  | Err _ => write_step (writeRPCError (j_ID req) (-32603) "failed to load tool catalog")
  | Ok views =>
      heap ← cat_step (gets ct_heap);
      let u := union_views heap views in
      let authorized := if discovery : bool then [] else tenants in
      out ← cat_step (list_tools discovery authorized u (un_order u));
      local ← cat_step (alloc_tools [listInstancesToolDef]);
      heap ← cat_step (gets ct_heap);
      write_step (write_result (j_ID req) (tools_result h (deref heap (out ++ local))))
  end.

Fixpoint teardown_loop (sess : nat) (tenants : list Tenant) : goroutine E () :=
  match tenants with
  | [] => mret ()
  | t :: tenants =>
      bsid ← read_sid_step sess (t_ID t);
      match bsid with
      | Some bsid =>
          if nonempty bsid then Start (t, bsid) (teardown_loop sess tenants)
          else teardown_loop sess tenants
      | None => teardown_loop sess tenants
      end
  end.

Definition handleDelete_steps (r : Request) : goroutine E () :=
  if AllStateless reg then write_step (w_write_header 204) else
  let proxySID := header_get mcpSessionHeader (r_Header r) in
  sess ← delete_step proxySID;
  _ ← match sess with
      | Some sess => teardown_loop sess (Tenants reg)
      | None => mret ()
      end;
  write_step (w_write_header 204).

Definition teardown_steps (task : Tenant * string) : goroutine E () :=
  out_step (teardownBackend task.1 task.2).

Definition dispatch_steps (r : Request) (req : jsonRPCRequest) : goroutine E () :=
  let m := j_Method req in
  if String.eqb m "initialize" then handleInitialize_steps req
  else if String.eqb m "notifications/initialized" then write_step (w_write_header 202)
  else if String.eqb m "server/discover" then
    write_step (write_result (j_ID req) (discoverResult h))
  else if String.eqb m "tools/list" then handleToolsList_steps r req
  else if String.eqb m "tools/call" then handleToolsCall_steps r req
  else if String.eqb m "ping" then
    write_step (write_result (j_ID req) (marshal_map (statelessize h ∅)))
  else if isNotification req then write_step (w_write_header 202)
  else write_step (writeRPCError (j_ID req) (-32601) ("method not found: " +:+ m)).

Definition ServeHTTP_steps (r : Request) : goroutine E () :=
  if String.eqb (r_Method r) "DELETE" then handleDelete_steps r
  else if String.eqb (r_Method r) "GET" then
    _ ← write_step (w_set_header "Content-Type" "text/event-stream");
    write_step (w_write_header 200)
  else if negb (String.eqb (r_Method r) "POST") then
    write_step (w_http_error "method not allowed" 405)
  else
    match r_Body r with
    | None => write_step (writeRPCError None (-32700) "failed to read request body")
    | Some bodyBytes =>
        match v ← parse_text bodyBytes; unmarshal_request v with
        | Err _ => write_step (writeRPCError None (-32700) "parse error")
        | Ok req =>
            _ ← (if AllStateless reg
                 then write_step (w_set_header mcpProtocolVersionHeader ProtocolVersionStateless)
                 else mret ());
            dispatch_steps r req
        end
    end.

(** *** The running proxy *)

Definition serve_steps (r : Request) : goroutine E () :=
  _ ← ServeHTTP_steps r;
  write_step w_finish.

Definition world_init (obs : Observability) (o : Outside E) : World E :=
  mkWorld (p_NewStore (30 * minute))
    (mkCatState [] (NewCatalogs reg (5 * minute)) o) (Some obs).

Definition pool_init (obs : Observability) (o : Outside E) : proxy_pool E :=
  mkPool (world_init obs o) ∅ [].

(** A goroutine of its own for every request and every warm-up attempt; a page is
    an answer that needs nothing shared (health, metadata, not found). *)
Definition arrive (t : goroutine E ()) (r : option Request) (p : proxy_pool E) : proxy_pool E :=
  mkPool (po_world p) (po_locks p) (po_threads p ++ [(t, new_local r)]).

Definition proxy_moves : proxy_pool E → proxy_pool E → Prop :=
  pool_moves teardown_steps (new_local None).

Inductive proxy_step : proxy_pool E → proxy_pool E → Prop :=
| proxy_move p p' : proxy_moves p p' → proxy_step p p'
| proxy_request r p : proxy_step p (arrive (serve_steps r) (Some r) p)
| proxy_warm p :
    proxy_step p (arrive (warm_steps (length (cs_unique (ct_cats (g_cat (po_world p)))))) None p)
| proxy_page f p : proxy_step p (arrive (write_step f) None p).

Definition interleaved (obs : Observability) (o : Outside E) (p : proxy_pool E) : Prop :=
  rtc proxy_step (pool_init obs o) p.
End handlers.
