(* ===== verification/Interleave.v ===== *)
(** * Any interleaving: isolation, no deadlock, every goroutine finishes

    What the sequential theorems promise for one request at a time, proved for
    requests, teardowns and warm-up attempts whose steps interleave in any order. *)

From Stdlib Require Import Ascii.
From stdpp Require Import base numbers option pretty gmap fin_maps sorting strings list relations.
From S2P Require Import Prelude GoStrings Json Parse Decode Config Registry Session Cells Http Rpc Schema.
From S2P Require Import ParamHeaders Client Catalog Auth OAuth Observability Handler HandlerSelect.
From S2P Require Import Main Isolation Calls Forward Listing Total Threads Concurrent.

#[local] Set Warnings "-clear-no-such-hyp".
#[local] Open Scope nat_scope.

(** ** Mutexes

    Every handler gives back a mutex it takes before it takes another. *)

Create HintDb mutex.

Ltac lockless_tac :=
  repeat first [done | solve [auto with mutex] | apply lockless_bind; [|intros ?] | case_match].
Ltac bracketed_tac :=
  repeat first [done | solve [auto with mutex] | apply bracketed_bind; [|intros ?] | case_match].

Section mutexes.
Context {E : Env}.

Lemma lockless_fetch c : lockless (fetch_steps (E := E) c).
Proof. unfold fetch_steps. lockless_tac. Qed.
#[local] Hint Resolve lockless_fetch : mutex.

Lemma lockless_get_body i : lockless (get_body (E := E) i).
Proof. unfold get_body. lockless_tac. Qed.

Lemma bracketed_get i : bracketed None (get_steps (E := E) i).
Proof. apply bracketed_locking, lockless_get_body. Qed.
#[local] Hint Resolve bracketed_get : mutex.

Lemma bracketed_collect ts : bracketed None (collect_steps (E := E) ts).
Proof. induction ts; cbn [collect_steps]; bracketed_tac. Qed.
#[local] Hint Resolve bracketed_collect : mutex.

Lemma bracketed_toolsFor ts : bracketed None (toolsFor_steps (E := E) ts).
Proof. unfold toolsFor_steps. bracketed_tac. Qed.

Lemma bracketed_warm_from l : bracketed None (warm_from_steps (E := E) l).
Proof. induction l; cbn [warm_from_steps]; bracketed_tac. Qed.
#[local] Hint Resolve bracketed_warm_from : mutex.

Lemma bracketed_warm n : bracketed None (warm_steps (E := E) n).
Proof. unfold warm_steps. bracketed_tac. Qed.

Lemma bracketed_cachedTool id name : bracketed None (cachedTool_steps (E := E) id name).
Proof.
  unfold cachedTool_steps. apply bracketed_bind; [done|]. intros [i|]; [|done].
  apply bracketed_bind; [by apply bracketed_locking|]. intros [refs|]; bracketed_tac.
Qed.
#[local] Hint Resolve bracketed_cachedTool : mutex.

Lemma bracketed_may_have name t : bracketed None (may_have_steps (E := E) name t).
Proof. unfold may_have_steps. bracketed_tac. Qed.
#[local] Hint Resolve bracketed_may_have : mutex.

Lemma bracketed_tenantsWithTool name ts : bracketed None (tenantsWithTool_steps (E := E) name ts).
Proof. induction ts; cbn [tenantsWithTool_steps]; bracketed_tac. Qed.
#[local] Hint Resolve bracketed_tenantsWithTool : mutex.

Lemma bracketed_unavailable name t ts : bracketed None (unavailable_steps (E := E) name t ts).
Proof. unfold unavailable_steps. bracketed_tac. Qed.

Lemma bracketed_finish id resp : bracketed None (finish_call_steps (E := E) id resp).
Proof. unfold finish_call_steps. bracketed_tac. Qed.
#[local] Hint Resolve bracketed_finish : mutex.

Lemma bracketed_open pid t : bracketed None (open_backend_session_steps (E := E) pid t).
Proof. unfold open_backend_session_steps. bracketed_tac. Qed.
#[local] Hint Resolve bracketed_open : mutex.

Lemma bracketed_route r id t bytes name ph :
  bracketed None (routeToBackend_steps (E := E) r id t bytes name ph).
Proof. unfold routeToBackend_steps. bracketed_tac. Qed.
#[local] Hint Resolve bracketed_route : mutex.

Lemma bracketed_forward r req params t : bracketed None (forward_call_steps (E := E) r req params t).
Proof. unfold forward_call_steps, paramHeadersForCall_steps. bracketed_tac. Qed.

Lemma bracketed_teardown_loop p ts : bracketed None (teardown_loop (E := E) p ts).
Proof. induction ts; cbn [teardown_loop]; bracketed_tac. Qed.
End mutexes.

#[export] Hint Resolve bracketed_toolsFor bracketed_warm bracketed_unavailable
  bracketed_tenantsWithTool bracketed_forward bracketed_teardown_loop bracketed_deferring : mutex.

Section serve_mutexes.
Context {V : Type} `{Verifier V} (h : Handler V) {E : Env}.

Lemma bracketed_select name args groups ts :
  bracketed None (selectTenant_steps h (E := E) name args groups ts).
Proof. unfold selectTenant_steps. bracketed_tac. Qed.
#[local] Hint Resolve bracketed_select : mutex.

Lemma bracketed_tools_call r req : bracketed None (tools_call_steps h (E := E) r req).
Proof. unfold tools_call_steps, auth_failure_steps. bracketed_tac. Qed.

#[local] Hint Resolve bracketed_tools_call : mutex.

Lemma bracketed_handleToolsCall r req : bracketed None (handleToolsCall_steps h (E := E) r req).
Proof.
  unfold handleToolsCall_steps. do 2 (apply bracketed_bind; [done|intros ?]).
  apply bracketed_deferring; [auto with mutex|]. unfold record_op_steps. bracketed_tac.
Qed.
#[local] Hint Resolve bracketed_handleToolsCall : mutex.

Lemma bracketed_dispatch r req : bracketed None (dispatch_steps h (E := E) r req).
Proof.
  unfold dispatch_steps, handleInitialize_steps, handleToolsList_steps.
  repeat (destruct (String.eqb _ _); [bracketed_tac|]); try bracketed_tac.
Qed.

Lemma bracketed_serve r : bracketed None (serve_steps h (E := E) r).
Proof.
  unfold serve_steps, ServeHTTP_steps, handleDelete_steps. apply bracketed_bind; [|done].
  do 2 (destruct (String.eqb _ _); [bracketed_tac|]). destruct (negb _); [done|].
  destruct (r_Body r) as [b|]; [|done].
  destruct (v ← parse_text b; unmarshal_request v) as [req|e]; [|done].
  apply bracketed_bind; [bracketed_tac|]. intros _. apply bracketed_dispatch.
Qed.
End serve_mutexes.

(** ** How many steps a goroutine takes *)

Section bounds.
Context {E : Env}.

(** A teardown is one step. *)
Abbreviation takes := (within (λ _ : Tenant * string, 1)).

Lemma takes_le {A} n n' (t : goroutine E A) : takes n t → n <= n' → takes n' t.
Proof. intros Ht Hn. by eapply within_mono. Qed.

Lemma takes_ret {A} n (v : A) : takes n (mret v : goroutine E A).
Proof. done. Qed.
Lemma takes_atomic {A} n (m : M (World E * Local) A) : takes (S n) (atomic m).
Proof. done. Qed.

Lemma takes_step {A B} n (m : M (World E * Local) A) (k : A → goroutine E B) :
  (∀ v, takes n (k v)) → takes (S n) (atomic m ≫= k).
Proof. intros Hk. by apply (within_bind _ 1 n). Qed.

Lemma takes_bind {A B} n a (t : goroutine E A) (k : A → goroutine E B) :
  takes a t → a <= n → (∀ v, takes (n - a) (k v)) → takes n (t ≫= k).
Proof. intros Ht Ha Hk. replace n with (a + (n - a)) by lia. by apply within_bind. Qed.

Lemma takes_fetch c : takes 3 (fetch_steps (E := E) c).
Proof.
  unfold fetch_steps. destruct (Stateless (k_backend c)); [done|].
  apply takes_step. intros [[sid res]|e]; [|done].
  apply (takes_bind _ 1); [by destruct (nonempty sid)|lia|done].
Qed.

Lemma takes_get i : takes 10 (get_steps (E := E) i).
Proof.
  apply (within_locking _ 8). unfold get_body. apply takes_step. intros [c|]; [|done].
  apply takes_step. intros [|]; [done|].
  apply (takes_bind _ 3); [apply takes_fetch|lia|]. intros [tools|e]; [|done].
  apply (takes_bind _ 1); [destruct tools; [by apply takes_step|done]|lia|]. intros refs.
  by do 2 (apply takes_step; intros ?).
Qed.

Lemma takes_collect ts : takes (11 * length ts) (collect_steps (E := E) ts).
Proof.
  induction ts as [|t ts IH]; [done|]. cbn [collect_steps length].
  rewrite Nat.mul_succ_r, Nat.add_comm. apply takes_step. intros [i|].
  - apply (takes_bind _ 10); [apply takes_get|lia|]. intros r.
    apply (takes_bind _ (11 * length ts)); [done|lia|done].
  - eapply takes_le; [exact IH|lia].
Qed.

Lemma takes_toolsFor ts : takes (11 * length ts) (toolsFor_steps (E := E) ts).
Proof. apply (takes_bind _ (11 * length ts)); [apply takes_collect|lia|done]. Qed.

Lemma takes_warm n : takes (10 * n) (warm_steps (E := E) n).
Proof.
  unfold warm_steps. apply (takes_bind _ (10 * n)); [|lia|done].
  rewrite <- (length_seq n 0) at 1. induction (seq 0 n) as [|i l IH]; [done|].
  cbn [warm_from_steps length]. apply (takes_bind _ 10); [apply takes_get|lia|]. intros r.
  apply (takes_bind _ (10 * length l)); [done|lia|done].
Qed.

Lemma takes_cachedTool id name : takes 5 (cachedTool_steps (E := E) id name).
Proof.
  unfold cachedTool_steps. apply takes_step. intros [i|]; [|done].
  apply (takes_bind _ 3); [by apply (within_locking _ 1)|lia|]. intros [refs|]; [by apply takes_step|done].
Qed.

Lemma takes_may_have name t : takes 5 (may_have_steps (E := E) name t).
Proof. apply (takes_bind _ 5); [apply takes_cachedTool|lia|done]. Qed.

Lemma takes_tenantsWithTool name ts : takes (5 * length ts) (tenantsWithTool_steps (E := E) name ts).
Proof.
  induction ts as [|t ts IH]; [done|]. cbn [tenantsWithTool_steps length].
  apply (takes_bind _ 5); [apply takes_may_have|lia|]. intros b.
  apply (takes_bind _ (5 * length ts)); [done|lia|done].
Qed.

Lemma takes_unavailable name t ts : takes (5 + 5 * length ts) (unavailable_steps (E := E) name t ts).
Proof.
  unfold unavailable_steps. apply (takes_bind _ 5); [apply takes_may_have|lia|]. intros []; [done|].
  apply (takes_bind _ (5 * length ts)); [apply takes_tenantsWithTool|lia|done].
Qed.

Lemma takes_finish id resp : takes 1 (finish_call_steps (E := E) id resp).
Proof. destruct resp; by apply takes_step. Qed.

Lemma takes_open pid t : takes 3 (open_backend_session_steps (E := E) pid t).
Proof.
  unfold open_backend_session_steps. apply takes_step. intros [[sid res]|e]; [|done].
  apply (takes_bind _ 1); [by destruct (nonempty sid)|lia|]. intros _. by apply takes_step.
Qed.

Lemma takes_route r id t bytes name ph :
  takes 7 (routeToBackend_steps (E := E) r id t bytes name ph).
Proof.
  unfold routeToBackend_steps. destruct (Stateless (t_Backend t)).
  { apply takes_step. intros resp. eapply takes_le; [apply takes_finish|lia]. }
  apply takes_step. intros [p|]; [|by apply takes_step].
  apply takes_step. intros have.
  apply (takes_bind _ 3); [destruct have; [done|apply takes_open]|lia|].
  intros [sid|e]; [|by apply takes_step]. apply takes_step. intros resp.
  eapply takes_le; [apply takes_finish|lia].
Qed.

Lemma takes_forward r req params t : takes 14 (forward_call_steps (E := E) r req params t).
Proof.
  unfold forward_call_steps. apply takes_step. intros _.
  destruct (stripTenantArg (j_Params req)); [|by apply takes_step].
  apply (takes_bind _ 5); [apply (takes_bind _ 5); [apply takes_cachedTool|lia|done]|lia|]. intros phs.
  apply (takes_bind _ 7); [apply takes_route|lia|]. by intros [].
Qed.

Lemma takes_teardown_loop p ts : takes (3 * length ts) (teardown_loop (E := E) p ts).
Proof.
  induction ts as [|t ts IH]; [done|]. cbn [teardown_loop length].
  rewrite Nat.mul_succ_r, Nat.add_comm. apply takes_step.
  assert (takes (2 + 3 * length ts) (teardown_loop (E := E) p ts)) as IH' by (eapply takes_le; [exact IH|lia]).
  intros [sid|]; [|done]. destruct (nonempty sid); [|done]. split; [lia|]. eapply takes_le; [exact IH|lia].
Qed.
End bounds.

Section serve_bounds.
Context {V : Type} `{Verifier V} (h : Handler V) {E : Env}.

Abbreviation takes := (within (λ _ : Tenant * string, 1)).
Abbreviation N := (length (Tenants (Registry_ h))).

Lemma AuthorizedTenants_length groups : length (AuthorizedTenants (Registry_ h) groups) <= N.
Proof.
  unfold AuthorizedTenants, authorized_among. rewrite (Permutation_length (sort_on_perm _ _)).
  apply List.filter_length_le.
Qed.

Lemma listed_tenants_length groups : length (listed_tenants h groups).1 <= N.
Proof.
  unfold listed_tenants. destruct groups as [gs|e].
  - pose proof (AuthorizedTenants_length gs). destruct (AuthorizedTenants _ gs); [|done].
    cbn. by rewrite (Permutation_length (sort_on_perm _ _)).
  - cbn. by rewrite (Permutation_length (sort_on_perm _ _)).
Qed.

Lemma takes_select name args groups ts :
  takes (5 + 5 * length ts) (selectTenant_steps h (E := E) name args groups ts).
Proof.
  assert (∀ t (k : string → goroutine E (result string Tenant)), (∀ m, takes 0 (k m)) →
    takes (5 + 5 * length ts) (unavailable_steps name t ts ≫= k)) as Hun.
  { intros t k Hk. apply (takes_bind _ (5 + 5 * length ts)); [apply takes_unavailable|lia|].
    intros m. eapply takes_le; [apply Hk|lia]. }
  unfold selectTenant_steps. destruct (nonempty _).
  - destruct (ResolveTenant _ _) as [t|]; [|done]. destruct (negb _); [done|]. by apply Hun.
  - destruct ts as [|t [|t' ts]]; [done|by apply Hun|].
    apply (takes_bind _ (5 * length (t :: t' :: ts))); [apply takes_tenantsWithTool|lia|done].
Qed.

Lemma takes_tools_call r req : takes (21 + 5 * N) (tools_call_steps h (E := E) r req).
Proof.
  unfold tools_call_steps. apply takes_step. intros t.
  destruct (Groups _ t r) as [groups|e]; [|destruct e; by repeat (apply takes_step; intros ?)].
  destruct (match j_Params req with Some v => unmarshal_params v | None => Err BadSyntax end)
    as [params|e]; [|by apply takes_step].
  apply takes_step. intros _. destruct (String.eqb _ _); [done|].
  pose proof (AuthorizedTenants_length groups). eapply takes_bind; [apply takes_select|lia|].
  intros [t'|msg].
  - eapply takes_le; [apply takes_forward|lia].
  - eapply (takes_le 2); [by apply takes_step|lia].
Qed.

Lemma takes_handleToolsCall r req : takes (26 + 5 * N) (handleToolsCall_steps h (E := E) r req).
Proof.
  unfold handleToolsCall_steps. do 2 (apply takes_step; intros ?).
  eapply takes_le; [apply within_deferring; [apply takes_tools_call|]|].
  - unfold record_op_steps. by do 2 (apply (takes_step 2) || apply (takes_step 1); intros ?).
  - lia.
Qed.

Lemma takes_handleToolsList r req : takes (17 + 11 * N) (handleToolsList_steps h (E := E) r req).
Proof.
  unfold handleToolsList_steps. apply takes_step. intros t.
  pose proof (listed_tenants_length (Groups (Verifier_ h) t r)) as Hlen.
  destruct (listed_tenants h (Groups (Verifier_ h) t r)) as [tenants discovery]. cbn in Hlen.
  eapply takes_bind; [apply takes_toolsFor|lia|]. intros [views|e].
  - apply (takes_le 5); [by do 4 (apply takes_step; intros ?)|lia].
  - apply (takes_le 1); [done|lia].
Qed.

Lemma takes_dispatch r req : takes (26 + 11 * N) (dispatch_steps h (E := E) r req).
Proof.
  unfold dispatch_steps.
  destruct (String.eqb _ _).
  { unfold handleInitialize_steps. apply takes_step. intros _. destruct (AllStateless _); [done|].
    by do 4 (apply takes_step; intros ?). }
  do 2 (destruct (String.eqb _ _); [done|]).
  destruct (String.eqb _ _); [eapply takes_le; [apply takes_handleToolsList|lia]|].
  destruct (String.eqb _ _); [eapply takes_le; [apply takes_handleToolsCall|lia]|].
  destruct (String.eqb _ _); [done|]. by destruct (isNotification _).
Qed.

Lemma takes_serve r : takes (28 + 11 * N) (serve_steps h (E := E) r).
Proof.
  unfold serve_steps. apply (takes_bind _ (27 + 11 * N)); [|lia|].
  - unfold ServeHTTP_steps. destruct (String.eqb _ _).
    { unfold handleDelete_steps. destruct (AllStateless _); [done|]. apply takes_step.
      intros [p|]; [|done]. eapply takes_bind; [apply takes_teardown_loop|lia|].
      intros _. by apply (takes_le 1); [|lia]. }
    destruct (String.eqb _ _); [by apply takes_step|]. destruct (negb _); [done|].
    destruct (r_Body r) as [b|]; [|done].
    destruct (v ← parse_text b; unmarshal_request v) as [req|e]; [|done].
    apply (takes_bind _ 1); [by destruct (AllStateless _)|lia|]. intros _.
    eapply takes_le; [apply takes_dispatch|lia].
  - intros _. by apply (takes_le 1); [|lia].
Qed.
End serve_bounds.
