(* ===== verification/Rely.v ===== *)
(** * Rely and guarantee for the handlers

    What every goroutine keeps true of the shared world, and how far it may
    change it, whatever the others do between its steps: [world_ok] and
    [evolves]. Each handler is shown to stay within them. *)

From Stdlib Require Import Ascii.
From stdpp Require Import base numbers option pretty gmap fin_maps sorting strings list relations.
From S2P Require Import Prelude GoStrings Json Parse Decode Config Registry Session Cells Http Rpc Schema.
From S2P Require Import ParamHeaders Client Catalog Auth OAuth Observability Handler HandlerSelect.
From S2P Require Import Main Isolation Calls Forward Listing Total Threads Concurrent.

#[local] Set Warnings "-clear-no-such-hyp".
#[local] Open Scope nat_scope.

Section world.
Context {E : Env} (reg : Registry).
Implicit Types w : World E.

Definition g_log w : list exchange := cat_log (g_cat w).

(** A session stored under this tenant id was issued to that tenant. *)
Definition owned (log : list exchange) (id sid : string) : Prop :=
  ∀ t, t ∈ Tenants reg → t_ID t = id →
    named (E := E) log (t_Backend t) (EffectiveCredential t) sid.

Record world_ok w : Prop := {
  wo_cat : cat_iso reg (g_cat w);
  wo_wf : cat_wf (g_cat w);
  wo_store : pstore_wf (g_sessions w);
  wo_cells : cells_hold (owned (g_log w)) (g_sessions w) }.

(** The log and the heap only grow, and every catalog stays the same view. *)
Record evolves w w' : Prop := {
  ev_log : g_log w `prefix_of` g_log w';
  ev_heap : ct_heap (g_cat w) `prefix_of` ct_heap (g_cat w');
  ev_byTenant : cs_byTenant (ct_cats (g_cat w')) = cs_byTenant (ct_cats (g_cat w));
  ev_views : view_of <$> cs_unique (ct_cats (g_cat w')) = view_of <$> cs_unique (ct_cats (g_cat w)) }.

#[export] Instance evolves_preorder : PreOrder evolves.
Proof.
  split; [done|]. intros w1 w2 w3 [L1 H1 T1 V1] [L2 H2 T2 V2].
  split; [by trans (g_log w2)|by trans (ct_heap (g_cat w2))|congruence..].
Qed.

Lemma evolves_length w w' :
  evolves w w' → length (cs_unique (ct_cats (g_cat w'))) = length (cs_unique (ct_cats (g_cat w))).
Proof. intros He. by rewrite <- (length_fmap view_of), (ev_views _ _ He), length_fmap. Qed.

Lemma owned_mono log log' id sid : log `prefix_of` log' → owned log id sid → owned log' id sid.
Proof. intros Hp Ho t Ht Hid. eapply named_mono; [done|]. by apply Ho. Qed.

Lemma cells_owned_mono log log' st :
  log `prefix_of` log' → cells_hold (owned log) st → cells_hold (owned log') st.
Proof. intros Hp. apply cells_hold_mono. intros b v. by apply owned_mono. Qed.

(** A teardown to come. *)
Definition task_ok (task : Tenant * string) w : Prop :=
  task.1 ∈ Tenants reg ∧
  named (E := E) (g_log w) (t_Backend task.1) (EffectiveCredential task.1) task.2.

Lemma task_ok_stable task w w' : evolves w w' → task_ok task w → task_ok task w'.
Proof. intros He [Ht Hn]. split; [done|]. eapply named_mono; [apply He|done]. Qed.

(** *** Changes to the world *)

Lemma catalogs_step w c :
  world_ok w → cat_iso reg c → cat_wf c → cat_log (g_cat w) `prefix_of` cat_log c →
  ct_heap (g_cat w) `prefix_of` ct_heap c →
  cs_byTenant (ct_cats c) = cs_byTenant (ct_cats (g_cat w)) →
  view_of <$> cs_unique (ct_cats c) = view_of <$> cs_unique (ct_cats (g_cat w)) →
  let w' := mkWorld (g_sessions w) c (g_obs w) in evolves w w' ∧ world_ok w'.
Proof.
  intros [Hi Hwf Hst Hc] Hi' Hwf' Hl Hh Ht Hv w'. split; [by split|]. split; [done..|].
  eapply cells_owned_mono; [exact Hl|done].
Qed.

Lemma outside_step w o :
  world_ok w → isolated (E := E) reg (o_log o) → g_log w `prefix_of` o_log o →
  let w' := mkWorld (g_sessions w) (with_out (g_cat w) o) (g_obs w) in evolves w w' ∧ world_ok w'.
Proof.
  intros Hw Hi Hl. apply catalogs_step; [done| | |done..].
  - split; [done|]. apply Hw.
  - destruct (wo_wf _ Hw) as [Hr Hx]. by split.
Qed.

Lemma sessions_step w st :
  world_ok w → pstore_wf st → cells_hold (owned (g_log w)) st →
  let w' := mkWorld st (g_cat w) (g_obs w) in evolves w w' ∧ world_ok w'.
Proof. intros [? ? ? ?] ? ? w'. by split. Qed.
End world.

(** ** Handlers *)

Section runs.
Context {V : Type} `{Verifier V} (h : Handler V) {E : Env} (rq : option Request).
Hypothesis Hreg : registry_wf (Registry_ h).
Implicit Types w : World E.

Abbreviation reg := (Registry_ h).

(** The one request whose goroutine may panic. *)
Definition may_panic (r : option Request) : Prop :=
  ∃ r' req, r = Some r' ∧ decodes_to r' req ∧ null_call req.

(** The goroutine serves [rq], returns with [Q], and panics only if it may. *)
Definition post {A} (Q : A → World E → Prop) (o : outcome A) w (l : Local) : Prop :=
  l_req l = rq ∧ match o with Return v => Q v w | Panic => may_panic rq end.

Definition runs {A} (t : goroutine E A) (Q : A → World E → Prop) w : Prop :=
  ∀ l, l_req l = rq → good (world_ok reg) evolves (λ _, evolves) (task_ok reg) (post Q) t w l.

Lemma runs_ret {A} (v : A) (Q : A → World E → Prop) w : Q v w → runs (mret v) Q w.
Proof. intros HQ l Hl. by split. Qed.

Lemma runs_bind {A B} (t : goroutine E A) (k : A → goroutine E B) Q Q' w :
  runs t Q w → (∀ v w', evolves w w' → Q v w' → runs (k v) Q' w') → runs (t ≫= k) Q' w.
Proof.
  intros Ht Hk l Hl. eapply (good_after _ _ _ _ (λ _ _ _ HR, HR) (post Q)); [by apply Ht|].
  intros [v|] w' l' HR [Hl' HQ]; [by apply Hk|by split].
Qed.

Lemma runs_mono {A} (t : goroutine E A) (Q Q' : A → World E → Prop) w :
  runs t Q w → (∀ v w', Q v w' → Q' v w') → runs t Q' w.
Proof.
  intros Ht HQ l Hl. eapply good_mono; [|by apply Ht]. intros [v|] w' l' [? ?]; [|done].
  split; [done|by apply HQ].
Qed.

Lemma runs_locking {A} i (t : goroutine E A) Q w : runs t Q w → runs (locking i t) Q w.
Proof.
  intros Ht l Hl. eapply (good_after _ _ _ _ (λ _ _ _ HR, HR) (post Q)); [by apply Ht|]. intros o w' l' _ HQ. exact HQ.
Qed.

(** A step that always returns. *)
Lemma runs_atomic {A} (m : M (World E * Local) A) (Q : A → World E → Prop) w :
  (∀ w' l, world_ok reg w' → evolves w w' →
     ∃ v w'' l', m (w', l) = (Return v, (w'', l')) ∧ l_req l' = l_req l ∧
       evolves w' w'' ∧ world_ok reg w'' ∧ Q v w'') →
  runs (atomic m) Q w.
Proof.
  intros Hm l Hl. apply good_atomic. intros w' HI HR.
  destruct (Hm w' l HI HR) as (v & w'' & l' & -> & Hl' & ? & ? & ?). cbn. split_and!; [done..|].
  split; [congruence|done].
Qed.

Lemma runs_gets {A} (f : World E → A) (Q : A → World E → Prop) w :
  (∀ w', world_ok reg w' → evolves w w' → Q (f w') w') → runs (gets_step f) Q w.
Proof. intros HQ. apply runs_atomic. intros w' l HI HR. exists (f w'), w', l. by split_and!; auto. Qed.

Lemma runs_cat_gets {A} (f : CatState E → A) (Q : A → World E → Prop) w :
  (∀ w', world_ok reg w' → evolves w w' → Q (f (g_cat w')) w') → runs (cat_step (gets f)) Q w.
Proof.
  intros HQ. apply runs_atomic. intros w' l HI HR. exists (f (g_cat w')), w', l.
  split_and!; [|done|done|done|by apply HQ]. by destruct w' as [? [] ?].
Qed.

Lemma runs_write f w : runs (write_step f) (λ _ _, True) w.
Proof. apply runs_atomic. intros w' l HI HR. by eexists _, _, _. Qed.
Lemma runs_note f w : runs (note_step f) (λ _ _, True) w.
Proof. apply runs_atomic. intros w' l HI HR. by eexists _, _, _. Qed.
Lemma runs_attrs w : runs out_attrs (λ _ _, True) w.
Proof. apply runs_atomic. intros w' l HI HR. by eexists _, _, _. Qed.
Lemma runs_record f w : runs (record_step f) (λ _ _, True) w.
Proof.
  apply runs_atomic. intros w' l [? ? ? ?] HR. eexists _, _, _. split_and!; [done|done|by split|by split|done].
Qed.

(** Dealings with the outside. *)
Lemma runs_out {A} (m : M (Outside E) A) (Q : A → list exchange → Prop) w :
  returns m ∨ may_panic rq →
  (∀ w', world_ok reg w' → evolves w w' →
     run_ok o_log (λ o, isolated (E := E) reg (o_log o)) m (λ v o, Q v (o_log o)) (ct_out (g_cat w'))) →
  runs (out_step m) (λ v w, Q v (g_log w)) w.
Proof.
  intros Hret Hm l Hl. apply good_atomic. intros w' HI HR.
  destruct (Hm w' HI HR) as (Hp & Hi & HQ). unfold zoom, outside.
  pose proof (outside_step reg w' (m (ct_out (g_cat w'))).2 HI Hi Hp) as [Hev Hok].
  cbn [fst snd]. destruct Hret as [Hret|Hpanic].
  - destruct (Hret (ct_out (g_cat w'))) as (v & o & Hv). unfold zoom. rewrite Hv in *.
    split_and!; [done..|]. by split.
  - unfold zoom. destruct (m (ct_out (g_cat w'))) as [[v|] o]; (split_and!; [done..|]); by split.
Qed.

Lemma runs_now w : runs (out_step now) (λ _ _, True) w.
Proof.
  apply (runs_out now (λ _ _, True)); [left; apply returns_now|]. intros w' HI HR.
  split_and!; [done|apply HI|done].
Qed.

(** *** The store *)

(** A step on the store that may read the clock and the random source. *)
Lemma runs_sessions {A} (n : nat → nat) (d : nat → nat) (f : Outside E → PStore → PStore * A) (Q : A → World E → Prop)
    (m : M (World E * Local) A) w :
  (∀ w l, m (w, l) =
     let o := ct_out (g_cat w) in
     let o' := mkOutside (o_net o) (n (o_ticks o)) (d (o_draws o)) (o_log o) in
     (Return (f o (g_sessions w)).2, (mkWorld (f o (g_sessions w)).1 (with_out (g_cat w) o') (g_obs w), l))) →
  (∀ w' o, world_ok reg w' → evolves w w' →
     pstore_wf (f o (g_sessions w')).1 ∧ cells_hold (owned (E := E) reg (g_log w')) (f o (g_sessions w')).1 ∧
     ∀ w'', g_log w'' = g_log w' → Q (f o (g_sessions w')).2 w'') →
  runs (atomic m) Q w.
Proof.
  intros Hm Hf. apply runs_atomic. intros w' l HI HR. rewrite Hm. cbv zeta.
  destruct (Hf w' (ct_out (g_cat w')) HI HR) as (Hwf & Hc & HQ).
  set (o' := mkOutside _ _ _ _).
  destruct (outside_step reg w' o' HI (proj1 (wo_cat _ _ HI)) (reflexivity _)) as [Hev Hok].
  destruct (sessions_step reg _ (f (ct_out (g_cat w')) (g_sessions w')).1 Hok Hwf Hc) as [Hev' Hok'].
  eexists _, _, _. split_and!; [reflexivity|done|by etrans|exact Hok'|by apply HQ].
Qed.

Lemma runs_mint w : runs mint_step (λ _ _, True) w.
Proof.
  eapply (runs_sessions (λ n, S (S n)) S (λ o, p_Mint (e_clock E (o_ticks o)) (e_clock E (S (o_ticks o)))
    (e_random E (o_draws o)))).
  { intros w' l. exact (on_sessions_eq _ (_, l)). }
  intros w' o HI _. set (st := g_sessions w').
  pose proof (p_Mint_spec (e_clock E (o_ticks o)) (e_clock E (S (o_ticks o))) (e_random E (o_draws o)) st
    (wo_store _ _ HI)) as Hm.
  pose proof (cells_hold_Mint _ (e_clock E (o_ticks o)) (e_clock E (S (o_ticks o))) (e_random E (o_draws o)) st
    (wo_cells _ _ HI)) as Hc.
  case_match. split_and!; [apply Hm|done|done].
Qed.

Lemma runs_get_session id w : runs (get_step id) (λ _ _, True) w.
Proof.
  eapply (runs_sessions (λ n, S (S n)) (λ n, n) (λ o, p_Get (e_clock E (o_ticks o)) (e_clock E (S (o_ticks o))) id)).
  { intros w' l. exact (on_sessions_eq _ (_, l)). }
  intros w' o HI _.
  pose proof (p_Get_spec (e_clock E (o_ticks o)) (e_clock E (S (o_ticks o))) id _ (wo_store _ _ HI)) as Hm.
  pose proof (cells_hold_Get _ (e_clock E (o_ticks o)) (e_clock E (S (o_ticks o))) id _ (wo_cells _ _ HI)) as Hc.
  case_match. split_and!; [apply Hm|done|done].
Qed.

Lemma runs_set pid t sid w :
  t ∈ Tenants reg → named (E := E) (g_log w) (t_Backend t) (EffectiveCredential t) sid →
  runs (set_step pid (t_ID t) sid) (λ _ _, True) w.
Proof.
  intros Ht Hn. eapply (runs_sessions S (λ n, n)
    (λ o st, (p_SetBackendSID (e_clock E (o_ticks o)) pid (t_ID t) sid st, ()))); [done|].
  intros w' o HI HR. split_and!; [apply p_SetBackendSID_spec, HI| |done].
  apply cells_hold_Set; [|apply HI]. intros t' Ht' Hid.
  assert (t' = t) as -> by (eapply (NoDup_fmap_key_eq t_ID); [by apply Tenants_ids_NoDup|done..]).
  eapply named_mono; [apply HR|done].
Qed.

Lemma runs_delete pid w : runs (delete_step pid) (λ _ _, True) w.
Proof.
  eapply (runs_sessions (λ n, n) (λ n, n) (λ _, p_Delete pid)).
  { intros [st [heap cs []] ob] l. exact (on_sessions_eq _ (_, l)). }
  intros w' o HI _. pose proof (p_Delete_spec pid _ (wo_store _ _ HI)) as Hm.
  pose proof (cells_hold_Delete _ pid _ (wo_cells _ _ HI)) as Hc.
  case_match. split_and!; [apply Hm|done|done].
Qed.

(** What a session pointer shows for a tenant was issued to it. *)
Lemma runs_read_sid p t w :
  t ∈ Tenants reg →
  runs (read_sid_step p (t_ID t)) (λ r w, ∀ sid, r = Some sid →
    named (E := E) (g_log w) (t_Backend t) (EffectiveCredential t) sid) w.
Proof.
  intros Ht. apply runs_gets. intros w' HI HR sid Hs.
  exact (p_BackendSID_holds _ _ _ _ _ (wo_cells _ _ HI) Hs t Ht eq_refl).
Qed.

(** *** The catalogs *)

(** A step on the heap or a catalog. *)
Lemma runs_catalogs {A} (m : M (CatState E) A) (Q : A → World E → Prop) w :
  (∀ w', world_ok reg w' → evolves w w' →
     ∃ v c, m (g_cat w') = (Return v, c) ∧ cat_iso reg c ∧ cat_wf c ∧
       cat_log (g_cat w') = cat_log c ∧ ct_heap (g_cat w') `prefix_of` ct_heap c ∧
       cs_byTenant (ct_cats c) = cs_byTenant (ct_cats (g_cat w')) ∧
       view_of <$> cs_unique (ct_cats c) = view_of <$> cs_unique (ct_cats (g_cat w')) ∧
       ∀ w'', g_cat w'' = c → Q v w'') →
  runs (cat_step m) Q w.
Proof.
  intros Hm. apply runs_atomic. intros w' l HI HR. unfold zoom. cbn [fst snd].
  destruct (Hm w' HI HR) as (v & c & -> & Hi & Hwf & Hl & Hh & Ht & Hv & HQ).
  destruct (catalogs_step reg w' c HI Hi Hwf) as [Hev Hok]; [by rewrite Hl|done..|].
  eexists _, _, _. split_and!; [reflexivity|done|exact Hev|exact Hok|by apply HQ].
Qed.

(** Tools are added to the heap; what was there stays. *)
Lemma runs_heap {A} (m : M (CatState E) A) (Q : A → World E → Prop) w :
  (∀ c, ∃ v ts, m c = (Return v, mkCatState (ct_heap c ++ ts) (ct_cats c) (ct_out c)) ∧
     ∀ w'', ct_heap (g_cat w'') = ct_heap c ++ ts → Q v w'') →
  runs (cat_step m) Q w.
Proof.
  intros Hm. apply runs_catalogs. intros w' HI _. destruct (Hm (g_cat w')) as (v & ts & Hr & HQ).
  destruct (wo_cat _ _ HI) as [Hi Ha]. eexists _, _. split_and!; [exact Hr|by split| |done| |done|done|].
  - eapply cat_wf_heap; [apply HI|done|by eexists].
  - by eexists.
  - intros w'' Hw. apply HQ. by rewrite Hw.
Qed.

Lemma runs_alloc ts w :
  runs (cat_step (alloc_tools ts)) (λ refs w, in_heap (g_cat w) refs) w.
Proof.
  apply runs_heap. intros c. eexists _, ts. split; [done|]. intros w' Hh. unfold in_heap. rewrite Hh.
  apply Forall_forall. intros r Hr%elem_of_seq. rewrite length_app. lia.
Qed.

Lemma list_tools_returns d a u order (c : CatState E) :
  ∃ rs ts, list_tools d a u order c = (Return rs, mkCatState (ct_heap c ++ ts) (ct_cats c) (ct_out c)).
Proof.
  revert c. induction order as [|name order IH]; intros c.
  { exists [], []. rewrite app_nil_r. by destruct c. }
  cbn [list_tools]. unfold mbind at 1, M_bind. rewrite list_tool_run.
  set (c1 := mkCatState _ _ _). destruct (IH c1) as (rs & ts & Hr).
  unfold mbind at 1, M_bind. rewrite Hr. cbn [c1 ct_heap ct_cats ct_out]. rewrite <- app_assoc.
  by eexists _, _.
Qed.

Lemma runs_list_tools d a u order w : runs (cat_step (list_tools d a u order)) (λ _ _, True) w.
Proof.
  apply runs_heap. intros c. destruct (list_tools_returns d a u order c) as (rs & ts & Hr).
  by exists rs, ts.
Qed.

(** Storing a list for catalog [i], whose view it was fetched with. *)
Lemma runs_set_catalog i c c' w :
  view_of <$> cs_unique (ct_cats (g_cat w)) !! i = Some (view_of c) → view_of c' = view_of c →
  (∀ refs, k_tools c' = Some refs → in_heap (g_cat w) refs) →
  runs (cat_step (set_catalog i c')) (λ _ _, True) w.
Proof.
  intros Hi Hv Hrefs. apply runs_catalogs. intros w' HI HR.
  assert (view_of <$> cs_unique (ct_cats (g_cat w')) !! i = Some (view_of c)) as Hi'.
  { rewrite <- list_lookup_fmap in *. by rewrite (ev_views _ _ HR). }
  assert (view_of <$> <[i := c']> (cs_unique (ct_cats (g_cat w'))) =
          view_of <$> cs_unique (ct_cats (g_cat w'))) as Hsame.
  { rewrite list_fmap_insert. apply list_insert_id. by rewrite list_lookup_fmap, Hi', Hv. }
  destruct (wo_cat _ _ HI) as [Hiso Ha], (wo_wf _ _ HI) as [Hr Hx].
  apply fmap_Some in Hi' as (c0 & Hc0 & Hv0).
  eexists _, _. split_and!; [done|split; [exact Hiso|]|split|done|done|done|exact Hsame|done]; cbn.
  - intros k Hk. cbn in Hk. apply list_elem_of_lookup in Hk as [j Hj].
    apply list_lookup_insert_Some in Hj as [(-> & <- & _)|[_ Hj]].
    + specialize (Ha c0 (list_elem_of_lookup_2 _ _ _ Hc0)). rewrite <- Hv in Hv0.
      injection Hv0 as Hb Hcr _ _. by rewrite Hb, Hcr.
    + apply Ha. by eapply list_elem_of_lookup_2.
  - intros k refs Hk Ht. cbn in Hk |- *. apply list_elem_of_lookup in Hk as [j Hj].
    apply list_lookup_insert_Some in Hj as [(-> & <- & _)|[_ Hj]].
    + eapply Forall_impl; [by apply Hrefs|]. intros r Hlt. cbn in Hlt.
      pose proof (prefix_length _ _ (ev_heap _ _ HR)). lia.
    + eapply Hr; [by eapply list_elem_of_lookup_2|done].
  - intros id j Hj. cbn in Hj |- *. apply Hx in Hj. apply lookup_lt_is_Some.
    rewrite length_insert. by apply lookup_lt_is_Some.
Qed.
End runs.
