(* ===== verification/Guarantee.v ===== *)
(** * Every interleaving: isolation, answers, termination

    Each handler, taken as a goroutine whose steps come between those of others,
    keeps the world of [Rely.v] in order; so do all of them together, in every
    schedule. *)

From Stdlib Require Import Ascii.
From stdpp Require Import base numbers option pretty gmap fin_maps sorting strings list relations.
From S2P Require Import Prelude GoStrings Json Parse Decode Config Registry Session Cells Http Rpc Schema.
From S2P Require Import ParamHeaders Client Catalog Auth OAuth Observability Handler HandlerSelect.
From S2P Require Import Main Isolation Calls Forward Listing Total Threads Concurrent Interleave Rely.

#[local] Set Warnings "-clear-no-such-hyp".
#[local] Open Scope nat_scope.

Section catalogs.
Context {V : Type} `{Verifier V} (h : Handler V) {E : Env} (rq : option Request).
Hypothesis Hreg : registry_wf (Registry_ h).
Implicit Types w : World E.

Abbreviation reg := (Registry_ h).
Abbreviation runs := (runs h rq).
Abbreviation quiet t w := (runs t (λ _ _, True) w).

Lemma quiet_ret {A} (v : A) w : quiet (mret v) w.
Proof. by apply runs_ret. Qed.

Lemma quiet_bind {A B} (t : goroutine E A) (k : A → goroutine E B) (Q : A → World E → Prop) w :
  runs t Q w → (∀ v w', quiet (k v) w') → quiet (t ≫= k) w.
Proof. intros Ht Hk. eapply runs_bind; [exact Ht|]. intros v w' _ _. apply Hk. Qed.

Lemma runs_initialize b cred ip w :
  tenant_auth reg b cred →
  runs (out_step (initialize b ip cred)) (λ r w, ∀ sid res, r = Ok (sid, res) →
    named (E := E) (g_log w) b cred sid) w.
Proof.
  intros Ha. eapply (runs_out h rq _ (λ r log, ∀ sid res, r = Ok (sid, res) → named log b cred sid)).
  - left. apply initialize_returns.
  - intros w' HI _. eapply run_mono; [apply initialize_iso; [done|apply HI]|].
    intros r o _ _ Hr sid res Heq. right. by eapply Hr.
Qed.

Lemma runs_notify b cred sid w :
  tenant_auth reg b cred → named (E := E) (g_log w) b cred sid →
  quiet (out_step (notifyInitialized b sid cred)) w.
Proof.
  intros Ha Hn. apply (runs_out h rq _ (λ _ _, True)); [left; apply notifyInitialized_returns|].
  intros w' HI HR. apply notify_iso; [done|apply HI|]. eapply named_mono; [apply HR|done].
Qed.

Lemma runs_listTools b cred sid headers w :
  tenant_auth reg b cred → named (E := E) (g_log w) b cred sid →
  quiet (out_step (listTools b sid cred headers)) w.
Proof.
  intros Ha Hn. apply (runs_out h rq _ (λ _ _, True)); [left; apply listTools_returns|].
  intros w' HI HR. apply listTools_iso; [done|apply HI|]. eapply named_mono; [apply HR|done].
Qed.

Lemma runs_fetch c w : tenant_auth reg (k_backend c) (k_cred c) → quiet (fetch_steps c) w.
Proof.
  intros Ha. unfold fetch_steps. destruct (Stateless (k_backend c)); [apply runs_listTools; [done|by left]|].
  eapply runs_bind; [by apply runs_initialize|]. intros [[sid res]|e] w1 _ Hsid; [|apply quiet_ret].
  specialize (Hsid sid res eq_refl). eapply runs_bind with (Q := λ _ _, True).
  - destruct (nonempty sid); [by apply runs_notify|by apply runs_ret].
  - intros _ w2 HR _. apply runs_listTools; [done|]. eapply named_mono; [apply HR|done].
Qed.

(** A catalog that exists: now and, as none is dropped, ever after. *)
Definition exists_at (i : nat) w : Prop := i < length (cs_unique (ct_cats (g_cat w))).

Lemma exists_at_stable i w w' : evolves w w' → exists_at i w → exists_at i w'.
Proof. intros He. unfold exists_at. by rewrite (evolves_length _ _ He). Qed.

Lemma runs_get i w : exists_at i w → quiet (get_steps i) w.
Proof.
  intros Hi. apply runs_locking. unfold get_body.
  eapply runs_bind; [apply (runs_cat_gets h rq _ (λ c w,
    ∃ k, c = Some k ∧ tenant_auth reg (k_backend k) (k_cred k) ∧
         view_of <$> cs_unique (ct_cats (g_cat w)) !! i = Some (view_of k)))|].
  { intros w' HI HR. pose proof (exists_at_stable _ _ _ HR Hi) as Hi'. apply lookup_lt_is_Some in Hi' as [k Hk].
    exists k. split_and!; [done| |by rewrite Hk]. apply (wo_cat _ _ HI). by eapply list_elem_of_lookup_2. }
  intros c w1 _ (k & -> & Ha & Hv).
  eapply (runs_bind h rq) with (Q := λ _ _, True).
  { unfold is_fresh. apply runs_catalogs. intros w' HI HR. destruct (wo_cat _ _ HI) as [Hiso Hau].
    pose proof (is_fresh_run k (g_cat w')) as Hf. unfold is_fresh in Hf. rewrite Hf.
    eexists _, _. split_and!; [done| | |symmetry; apply fetch_from_log|done..].
    - split; [|done]. unfold cat_log. cbn. by rewrite fetch_from_log.
    - destruct (wo_wf _ _ HI). by split. }
  intros fresh w2 HR2 _. destruct fresh; [apply quiet_ret|].
  eapply runs_bind; [by apply runs_fetch|]. intros [tools|e] w3 HR3 _; [|apply quiet_ret].
  eapply runs_bind with (Q := λ refs w, ∀ rs, refs = Some rs → in_heap (g_cat w) rs).
  { destruct tools as [ts|]; [|by apply runs_ret].
    eapply runs_bind; [by apply runs_alloc|]. intros rs w' _ Hrs. apply runs_ret. by intros rs' [= <-]. }
  intros refs w4 HR4 Hrefs. eapply runs_bind; [by apply runs_now|]. intros t w5 HR5 _.
  eapply quiet_bind; [|intros; apply quiet_ret].
  assert (evolves w1 w5) as HR by (etrans; [exact HR2|]; etrans; [exact HR3|]; by etrans).
  eapply (runs_set_catalog h rq i k); [|done|].
  - rewrite <- list_lookup_fmap in *. by rewrite (ev_views _ _ HR).
  - cbn. intros rs ->. eapply Forall_impl; [by apply Hrefs|]. intros r Hr. cbn in Hr.
    pose proof (prefix_length _ _ (ev_heap _ _ HR5)). lia.
Qed.

Lemma runs_forTenant id w :
  runs (cat_step (gets (λ s, forTenant (ct_cats s) id))) (λ r w, ∀ i, r = Some i → exists_at i w) w.
Proof.
  apply runs_cat_gets. intros w' HI _ i Hi. apply lookup_lt_is_Some.
  eapply (cw_indexes _ (wo_wf _ _ HI)), Hi.
Qed.

Lemma runs_collect ts w : quiet (collect_steps ts) w.
Proof.
  revert w. induction ts as [|t ts IH]; intros w; [apply quiet_ret|]. cbn [collect_steps].
  eapply runs_bind; [apply runs_forTenant|]. intros [i|] w1 _ Hi; [|apply IH].
  eapply quiet_bind; [by apply runs_get, Hi|]. intros r w2. eapply quiet_bind; [apply IH|].
  intros. apply quiet_ret.
Qed.

Lemma runs_toolsFor ts w : quiet (toolsFor_steps ts) w.
Proof. eapply quiet_bind; [apply runs_collect|]. intros. apply quiet_ret. Qed.

Lemma runs_warm n w : n <= length (cs_unique (ct_cats (g_cat w))) → quiet (warm_steps n) w.
Proof.
  intros Hn. eapply quiet_bind; [|intros; apply quiet_ret].
  assert (Forall (λ i, exists_at i w) (seq 0 n)) as Hall.
  { apply Forall_forall. intros i Hi%elem_of_seq. unfold exists_at. lia. }
  clear Hn. revert w Hall. induction (seq 0 n) as [|i l IH]; intros w Hall; [apply quiet_ret|].
  apply Forall_cons in Hall as [Hi Hall]. cbn [warm_from_steps].
  eapply runs_bind; [by apply runs_get|]. intros r w1 HR _.
  eapply quiet_bind; [|intros; apply quiet_ret]. apply IH.
  eapply Forall_impl; [exact Hall|]. intros j. by apply exists_at_stable.
Qed.

Lemma runs_cachedTool id name w : quiet (cachedTool_steps id name) w.
Proof.
  unfold cachedTool_steps. eapply quiet_bind; [apply runs_forTenant|]. intros [i|] w1; [|apply quiet_ret].
  eapply quiet_bind with (Q := λ _ _, True); [by apply runs_locking, runs_cat_gets|].
  intros [refs|] w2; [|apply quiet_ret].
  eapply quiet_bind with (Q := λ _ _, True); [by apply runs_cat_gets|]. intros. apply quiet_ret.
Qed.
End catalogs.

Section handlers.
Context {V : Type} `{Verifier V} (h : Handler V) {E : Env} (rq : option Request).
Hypothesis Hreg : registry_wf (Registry_ h).
Implicit Types w : World E.

Abbreviation reg := (Registry_ h).
Abbreviation runs := (runs h rq).
Abbreviation quiet t w := (runs t (λ _ _, True) w).

(** *** Selecting the tenant *)

Lemma runs_may_have name t w : quiet (may_have_steps (E := E) name t) w.
Proof. eapply quiet_bind; [apply runs_cachedTool|]. intros. apply quiet_ret. Qed.

Lemma runs_tenantsWithTool name ts w :
  runs (tenantsWithTool_steps (E := E) name ts) (λ r _, r ⊆ ts) w.
Proof.
  revert w. induction ts as [|t ts IH]; intros w; [by apply runs_ret|]. cbn [tenantsWithTool_steps].
  eapply runs_bind; [apply runs_may_have|]. intros b w1 _ _.
  eapply runs_bind; [apply IH|]. intros rest w2 _ Hsub. apply runs_ret.
  intros x. destruct b; rewrite ?elem_of_cons; set_solver.
Qed.

Lemma runs_unavailable name t ts w : quiet (unavailable_steps (E := E) name t ts) w.
Proof.
  unfold unavailable_steps. eapply quiet_bind; [apply runs_may_have|]. intros [] w1; [apply quiet_ret|].
  eapply quiet_bind; [apply runs_tenantsWithTool|]. intros. apply quiet_ret.
Qed.

Lemma AuthorizedTenants_registered groups t : t ∈ AuthorizedTenants reg groups → t ∈ Tenants reg.
Proof. intros Ht. apply elem_of_AuthorizedTenants in Ht as [Ht _]; [|done]. by apply elem_of_Tenants. Qed.

Lemma runs_select name args groups w :
  runs (selectTenant_steps h (E := E) name args groups (AuthorizedTenants reg groups))
    (λ r _, ∀ t, r = Ok t → t ∈ Tenants reg) w.
Proof.
  pose proof (AuthorizedTenants_registered groups) as Hauth.
  assert (∀ t w, t ∈ Tenants reg →
    runs (msg ← unavailable_steps (E := E) name t (AuthorizedTenants reg groups);
          mret (if nonempty msg then Err msg else Ok t)) (λ r _, ∀ t, r = Ok t → t ∈ Tenants reg) w) as Hun.
  { intros t w' Ht. eapply runs_bind; [apply runs_unavailable|]. intros msg w1 _ _. apply runs_ret.
    destruct (nonempty msg); [done|]. by intros t' [= <-]. }
  unfold selectTenant_steps. destruct (nonempty _).
  - destruct (ResolveTenant reg _) as [t|] eqn:Ht; [|by apply runs_ret].
    destruct (negb _); [by apply runs_ret|]. apply Hun. apply elem_of_Tenants; [done|].
    by destruct (Hreg _ _ Ht) as [-> _].
  - destruct (AuthorizedTenants reg groups) as [|t [|t' ts]]; [by apply runs_ret|apply Hun, Hauth; by left|].
    eapply runs_bind; [apply runs_tenantsWithTool|]. intros [|c [|c' cs]] w1 _ Hsub; apply runs_ret; try done.
    intros t2 [= <-]. apply Hauth, Hsub. by left.
Qed.

(** *** Routing *)

Lemma runs_finish id resp w : quiet (finish_call_steps (E := E) id resp) w.
Proof.
  destruct resp; (eapply quiet_bind; [apply runs_write|]; intros; apply quiet_ret).
Qed.

Lemma registered_auth t : t ∈ Tenants reg → tenant_auth reg (t_Backend t) (EffectiveCredential t).
Proof. intros Ht. by exists t. Qed.

Lemma runs_open pid t w :
  t ∈ Tenants reg →
  runs (open_backend_session_steps (E := E) pid t) (λ r w, ∀ sid, r = Ok sid →
    named (E := E) (g_log w) (t_Backend t) (EffectiveCredential t) sid) w.
Proof.
  intros Ht. unfold open_backend_session_steps.
  eapply runs_bind; [by apply runs_initialize, registered_auth|]. intros [[sid res]|e] w1 _ Hsid; [|by apply runs_ret].
  specialize (Hsid sid res eq_refl). eapply runs_bind with (Q := λ _ _, True).
  { destruct (nonempty sid); [by apply runs_notify; [apply registered_auth|]|by apply runs_ret]. }
  intros _ w2 HR2 _. assert (named (E := E) (g_log w2) (t_Backend t) (EffectiveCredential t) sid) as Hn2
    by (eapply named_mono; [apply HR2|done]).
  eapply runs_bind; [by apply runs_set|]. intros _ w3 HR3 _. apply runs_ret. intros sid' [= <-].
  eapply named_mono; [apply HR3|done].
Qed.

Lemma runs_callTool t sid bytes headers name w :
  t ∈ Tenants reg → named (E := E) (g_log w) (t_Backend t) (EffectiveCredential t) sid →
  returns (callTool (E := E) (t_Backend t) sid (EffectiveCredential t) bytes headers name) ∨ may_panic rq →
  quiet (out_step (callTool (t_Backend t) sid (EffectiveCredential t) bytes headers name)) w.
Proof.
  intros Ht Hn Hret. apply (runs_out h rq _ (λ _ _, True)); [done|]. intros w' HI HR.
  apply callTool_iso; [by apply registered_auth|apply HI|]. eapply named_mono; [apply HR|done].
Qed.

Lemma runs_route r id t bytes name ph w :
  t ∈ Tenants reg →
  (∀ sid headers, returns (callTool (E := E) (t_Backend t) sid (EffectiveCredential t) bytes headers name)) ∨
    may_panic rq →
  quiet (routeToBackend_steps (E := E) r id t bytes name ph) w.
Proof.
  intros Ht Hret.
  assert (∀ sid headers w, named (E := E) (g_log w) (t_Backend t) (EffectiveCredential t) sid →
    quiet (out_step (callTool (t_Backend t) sid (EffectiveCredential t) bytes headers name)) w) as Hcall.
  { intros sid headers w' Hn. apply runs_callTool; [done..|]. destruct Hret; [left|right]; auto. }
  unfold routeToBackend_steps. destruct (Stateless (t_Backend t)).
  { eapply quiet_bind; [apply Hcall; by left|]. intros. apply runs_finish. }
  eapply runs_bind; [by apply runs_get_session|]. intros [p|] w1 _ _.
  2:{ eapply quiet_bind; [apply runs_write|]. intros. apply quiet_ret. }
  eapply runs_bind; [by apply runs_read_sid|]. intros have w2 _ Hhave.
  eapply runs_bind with (Q := λ r w, ∀ sid, r = Ok sid →
    named (E := E) (g_log w) (t_Backend t) (EffectiveCredential t) sid).
  { destruct have as [sid|]; [|by apply runs_open]. apply runs_ret. intros sid' [= <-]. by apply Hhave. }
  intros [sid|e] w3 _ Hsid.
  - eapply quiet_bind; [by apply Hcall, Hsid|]. intros. apply runs_finish.
  - eapply quiet_bind; [apply runs_write|]. intros. apply quiet_ret.
Qed.

(** The call a handler forwards can be decoded by the client. *)
Lemma forwarded_returns body req clean b sid cred headers name :
  (v ← parse_text body; unmarshal_request v) = Ok req → j_Params req ≠ Some JNull →
  stripTenantArg (j_Params req) = Ok clean →
  returns (callTool (E := E) b sid cred
    (print (marshal_request (mkRPC "2.0" "tools/call" clean (j_ID req)))) headers name).
Proof.
  intros Hreq Hnull Hs. pose proof Hs as (p & p' & Hp & ->)%stripTenantArg_Some.
  destruct (forward_roundtrip body req p' Hreq Hs) as [Hw Hi].
  apply callTool_returns; [by apply built_roundtrip|]. rewrite Hp in Hs.
  eapply stripTenantArg_null; [exact Hs|congruence].
Qed.

Lemma runs_forward body r req params t w :
  t ∈ Tenants reg → (v ← parse_text body; unmarshal_request v) = Ok req →
  j_Params req ≠ Some JNull ∨ may_panic rq →
  quiet (forward_call_steps (E := E) r req params t) w.
Proof.
  intros Ht Hreq Hnull. unfold forward_call_steps. eapply quiet_bind; [apply runs_note|]. intros _ w1.
  destruct (stripTenantArg (j_Params req)) as [clean|e] eqn:Hs.
  2:{ eapply quiet_bind; [apply runs_note|]. intros. apply runs_write. }
  eapply quiet_bind; [unfold paramHeadersForCall_steps; eapply quiet_bind;
    [apply runs_cachedTool|intros; apply quiet_ret]|]. intros phs w2.
  eapply quiet_bind; [apply runs_route; [done|]|].
  - destruct Hnull as [Hnull|?]; [left|by right]. intros. by eapply forwarded_returns.
  - intros [] w3; [apply quiet_ret|apply runs_note].
Qed.

(** *** The other handlers *)

Lemma runs_auth_failure r id e w : quiet (auth_failure_steps h (E := E) r id e) w.
Proof.
  destruct e; unfold auth_failure_steps; (eapply quiet_bind; [apply runs_note|]; intros _ w1); try apply runs_write;
    (eapply quiet_bind; [apply runs_write|]; intros _ w2; apply runs_write).
Qed.

Lemma runs_tools_call body r req w :
  (v ← parse_text body; unmarshal_request v) = Ok req → j_Params req ≠ Some JNull ∨ may_panic rq →
  quiet (tools_call_steps h (E := E) r req) w.
Proof.
  intros Hreq Hnull. unfold tools_call_steps. eapply quiet_bind; [by apply runs_now|]. intros t w1.
  destruct (Groups (Verifier_ h) t r) as [groups|e]; [|apply runs_auth_failure].
  destruct (match j_Params req with Some v => unmarshal_params v | None => Err BadSyntax end)
    as [params|e].
  2:{ eapply quiet_bind; [apply runs_note|]. intros. apply runs_write. }
  eapply quiet_bind; [apply runs_note|]. intros _ w2. destruct (String.eqb _ _); [apply runs_write|].
  eapply runs_bind; [apply runs_select|]. intros [t'|msg] w3 _ Hsel.
  - eapply runs_forward; [by apply Hsel|done..].
  - eapply quiet_bind; [apply runs_note|]. intros. apply runs_write.
Qed.

Lemma runs_deferring {A} cleanup (t : goroutine E A) (Q : A → World E → Prop) w :
  runs t Q w → (∀ w', quiet cleanup w') → quiet (deferring cleanup t) w.
Proof.
  intros Ht Hc l Hl. eapply (good_after _ _ _ _ (λ _ _ _ HR, HR) (post rq Q)); [by apply Ht|].
  intros o w1 l1 _ [Hl1 Ho]. eapply (good_after _ _ _ _ (λ _ _ _ HR, HR) (post rq (λ _ _, True))); [by apply Hc|].
  intros o' w2 l2 _ [Hl2 _]. split; [done|]. by destruct o.
Qed.

Lemma runs_handleToolsCall body r req w :
  (v ← parse_text body; unmarshal_request v) = Ok req → j_Params req ≠ Some JNull ∨ may_panic rq →
  quiet (handleToolsCall_steps h (E := E) r req) w.
Proof.
  intros Hreq Hnull. unfold handleToolsCall_steps. eapply quiet_bind; [by apply runs_now|]. intros start w1.
  eapply quiet_bind; [apply runs_note|]. intros _ w2.
  eapply runs_deferring; [by eapply runs_tools_call|]. intros w3. unfold record_op_steps.
  eapply quiet_bind; [by apply runs_now|]. intros t w4. eapply quiet_bind; [apply runs_attrs|].
  intros a w5. apply runs_record.
Qed.

Lemma runs_handleInitialize req w : quiet (handleInitialize_steps h (E := E) req) w.
Proof.
  unfold handleInitialize_steps. eapply quiet_bind; [apply runs_write|]. intros _ w1.
  destruct (AllStateless reg); [apply runs_write|]. eapply quiet_bind; [apply runs_mint|]. intros p w2.
  eapply quiet_bind; [apply runs_record|]. intros _ w3.
  eapply quiet_bind with (Q := λ _ _, True); [by apply runs_gets|]. intros id w4.
  eapply quiet_bind; [apply runs_write|]. intros. apply runs_write.
Qed.

Lemma runs_handleToolsList r req w : quiet (handleToolsList_steps h (E := E) r req) w.
Proof.
  unfold handleToolsList_steps. eapply quiet_bind; [by apply runs_now|]. intros t w1.
  destruct (listed_tenants h (Groups (Verifier_ h) t r)) as [tenants discovery].
  eapply quiet_bind; [apply runs_toolsFor|]. intros [views|e] w2; [|apply runs_write].
  eapply quiet_bind with (Q := λ _ _, True); [by apply runs_cat_gets|]. intros heap w3. cbv zeta.
  eapply quiet_bind; [apply runs_list_tools|]. intros out w4.
  eapply quiet_bind; [by apply runs_alloc|]. intros local w5.
  eapply quiet_bind with (Q := λ _ _, True); [by apply runs_cat_gets|]. intros. apply runs_write.
Qed.

Lemma runs_teardown_loop p ts w : ts ⊆ Tenants reg → quiet (teardown_loop (E := E) p ts) w.
Proof.
  revert w. induction ts as [|t ts IH]; intros w Hts; [apply quiet_ret|]. cbn [teardown_loop].
  assert (t ∈ Tenants reg) as Ht by (apply Hts; by left).
  assert (∀ w, quiet (teardown_loop (E := E) p ts) w) as IH'.
  { intros w'. apply IH. intros x Hx. apply Hts. by right. }
  eapply runs_bind; [by apply runs_read_sid|]. intros [sid|] w1 _ Hsid; [|apply IH'].
  destruct (nonempty sid); [|apply IH']. intros l Hl. split; [|by apply IH']. split; [done|]. by apply Hsid.
Qed.

Lemma runs_handleDelete r w : quiet (handleDelete_steps h (E := E) r) w.
Proof.
  unfold handleDelete_steps. destruct (AllStateless reg); [apply runs_write|].
  eapply quiet_bind; [by apply runs_delete|]. intros sess w1.
  eapply quiet_bind with (Q := λ _ _, True); [|intros; apply runs_write].
  destruct sess; [by apply runs_teardown_loop|apply quiet_ret].
Qed.

Lemma runs_dispatch body r req w :
  (v ← parse_text body; unmarshal_request v) = Ok req → (null_call req → may_panic rq) →
  quiet (dispatch_steps h (E := E) r req) w.
Proof.
  intros Hreq Hnull. unfold dispatch_steps.
  destruct (String.eqb _ _); [apply runs_handleInitialize|].
  do 2 (destruct (String.eqb _ _); [apply runs_write|]).
  destruct (String.eqb _ _); [apply runs_handleToolsList|].
  destruct (String.eqb_spec (j_Method req) "tools/call") as [Hm|_].
  { eapply runs_handleToolsCall; [done|]. destruct (decide (j_Params req = Some JNull)); [right|by left].
    by apply Hnull. }
  destruct (String.eqb _ _); [apply runs_write|]. destruct (isNotification req); apply runs_write.
Qed.

Lemma runs_ServeHTTP r w : rq = Some r → quiet (ServeHTTP_steps h (E := E) r) w.
Proof.
  intros Hrq. unfold ServeHTTP_steps. destruct (String.eqb _ _); [apply runs_handleDelete|].
  destruct (String.eqb _ _).
  { eapply quiet_bind; [apply runs_write|]. intros. apply runs_write. }
  destruct (negb _) eqn:Hpost; [apply runs_write|]. apply negb_false_iff, String.eqb_eq in Hpost.
  destruct (r_Body r) as [b|] eqn:Hb; [|apply runs_write].
  destruct (v ← parse_text b; unmarshal_request v) as [req|e] eqn:Hreq; [|apply runs_write].
  eapply quiet_bind with (Q := λ _ _, True).
  { destruct (AllStateless reg); [apply runs_write|by apply runs_ret]. }
  intros _ w1. eapply runs_dispatch; [done|]. intros Hn. exists r, req. split_and!; [done| |done].
  split; [done|]. by exists b.
Qed.
End handlers.

(** ** Pools *)

Section pool.
Context {V : Type} `{Verifier V} (h : Handler V) {E : Env}.
Hypothesis Hreg : registry_wf (Registry_ h).
Implicit Types (w : World E) (p : proxy_pool E).

Abbreviation reg := (Registry_ h).

(** A goroutine that is done: it panicked only on a null call, and if it served
    a request there is an answer. *)
Definition settled (o : outcome ()) w (l : Local) : Prop :=
  match o with
  | Panic => may_panic (l_req l)
  | Return _ => is_Some (l_req l) → w_status (l_w l) ≠ 0%Z
  end.

Abbreviation good_in := (good (world_ok reg) evolves (λ _, evolves) (task_ok reg) settled).

Lemma serve_good r w : good_in (serve_steps h r) w (new_local (Some r)).
Proof.
  eapply (good_after _ _ _ _ (λ _ _ _ HR, HR) (post (Some r) (λ _ _, True))); [by apply runs_ServeHTTP|].
  intros [[]|] w1 l1 _ [Hl1 Ho]; cbn.
  - intros w2 HI _. split_and!; [done|by destruct w2|]. intros _. unfold w_finish, w_write_header.
    destruct (Z.eqb_spec (w_status (l_w l1)) 0); [done|done].
  - by rewrite Hl1.
Qed.

(** A goroutine that serves no request may not panic. *)
Lemma background_good {t : goroutine E ()} w :
  runs h None t (λ _ _, True) w → good_in t w (new_local None).
Proof.
  intros Ht. eapply good_mono; [|by apply Ht]. intros [[]|] w' l [Hl Ho]; [|cbn; by rewrite Hl].
  intros [? Hs]. by rewrite Hl in Hs.
Qed.

Lemma runs_teardown task w : task_ok reg task w → runs h None (teardown_steps task) (λ _ _, True) w.
Proof.
  intros [Ht Hn]. apply (runs_out h None _ (λ _ _, True)).
  - left. unfold teardownBackend. destruct (e_url_Parse _ _); auto with proxy.
  - intros w' HI HR. eapply teardown_iso; [by exists task.1|done|done|apply HI|].
    eapply named_mono; [apply HR|done].
Qed.

Lemma teardown_good task w : task_ok reg task w → good_in (teardown_steps task) w (new_local None).
Proof. intros Ht. by apply background_good, runs_teardown. Qed.

Abbreviation pool_ok := (pool_good (world_ok reg) evolves (λ _, evolves) (task_ok reg) (λ _, settled)).

Lemma settled_stable : stable (A := ()) (evolves (E := E)) settled.
Proof. by intros [[]|] w w' l _. Qed.

Lemma arrive_good t r p :
  good_in t (po_world p) (new_local r) → pool_ok p → pool_ok (arrive t r p).
Proof. destruct p as [w locks ts]. exact (pool_good_snoc _ _ _ _ (λ _, settled) w locks ts t (new_local r)). Qed.

Lemma proxy_step_good p p' : proxy_step h p p' → pool_ok p → pool_ok p'.
Proof.
  intros [p0 p1 [i Hi]|r p0|p0|f p0] Hp.
  - eapply (pool_step_good teardown_steps (new_local None)); [apply evolves_preorder|done|intros ? ? ?; apply task_ok_stable|intros; apply settled_stable|intros; by apply teardown_good|exact Hi|done].
  - apply arrive_good; [apply serve_good|done].
  - apply arrive_good; [|done]. apply background_good. by apply runs_warm.
  - apply arrive_good; [|done]. apply background_good, runs_write.
Qed.

Lemma world_init_ok obs (o : Outside E) : o_log o = [] → world_ok reg (world_init h obs o).
Proof.
  intros Ho. split; [split| | |].
  - unfold cat_log. cbn. rewrite Ho. constructor.
  - by apply NewCatalogs_auth.
  - by apply NewCatalogs_wf.
  - apply wf_new.
  - constructor.
Qed.

Lemma interleaved_good obs (o : Outside E) p : o_log o = [] → interleaved h obs o p → pool_ok p.
Proof.
  intros Ho Hr. assert (pool_ok (pool_init h obs o)) as Hinit by (by split; [apply world_init_ok|]).
  revert Hinit. unfold interleaved in Hr. induction Hr as [|p1 p2 p3 Hs _ IH]; [done|].
  intros Hp. apply IH. by eapply proxy_step_good.
Qed.

Lemma proxy_step_relies p p' : proxy_step h p p' → pool_ok p → evolves (po_world p) (po_world p').
Proof.
  intros [p0 p1 [i Hi]|r p0|p0|f p0] Hp; [|done..].
  eapply (pool_step_relies _ _ _ _ (λ _, evolves)); [apply evolves_preorder|done|exact Hi|exact Hp].
Qed.

Lemma proxy_steps_evolve p p' : rtc (proxy_step h) p p' → pool_ok p → evolves (po_world p) (po_world p').
Proof.
  induction 1 as [|p1 p2 p3 Hs _ IH]; [done|]. intros Hp. etrans; [by eapply proxy_step_relies|].
  by eapply IH, proxy_step_good.
Qed.

(** *** Mutexes and steps left *)

Lemma arrive_locks t r p : bracketed None t → locks_held p → locks_held (arrive t r p).
Proof.
  intros Ht (helds & Hf & Hu & Hk). exists (helds ++ [None]). cbn [arrive po_threads po_locks]. split_and!.
  - apply Forall2_app; [done|]. by constructor.
  - intros a b j. rewrite !lookup_app_Some. intros [Ha|[_ Ha]] [Hb|[_ Hb]]; eauto;
      apply list_lookup_singleton_Some in Ha || apply list_lookup_singleton_Some in Hb; naive_solver.
  - intros j. rewrite Hk. split; intros (a & Ha); exists a; [by apply lookup_app_l_Some|].
    apply lookup_app_Some in Ha as [?|[_ Ha]]; [done|]. apply list_lookup_singleton_Some in Ha. naive_solver.
Qed.

Lemma interleaved_locks obs (o : Outside E) p : interleaved h obs o p → locks_held p.
Proof.
  intros Hr. assert (locks_held (pool_init h obs o)) as Hinit by by apply locks_held_init.
  revert Hinit. unfold interleaved in Hr. induction Hr as [|p1 p2 p3 Hs _ IH]; [done|].
  intros Hp. apply IH. destruct Hs as [p0 p1 [i Hi]|r p0|p0|f p0].
  - by eapply (locks_held_step teardown_steps (new_local None)).
  - apply arrive_locks; [apply bracketed_serve|done].
  - apply arrive_locks; [apply bracketed_warm|done].
  - by apply arrive_locks.
Qed.

Lemma add_views_length ttl ts byKey cs :
  length (cs_unique (foldl (add_view ttl) (byKey, cs) ts).2) <= length (cs_unique cs) + length ts.
Proof.
  revert byKey cs. induction ts as [|t ts IH]; intros byKey cs; cbn [foldl length]; [cbn; lia|].
  unfold add_view at 2. destruct (byKey !! viewKey t); (etrans; [apply IH|]); cbn; rewrite ?length_app; cbn; lia.
Qed.

(** No more catalogs than tenants. *)
Lemma NewCatalogs_length ttl : length (cs_unique (NewCatalogs reg ttl)) <= length (Tenants reg).
Proof.
  unfold NewCatalogs. etrans; [apply add_views_length|]. cbn.
  by rewrite (Permutation_length (sort_on_perm _ _)).
Qed.

(** What any goroutine may take: a request listing every tenant's tools, or a
    warm-up attempt over every catalog. *)
Definition goroutine_bound : nat := 28 + 11 * length (Tenants reg).

Abbreviation bounded p := (each_within (λ _ : Tenant * string, 1) goroutine_bound p).

Lemma proxy_step_bounded p p' :
  length (cs_unique (ct_cats (g_cat (po_world p)))) <= length (Tenants reg) →
  proxy_step h p p' → bounded p → bounded p'.
Proof.
  intros Hlen Hs Hp. destruct Hs as [p0 p1 [i Hi]|r p0|p0|f p0].
  - eapply (pool_step_each_within teardown_steps (new_local None) (λ _, 1)); [done|..|exact Hi|done].
    intros _. unfold goroutine_bound. lia.
  - apply Forall_app. split; [done|]. constructor; [|constructor]. apply takes_serve.
  - apply Forall_app. split; [done|]. constructor; [|constructor].
    eapply takes_le; [apply takes_warm|]. unfold goroutine_bound. lia.
  - apply Forall_app. split; [done|]. by constructor.
Qed.

Lemma interleaved_bounded obs (o : Outside E) p : o_log o = [] → interleaved h obs o p → bounded p.
Proof.
  intros Ho Hr. pose proof (interleaved_good obs o (pool_init h obs o) Ho (rtc_refl _ _)) as Hok.
  assert (length (cs_unique (ct_cats (g_cat (po_world (pool_init h obs o))))) <= length (Tenants reg)) as Hlen
    by apply NewCatalogs_length.
  assert (bounded (pool_init h obs o)) as Hinit by constructor.
  revert Hok Hlen Hinit. unfold interleaved in Hr. induction Hr as [|p1 p2 p3 Hs _ IH]; [done|].
  intros Hok Hlen Hp. apply IH; [by eapply proxy_step_good| |by eapply proxy_step_bounded].
  by rewrite (evolves_length _ _ (proxy_step_relies _ _ Hs Hok)).
Qed.
End pool.

(** ** Theorems *)


(** C9: under any interleaving a goroutine that finishes either served a request
    and has answered it, or was a background one that returned; the only panic is
    of a request that is a tools/call with [null] params. *)
Theorem interleaved_answered {V} `{Verifier V} {E : Env} (h : Handler V) obs (o : Outside E) p t l :
  registry_wf (Registry_ h) → o_log o = [] → interleaved h obs o p →
  (Done t, l) ∈ po_threads p →
  match t with
  | Return _ => ∀ r, l_req l = Some r → w_status (l_w l) ≠ 0%Z
  | Panic => ∃ r req, l_req l = Some r ∧ decodes_to r req ∧ null_call req
  end.
Proof.
  intros Hreg Ho Hr Hin. destruct (interleaved_good h Hreg obs o p Ho Hr) as [_ Hts].
  apply list_elem_of_lookup in Hin as [i Hin]. specialize (Hts _ _ _ Hin). destruct t as [[]|]; [|exact Hts].
  intros r Hl. apply Hts. by exists r.
Qed.

(** What goroutines share of the catalogs is safe to hold on to: between any
    two moments no tool that has been decoded changes (the rewriting for a caller
    is done on copies), no request disappears from the log, and a tenant keeps its
    catalog, with its backend, credential and headers. *)
Theorem interleaved_evolves {V} `{Verifier V} {E : Env} (h : Handler V) obs (o : Outside E) p p' :
  registry_wf (Registry_ h) → o_log o = [] → interleaved h obs o p → rtc (proxy_step h) p p' →
  let c := g_cat (po_world p) in let c' := g_cat (po_world p') in
  cat_log c `prefix_of` cat_log c' ∧ ct_heap c `prefix_of` ct_heap c' ∧
  ∀ id, forTenant (ct_cats c') id = forTenant (ct_cats c) id ∧
    ∀ i, forTenant (ct_cats c) id = Some i → ∃ k k',
      cs_unique (ct_cats c) !! i = Some k ∧ cs_unique (ct_cats c') !! i = Some k' ∧ view_of k' = view_of k.
Proof.
  intros Hreg Ho Hr Hs c c'. pose proof (interleaved_good h Hreg obs o p Ho Hr) as Hok.
  destruct (proxy_steps_evolve h Hreg p p' Hs Hok) as [Hl Hh Ht Hv]. split_and!; [done..|].
  intros id. split; [unfold forTenant, c', c; by rewrite Ht|]. intros i Hi.
  destruct Hok as [Hw _]. destruct (cw_indexes _ (wo_wf _ _ Hw) id i Hi) as [k Hk].
  assert (view_of <$> cs_unique (ct_cats c') !! i = Some (view_of k)) as (k' & Hk' & He)%fmap_Some.
  { rewrite <- list_lookup_fmap. unfold c'. rewrite Hv, list_lookup_fmap. by rewrite Hk. }
  by exists k, k'.
Qed.

(** C4: every schedule ends. From any moment on, the goroutines there are take
    together at most 28 + 11 steps per tenant times their number, whatever the
    order; as long as one is not done some goroutine can move, so none waits for a mutex forever; and
    they can all finish. *)
Theorem schedules_end {V} `{Verifier V} {E : Env} (h : Handler V) obs (o : Outside E) p :
  registry_wf (Registry_ h) → o_log o = [] → interleaved h obs o p →
  (∀ k p', nsteps proxy_moves k p p' →
     k <= length (po_threads p) * (28 + 11 * length (Tenants (Registry_ h)))) ∧
  (∀ p', rtc proxy_moves p p' → all_done p' ∨ ∃ p'', proxy_moves p' p'') ∧
  ∃ p', rtc proxy_moves p p' ∧ all_done p'.
Proof.
  intros Hreg Ho Hr. pose proof (interleaved_locks h obs o p Hr) as Hl.
  pose proof (each_within_sum _ _ _ (interleaved_bounded h Hreg obs o p Ho Hr)) as Hn.
  assert (∀ f : Tenant * string, within (λ _ : Tenant * string, 1) 1 (teardown_steps (E := E) f)) as Hst by done.
  split_and!.
  - intros k p' Hk. exact (nsteps_within teardown_steps (new_local None) _ Hst _ k p p' Hk Hn).
  - intros p' Hm. destruct (no_deadlock teardown_steps (new_local None) p') as [?|(i & p'' & Hi)]; [|by left|].
    + eapply (locks_held_moves teardown_steps (new_local None)); [done|exact Hm|done].
    + right. by exists p'', i.
  - exact (finishes teardown_steps (new_local None) (λ _ _, eq_refl) _ Hst _ p Hn Hl).
Qed.

(** ** The example deployment, with two listings at once *)

Definition obs_ex : Observability := mkObservability [] [] 0 ":9090" "/metrics".

Definition two_arrived_ex : proxy_pool env_ex :=
  arrive (serve_steps handler_ex list_ex) (Some list_ex)
    (arrive (serve_steps handler_ex list_ex) (Some list_ex) (pool_init handler_ex obs_ex outside_ex)).

(** The two take turns; each waits for the other where a catalog's mutex is taken. *)
Definition two_lists_ex : proxy_pool env_ex :=
  run_schedule teardown_steps (new_local None) (concat (replicate 40 [0; 1])) two_arrived_ex.

Lemma two_arrived_ex_interleaved : interleaved handler_ex obs_ex outside_ex two_arrived_ex.
Proof. eapply rtc_l; [apply proxy_request|]. eapply rtc_l; [apply proxy_request|]. apply rtc_refl. Qed.

Lemma two_lists_ex_interleaved : interleaved handler_ex obs_ex outside_ex two_lists_ex.
Proof.
  unfold interleaved. etrans; [apply two_arrived_ex_interleaved|].
  eapply (rtc_subrel proxy_moves); [intros ? ?; apply proxy_move|apply run_schedule_moves].
Qed.


Lemma interleaved_answered_witness :
  let l := from_option snd (new_local None) (po_threads two_lists_ex !! 1) in
  l_req l = Some list_ex ∧ w_status (l_w l) ≠ 0%Z.
Proof.
  split; [vm_compute; reflexivity|].
  refine (interleaved_answered handler_ex obs_ex outside_ex two_lists_ex (Return ()) _ registry_ex_wf
    eq_refl two_lists_ex_interleaved _ list_ex _); [|vm_compute; reflexivity].
  apply (list_elem_of_lookup_2 _ 1). vm_compute. reflexivity.
Defined.

Lemma interleaved_evolves_witness :
  length (ct_heap (g_cat (po_world two_lists_ex))) = 6 ∧
  ∀ id, forTenant (ct_cats (g_cat (po_world two_lists_ex))) id = forTenant (NewCatalogs registry_ex (5 * minute)) id.
Proof.
  split; [vm_compute; reflexivity|]. intros id.
  exact (proj1 (proj2 (proj2 (interleaved_evolves handler_ex obs_ex outside_ex
    (pool_init handler_ex obs_ex outside_ex) two_lists_ex registry_ex_wf eq_refl (rtc_refl _ _)
    two_lists_ex_interleaved)) id)).
Defined.

Lemma schedules_end_witness :
  length (Tenants registry_ex) = 3 ∧
  (∀ k p', nsteps proxy_moves k two_arrived_ex p' → k <= 2 * (28 + 11 * 3)) ∧
  ∃ p', rtc proxy_moves two_arrived_ex p' ∧ all_done p'.
Proof.
  destruct (schedules_end handler_ex obs_ex outside_ex two_arrived_ex registry_ex_wf eq_refl
    two_arrived_ex_interleaved) as (Hk & _ & Hdone).
  split_and!; [vm_compute; reflexivity|exact Hk|exact Hdone].
Defined.
