(* ===== verification/Replies.v ===== *)
(** * What a goroutine may send, and what it answers

    For every interleaving: a goroutine that serves a request sends nothing but
    what that request allows, and what it answers is a well-typed message, or the
    payload of an answer to a call its own caller is authorized to make. *)

From Stdlib Require Import Ascii.
From stdpp Require Import base numbers option pretty gmap fin_maps sorting strings list relations.
From S2P Require Import Prelude GoStrings Json Parse Decode Config Registry Session Cells Http Rpc Schema.
From S2P Require Import ParamHeaders Client Catalog Auth OAuth Observability Handler HandlerSelect.
From S2P Require Import Main Isolation Calls Forward Listing Total Typed Threads Concurrent Rely Guarantee.

#[local] Set Warnings "-clear-no-such-hyp".
#[local] Open Scope nat_scope.

(** ** What a request allows *)

Section allowed.
Context {V : Type} `{Verifier V} (h : Handler V) {E : Env}.
Implicit Types (w : World E) (x : exchange).

Abbreviation reg := (Registry_ h).

(** The list of a tenant shown to this caller at some reading of the clock,
    fetched as some tenant with the same view. *)
Definition listing_exchange (r : Request) x : Prop :=
  ∃ n t t', t ∈ (listed_tenants h (Groups (Verifier_ h) (e_clock E n) r)).1 ∧
    t' ∈ Tenants reg ∧ viewKey t' = viewKey t ∧
    ∃ extra, (extra = ∅ ∨ extra = t_Headers t') ∧
      carries (E := E) (t_Backend t') (EffectiveCredential t') extra x.

(** A request of a call to a tenant this caller's groups authorize. *)
Definition call_exchange (r : Request) x : Prop :=
  ∃ t, authorized_for h (E := E) r t ∧ tenant_exchange (E := E) t x.

Definition may_send (r : Request) x : Prop :=
  ∃ req, decodes_to r req ∧
    (j_Method req = "tools/list" ∧ listing_exchange r x ∨ j_Method req = "tools/call" ∧ call_exchange r x).

(** The payload of an answer to one of this caller's calls. *)
Definition own_answer (r : Request) w x : Prop := x ∈ g_log w ∧ call_exchange r x.

(** *** The invariant, the rely and the guarantee *)

Abbreviation cats0 := (NewCatalogs reg (5 * minute)).

(** The tools are well formed, and every catalog is the view it was made for. *)
Record shared_ok w : Prop := {
  sh_heap : heap_ok (g_cat w);
  sh_byTenant : cs_byTenant (ct_cats (g_cat w)) = cs_byTenant cats0;
  sh_views : view_of <$> cs_unique (ct_cats (g_cat w)) = view_of <$> cs_unique cats0 }.

Definition log_grows w w' : Prop := g_log w `prefix_of` g_log w'.

#[export] Instance log_grows_preorder : PreOrder log_grows.
Proof. split; [intros w; unfold log_grows; done|]. intros w1 w2 w3 H1 H2. unfold log_grows. by trans (g_log w2). Qed.

(** A goroutine serving [r] sends what [r] allows. *)
Definition sends_allowed (l : Local) w w' : Prop :=
  ∃ xs, g_log w' = g_log w ++ xs ∧ ∀ r, l_req l = Some r → Forall (may_send r) xs.

Lemma sends_allowed_grows l w w' : sends_allowed l w w' → log_grows w w'.
Proof. intros (xs & Hx & _). by exists xs. Qed.

Lemma sends_nothing l w w' : g_log w' = g_log w → sends_allowed l w w'.
Proof. intros Hl. exists []. by rewrite app_nil_r. Qed.

Lemma own_answer_stable r w w' x : log_grows w w' → own_answer r w x → own_answer r w' x.
Proof. intros [xs Hx] [Hin Hc]. split; [rewrite Hx; set_solver|done]. Qed.

(** A goroutine that returns after serving a request that decodes has answered it. *)
Definition replied (o : outcome ()) w (l : Local) : Prop :=
  match o with
  | Return _ => ∀ r req, l_req l = Some r → decodes_to r req →
      answer_ok (AllStateless reg) req (own_answer r w) (l_w l)
  | Panic => True
  end.

Lemma replied_stable : stable (A := ()) log_grows replied.
Proof.
  intros [[]|] w w' l HR; [|done]. intros Hr r req Hl Hd. eapply answer_from; [|by apply Hr].
  intros x. by apply own_answer_stable.
Qed.
End allowed.

(** ** Steps *)

Section steps.
Context {V : Type} `{Verifier V} (h : Handler V) {E : Env} (rq : option Request).
Implicit Types (w : World E) (l : Local).

Abbreviation reg := (Registry_ h).
Abbreviation cats0 := (NewCatalogs reg (5 * minute)).
Abbreviation good_here := (good (shared_ok h) log_grows (sends_allowed h) (λ _ _, True)).

(** Any of these may be sent. *)
Definition allows (x : exchange) : Prop := ∀ r, rq = Some r → may_send h (E := E) r x.

(** Steps of a goroutine serving [rq] that leave the response alone. *)
Definition yields {A} (t : goroutine E A) (Q : A → World E → Prop) w : Prop :=
  ∀ l, l_req l = rq → good_here (λ o w' l', l_req l' = rq ∧ l_w l' = l_w l ∧
    match o with Return v => Q v w' | Panic => True end) t w l.

Abbreviation quiet t w := (yields t (λ _ _, True) w).

Lemma yields_ret {A} (v : A) (Q : A → World E → Prop) w : Q v w → yields (mret v) Q w.
Proof. intros HQ l Hl. by split_and!. Qed.

Lemma yields_bind {A B} (t : goroutine E A) (k : A → goroutine E B) (Q : A → World E → Prop) Q' w :
  yields t Q w → (∀ v w', log_grows w w' → Q v w' → yields (k v) Q' w') → yields (t ≫= k) Q' w.
Proof.
  intros Ht Hk l Hl. eapply (good_after _ _ _ _ (sends_allowed_grows h)); [by apply Ht|].
  intros [v|] w' l' HR (Hl' & Hw & HQ); [|by split_and!].
  eapply good_mono; [|by apply (Hk v w' HR HQ)]. intros o w2 l2 (? & Hw2 & ?).
  split_and!; [done|by rewrite Hw2|done].
Qed.

Lemma quiet_then {A B} (t : goroutine E A) (k : A → goroutine E B) (Q : A → World E → Prop) Q' w :
  yields t Q w → (∀ v w', yields (k v) Q' w') → yields (t ≫= k) Q' w.
Proof. intros Ht Hk. eapply yields_bind; [exact Ht|]. intros v w' _ _. apply Hk. Qed.

Lemma yields_locking {A} i (t : goroutine E A) Q w : yields t Q w → yields (locking i t) Q w.
Proof.
  intros Ht l Hl. cbn. eapply (good_after _ _ _ _ (sends_allowed_grows h)); [by apply Ht|]. done.
Qed.

Lemma yields_atomic {A} (m : M (World E * Local) A) (Q : A → World E → Prop) w :
  (∀ w' l, shared_ok h w' → log_grows w w' → l_req l = rq →
     let s := m (w', l) in
     l_req s.2.2 = rq ∧ l_w s.2.2 = l_w l ∧ shared_ok h s.2.1 ∧
     (∃ xs, g_log s.2.1 = g_log w' ++ xs ∧ Forall allows xs) ∧
     match s.1 with Return v => Q v s.2.1 | Panic => True end) →
  yields (atomic m) Q w.
Proof.
  intros Hm l Hl. apply good_atomic. intros w' HI HR.
  destruct (Hm w' l HI HR Hl) as (? & ? & ? & (xs & Hx & Ha) & ?). split_and!; [|done..].
  exists xs. split; [done|]. intros r Hr. eapply Forall_impl; [exact Ha|]. intros x Hx'. apply Hx'. congruence.
Qed.

(** Steps that touch neither the catalogs nor the log. *)
Definition still {A} (m : M (World E * Local) A) : Prop := ∀ w l,
  ct_heap (g_cat (m (w, l)).2.1) = ct_heap (g_cat w) ∧ ct_cats (g_cat (m (w, l)).2.1) = ct_cats (g_cat w) ∧
  g_log (m (w, l)).2.1 = g_log w ∧ l_req (m (w, l)).2.2 = l_req l ∧ l_w (m (w, l)).2.2 = l_w l.

Lemma shared_same w w' :
  ct_heap (g_cat w') = ct_heap (g_cat w) → ct_cats (g_cat w') = ct_cats (g_cat w) →
  shared_ok h w → shared_ok h w'.
Proof. intros Hh Hc [? ? ?]. split; unfold heap_ok in *; by rewrite ?Hh, ?Hc. Qed.

Lemma yields_still {A} (m : M (World E * Local) A) w : still m → quiet (atomic m) w.
Proof.
  intros Hm. apply yields_atomic. intros w' l HI _ Hl. destruct (Hm w' l) as (Hh & Hc & Hg & Hr & Hw).
  split_and!; [congruence|done|by eapply shared_same| |by destruct (m (w', l)).1].
  exists []. by rewrite app_nil_r.
Qed.

Lemma still_note f : still (modify (λ s : World E * Local, (s.1, mkLocal (l_req s.2) (f (l_out s.2)) (l_w s.2)))).
Proof. done. Qed.

Lemma still_bind {A B} (m : M (World E * Local) A) (k : A → M (World E * Local) B) :
  still m → (∀ v, still (k v)) → still (m ≫= k).
Proof.
  intros Hm Hk w l. unfold mbind, M_bind. destruct (Hm w l) as (H1 & H2 & H3 & H4 & H5).
  destruct (m (w, l)) as [[v|] [w' l']]; [|done]. cbn [fst snd] in *.
  destruct (Hk v w' l') as (-> & -> & -> & -> & ->). done.
Qed.

Lemma still_now : still (out_m now).
Proof. done. Qed.
Lemma still_rand : still (out_m rand_bytes).
Proof. done. Qed.
Lemma still_sessions {A} (f : PStore → PStore * A) : still (on_sessions f).
Proof. intros w l. by rewrite on_sessions_eq. Qed.

#[local] Hint Resolve still_bind still_now still_rand still_sessions : proxy.

Lemma yields_mint w : quiet mint_step w.
Proof. apply yields_still. do 3 (apply still_bind; [done|intros ?]). auto with proxy. Qed.
Lemma yields_get_session id w : quiet (get_step id) w.
Proof. apply yields_still. do 2 (apply still_bind; [done|intros ?]). auto with proxy. Qed.
Lemma yields_set pid b sid w : quiet (set_step pid b sid) w.
Proof. apply yields_still. apply still_bind; [done|]. auto with proxy. Qed.
Lemma yields_delete pid w : quiet (delete_step pid) w.
Proof. apply yields_still. auto with proxy. Qed.
Lemma yields_gets {A} (f : World E → A) w : quiet (gets_step f) w.
Proof. by apply yields_still. Qed.
Lemma yields_note f w : quiet (note_step f) w.
Proof. by apply yields_still. Qed.
Lemma yields_record f w : quiet (record_step f) w.
Proof. by apply yields_still. Qed.
Lemma yields_attrs w : quiet out_attrs w.
Proof. by apply yields_still. Qed.

(** Reading the catalogs. *)
Lemma yields_cat_gets {A} (f : CatState E → A) (Q : A → World E → Prop) w :
  (∀ w', shared_ok h w' → Q (f (g_cat w')) w') → yields (cat_step (gets f)) Q w.
Proof.
  intros HQ. apply yields_atomic. intros w' l HI _ Hl. unfold zoom, gets, with_cat. cbn.
  destruct w' as [st c ob]. split_and!; [done|done|done| |by apply HQ]. exists []. by rewrite app_nil_r.
Qed.

(** Dealings with the outside. *)
Lemma yields_out {A} (m : M (Outside E) A) (Q : A → list exchange → Prop) w :
  sends_only o_log allows m → (∀ o v o', m o = (Return v, o') → Q v (o_log o')) →
  yields (out_step m) (λ v w, Q v (g_log w)) w.
Proof.
  intros Hm HQ. apply yields_atomic. intros w' l HI _ Hl.
  destruct (Hm (ct_out (g_cat w'))) as (xs & Hx & Ha). unfold zoom, outside, with_cat. cbn [fst snd].
  unfold zoom. specialize (HQ (ct_out (g_cat w'))).
  destruct (m (ct_out (g_cat w'))) as [[v|] o]; cbn [fst snd] in *;
    (split_and!; [done|done|by apply (shared_same w')|by exists xs|]); [by eapply HQ|done].
Qed.

Lemma yields_now w : yields (out_step now) (λ t _, ∃ n, t = e_clock E n) w.
Proof.
  apply (yields_out now (λ t _, ∃ n, t = e_clock E n)).
  - intros o. exists []. by rewrite app_nil_r.
  - intros o v o' [= <- _]. by eexists.
Qed.

(** A step on the catalogs that sends nothing. *)
Lemma yields_cat {A} (m : M (CatState E) A) (Q : A → World E → Prop) w :
  (∀ w' , shared_ok h w' → let s := m (g_cat w') in
     heap_ok s.2 ∧ cs_byTenant (ct_cats s.2) = cs_byTenant (ct_cats (g_cat w')) ∧
     view_of <$> cs_unique (ct_cats s.2) = view_of <$> cs_unique (ct_cats (g_cat w')) ∧
     cat_log s.2 = cat_log (g_cat w') ∧
     match s.1 with Return v => ∀ w'', g_cat w'' = s.2 → Q v w'' | Panic => True end) →
  yields (cat_step m) Q w.
Proof.
  intros Hm. apply yields_atomic. intros w' l HI _ Hl. unfold zoom, with_cat. cbn [fst snd].
  destruct (Hm w' HI) as (Hh & Ht & Hv & Hg & HQ). destruct HI as [_ It Iv].
  destruct (m (g_cat w')) as [o c]. cbn [fst snd] in *.
  split_and!; [done|done| |exists []; by rewrite app_nil_r|].
  - split; cbn; [done|by rewrite Ht|by rewrite Hv].
  - destruct o; [by apply HQ|done].
Qed.

(** *** The catalogs *)

Lemma yields_fetch k w :
  (∀ x, fetch_request (E := E) k x → allows x) →
  yields (fetch_steps k) (λ r _, ∀ ts, r = Ok ts → tools_ok ts) w.
Proof.
  intros Hk.
  assert (∀ A (m : M (Outside E) A) (Q : A → Prop) w', sends_only o_log (fetch_request (E := E) k) m →
    (∀ o v o', m o = (Return v, o') → Q v) → yields (out_step m) (λ v _, Q v) w') as Hout.
  { intros A m Q w' Hm HQ. apply (yields_out m (λ v _, Q v)); [by eapply sends_mono|done]. }
  assert (∀ A (m : M (Outside E) A) w', sends_only o_log (carries (E := E) (k_backend k) (k_cred k) ∅) m →
    quiet (out_step m) w') as Hplain.
  { intros A m w' Hm. apply (Hout _ m (λ _, True)); [|done]. eapply sends_mono; [|exact Hm]. by left. }
  assert (∀ sid w', yields (out_step (listTools (k_backend k) sid (k_cred k) (k_headers k)))
    (λ r _, ∀ ts, r = Ok ts → tools_ok ts) w') as Hlist.
  { intros sid w'. apply (Hout _ _ (λ r, ∀ ts, r = Ok ts → tools_ok ts)).
    - eapply sends_mono; [|apply listTools_sends]. by right.
    - intros o v o' Hr. by eapply listTools_ok. }
  unfold fetch_steps. destruct (Stateless (k_backend k)); [done|].
  eapply quiet_then; [apply Hplain, initialize_sends|]. intros [[sid res]|e] w1; [|by apply yields_ret].
  eapply quiet_then with (Q := λ _ _, True); [|done].
  destruct (nonempty sid); [apply Hplain, notifyInitialized_sends|by apply yields_ret].
Qed.

Lemma yields_alloc ts w : Forall tool_ok ts → quiet (cat_step (alloc_tools ts)) w.
Proof.
  intros Hts. apply yields_cat. intros w' HI. split_and!; [|done..].
  apply Forall_app. split; [apply HI|done].
Qed.

Lemma yields_set_catalog i c w :
  view_of <$> cs_unique cats0 !! i = Some (view_of c) → quiet (cat_step (set_catalog i c)) w.
Proof.
  intros Hi. apply yields_cat. intros w' HI. split_and!; [apply HI|done| |done..]. cbn.
  rewrite list_fmap_insert. apply list_insert_id.
  by rewrite (sh_views _ _ HI), list_lookup_fmap.
Qed.

(** What a fetch for catalog [i] sends is allowed. *)
Definition allows_catalog (i : nat) : Prop :=
  ∀ k x, view_of <$> cs_unique cats0 !! i = Some (view_of k) → fetch_request (E := E) k x → allows x.

Lemma yields_get i w : allows_catalog i → quiet (get_steps i) w.
Proof.
  intros Hi. apply yields_locking. unfold get_body.
  eapply yields_bind; [apply (yields_cat_gets _ (λ c _, ∀ k, c = Some k →
    view_of <$> cs_unique cats0 !! i = Some (view_of k)))|].
  { intros w' HI k Hk. rewrite <- list_lookup_fmap, <- (sh_views _ _ HI), list_lookup_fmap. by rewrite Hk. }
  intros [k|] w1 _ Hk; [|done]. specialize (Hk k eq_refl).
  eapply quiet_then with (Q := λ _ _, True).
  { apply yields_cat. intros w' HI. pose proof (is_fresh_run k (g_cat w')) as Hf. rewrite Hf.
    split_and!; [apply HI|done|done|apply fetch_from_log|done]. }
  intros [] w2; [by apply yields_ret|].
  eapply yields_bind; [apply yields_fetch; intros x; by apply Hi|]. intros [tools|e] w3 _ Ht; [|by apply yields_ret].
  eapply quiet_then with (Q := λ _ _, True).
  { destruct tools as [ts|]; [|by apply yields_ret].
    eapply quiet_then; [by apply yields_alloc, (Ht (Some ts))|]. intros rs w'. by apply yields_ret. }
  intros refs w4. eapply quiet_then; [apply yields_now|]. intros t w5.
  eapply quiet_then; [by apply yields_set_catalog|]. intros ? ?. by apply yields_ret.
Qed.

Lemma yields_collect ts w :
  (∀ t i, t ∈ ts → cs_byTenant cats0 !! t_ID t = Some i → allows_catalog i) → quiet (collect_steps ts) w.
Proof.
  revert w. induction ts as [|t ts IH]; intros w Hts; [by apply yields_ret|]. cbn [collect_steps].
  eapply yields_bind; [apply (yields_cat_gets _ (λ c _, ∀ i, c = Some i → cs_byTenant cats0 !! t_ID t = Some i))|].
  { intros w' HI i Hi. by rewrite <- (sh_byTenant _ _ HI). }
  assert (∀ w, quiet (collect_steps ts) w) as IH'.
  { intros w'. apply IH. intros t' i Hin. apply Hts. by right. }
  intros [i|] w1 _ Hi; [|apply IH'].
  eapply quiet_then; [apply yields_get, (Hts t); [by left|by apply Hi]|].
  intros r w2. eapply quiet_then; [apply IH'|]. intros ? ?. by apply yields_ret.
Qed.

Lemma yields_toolsFor ts w :
  (∀ t i, t ∈ ts → cs_byTenant cats0 !! t_ID t = Some i → allows_catalog i) → quiet (toolsFor_steps ts) w.
Proof. intros Hts. eapply quiet_then; [by apply yields_collect|]. intros ? ?. by apply yields_ret. Qed.

Lemma yields_cachedTool id name w : quiet (cachedTool_steps id name) w.
Proof.
  unfold cachedTool_steps. eapply quiet_then with (Q := λ _ _, True); [by apply yields_cat_gets|].
  intros [i|] w1; [|by apply yields_ret].
  eapply quiet_then with (Q := λ _ _, True); [by apply yields_locking, yields_cat_gets|].
  intros [refs|] w2; [|by apply yields_ret].
  eapply quiet_then with (Q := λ _ _, True); [by apply yields_cat_gets|]. intros ? ?. by apply yields_ret.
Qed.

Lemma yields_list_tools d a u order w : quiet (cat_step (list_tools d a u order)) w.
Proof.
  apply yields_cat. intros w' HI. pose proof (heap_list_tools d a u order (g_cat w') (sh_heap _ _ HI)) as (_ & Hh & _).
  destruct (list_tools_returns d a u order (g_cat w')) as (rs & ts & Hr). rewrite Hr in *. by split_and!.
Qed.

(** *** Selecting the tenant *)

Lemma yields_may_have name t w : quiet (may_have_steps (E := E) name t) w.
Proof. eapply quiet_then; [apply yields_cachedTool|]. intros ? ?. by apply yields_ret. Qed.

Lemma yields_tenantsWithTool name ts w :
  yields (tenantsWithTool_steps (E := E) name ts) (λ r _, r ⊆ ts) w.
Proof.
  revert w. induction ts as [|t ts IH]; intros w; [by apply yields_ret|]. cbn [tenantsWithTool_steps].
  eapply quiet_then; [apply yields_may_have|]. intros b w1.
  eapply yields_bind; [apply IH|]. intros rest w2 _ Hsub. apply yields_ret.
  intros x. destruct b; rewrite ?elem_of_cons; set_solver.
Qed.

Lemma yields_unavailable name t ts w : quiet (unavailable_steps (E := E) name t ts) w.
Proof.
  unfold unavailable_steps. eapply quiet_then; [apply yields_may_have|]. intros [] w1; [by apply yields_ret|].
  eapply quiet_then; [apply yields_tenantsWithTool|]. intros ? ?. by apply yields_ret.
Qed.

Hypothesis Hreg : registry_wf reg.

Lemma yields_select name args groups w :
  yields (selectTenant_steps h (E := E) name args groups (AuthorizedTenants reg groups))
    (λ r _, ∀ t, r = Ok t → t ∈ AuthorizedTenants reg groups) w.
Proof.
  assert (∀ t w, t ∈ AuthorizedTenants reg groups →
    yields (msg ← unavailable_steps (E := E) name t (AuthorizedTenants reg groups);
            mret (if nonempty msg then Err msg else Ok t))
      (λ r _, ∀ t, r = Ok t → t ∈ AuthorizedTenants reg groups) w) as Hun.
  { intros t w' Ht. eapply quiet_then; [apply yields_unavailable|]. intros msg w1. apply yields_ret.
    destruct (nonempty msg); [done|]. by intros t' [= <-]. }
  unfold selectTenant_steps. destruct (nonempty _).
  - destruct (ResolveTenant reg _) as [t|] eqn:Ht; [|by apply yields_ret].
    destruct (IsAuthorized t groups) eqn:Ha; [|by apply yields_ret]. apply Hun.
    apply elem_of_AuthorizedTenants; [done|]. destruct (Hreg _ _ Ht) as [He _]. by rewrite He.
  - destruct (AuthorizedTenants reg groups) as [|t [|t' ts]] eqn:Hauth; [by apply yields_ret|apply Hun; by left|].
    eapply yields_bind; [apply yields_tenantsWithTool|]. intros [|c [|c' cs]] w1 _ Hsub; apply yields_ret; try done.
    intros t2 [= <-]. apply Hsub. by left.
Qed.
End steps.

(** ** Goroutines that write *)

Section acts.
Context {V : Type} `{Verifier V} (h : Handler V) {E : Env} (rq : option Request).
Implicit Types (w : World E) (l : Local) (wr : Writer).

Abbreviation good_here := (good (shared_ok h) log_grows (sends_allowed h) (λ _ _, True)).
Abbreviation yields := (yields h rq).
Abbreviation quiet t w := (yields t (λ _ _, True) w).

(** Run with a response that has [P], it comes to a world and a response with [Q]. *)
Definition acts {A} (P : Writer → Prop) (t : goroutine E A) (Q : outcome A → World E → Writer → Prop) w : Prop :=
  ∀ l, l_req l = rq → P (l_w l) →
    good_here (λ o w' l', l_req l' = rq ∧ Q o w' (l_w l')) t w l.

Implicit Types P : Writer → Prop.

Lemma acts_after {A B} P (t : goroutine E A) (k : A → goroutine E B) (Q : A → World E → Prop) Q' w :
  yields t Q w → (∀ wr w', Q' Panic w' wr) →
  (∀ v w', log_grows w w' → Q v w' → acts P (k v) Q' w') → acts P (t ≫= k) Q' w.
Proof.
  intros Ht Hp Hk l Hl HP. eapply (good_after _ _ _ _ (sends_allowed_grows h)); [by apply Ht|].
  intros [v|] w' l' HR (Hl' & Hw & HQ); [|by split]. apply (Hk v w' HR HQ); [done|by rewrite Hw].
Qed.

Lemma acts_set {A} P P' f (t : () → goroutine E A) Q w :
  (∀ wr, P wr → P' (f wr)) → (∀ w', acts P' (t ()) Q w') → acts P (write_step f ≫= t) Q w.
Proof.
  intros Hf Ht l Hl HP w' HI HR. split_and!; [by apply sends_nothing|done|].
  apply Ht; [done|]. by apply Hf.
Qed.

Lemma acts_write P f Q w : (∀ wr w', P wr → Q (Return ()) w' (f wr)) → acts P (write_step f) Q w.
Proof.
  intros Hf l Hl HP w' HI HR. cbn. split_and!; [by apply sends_nothing|done|done|]. by apply Hf.
Qed.

Lemma acts_mono {A} P P' (t : goroutine E A) (Q Q' : outcome A → World E → Writer → Prop) w :
  (∀ wr, P' wr → P wr) → (∀ o w' wr, log_grows w w' → Q o w' wr → Q' o w' wr) → acts P t Q w → acts P' t Q' w.
Proof.
  intros HP HQ Ht l Hl HP'. eapply good_mono; [|apply (good_reaches _ _ _ _ (sends_allowed_grows h)), Ht; auto].
  intros o w' l' [HR [Hl' Ho]]. split; [done|]. by apply HQ.
Qed.

(** What a later part adds to what is already there. *)
Lemma acts_then {A B} P (t : goroutine E A) (k : outcome A → goroutine E B)
    (Q : outcome A → World E → Writer → Prop) (Q' : outcome B → World E → Writer → Prop) w :
  acts P t Q w →
  (∀ o w' wr, Q o w' wr → acts (λ wr', wr' = wr) (k o) Q' w') → acts P (after t k) Q' w.
Proof.
  intros Ht Hk l Hl HP. eapply (good_after _ _ _ _ (sends_allowed_grows h)); [by apply Ht|].
  intros o w' l' HR [Hl' HQ]. by apply (Hk o w' (l_w l')).
Qed.

(** A part that leaves the response alone. *)
Lemma acts_yields {A} P (t : goroutine E A) (Q : A → World E → Prop) w :
  yields t Q w →
  acts P t (λ o w' wr, P wr ∧ log_grows w w' ∧ match o with Return v => Q v w' | Panic => True end) w.
Proof.
  intros Ht l Hl HP. eapply good_mono; [|apply (good_reaches _ _ _ _ (sends_allowed_grows h)), Ht, Hl].
  intros o w' l' [HR (Hl' & Hw & HQ)]. split; [done|]. by rewrite Hw.
Qed.

(** Nothing is said of what is written. *)
Abbreviation loose t w := (acts (λ _, True) t (λ _ _ _, True) w).

Lemma loose_bind {A B} (t : goroutine E A) (k : A → goroutine E B) w :
  loose t w → (∀ v w', loose (k v) w') → loose (t ≫= k) w.
Proof.
  intros Ht Hk. eapply acts_then; [exact Ht|]. intros [v|] w' wr _; [|by intros l Hl].
  eapply acts_mono; [| |apply Hk]; done.
Qed.

Lemma loose_quiet {A} (t : goroutine E A) (Q : A → World E → Prop) w : yields t Q w → loose t w.
Proof. intros Ht. eapply acts_mono; [| |by eapply (acts_yields (λ _, True))]; done. Qed.

Lemma loose_write f w : loose (write_step f) w.
Proof. by apply acts_write. Qed.

Lemma loose_teardown p ts w : loose (teardown_loop (E := E) p ts) w.
Proof.
  revert w. induction ts as [|t ts IH]; intros w; [by apply (loose_quiet _ (λ _ _, True)), yields_ret|].
  cbn [teardown_loop]. apply loose_bind; [by eapply loose_quiet, yields_gets|]. intros [sid|] w1; [|apply IH].
  destruct (nonempty sid); [|apply IH]. intros l Hl HP. split; [done|]. by apply IH.
Qed.

Lemma loose_delete r w : loose (handleDelete_steps h (E := E) r) w.
Proof.
  unfold handleDelete_steps. destruct (AllStateless _); [apply loose_write|].
  apply loose_bind; [by eapply loose_quiet, yields_delete|]. intros sess w1.
  apply loose_bind; [|intros; apply loose_write].
  destruct sess; [apply loose_teardown|by apply (loose_quiet _ (λ _ _, True)), yields_ret].
Qed.
End acts.

(** ** Goroutines that answer *)

Section answering.
Context {V : Type} `{Verifier V} (h : Handler V) {E : Env} (r : Request) (req : jsonRPCRequest).
Hypothesis Hreg : registry_wf (Registry_ h).
Hypothesis Hd : decodes_to r req.
Implicit Types (w : World E) (l : Local) (wr : Writer).

Abbreviation reg := (Registry_ h).
Abbreviation stateless := (AllStateless reg).
Abbreviation yields := (yields h (Some r)).
Abbreviation quiet t w := (yields t (λ _ _, True) w).
Abbreviation acts := (acts h (Some r)).
Abbreviation allowed := (allows h (E := E) (Some r)).

Definition own_reply w wr : Prop := answer_ok stateless req (own_answer h r w) wr.

(** Unless it panics it has answered. *)
Definition done_with {A} (o : outcome A) w wr : Prop :=
  match o with Return _ => own_reply w wr | Panic => True end.

Abbreviation answering t w := (acts unwritten t done_with w).

Lemma own_reply_stable w w' wr : log_grows w w' → own_reply w wr → own_reply w' wr.
Proof. intros HR. apply answer_from. intros x. by apply own_answer_stable. Qed.

Lemma answering_after {A B} (t : goroutine E A) (k : A → goroutine E B) (Q : A → World E → Prop) w :
  yields t Q w → (∀ v w', log_grows w w' → Q v w' → answering (k v) w') → answering (t ≫= k) w.
Proof. intros Ht Hk. eapply acts_after; [exact Ht|done|exact Hk]. Qed.

Lemma answering_quiet {A B} (t : goroutine E A) (k : A → goroutine E B) (Q : A → World E → Prop) w :
  yields t Q w → (∀ v w', answering (k v) w') → answering (t ≫= k) w.
Proof. intros Ht Hk. eapply answering_after; [exact Ht|]. intros v w' _ _. apply Hk. Qed.

(** What comes after the answer leaves it alone. *)
Lemma answering_then {A B} (t : goroutine E A) (k : A → goroutine E B) w :
  answering t w → (∀ v w', quiet (k v) w') → answering (t ≫= k) w.
Proof.
  intros Ht Hk. eapply acts_then; [exact Ht|]. intros [v|] w' wr Ho; [|by intros l Hl].
  eapply acts_mono with (P := λ wr', wr' = wr); [done| |apply acts_yields, (Hk v)].
  intros [x|] w2 wr2 HR (-> & _ & _); [|done]. by eapply own_reply_stable.
Qed.

Lemma answering_write f w :
  (∀ wr, unwritten wr → answer_ok stateless req (λ _, False) (f wr)) → answering (write_step f) w.
Proof. intros Hf. apply acts_write. intros wr w' Hw. eapply answer_from; [|by apply Hf]. done. Qed.

Lemma req_id_ok : id_ok (j_ID req).
Proof. by eapply decodes_to_id. Qed.

Lemma answering_error code msg w :
  has_type TInt (marshal_int code) = true → fits 0 (marshal_int code) →
  answering (write_step (writeRPCError (j_ID req) code msg)) w.
Proof.
  intros Ht Hf. apply answering_write. intros wr Hw.
  destruct (writeRPCError_speaks (j_ID req) code msg wr Hw req_id_ok Ht Hf) as [Hsp Hst].
  apply answer_error; [rewrite Hst; set_solver|done].
Qed.

Lemma answering_result res w :
  result_ok (result_ty stateless (j_Method req)) res → answering (write_step (write_result (j_ID req) res)) w.
Proof.
  intros Hr. apply answering_write. intros wr Hw.
  destruct (write_result_speaks (j_ID req) _ res wr Hw req_id_ok Hr) as [Hsp Hst]. by apply answer_result.
Qed.

Lemma answering_202 w :
  j_Method req = "notifications/initialized" ∨ isNotification req = true → answering (write_step (w_write_header 202)) w.
Proof.
  intros Hn. apply answering_write. intros wr [Hs Hb]. rewrite w_write_header_fresh by done.
  by apply answer_none.
Qed.

(** *** Routing a call *)

Lemma call_allowed x : j_Method req = "tools/call" → call_exchange h (E := E) r x → allowed x.
Proof. intros Hm Hx r' [= <-]. exists req. split; [done|]. by right. Qed.

Section call.
Hypothesis Hm : j_Method req = "tools/call".

Abbreviation authorized_for t := (authorized_for h (E := E) r t).

Lemma authorized_allowed t x : authorized_for t → tenant_exchange (E := E) t x → call_exchange h (E := E) r x.
Proof. intros Ht Hx. by exists t. Qed.

Lemma answering_finish resp w :
  (∀ body, resp = Ok body → ∃ x sid, own_answer h r w x ∧ read_response x.2 = Ok (body, sid)) →
  answering (finish_call_steps (j_ID req) resp) w.
Proof.
  intros Hresp. destruct resp as [body|e]; cbn [finish_call_steps].
  - destruct (Hresp body eq_refl) as (x & sid & Hx & Hr). eapply acts_then with
      (Q := λ o w' wr, own_reply w' wr); [|].
    + apply acts_mono with (P := unwritten) (Q := λ o w' wr, log_grows w w' ∧ ∀ w0, own_answer h r w0 x → own_reply w0 wr).
      * done.
      * intros o w' wr HR [_ Ho]. apply Ho. by eapply own_answer_stable.
      * intros l Hl Hw w' HI HR. cbn. split_and!; [by apply sends_nothing|done|done|done|].
        intros w0 Hx0. destruct Hw as [Hw1 Hw2]. unfold own_reply, w_write. rewrite w_write_header_fresh by done.
        apply (answer_backend _ _ _ _ x sid); [done|exact Hx0| |done|apply header_get_set].
        cbn [w_body w_set_header]. by rewrite Hw2.
    + intros o w' wr Ho. destruct o; intros l Hl Hw; [split; [done|cbn; by rewrite Hw]|done].
  - eapply answering_then; [by apply answering_error|]. intros ? ?. by apply yields_ret.
Qed.

Lemma answering_call t sid bytes ph name w :
  authorized_for t →
  answering (resp ← out_step (callTool (t_Backend t) sid (EffectiveCredential t) bytes
               (mergeHeaders [t_Headers t; ph]) name);
             finish_call_steps (j_ID req) resp) w.
Proof.
  intros Ht.
  assert (sends_only o_log (λ x, call_exchange h (E := E) r x) (callTool (E := E) (t_Backend t) sid
    (EffectiveCredential t) bytes (mergeHeaders [t_Headers t; ph]) name)) as Hsends.
  { eapply sends_mono; [|apply callTool_sends]. intros x Hx. apply (authorized_allowed t); [done|].
    eexists. split; [exact Hx|]. right. by exists ph. }
  eapply answering_after; [apply (yields_out h (Some r) _ (λ resp log, ∀ body, resp = Ok body →
    ∃ x sid', x ∈ log ∧ call_exchange h (E := E) r x ∧ read_response x.2 = Ok (body, sid')))|].
  - eapply sends_mono; [|exact Hsends]. intros x. by apply call_allowed.
  - intros o v o' Hrun body ->. destruct (Hsends o) as (xs & Hx & Hall). rewrite Hrun in Hx. cbn [snd] in Hx.
    destruct (callTool_last _ _ _ _ _ _ _ _ _ Hrun) as (x & sid' & Hlog & Hread).
    exists x, sid'. rewrite Hlog. split_and!; [set_solver| |done].
    rewrite Hlog in Hx. apply app_inv_head in Hx. subst xs. by apply Forall_cons in Hall as [? _].
  - intros resp w' _ Hresp. apply answering_finish. intros body Hb.
    destruct (Hresp body Hb) as (x & sid' & Hin & Hcall & Hread). by exists x, sid'.
Qed.

Lemma yields_open pid t w : authorized_for t → quiet (open_backend_session_steps (E := E) pid t) w.
Proof.
  intros Ht.
  assert (∀ A (m : M (Outside E) A) w, sends_only o_log (carries (E := E) (t_Backend t) (EffectiveCredential t) ∅) m →
    quiet (out_step m) w) as Hplain.
  { intros A m w' Hs. apply (yields_out h (Some r) m (λ _ _, True)); [|done]. eapply sends_mono; [|exact Hs].
    intros x Hx. apply call_allowed; [done|]. apply (authorized_allowed t); [done|]. exists ∅. by split; [|left]. }
  unfold open_backend_session_steps. eapply quiet_then; [apply Hplain, initialize_sends|].
  intros [[sid res]|e] w1; [|by apply yields_ret]. eapply quiet_then with (Q := λ _ _, True).
  { destruct (nonempty sid); [apply Hplain, notifyInitialized_sends|by apply yields_ret]. }
  intros _ w2. eapply quiet_then; [apply yields_set|]. intros ? ?. by apply yields_ret.
Qed.

Lemma answering_route t bytes name ph w :
  authorized_for t → answering (routeToBackend_steps (E := E) r (j_ID req) t bytes name ph) w.
Proof.
  intros Ht. unfold routeToBackend_steps. destruct (Stateless (t_Backend t)); [by apply answering_call|].
  assert (∀ code msg w', has_type TInt (marshal_int code) = true → fits 0 (marshal_int code) →
    answering (_ ← write_step (writeRPCError (j_ID req) code msg); mret false) w') as Herr.
  { intros code msg w' Hc Hf. apply answering_then; [by apply answering_error|]. intros ? ?. by apply yields_ret. }
  eapply answering_quiet; [apply yields_get_session|]. intros [p|] w1; [|by apply Herr].
  eapply answering_quiet; [apply yields_gets|]. intros have w2.
  eapply answering_quiet with (Q := λ _ _, True).
  { destruct have; [by apply yields_ret|by apply yields_open]. }
  intros [sid|e] w3; [by apply answering_call|by apply Herr].
Qed.

Lemma answering_forward params t w :
  authorized_for t → answering (forward_call_steps (E := E) r req params t) w.
Proof.
  intros Ht. unfold forward_call_steps. eapply answering_quiet; [apply yields_note|]. intros _ w1.
  destruct (stripTenantArg (j_Params req)) as [clean|e].
  2:{ eapply answering_quiet; [apply yields_note|]. intros _ w2. by apply answering_error. }
  eapply answering_quiet; [unfold paramHeadersForCall_steps; eapply quiet_then;
    [apply yields_cachedTool|intros ? ?; by apply (yields_ret h (Some r) _ (λ _ _, True))]|]. intros phs w2.
  apply answering_then; [by apply answering_route|]. intros [] w3; [by apply yields_ret|apply yields_note].
Qed.
End call.

(** *** tools/call *)

Lemma answering_auth e w : answering (auth_failure_steps h (E := E) r (j_ID req) e) w.
Proof.
  assert (∀ status code msg w', status ∈ [401; 403; 500]%Z → has_type TInt (marshal_int code) = true →
    fits 0 (marshal_int code) → answering (write_step (writeHTTPError status (j_ID req) code msg)) w') as Hend.
  { intros status code msg w' Hin Ht Hf. apply answering_write. intros wr Hw.
    destruct (writeHTTPError_speaks status (j_ID req) code msg wr Hw) as [Hsp Hst];
      [set_solver|apply req_id_ok|done..|].
    apply answer_error; [|done]. rewrite Hst. set_solver. }
  destruct e; unfold auth_failure_steps; (eapply answering_quiet; [apply yields_note|]; intros _ w1).
  1-2: eapply acts_set with (P' := unwritten); [intros wr Hw; exact Hw|]; intros w2; apply Hend; [set_solver|done..].
  apply Hend; [set_solver|done..].
Qed.

Lemma answering_tools_call w :
  j_Method req = "tools/call" → answering (tools_call_steps h (E := E) r req) w.
Proof.
  intros Hm. unfold tools_call_steps. eapply answering_after; [apply yields_now|]. intros t w1 _ [n ->].
  destruct (Groups (Verifier_ h) (e_clock E n) r) as [groups|e] eqn:Hg; [|apply answering_auth].
  destruct (match j_Params req with Some v => unmarshal_params v | None => Err BadSyntax end) as [params|e].
  2:{ eapply answering_quiet; [apply yields_note|]. intros _ w2. by apply answering_error. }
  eapply answering_quiet; [apply yields_note|]. intros _ w2.
  pose proof (text_ok h) as Htext. rewrite <- Hm in Htext.
  destruct (String.eqb _ _); [unfold writeInstances; by apply answering_result|].
  eapply answering_after; [by apply yields_select|]. intros [t|msg] w3 _ Hsel.
  - apply answering_forward; [done|]. exists n, groups. split; [done|]. by apply Hsel.
  - eapply answering_quiet; [apply yields_note|]. intros _ w4. by apply answering_result.
Qed.

Lemma answering_deferring (cleanup t : goroutine E ()) w :
  answering t w → (∀ w', quiet cleanup w') → answering (deferring cleanup t) w.
Proof.
  intros Ht Hc. eapply acts_then; [exact Ht|]. intros o w' wr Ho.
  eapply acts_then; [apply (acts_yields h (Some r) (λ wr', wr' = wr)), Hc|].
  intros o' w2 wr2 (-> & HR & _) l Hl Hw. split; [done|]. rewrite Hw.
  destruct o; [by eapply own_reply_stable|done].
Qed.

Lemma answering_handleToolsCall w :
  j_Method req = "tools/call" → answering (handleToolsCall_steps h (E := E) r req) w.
Proof.
  intros Hm. unfold handleToolsCall_steps. eapply answering_quiet; [apply yields_now|]. intros start w1.
  eapply answering_quiet; [apply yields_note|]. intros _ w2.
  apply answering_deferring; [by apply answering_tools_call|]. intros w3. unfold record_op_steps.
  eapply quiet_then; [apply yields_now|]. intros t w4. eapply quiet_then; [apply yields_attrs|].
  intros a w5. apply yields_record.
Qed.

(** *** tools/list *)

(** The catalog of a registered tenant is one of a tenant with its view. *)
Lemma tenant_view t i k :
  t ∈ Tenants reg → cs_byTenant (NewCatalogs reg (5 * minute)) !! t_ID t = Some i →
  view_of <$> cs_unique (NewCatalogs reg (5 * minute)) !! i = Some (view_of k) →
  ∃ t', t' ∈ Tenants reg ∧ viewKey t' = viewKey t ∧ view_of k = view_of (tenant_catalog (5 * minute) t').
Proof.
  intros Ht Hi Hk. destruct (NewCatalogs_views reg (5 * minute) Hreg) as (byKey & Hv).
  destruct (vo_tenant _ _ _ _ Hv t) as (j & Hj & Hkey); [by apply elem_of_sort_on|].
  rewrite Hi in Hj. injection Hj as <-. destruct (vo_key _ _ _ _ Hv _ _ Hkey) as (t' & Ht' & Hkey' & Hi').
  rewrite Hi' in Hk. injection Hk as Hk. exists t'. split_and!; [by apply elem_of_sort_on in Ht'|done|].
  unfold view_of. cbn. congruence.
Qed.

Lemma listed_allows n t i :
  j_Method req = "tools/list" → t ∈ (listed_tenants h (Groups (Verifier_ h) (e_clock E n) r)).1 →
  cs_byTenant (NewCatalogs reg (5 * minute)) !! t_ID t = Some i →
  allows_catalog h (E := E) (Some r) i.
Proof.
  intros Hm Ht Hi k x Hk Hx r' [= <-]. exists req. split; [done|]. left. split; [done|].
  destruct (listed_tenants h (Groups (Verifier_ h) (e_clock E n) r)) as [ts d] eqn:Hl.
  destruct (listed_tenants_registered h _ ts d Hreg Hl) as [Hin _].
  destruct (tenant_view t i k (Hin t Ht) Hi Hk) as (t' & Ht' & Hkey & Hview).
  exists n, t, t'. rewrite Hl. split_and!; [done..|].
  unfold view_of in Hview. injection Hview as Hb Hc Hh _. unfold fetch_request in Hx. rewrite Hb, Hc, Hh in Hx.
  destruct Hx as [Hx|Hx]; eexists; (split; [|exact Hx]); [by left|by right].
Qed.

Lemma answering_handleToolsList w :
  j_Method req = "tools/list" → answering (handleToolsList_steps h (E := E) r req) w.
Proof.
  intros Hm. unfold handleToolsList_steps. eapply answering_after; [apply yields_now|]. intros t w1 _ [n ->].
  pose proof (λ t i, listed_allows n t i Hm) as Hallow.
  destruct (listed_tenants h (Groups (Verifier_ h) (e_clock E n) r)) as [tenants discovery]. cbn [fst] in Hallow.
  eapply answering_quiet; [by apply yields_toolsFor|]. intros [views|e] w2; [|by apply answering_error].
  eapply answering_quiet with (Q := λ _ _, True); [by apply yields_cat_gets|]. intros heap w3. cbv zeta.
  eapply answering_quiet; [apply yields_list_tools|]. intros out w4.
  eapply answering_quiet; [apply yields_alloc; constructor; [apply listInstances_ok|constructor]|]. intros local w5.
  eapply answering_after; [apply (yields_cat_gets h (Some r) _ (λ heap _, ∀ refs, Forall tool_ok (deref heap refs)))|].
  { intros w' HI refs. apply deref_ok, HI. }
  intros heap' w6 _ Hheap. apply answering_result. rewrite Hm. by apply tools_result_ok.
Qed.

(** *** The rest *)

Definition labelled wr : Prop := unwritten wr ∧ header_get "Content-Type" (w_header wr) = "application/json".

Lemma answering_handleInitialize w :
  j_Method req = "initialize" → answering (handleInitialize_steps h (E := E) req) w.
Proof.
  intros Hm.
  assert (∀ w, acts labelled (write_step (w_write (writeJSONRPCResult (j_ID req) (serverInfoResult h)))) done_with w)
    as Hwrite.
  { intros w'. apply acts_write. intros wr w2 [Hw Hh]. eapply answer_from with (λ _, False); [done|].
    by apply (initialize_answer h req req_id_ok wr). }
  unfold handleInitialize_steps. eapply acts_set with (P' := labelled).
  { intros wr Hw. split; [exact Hw|apply header_get_set]. }
  intros w1. destruct (AllStateless reg); [apply Hwrite|].
  eapply acts_after; [apply yields_mint|done|]. intros p w2 _ _.
  eapply acts_after; [apply yields_record|done|]. intros _ w3 _ _.
  eapply acts_after; [apply yields_gets|done|]. intros id w4 _ _.
  eapply acts_set with (P' := labelled); [|intros; apply Hwrite]. intros wr [Hw Hh]. split; [exact Hw|].
  unfold header_get, w_set_header, header_set in *. cbn [w_header].
  by rewrite lookup_insert_ne by (vm_compute; done).
Qed.

Lemma answering_dispatch w : answering (dispatch_steps h (E := E) r req) w.
Proof.
  unfold dispatch_steps. cbv zeta.
  destruct (String.eqb_spec (j_Method req) "initialize") as [Hm|H1]; [by apply answering_handleInitialize|].
  destruct (String.eqb_spec (j_Method req) "notifications/initialized") as [Hm|H2].
  { apply answering_202. by left. }
  destruct (String.eqb_spec (j_Method req) "server/discover") as [Hm|H3].
  { apply answering_result. rewrite Hm. apply discover_ok. }
  destruct (String.eqb_spec (j_Method req) "tools/list") as [Hm|H4]; [by apply answering_handleToolsList|].
  destruct (String.eqb_spec (j_Method req) "tools/call") as [Hm|H5]; [by apply answering_handleToolsCall|].
  destruct (String.eqb_spec (j_Method req) "ping") as [Hm|H6].
  { apply answering_result. rewrite Hm. apply ping_ok. }
  destruct (isNotification req) eqn:Hn; [apply answering_202; by right|by apply answering_error].
Qed.

Lemma answering_ServeHTTP w : answering (ServeHTTP_steps h (E := E) r) w.
Proof.
  destruct Hd as [Hp (body & Hb & Hreq)]. unfold ServeHTTP_steps. rewrite Hp, Hb, Hreq. cbn [String.eqb Ascii.eqb Bool.eqb negb].
  destruct (AllStateless reg); [|eapply answering_quiet; [by apply (yields_ret _ _ _ (λ _ _, True))|intros; apply answering_dispatch]].
  eapply acts_set with (P' := unwritten); [|intros; apply answering_dispatch]. intros wr Hw. exact Hw.
Qed.
End answering.

(** ** Pools *)

Section pools.
Context {V : Type} `{Verifier V} (h : Handler V) {E : Env}.
Hypothesis Hreg : registry_wf (Registry_ h).
Implicit Types (w : World E) (p : proxy_pool E).

Abbreviation good_in := (good (shared_ok h) log_grows (sends_allowed h) (λ _ _, True) (replied h)).

(** A request that does not decode: no tool call and no listing comes of it. *)
Lemma loose_ServeHTTP r w :
  (¬ ∃ req, decodes_to r req) → acts h (Some r) (λ _, True) (ServeHTTP_steps h (E := E) r) (λ _ _ _, True) w.
Proof.
  intros Hno. unfold ServeHTTP_steps. destruct (String.eqb _ _); [apply loose_delete|].
  destruct (String.eqb _ _).
  { apply loose_bind; [apply loose_write|]. intros. apply loose_write. }
  destruct (String.eqb_spec (r_Method r) "POST") as [Hm|Hm]; [|apply loose_write]. cbn [negb].
  destruct (r_Body r) as [b|] eqn:Hb; [|apply loose_write].
  destruct (v ← parse_text b; unmarshal_request v) as [req|e] eqn:Hreq; [|apply loose_write].
  exfalso. apply Hno. exists req. split; [done|by exists b].
Qed.

Lemma decodes_to_unique r req req' : decodes_to r req → decodes_to r req' → req = req'.
Proof. intros [_ (b & Hb & Hr)] [_ (b' & Hb' & Hr')]. congruence. Qed.

Lemma decodes_or_not r : (∃ req, decodes_to r req) ∨ ¬ ∃ req, decodes_to r req.
Proof.
  destruct (String.eqb_spec (r_Method r) "POST") as [Hp|Hp]; [|right; intros (req & Hp' & _); congruence].
  destruct (r_Body r) as [b|] eqn:Hb; [|right; intros (req & _ & b & Hb' & _); congruence].
  destruct (v ← parse_text b; unmarshal_request v) as [req|e] eqn:Hreq.
  - left. exists req. split; [done|by exists b].
  - right. intros (req & _ & b' & Hb' & Hreq'). congruence.
Qed.

Lemma serve_replies r w : good_in (serve_steps h r) w (new_local (Some r)).
Proof.
  destruct (decodes_or_not r) as [[req Hd]|Hno].
  - eapply (good_after _ _ _ _ (sends_allowed_grows h)); [by apply (answering_ServeHTTP h r req Hreg Hd)|].
    intros [[]|] w1 l1 _ [Hl1 Ho]; [|done]. intros w2 HI HR. cbn.
    split_and!; [by apply sends_nothing|done|]. intros r' req' Hr' Hd'.
    assert (r' = r) as -> by congruence. rewrite (decodes_to_unique r req' req Hd' Hd).
    eapply answer_from; [|by apply answer_finish, Ho]. intros x. by apply own_answer_stable.
  - eapply (good_after _ _ _ _ (sends_allowed_grows h)); [by apply (loose_ServeHTTP r w Hno)|].
    intros [[]|] w1 l1 _ [Hl1 Ho]; [|done]. intros w2 HI HR. cbn.
    split_and!; [by apply sends_nothing|done|]. intros r' req' Hr' Hd'.
    assert (r' = r) as -> by congruence. exfalso. eauto.
Qed.
(** A goroutine that serves no request may send anything. *)
Lemma background_replies (t : goroutine E ()) w : yields h None t (λ _ _, True) w → good_in t w (new_local None).
Proof.
  intros Ht. eapply good_mono; [|by apply Ht]. intros [[]|] w' l (Hl & _); [|done].
  intros r req Hr. congruence.
Qed.

Lemma warm_replies n w : good_in (warm_steps (E := E) n) w (new_local None).
Proof.
  apply background_replies. eapply quiet_then; [|intros ? ?; by apply yields_ret].
  generalize (seq 0 n) as l. intros l. revert w. induction l as [|i l IH]; intros w; [by apply (yields_ret _ _ _ (λ _ _, True))|].
  cbn [warm_from_steps]. eapply quiet_then; [by apply yields_get|]. intros r w1.
  eapply quiet_then; [apply IH|]. intros ? ?. by apply yields_ret.
Qed.

Lemma page_replies f w : good_in (write_step (E := E) f) w (new_local None).
Proof.
  eapply good_mono; [|by apply (acts_write h None (λ _, True) f (λ _ _ _, True))].
  intros [[]|] w' l [Hl _]; [|done]. intros r req Hr. congruence.
Qed.

Lemma teardown_replies task w : good_in (teardown_steps (E := E) task) w (new_local None).
Proof.
  apply background_replies. apply (yields_out h None _ (λ _ _, True)); [|done].
  unfold teardownBackend. destruct (e_url_Parse _ _); [|intros o; exists []; by rewrite app_nil_r].
  apply sends_bind; [|intros _ o; exists []; by rewrite app_nil_r]. by apply sends_do_request.
Qed.

Abbreviation pool_ok := (pool_good (shared_ok h) log_grows (sends_allowed h) (λ _ _, True) (λ _, replied h)).

Lemma arrive_replies t r p : good_in t (po_world p) (new_local r) → pool_ok p → pool_ok (arrive t r p).
Proof. destruct p as [w locks ts]. exact (pool_good_snoc _ _ _ _ (λ _, replied h) w locks ts t (new_local r)). Qed.

Lemma proxy_step_replies p p' : proxy_step h p p' → pool_ok p → pool_ok p'.
Proof.
  intros [p0 p1 [i Hi]|r p0|p0|f p0] Hp.
  - eapply (pool_step_good teardown_steps (new_local None) _ _ _ _ (sends_allowed_grows h)); [done|intros; apply replied_stable|intros; apply teardown_replies|exact Hi|done].
  - apply arrive_replies; [apply serve_replies|done].
  - apply arrive_replies; [apply warm_replies|done].
  - apply arrive_replies; [apply page_replies|done].
Qed.

Lemma interleaved_replies obs (o : Outside E) p : interleaved h obs o p → pool_ok p.
Proof.
  intros Hr. assert (pool_ok (pool_init h obs o)) as Hinit.
  { split; [|done]. split; [constructor|done|done]. }
  revert Hinit. unfold interleaved in Hr. induction Hr as [|p1 p2 p3 Hs _ IH]; [done|].
  intros Hp. apply IH. by eapply proxy_step_replies.
Qed.
End pools.

(** ** Theorems *)



(** ** The example deployment *)

(** The first listing about to fetch, the second not started. *)
Definition fetching_ex : proxy_pool env_ex :=
  run_schedule teardown_steps (new_local None) (replicate 5 0) two_arrived_ex.

Lemma fetching_ex_interleaved : interleaved handler_ex obs_ex outside_ex fetching_ex.
Proof.
  unfold interleaved. etrans; [apply two_arrived_ex_interleaved|].
  eapply (rtc_subrel proxy_moves); [intros ? ?; apply proxy_move|apply run_schedule_moves].
Qed.


