(* ===== verification/Simulate.v ===== *)
(** * A goroutine running alone does what [Handler.v] says

    The sequential definitions are the goroutines run without interruption: a
    simulation between the two, step by step, and from it that every state of
    [Main.reachable] is one of the concurrent proxy's. *)

From Stdlib Require Import Ascii.
From stdpp Require Import base numbers option pretty gmap fin_maps sorting strings list relations.
From S2P Require Import Prelude GoStrings Json Parse Decode Config Registry Session Cells Http Rpc Schema.
From S2P Require Import ParamHeaders Client Catalog Auth OAuth Observability Handler HandlerSelect.
From S2P Require Import Main Threads Concurrent Interleave.

#[local] Set Warnings "-clear-no-such-hyp".
#[local] Open Scope nat_scope.

(** ** The relation *)

Section sims.
Context {E : Env}.
Implicit Types (w : World E) (s : State E).

(** The state of [Handler.v] a world, a goroutine and pending teardowns denote;
    a handler that does not record has no attributes yet ([noted] is false). *)
Record matches (noted : bool) s w (l : Local) (tasks : list (Tenant * string)) : Prop := {
  ma_store : h_store s = deref_store (g_sessions w);
  ma_cat : h_cat s = g_cat w;
  ma_obs : h_obs s = g_obs w;
  ma_tasks : h_tasks s = tasks;
  ma_w : h_w s = l_w l;
  ma_out : noted = true → h_out s = l_out l }.

(** Run alone from [w], the goroutine does what [m] does, and their values are
    related by [V] in the world they leave. *)
Definition sims {A B} (noted : bool) (V : A → B → World E → Prop)
    (t : goroutine E A) (m : M (State E) B) w : Prop :=
  ∀ s l tasks, pstore_wf (g_sessions w) → matches noted s w l tasks →
  let '(o, (w', l'), fs) := solo t (w, l) in
  matches noted (m s).2 w' l' (tasks ++ fs) ∧ pstore_wf (g_sessions w') ∧
  match o, (m s).1 with Return v, Return v' => V v v' w' | Panic, Panic => True | _, _ => False end.

Definition same {A} (v v' : A) w : Prop := v = v'.

Lemma sims_bind {A A' B B'} b (V : A → A' → World E → Prop) (V' : B → B' → World E → Prop) t k m k' w :
  sims b V t m w → (∀ v v' w', V v v' w' → sims b V' (k v) (k' v') w') →
  sims b V' (t ≫= k) (m ≫= k') w.
Proof.
  intros Ht Hk s l tasks Hwf Hm. specialize (Ht s l tasks Hwf Hm). rewrite solo_bind, bind_run.
  destruct (solo t (w, l)) as [[o [w1 l1]] fs]. destruct Ht as (Hm1 & Hwf1 & Ho).
  destruct (m s) as [[v'|] s1], o as [v|]; cbn [fst snd] in *; try done.
  specialize (Hk v v' w1 Ho s1 l1 (tasks ++ fs) Hwf1 Hm1).
  destruct (solo (k v) (w1, l1)) as [[o2 [w2 l2]] fs2]. by rewrite <- (assoc_L (++)) in Hk.
Qed.

Lemma sims_ret {A B} b (V : A → B → World E → Prop) v v' w : V v v' w → sims b V (mret v) (mret v') w.
Proof. intros HV s l tasks Hwf Hm. cbn. rewrite app_nil_r. by split_and!. Qed.

Lemma sims_write b f w : sims b same (write_step f) (write f) w.
Proof. intros s l tasks Hwf [? ? ? ? Hw ?]. cbn. rewrite app_nil_r. split_and!; [|done|done]. split; cbn; by rewrite ?Hw. Qed.

Lemma sims_record b f w : sims b same (record_step f) (record f) w.
Proof. intros s l tasks Hwf [? ? Ho ? ? ?]. cbn. rewrite app_nil_r. split_and!; [|done|done]. split; cbn; by rewrite ?Ho. Qed.

Lemma sims_record_keeps b f w :
  sims b (λ _ _ w', g_sessions w' = g_sessions w) (record_step f) (record f) w.
Proof. intros s l tasks Hwf Hm. destruct (sims_record b f w s l tasks Hwf Hm) as (? & ? & _). by split_and!. Qed.

Lemma sims_note f w : sims true same (note_step f) (note f) w.
Proof.
  intros s l tasks Hwf [? ? ? ? ? Ho]. cbn. rewrite app_nil_r. split_and!; [|done|done].
  split; cbn; try done. intros _. by rewrite Ho.
Qed.

Lemma sims_attrs w : sims true same out_attrs (gets h_out) w.
Proof.
  intros s l tasks Hwf Hm. cbn. rewrite app_nil_r. split_and!; [done..|]. unfold same. symmetry.
  by apply Hm.
Qed.

Lemma matches_cat b s w l tasks c :
  matches b s w l tasks → matches b (set_cat c s) (mkWorld (g_sessions w) c (g_obs w)) l tasks.
Proof. by intros [? ? ? ? ? ?]. Qed.

(** *** On the catalogs and the outside *)

(** Alone, the goroutine is [m] on the catalogs, and starts nothing. *)
Definition cat_solo {A} (t : goroutine E A) (m : M (CatState E) A) : Prop :=
  ∀ w l, solo t (w, l) =
    let '(o, c) := m (g_cat w) in (o, (mkWorld (g_sessions w) c (g_obs w), l), []).

Lemma sims_cat {A} b (t : goroutine E A) m w : cat_solo t m → sims b same t (on_cat m) w.
Proof.
  intros Ht s l tasks Hwf Hm. rewrite Ht. unfold on_cat, zoom. rewrite (ma_cat _ _ _ _ _ Hm).
  destruct (m (g_cat w)) as [o c]. cbn [fst snd]. rewrite app_nil_r.
  split_and!; [by apply matches_cat|done|by destruct o].
Qed.

Lemma cat_solo_step {A} (m : M (CatState E) A) : cat_solo (cat_step m) m.
Proof. intros w l. unfold cat_step. rewrite solo_atomic. unfold zoom. cbn. by destruct (m (g_cat w)). Qed.

Lemma cat_solo_ret {A} (v : A) : cat_solo (mret v) (mret v).
Proof. intros [] l. done. Qed.

Lemma cat_solo_bind {A B} (t : goroutine E A) (k : A → goroutine E B) m k' :
  cat_solo t m → (∀ v, cat_solo (k v) (k' v)) → cat_solo (t ≫= k) (m ≫= k').
Proof.
  intros Ht Hk w l. rewrite solo_bind, Ht, bind_run.
  destruct (m (g_cat w)) as [[v|] c]; [|done]. rewrite Hk. cbn [g_cat g_sessions g_obs].
  by destruct (k' v c).
Qed.

Lemma cat_solo_locking {A} i (t : goroutine E A) m : cat_solo t m → cat_solo (locking i t) m.
Proof. intros Ht w l. by rewrite solo_locking, Ht. Qed.

Lemma cat_solo_panic {A} : cat_solo (Done Panic : goroutine E A) panic.
Proof. intros [] l. done. Qed.

Lemma cat_solo_ext {A} (t : goroutine E A) m m' :
  (∀ c, m c = m' c) → cat_solo t m → cat_solo t m'.
Proof. intros He Ht w l. by rewrite Ht, He. Qed.

Lemma sims_out {A} b (m : M (Outside E) A) w : sims b same (out_step m) (on_out m) w.
Proof. apply sims_cat, cat_solo_step. Qed.

Lemma outside_bind {A B} (m : M (Outside E) A) (k : A → M (Outside E) B) (c : CatState E) :
  outside (m ≫= k) c = (outside m ≫= λ v, outside (k v)) c.
Proof. unfold outside, zoom, mbind, M_bind. by destruct (m (ct_out c)) as [[v|] o]. Qed.

Lemma cat_solo_outside_bind {A B} (t : goroutine E A) (k : A → goroutine E B) m k' :
  cat_solo t (outside m) → (∀ v, cat_solo (k v) (outside (k' v))) → cat_solo (t ≫= k) (outside (m ≫= k')).
Proof.
  intros Ht Hk. eapply cat_solo_ext; [intros c; symmetry; apply outside_bind|by apply cat_solo_bind].
Qed.

Lemma cat_solo_outside_ret {A} (v : A) : cat_solo (mret v) (outside (mret v)).
Proof. intros [? [] ?] l. done. Qed.

Lemma cat_solo_out {A} (m : M (Outside E) A) : cat_solo (out_step m) (outside m).
Proof. apply cat_solo_step. Qed.

#[local] Hint Resolve cat_solo_step cat_solo_ret cat_solo_bind cat_solo_locking cat_solo_panic
  cat_solo_outside_ret cat_solo_outside_bind cat_solo_out : proxy.

(** *** The catalogs *)

Lemma fetch_solo c : cat_solo (fetch_steps c) (outside (fetch c)).
Proof.
  unfold fetch_steps, fetch. destruct (Stateless (k_backend c)); [auto with proxy|].
  apply cat_solo_outside_bind; [auto with proxy|]. intros [[sid res]|e]; [|auto with proxy].
  apply cat_solo_outside_bind; [destruct (nonempty sid)|]; auto with proxy.
Qed.

Lemma get_solo i : cat_solo (get_steps i) (get i).
Proof.
  apply cat_solo_locking. unfold get_body, get. apply cat_solo_bind; [auto with proxy|].
  intros [c|]; [|auto with proxy]. apply cat_solo_bind; [auto with proxy|]. intros [|]; [auto with proxy|].
  apply cat_solo_bind; [apply fetch_solo|]. intros [tools|e]; [|auto with proxy].
  apply cat_solo_bind; [destruct tools; auto with proxy|]. intros refs. auto with proxy.
Qed.

Lemma collect_solo ts : cat_solo (collect_steps ts) (collect_tools ts).
Proof.
  induction ts as [|t ts IH]; [apply cat_solo_ret|]. cbn [collect_steps collect_tools].
  apply cat_solo_bind; [auto with proxy|]. intros [i|]; [|done].
  apply cat_solo_bind; [apply get_solo|]. intros r. auto with proxy.
Qed.

Lemma toolsFor_solo ts : cat_solo (toolsFor_steps ts) (toolsFor ts).
Proof. apply cat_solo_bind; [apply collect_solo|]. auto with proxy. Qed.

Lemma warm_from_solo l : cat_solo (warm_from_steps l) (warm_from l).
Proof.
  induction l as [|i l IH]; [apply cat_solo_ret|]. cbn [warm_from_steps warm_from].
  apply cat_solo_bind; [apply get_solo|]. intros r. auto with proxy.
Qed.

(** *** Lookups *)

(** Alone, the goroutine only reads. *)
Definition reads {A} (t : goroutine E A) (f : CatState E → A) : Prop :=
  ∀ w l, solo t (w, l) = (Return (f (g_cat w)), (w, l), []).

Lemma reads_ret {A} (v : A) : reads (mret v) (λ _, v).
Proof. done. Qed.

Lemma reads_gets {A} (f : CatState E → A) : reads (cat_step (gets f)) f.
Proof. intros [? [] ?] l. done. Qed.

Lemma sims_reads {A B B'} b (V : B → B' → World E → Prop) (t : goroutine E A) f k
    (k' : A → M (State E) B') w :
  reads t f → sims b V (k (f (g_cat w))) (k' (f (g_cat w))) w →
  sims b V (t ≫= k) (gets (λ s, f (h_cat s)) ≫= k') w.
Proof.
  intros Ht Hk s l tasks Hwf Hm. specialize (Hk s l tasks Hwf Hm). rewrite solo_bind, Ht.
  rewrite bind_run. cbn [gets]. unfold gets. rewrite (ma_cat _ _ _ _ _ Hm).
  by destruct (solo (k (f (g_cat w))) (w, l)) as [[o [w1 l1]] fs].
Qed.

Lemma cachedTool_reads id name :
  reads (cachedTool_steps id name) (λ c, cachedTool (ct_heap c) (ct_cats c) id name).
Proof.
  intros w l. unfold cachedTool_steps. rewrite solo_bind, reads_gets.
  unfold cachedTool. destruct (forTenant (ct_cats (g_cat w)) id) as [i|]; [|done].
  rewrite solo_bind, solo_locking, reads_gets. unfold cached_at. cbn [mbind option_bind].
  destruct (cs_unique (ct_cats (g_cat w)) !! i) as [k|]; [|done]. cbn [mbind option_bind].
  destruct (cached k) as [refs|]; [|done]. rewrite solo_bind, reads_gets. done.
Qed.

Lemma may_have_reads name t :
  reads (may_have_steps name t) (λ c, may_have (ct_heap c) (ct_cats c) name t).
Proof. intros w l. unfold may_have_steps. by rewrite solo_bind, cachedTool_reads. Qed.

Lemma tenantsWithTool_reads name ts :
  reads (tenantsWithTool_steps name ts) (λ c, tenantsWithTool (ct_heap c) (ct_cats c) name ts).
Proof.
  induction ts as [|t ts IH]; [apply reads_ret|]. intros w l. cbn [tenantsWithTool_steps].
  rewrite solo_bind, may_have_reads, solo_bind, IH. cbn. unfold tenantsWithTool. cbn [List.filter].
  by destruct (may_have _ _ name t).
Qed.

Lemma unavailable_reads name t ts :
  reads (unavailable_steps name t ts) (λ c, unavailable (ct_heap c) (ct_cats c) name t ts).
Proof.
  intros w l. unfold unavailable_steps, unavailable. rewrite solo_bind, may_have_reads.
  destruct (may_have _ _ name t); [done|]. rewrite solo_bind, tenantsWithTool_reads.
  unfold unavailable_message. by destruct (List.filter _ _).
Qed.

(** *** The store *)

(** The pointer is to this session. *)
Definition points (p : nat) (sess : Session) w : Prop := ps_cells (g_sessions w) !! p = Some sess.

Definition may_point (p : option nat) (sess : option Session) w : Prop :=
  match p, sess with Some p, Some sess => points p sess w | None, None => True | _, _ => False end.

(** A step on the store that may read the clock and the random source. *)
Lemma sims_sessions {A B} b (V : A → B → World E → Prop) (n d : nat → nat)
    (f : Outside E → PStore → PStore * A) (g : Outside E → Store → Store * B)
    (m : M (World E * Local) A) (m' : M (State E) B) w :
  let out' o := mkOutside (o_net o) (n (o_ticks o)) (d (o_draws o)) (o_log o) in
  (∀ w l, let o := ct_out (g_cat w) in m (w, l) =
     (Return (f o (g_sessions w)).2,
      (mkWorld (f o (g_sessions w)).1 (with_out (g_cat w) (out' o)) (g_obs w), l))) →
  (∀ s, let o := ct_out (h_cat s) in m' s =
     (Return (g o (h_store s)).2, set_store (g o (h_store s)).1 (set_cat (with_out (h_cat s) (out' o)) s))) →
  (∀ o st, pstore_wf st →
     (g o (deref_store st)).1 = deref_store (f o st).1 ∧ pstore_wf (f o st).1 ∧
     ∀ w', g_sessions w' = (f o st).1 → V (f o st).2 (g o (deref_store st)).2 w') →
  sims b V (atomic m) m' w.
Proof.
  intros out' Hm Hm' Hfg s l tasks Hwf [Hst Hc ? ? ? ?]. rewrite solo_atomic, Hm, Hm', Hst, Hc.
  destruct (Hfg (ct_out (g_cat w)) (g_sessions w) Hwf) as (He & Hwf' & HV).
  cbn [fst snd]. rewrite app_nil_r. split_and!; [by split|done|by apply HV].
Qed.

Lemma store_pair {A} (x : Store * A) (s : State E) :
  (let '(st, v) := x in _ ← modify (set_store st); mret v) s = (Return x.2, set_store x.1 s).
Proof. by destruct x. Qed.

Lemma mint_sims b w : sims b points mint_step session_Mint w.
Proof.
  eapply (sims_sessions b points (λ n, S (S n)) S
    (λ o, p_Mint (e_clock E (o_ticks o)) (e_clock E (S (o_ticks o))) (e_random E (o_draws o)))
    (λ o, Mint (e_clock E (o_ticks o)) (e_clock E (S (o_ticks o))) (e_random E (o_draws o)))).
  - intros w' l. exact (on_sessions_eq _ (_, l)).
  - intros s. reflexivity.
  - intros o st Hwf. pose proof (p_Mint_spec (e_clock E (o_ticks o)) (e_clock E (S (o_ticks o)))
      (e_random E (o_draws o)) st Hwf) as Hspec.
    destruct (p_Mint _ _ _ _) as [st' p]. destruct Hspec as (-> & Hp & Hwf'). split_and!; [done..|].
    cbn [fst snd]. intros w' Hw'. unfold points. rewrite Hw', Hp. done.
Qed.

Lemma get_session_sims b id w : sims b may_point (get_step id) (session_Get id) w.
Proof.
  eapply (sims_sessions b may_point (λ n, S (S n)) (λ n, n)
    (λ o, p_Get (e_clock E (o_ticks o)) (e_clock E (S (o_ticks o))) id)
    (λ o, Get (e_clock E (o_ticks o)) (e_clock E (S (o_ticks o))) id)).
  - intros w' l. exact (on_sessions_eq _ (_, l)).
  - intros s. exact (store_pair (Get (e_clock E (o_ticks (ct_out (h_cat s))))
      (e_clock E (S (o_ticks (ct_out (h_cat s))))) id (h_store s)) (set_cat _ s)).
  - intros o st Hwf. pose proof (p_Get_spec (e_clock E (o_ticks o)) (e_clock E (S (o_ticks o))) id st Hwf) as Hspec.
    destruct (p_Get _ _ _ _) as [st' [p|]]; destruct Hspec as (-> & -> & Hp & Hwf'); (split_and!; [done..|]);
      intros w' Hw'; [|done].
    destruct (Hp p eq_refl) as [sess Hs]. cbn in *. unfold points. by rewrite Hw', Hs.
Qed.

Lemma set_sims b pid bk sid w :
  sims b same (set_step pid bk sid) (session_SetBackendSID pid bk sid) w.
Proof.
  eapply (sims_sessions b same S (λ n, n)
    (λ o st, (p_SetBackendSID (e_clock E (o_ticks o)) pid bk sid st, ()))
    (λ o st, (SetBackendSID (e_clock E (o_ticks o)) pid bk sid st, ()))); [done|done|].
  intros o st Hwf. destruct (p_SetBackendSID_spec (e_clock E (o_ticks o)) pid bk sid st Hwf) as [He Hwf'].
  split_and!; [exact He|exact Hwf'|done].
Qed.

Lemma delete_sims b pid w : sims b may_point (delete_step pid) (session_Delete pid) w.
Proof.
  eapply (sims_sessions b may_point (λ n, n) (λ n, n) (λ _, p_Delete pid) (λ _, Delete pid)).
  - intros [st [heap cs []] ob] l. exact (on_sessions_eq _ (_, l)).
  - intros [st [heap cs []] ? ? ? ?]. exact (store_pair (Delete pid st) _).
  - intros o st Hwf. pose proof (p_Delete_spec pid st Hwf) as Hspec.
    destruct (p_Delete _ _) as [st' [p|]]; destruct Hspec as (-> & -> & Hp & Hwf'); (split_and!; [done..|]);
      intros w' Hw'; [|done].
    destruct (Hp p eq_refl) as [sess Hs]. cbn in *. unfold points. by rewrite Hw', Hs.
Qed.

(** Reading the world is no step of the sequential definitions. *)
Lemma sims_look {A B B'} b (V : B → B' → World E → Prop) (f : World E → A) k (m : M (State E) B') w :
  sims b V (k (f w)) m w → sims b V (gets_step f ≫= k) m w.
Proof.
  intros Hk s l tasks Hwf Hm. specialize (Hk s l tasks Hwf Hm). rewrite solo_bind. cbn.
  by destruct (solo (k (f w)) (w, l)) as [[o [w' l']] fs].
Qed.

Lemma points_BackendSID p sess b w : points p sess w → p_BackendSID (g_sessions w) p b = BackendSID sess b.
Proof. intros Hp. unfold p_BackendSID. by rewrite Hp. Qed.

Lemma points_ID p sess w : points p sess w → p_ID (g_sessions w) p = s_ID sess.
Proof. intros Hp. unfold p_ID. by rewrite Hp. Qed.
End sims.

#[export] Hint Resolve sims_ret sims_write sims_record sims_note sims_attrs sims_out set_sims : proxy.

(** ** Handlers *)

Ltac sims_next := eapply sims_bind; [auto with proxy|]; intros ? ? ? ->.

Section handlers.
Context {V : Type} `{Verifier V} (h : Handler V) {E : Env}.
Implicit Types w : World E.

Abbreviation reg := (Registry_ h).

Lemma same_refl {A} (v : A) w : same v v w.
Proof. done. Qed.
#[local] Hint Resolve same_refl : proxy.

Lemma select_reads name args groups ts :
  reads (selectTenant_steps h (E := E) name args groups ts)
    (λ c, selectTenant h (ct_heap c) (ct_cats c) name args groups ts).
Proof.
  intros w l. unfold selectTenant_steps, selectTenant. destruct (nonempty _).
  - destruct (ResolveTenant reg _) as [t|]; [|done]. destruct (negb _); [done|].
    by rewrite solo_bind, unavailable_reads.
  - destruct ts as [|t [|t' ts]]; [done|by rewrite solo_bind, unavailable_reads|].
    rewrite solo_bind, tenantsWithTool_reads. by destruct (tenantsWithTool _ _ name _) as [|c [|]].
Qed.

Lemma finish_sims b id resp w :
  sims b same (finish_call_steps (E := E) id resp) (finish_call id resp) w.
Proof. destruct resp; unfold finish_call_steps, finish_call; sims_next; auto with proxy. Qed.

Lemma open_sims b pid t w :
  sims b same (open_backend_session_steps (E := E) pid t) (open_backend_session pid t) w.
Proof.
  unfold open_backend_session_steps, open_backend_session. sims_next.
  match goal with |- context [match ?r with Ok _ => _ | Err _ => _ end] => destruct r as [[sid res]|e] end;
    [|auto with proxy].
  eapply (sims_bind _ same); [destruct (nonempty sid); auto with proxy|]. intros [] [] w2 _. sims_next. auto with proxy.
Qed.

Lemma route_sims b r id t bytes name ph w :
  sims b same (routeToBackend_steps (E := E) r id t bytes name ph) (routeToBackend r id t bytes name ph) w.
Proof.
  unfold routeToBackend_steps, routeToBackend. destruct (Stateless (t_Backend t)).
  { sims_next. apply finish_sims. }
  eapply sims_bind; [apply get_session_sims|]. intros [p|] [sess|] w1 Hp; cbn in Hp; try done.
  2:{ sims_next. auto with proxy. }
  apply sims_look. rewrite (points_BackendSID _ _ _ _ Hp).
  eapply (sims_bind _ same).
  { destruct (BackendSID sess (t_ID t)); [auto with proxy|apply open_sims]. }
  intros [sid|e] ? w2 <-.
  - sims_next. apply finish_sims.
  - sims_next. auto with proxy.
Qed.

Lemma paramHeaders_reads t name args :
  reads (paramHeadersForCall_steps (E := E) t name args)
    (λ c, paramHeadersForCall (ct_heap c) (ct_cats c) t name args).
Proof. intros w l. unfold paramHeadersForCall_steps. by rewrite solo_bind, cachedTool_reads. Qed.

Lemma forward_sims r req params t w :
  sims true same (forward_call_steps (E := E) r req params t) (forward_call r req params t) w.
Proof.
  unfold forward_call_steps, forward_call. sims_next. destruct (stripTenantArg (j_Params req)) as [clean|e].
  2:{ sims_next. auto with proxy. }
  eapply (sims_reads _ _ _ (λ c, paramHeadersForCall (ct_heap c) (ct_cats c) t (tp_Name params) (tp_Arguments params)));
    [apply paramHeaders_reads|]. eapply sims_bind; [apply route_sims|].
  intros [] ? w2 <-; auto with proxy.
Qed.

Lemma auth_failure_sims r id e w :
  sims true same (auth_failure_steps h (E := E) r id e) (auth_failure h r id e) w.
Proof. destruct e; unfold auth_failure_steps, auth_failure; repeat sims_next; auto with proxy. Qed.

Lemma tools_call_sims r req w :
  sims true same (tools_call_steps h (E := E) r req) (tools_call_body h r req) w.
Proof.
  unfold tools_call_steps, tools_call_body. sims_next.
  match goal with |- context [Groups _ ?t r] => destruct (Groups (Verifier_ h) t r) as [groups|e] end;
    [|apply auth_failure_sims].
  destruct (match j_Params req with Some v => unmarshal_params v | None => Err BadSyntax end) as [params|e].
  2:{ sims_next. auto with proxy. }
  sims_next. destruct (String.eqb _ _); [auto with proxy|].
  eapply (sims_reads _ _ _ (λ c, selectTenant h (ct_heap c) (ct_cats c) (tp_Name params)
    (tp_Arguments params) groups (AuthorizedTenants reg groups))); [apply select_reads|].
  match goal with |- context [selectTenant ?a ?b ?c ?d ?e ?f ?g] => destruct (selectTenant a b c d e f g) end;
    [apply forward_sims|]. sims_next. auto with proxy.
Qed.

Lemma sims_deferring b cleanup (t : goroutine E ()) c m w :
  sims b same t m w → (∀ w, sims b same cleanup c w) →
  (∀ s, (c s).1 = Return ()) → sims b same (deferring cleanup t) (deferred c m) w.
Proof.
  intros Ht Hc Hret s l tasks Hwf Hm. specialize (Ht s l tasks Hwf Hm). rewrite solo_deferring. unfold deferred.
  destruct (solo t (w, l)) as [[o [w1 l1]] fs]. destruct Ht as (Hm1 & Hwf1 & Ho).
  destruct (m s) as [o' s1]. cbn [fst snd] in *.
  specialize (Hc w1 s1 l1 (tasks ++ fs) Hwf1 Hm1). destruct (solo cleanup (w1, l1)) as [[o2 [w2 l2]] fs2].
  destruct Hc as (Hm2 & Hwf2 & _). rewrite (assoc_L (++)). split_and!; [done..|].
  destruct o, o'; done.
Qed.

(** The attributes start anew. *)
Lemma sims_reset {B} b (f : ToolCallAttrs) (V' : () → B → World E → Prop) k (m : M (State E) B) w :
  sims true V' (k ()) m w → sims b V' (note_step (λ _, f) ≫= k) (note (λ _, f) ≫= λ _, m) w.
Proof.
  intros Hk s l tasks Hwf Hm. rewrite solo_bind. cbn [note_step].
  specialize (Hk (set_out f s) (mkLocal (l_req l) f (l_w l)) tasks Hwf).
  destruct Hm as [? ? ? ? ? ?]. unfold note_step. rewrite solo_atomic. cbn [modify fst snd].
  unfold modify. cbn [fst snd]. rewrite bind_run. cbn [note]. unfold note, modify.
  destruct (solo (k ()) (w, mkLocal (l_req l) f (l_w l))) as [[o [w1 l1]] fs].
  destruct Hk as (Hm1 & Hwf1 & Ho); [by split|]. split_and!; [|done|done].
  destruct Hm1 as [? ? ? ? ? Hout]. split; try done. intros _. by apply Hout.
Qed.

Lemma handleToolsCall_sims b r req w :
  sims b same (handleToolsCall_steps h (E := E) r req) (handleToolsCall h r req) w.
Proof.
  unfold handleToolsCall_steps, handleToolsCall. sims_next. apply sims_reset.
  apply sims_deferring; [apply tools_call_sims| |done].
  intros w2. unfold record_op_steps, record_op. sims_next. sims_next. auto with proxy.
Qed.

Lemma handleInitialize_sims b req w :
  sims b same (handleInitialize_steps h (E := E) req) (handleInitialize h req) w.
Proof.
  unfold handleInitialize_steps, handleInitialize. sims_next. destruct (AllStateless reg); [auto with proxy|].
  eapply sims_bind; [apply mint_sims|]. intros p sess w2 Hp.
  eapply sims_bind; [apply sims_record_keeps|]. intros [] [] w3 Hs. apply sims_look.
  rewrite (points_ID p sess) by (unfold points; by rewrite Hs). sims_next. auto with proxy.
Qed.

Lemma handleToolsList_sims b r req w :
  sims b same (handleToolsList_steps h (E := E) r req) (handleToolsList h r req) w.
Proof.
  unfold handleToolsList_steps, handleToolsList. sims_next.
  match goal with |- context [Groups _ ?t r] =>
    destruct (listed_tenants h (Groups (Verifier_ h) t r)) as [tenants discovery] end.
  eapply (sims_bind _ same); [apply sims_cat, toolsFor_solo|]. intros [views|e] ? w2 <-; [|auto with proxy].
  eapply (sims_reads _ _ _ ct_heap); [apply reads_gets|]. cbv zeta.
  eapply (sims_bind _ same); [apply sims_cat, cat_solo_step|]. intros out ? w3 <-.
  eapply (sims_bind _ same); [apply sims_cat, cat_solo_step|]. intros local ? w4 <-.
  eapply (sims_reads _ _ _ ct_heap); [apply reads_gets|]. auto with proxy.
Qed.

Lemma teardown_loop_solo p sess ts w l :
  points p sess w → solo (teardown_loop (E := E) p ts) (w, l) = (Return (), (w, l), teardown_sids sess ts).
Proof.
  intros Hp. induction ts as [|t ts IH]; [done|]. cbn [teardown_loop]. rewrite solo_bind. cbn.
  rewrite (points_BackendSID _ _ _ _ Hp). destruct (BackendSID sess (t_ID t)) as [sid|]; [|by rewrite IH].
  destruct (nonempty sid); cbn; by rewrite IH.
Qed.

Lemma teardown_sims b p sess ts w :
  points p sess w →
  sims b same (teardown_loop (E := E) p ts) (modify (λ s, set_tasks (h_tasks s ++ teardown_sids sess ts) s)) w.
Proof.
  intros Hp s l tasks Hwf [? ? ? Ht ? ?]. rewrite (teardown_loop_solo p sess) by done. cbn.
  split_and!; [|done|done]. split; cbn; by rewrite ?Ht.
Qed.

Lemma handleDelete_sims b r w : sims b same (handleDelete_steps h (E := E) r) (handleDelete h r) w.
Proof.
  unfold handleDelete_steps, handleDelete. destruct (AllStateless reg); [auto with proxy|].
  eapply sims_bind; [apply delete_sims|]. intros p sess w2 Hp.
  eapply (sims_bind _ same); [|intros [] [] w3 _; auto with proxy].
  destruct p as [p|], sess as [sess|]; try done; [by apply teardown_sims|auto with proxy].
Qed.

Lemma dispatch_sims b r req w : sims b same (dispatch_steps h (E := E) r req) (dispatch h r req) w.
Proof.
  unfold dispatch_steps, dispatch, handleDiscover.
  destruct (String.eqb _ _); [apply handleInitialize_sims|]. do 2 (destruct (String.eqb _ _); [auto with proxy|]).
  destruct (String.eqb _ _); [apply handleToolsList_sims|].
  destruct (String.eqb _ _); [apply handleToolsCall_sims|].
  destruct (String.eqb _ _); [auto with proxy|]. destruct (isNotification req); auto with proxy.
Qed.

Lemma ServeHTTP_sims b r w : sims b same (ServeHTTP_steps h (E := E) r) (ServeHTTP h r) w.
Proof.
  unfold ServeHTTP_steps, ServeHTTP. destruct (String.eqb _ _); [apply handleDelete_sims|].
  destruct (String.eqb _ _); [sims_next; auto with proxy|]. destruct (negb _); [auto with proxy|].
  destruct (r_Body r) as [body|]; [|auto with proxy].
  destruct (v ← parse_text body; unmarshal_request v) as [req|e]; [|auto with proxy].
  eapply (sims_bind _ same); [destruct (AllStateless reg); auto with proxy|]. intros [] [] w2 _.
  apply dispatch_sims.
Qed.
End handlers.

(** ** Pools *)

Lemma filter_split {A} (P : A → Prop) `{∀ x, Decision (P x)} l k1 x k2 :
  filter P l = k1 ++ x :: k2 → ∃ l1 l2, l = l1 ++ x :: l2 ∧ filter P l1 = k1 ∧ filter P l2 = k2.
Proof.
  revert k1. induction l as [|y l IH]; intros k1 Hf; [by destruct k1|]. rewrite filter_cons in Hf.
  case_decide as Hy.
  - destruct k1 as [|z k1]; injection Hf as -> Hf.
    + by exists [], l.
    + destruct (IH k1 Hf) as (l1 & l2 & -> & <- & <-). exists (z :: l1), l2.
      by rewrite filter_cons_True.
  - destruct (IH k1 Hf) as (l1 & l2 & -> & <- & <-). exists (y :: l1), l2. by rewrite filter_cons_False.
Qed.

Section pools.
Context {V : Type} `{Verifier V} (h : Handler V) {E : Env}.
Implicit Types (p : proxy_pool E) (s : State E) (w : World E).

Definition pending (ts : list (goroutine E () * Local)) : list (goroutine E () * Local) :=
  filter (λ tl, is_done tl.1 = false) ts.

Definition teardown_threads (tasks : list (Tenant * string)) : list (goroutine E () * Local) :=
  (λ task, (teardown_steps task, new_local None)) <$> tasks.

(** Between requests: every goroutine is done but the teardowns not yet begun. *)
Record represents p s : Prop := {
  re_locks : po_locks p = ∅;
  re_wf : pstore_wf (g_sessions (po_world p));
  re_store : h_store s = deref_store (g_sessions (po_world p));
  re_cat : h_cat s = g_cat (po_world p);
  re_obs : h_obs s = g_obs (po_world p);
  re_pending : pending (po_threads p) = teardown_threads (h_tasks s) }.

Lemma pending_app ts ts' : pending (ts ++ ts') = pending ts ++ pending ts'.
Proof. apply filter_app. Qed.

Lemma pending_teardowns tasks : pending (teardown_threads tasks) = teardown_threads tasks.
Proof.
  induction tasks as [|task tasks IH]; [done|]. unfold pending, teardown_threads in *. cbn [fmap list_fmap].
  rewrite filter_cons_True by done. by rewrite IH.
Qed.

Lemma represents_init obs (o : Outside E) : represents (pool_init h obs o) (proxy_init h obs o).
Proof. split; [done|apply wf_new|symmetry; apply deref_new|done..]. Qed.

(** A new goroutine run to its end. *)
Lemma arrive_solo t r p w' l' o fs :
  po_locks p = ∅ → bracketed None t → solo t (po_world p, new_local r) = (o, (w', l'), fs) →
  rtc proxy_moves (arrive t r p) (mkPool w' ∅ (po_threads p ++ (Done o, l') :: teardown_threads fs)).
Proof.
  intros Hl Hb Hs. pose proof (solo_moves teardown_steps (new_local None) t (po_world p) (new_local r) None
    (po_threads p) [] Hb) as Hm. rewrite Hs in Hm. unfold arrive. rewrite Hl. exact Hm.
Qed.

Lemma represents_after p s w' l' l'' o fs noted :
  pending (po_threads p) = teardown_threads (h_tasks s) → pstore_wf (g_sessions w') →
  ∀ s', matches noted s' w' l'' (h_tasks s ++ fs) →
  represents (mkPool w' ∅ (po_threads p ++ (Done o, l') :: teardown_threads fs)) s'.
Proof.
  intros Hp Hwf s' [Hst Hc Ho Ht _ _]. split; try done. cbn [po_threads].
  rewrite pending_app, Hp, Ht. unfold pending at 1. rewrite filter_cons_False by done.
  fold (pending (teardown_threads fs)). rewrite pending_teardowns. unfold teardown_threads.
  by rewrite fmap_app.
Qed.

Lemma serve_simulated r p s :
  represents p s → ∃ p' l,
    rtc proxy_moves (arrive (serve_steps h r) (Some r) p) p' ∧ represents p' (serve h r s).2 ∧
    match (serve h r s).1 with
    | Return w => po_threads p' !! length (po_threads p) = Some (Done (Return ()), l) ∧ l_w l = w
    | Panic => po_threads p' !! length (po_threads p) = Some (Done Panic, l)
    end.
Proof.
  intros [Hl Hwf Hst Hc Ho Hp].
  pose proof (ServeHTTP_sims h false r (po_world p) (set_w new_writer s) (new_local (Some r)) (h_tasks s)
    Hwf ltac:(by split)) as Hsim.
  pose proof (λ w' l' o fs, arrive_solo (serve_steps h r) (Some r) p w' l' o fs Hl (bracketed_serve h r)) as Hrun.
  unfold serve_steps in Hrun at 1. rewrite solo_bind in Hrun. unfold serve.
  destruct (solo (ServeHTTP_steps h r) (po_world p, new_local (Some r))) as [[o [w1 l1]] fs].
  destruct Hsim as (Hm & Hwf1 & Hv). destruct (ServeHTTP h r (set_w new_writer s)) as [o' s1].
  cbn [fst snd] in *. destruct o as [[]|], o' as [[]|]; try done; cbn [fst snd] in *.
  - eexists _, _. split_and!; [eapply Hrun; reflexivity|..].
    + rewrite app_nil_r. by eapply represents_after.
    + cbn. by rewrite list_lookup_middle.
    + cbn. by rewrite (ma_w _ _ _ _ _ Hm).
  - eexists _, _. split_and!; [eapply Hrun; reflexivity|by eapply represents_after|].
    cbn. by rewrite list_lookup_middle.
Qed.

Lemma warm_simulated p s :
  represents p s → ∃ p',
    rtc proxy_moves (arrive (warm_steps (length (cs_unique (ct_cats (g_cat (po_world p)))))) None p) p' ∧
    represents p' (warm_attempt s).2.
Proof.
  intros [Hl Hwf Hst Hc Ho Hp]. set (n := length _).
  pose proof (λ w' l' o fs, arrive_solo (warm_steps n) None p w' l' o fs Hl (bracketed_warm n)) as Hrun.
  unfold warm_steps in Hrun at 1. rewrite solo_bind, warm_from_solo in Hrun.
  unfold warm_attempt, WarmCatalog. rewrite bind_run. unfold on_cat, zoom.
  change (warm (h_cat s)) with (warm_from (seq 0 (length (cs_unique (ct_cats (h_cat s))))) (h_cat s)).
  rewrite Hc. fold n. destruct (warm_from (seq 0 n) (g_cat (po_world p))) as [o c].
  destruct o as [errs|]; (eexists; split; [eapply Hrun; reflexivity|]);
    (eapply (represents_after _ s _ _ (mkLocal None (h_out s) (h_w s)) _ _ false); [done|exact Hwf|]; split; cbn; by rewrite ?app_nil_r).
Qed.

Lemma teardown_simulated t sid l1 l2 p s :
  h_tasks s = l1 ++ (t, sid) :: l2 → represents p s → ∃ p', rtc proxy_moves p p' ∧
    represents p' (on_out (teardownBackend t sid) (set_tasks (l1 ++ l2) s)).2.
Proof.
  intros Ht [Hl Hwf Hst Hc Ho Hp]. destruct p as [w locks ts]. cbn [po_locks po_world po_threads] in *. subst locks.
  rewrite Ht in Hp. unfold teardown_threads in Hp. rewrite fmap_app, fmap_cons in Hp.
  apply filter_split in Hp as (ts0 & ts1 & -> & H0 & H1).
  pose proof (solo_moves teardown_steps (new_local None) (teardown_steps (t, sid)) w (new_local None) None
    ts0 ts1 (λ _, eq_refl)) as Hrun.
  pose proof (sims_out false (teardownBackend t sid) w (set_tasks (l1 ++ l2) s) (mkLocal None (h_out s) (h_w s))
    (l1 ++ l2) Hwf ltac:(by split)) as Hsim.
  unfold teardown_steps at 1 in Hrun. cbn [fst snd] in Hrun. unfold out_step, cat_step in *.
  rewrite solo_atomic in Hrun, Hsim. unfold zoom in *. cbn [fst snd] in *.
  destruct (outside (teardownBackend t sid) (g_cat w)) as [o c]. destruct Hsim as ([? ? ? ? _ _] & Hwf1 & _).
  eexists. split; [exact Hrun|]. cbn [with_cat fst snd] in *. rewrite app_nil_r in *. split; try done.
  cbn [po_threads]. rewrite pending_app. unfold pending, teardown_threads.
  rewrite filter_cons_False by done. by rewrite H0, H1, ma_tasks0, fmap_app.
Qed.

Lemma moves_are_steps p p' : rtc proxy_moves p p' → rtc (proxy_step h) p p'.
Proof. apply rtc_subrel. intros ? ?. apply proxy_move. Qed.

Lemma step_simulated p s s' :
  represents p s → step h s s' → ∃ p', rtc (proxy_step h) p p' ∧ represents p' s'.
Proof.
  intros Hp Hs. destruct Hs as [r s|t sid l1 l2 s Ht|s].
  - destruct (serve_simulated r p s Hp) as (p' & l & Hr & Hp' & _). exists p'. split; [|done].
    eapply rtc_l; [apply proxy_request|by apply moves_are_steps].
  - destruct (teardown_simulated t sid l1 l2 p s Ht Hp) as (p' & Hr & Hp'). exists p'. split; [|done].
    by apply moves_are_steps.
  - destruct (warm_simulated p s Hp) as (p' & Hr & Hp'). exists p'. split; [|done].
    eapply rtc_l; [apply proxy_warm|by apply moves_are_steps].
Qed.

Lemma reachable_simulated obs (o : Outside E) s :
  reachable h obs o s → ∃ p, interleaved h obs o p ∧ represents p s.
Proof.
  intros Hr.
  assert (∀ s0 p0, represents p0 s0 → rtc (step h) s0 s → ∃ p, rtc (proxy_step h) p0 p ∧ represents p s) as Hsim.
  { clear Hr. intros s0 p0 Hp0 Hs. revert p0 Hp0. induction Hs as [s0|s0 s1 s2 Hstep _ IH]; intros p0 Hp0; [by exists p0|].
    destruct (step_simulated _ _ _ Hp0 Hstep) as (p1 & Hr1 & Hp1). destruct (IH p1 Hp1) as (p2 & Hr2 & Hp2).
    exists p2. split; [by etrans|done]. }
  exact (Hsim _ _ (represents_init obs o) Hr).
Qed.
End pools.

(** ** Theorem *)

(** C5: the sequential handlers are the concurrent ones run without
    interruption. Every state the sequential proxy reaches is reached by the
    concurrent one, with the session pointers followed and the teardowns not yet
    begun; from there a request run on its own leads to the state, and the
    answer, that the sequential handler gives. *)
Theorem sequential_simulated {V} `{Verifier V} {E : Env} (h : Handler V) obs (o : Outside E) s r :
  reachable h obs o s → ∃ p p' l,
    interleaved h obs o p ∧ represents p s ∧
    rtc proxy_moves (arrive (serve_steps h r) (Some r) p) p' ∧ represents p' (serve h r s).2 ∧
    match (serve h r s).1 with
    | Return w => po_threads p' !! length (po_threads p) = Some (Done (Return ()), l) ∧ l_w l = w
    | Panic => po_threads p' !! length (po_threads p) = Some (Done Panic, l)
    end.
Proof.
  intros Hr. destruct (reachable_simulated h obs o s Hr) as (p & Hi & Hp).
  destruct (serve_simulated h r p s Hp) as (p' & l & ? & ? & ?). by exists p, p', l.
Qed.

Lemma sequential_simulated_witness :
  let s := proxy_init handler_ex (mkObservability [] [] 0 ":9090" "/metrics") outside_ex in
  is_Some (match (serve handler_ex list_ex s).1 with Return w => Some w | Panic => None end) ∧
  ∃ p', represents p' (serve handler_ex list_ex s).2.
Proof.
  split; [vm_compute; by eexists|].
  destruct (sequential_simulated handler_ex (mkObservability [] [] 0 ":9090" "/metrics") outside_ex
    (proxy_init handler_ex (mkObservability [] [] 0 ":9090" "/metrics") outside_ex) list_ex
    (rtc_refl _ _)) as (p & p' & l & _ & _ & _ & Hp' & _).
  by exists p'.
Defined.
