(* ===== verification/Race.v ===== *)
(** * Two calls at once on one session

    A run in which two tools/call on the same proxy session both find no backend
    session and each opens one: the second to be stored replaces the first, which
    nothing tears down any more. *)

From Stdlib Require Import Ascii.
From stdpp Require Import base numbers option pretty gmap fin_maps sorting strings list relations.
From S2P Require Import Prelude GoStrings Json Parse Decode Config Registry Session Cells Http Rpc Schema.
From S2P Require Import ParamHeaders Client Catalog Auth OAuth Observability Handler HandlerSelect.
From S2P Require Import Main Threads Concurrent.

#[local] Open Scope nat_scope.

(** A backend that numbers the sessions it opens. *)
Definition opens (q : OutRequest) : bool :=
  contains_sub (q_Body q) "initialize" && negb (contains_sub (q_Body q) "notifications").

Definition numbered_response (n : nat) (q : OutRequest) : OutResponse :=
  let p := fake_response q in
  mkOutResponse (p_Status p)
    (header_set mcpSessionHeader (if opens q then "s" +:+ pretty n else "") (p_Header p)) (p_Body p) (p_ReadErr p).

Definition env_numbered : Env := {|
  e_net := nat;
  e_roundtrip n q := (if opens q then S n else n, Some (numbered_response n q));
  e_inject _ h := h;
  e_clock n := Z.of_nat n;
  e_random n := "abcdefghijklmnop";
  e_url_Parse := url_ex |}.

Definition outside_numbered : Outside env_numbered := mkOutside (E := env_numbered) 0 0 0 [].

(** The sessions backends have issued, and those the proxy has deleted. *)
Definition issued (log : list exchange) : list string :=
  omap (λ x, p ← x.2; let sid := header_get mcpSessionHeader (p_Header p) in
             if nonempty sid then Some sid else None) log.

Definition torn_down (log : list exchange) : list string :=
  omap (λ x, if String.eqb (q_Method x.1) "DELETE" then Some (header_get mcpSessionHeader (q_Header x.1)) else None) log.

(** The first goroutine initializes, the next two call, the fourth deletes. *)
Definition race_requests : list Request :=
  let sid := newID "abcdefghijklmnop" in
  [post_ex "dev" "" (rpc_ex "initialize" None); call_ex sid "ro"; call_ex sid "ro";
   mkRequest "DELETE" (header_set mcpSessionHeader sid ∅) "proxy" false None].

Definition race_pool : proxy_pool env_numbered :=
  foldl (λ p r, arrive (serve_steps handler_ex r) (Some r) p)
    (pool_init handler_ex (mkObservability [] [] 0 ":9090" "/metrics") outside_numbered) race_requests.

Definition run_race (calls : list nat) : list exchange :=
  o_log (ct_out (g_cat (po_world (run_schedule teardown_steps (new_local None)
    (replicate 9 0 ++ calls ++ replicate 9 3 ++ replicate 9 4 ++ replicate 9 5) race_pool)))).

(** One call after the other: they share the session, and it is torn down. *)
Example calls_in_turn :
  issued (run_race (replicate 30 1 ++ replicate 30 2)) = ["s0"] ∧
  torn_down (run_race (replicate 30 1 ++ replicate 30 2)) = ["s0"].
Proof. vm_compute. by split. Qed.

(** Taking turns, they open two, and only the second is torn down. *)
Example backend_session_lost :
  issued (run_race (concat (replicate 30 [1; 2]))) = ["s0"; "s1"] ∧
  torn_down (run_race (concat (replicate 30 [1; 2]))) = ["s1"].
Proof. vm_compute. by split. Qed.
