(* ===== verification/Endpoint.v ===== *)
(** * The endpoint: sessions, teardown, protocol errors, start-up

    What [initialize], DELETE and requests no handler takes do to the proxy, and
    what a successful start-up guarantees. *)

From Stdlib Require Import Ascii.
From stdpp Require Import base numbers option pretty gmap fin_maps sorting strings list relations.
From S2P Require Import Prelude GoStrings Json Decode Config Registry Session Http Rpc Schema.
From S2P Require Import ParamHeaders Client Catalog Auth OAuth Observability Handler HandlerSelect Main Isolation.

#[local] Set Warnings "-clear-no-such-hyp".
#[local] Open Scope nat_scope.

Section endpoint.
Context {V : Type} `{Verifier V} (h : Handler V) {E : Env}.
Implicit Types s : State E.

(** A fresh response. *)
Definition fresh (s : State E) : State E := set_w new_writer s.

(** Everything but the response. *)
Definition same_proxy (s s' : State E) : Prop :=
  h_store s' = h_store s ∧ h_cat s' = h_cat s ∧ h_obs s' = h_obs s ∧ h_tasks s' = h_tasks s.

Definition local_methods : list string :=
  ["initialize"; "notifications/initialized"; "server/discover"; "tools/list"; "tools/call"; "ping"].

(** The answer to a POST no handler takes; [None] when one does. *)
Definition unhandled (body : option string) : option (Z * string) :=
  match body with
  | None => Some (200%Z, jsonRPCErrorBytes None (-32700) "failed to read request body")
  | Some b =>
      match v ← parse_text b; unmarshal_request v with
      | Err _ => Some (200%Z, jsonRPCErrorBytes None (-32700) "parse error")
      | Ok req =>
          if contains local_methods (j_Method req) then None
          else if isNotification req then Some (202%Z, "")
          else Some (200%Z, jsonRPCErrorBytes (j_ID req) (-32601)
                              ("method not found: " +:+ j_Method req))
      end
  end.

Lemma dispatch_unknown r req s :
  contains local_methods (j_Method req) = false →
  dispatch h r req s =
  (if isNotification req then write (w_write_header 202)
   else write (writeRPCError (j_ID req) (-32601) ("method not found: " +:+ j_Method req))) s.
Proof.
  unfold contains, local_methods, dispatch. cbn [existsb].
  repeat (destruct (String.eqb (j_Method req) _); [done|]). done.
Qed.

Lemma serve_unhandled_post r s status body :
  r_Method r = "POST" → unhandled (r_Body r) = Some (status, body) →
  ∃ w, serve h r s = (Return (w_finish w), set_w w s) ∧
       w_status (w_finish w) = status ∧ w_body (w_finish w) = body.
Proof.
  intros Hm. unfold serve, ServeHTTP. rewrite Hm. cbn [String.eqb Ascii.eqb Bool.eqb negb].
  unfold unhandled. destruct (r_Body r) as [b|].
  2:{ intros [= <- <-]. by eexists. }
  destruct (v ← parse_text b; unmarshal_request v) as [req|e].
  2:{ intros [= <- <-]. by eexists. }
  destruct (contains local_methods (j_Method req)) eqn:Hc; [done|].
  unfold mbind, M_bind. destruct (AllStateless (Registry_ h)); cbn [mret M_ret];
    try unfold write, modify; cbv beta iota; rewrite dispatch_unknown by done;
    destruct (isNotification req); intros [= <- <-]; by eexists.
Qed.

(** *** initialize *)

Lemma Mint_eq r n rnd st :
  (Mint r n rnd st).2 = mkSession (newID rnd) n n ∅ ∧
  st_m (Mint r n rnd st).1 = <[newID rnd := mkSession (newID rnd) n n ∅]> (st_m (reapLocked r st)).
Proof. done. Qed.
End endpoint.

(** ** Theorems *)

(** Initialize needs no token and always answers with the proxy's own
    capabilities. When every backend is stateless it keeps no state; otherwise it
    mints one session, hands out its id, and counts it. *)
Theorem handleInitialize_correct {V} (h : Handler V) {E : Env} req (s : State E) :
  let x := handleInitialize h req (fresh s) in
  let s' := x.2 in
  x.1 = Return () ∧ w_status (h_w s') = 200%Z ∧
  w_body (h_w s') = writeJSONRPCResult (j_ID req) (serverInfoResult h) ∧
  if AllStateless (Registry_ h) then
    same_proxy s s' ∧ w_sent (h_w s') !! CanonicalHeaderKey mcpSessionHeader = None
  else
    ∃ reap_now t,
      let id := newID (e_random E (o_draws (ct_out (h_cat s)))) in
      header_get mcpSessionHeader (w_sent (h_w s')) = id ∧
      st_m (h_store s') = <[id := mkSession id t t ∅]> (st_m (reapLocked reap_now (h_store s))) ∧
      h_obs s' = RecordSession (h_obs s) ∧ s_log s' = s_log s.
Proof.
  unfold handleInitialize. cbv zeta. unfold mbind at 1 5, M_bind.
  destruct (AllStateless (Registry_ h)).
  - unfold same_proxy. split_and!; reflexivity.
  - split_and!; try reflexivity. eexists _, _. split_and!; reflexivity.
Qed.

(** C30: DELETE forgets exactly the caller's session, answers 204 at once, and
    spawns one teardown for each backend session it held, for the tenant it
    belongs to; nothing is sent by the request itself. When every backend is
    stateless it changes nothing. *)
Theorem handleDelete_correct {V} (h : Handler V) {E : Env} r (s : State E) :
  let x := handleDelete h r (fresh s) in
  let s' := x.2 in
  let pid := header_get mcpSessionHeader (r_Header r) in
  x.1 = Return () ∧ w_status (h_w s') = 204%Z ∧ w_body (h_w s') = "" ∧
  h_cat s' = h_cat s ∧
  if AllStateless (Registry_ h) then same_proxy s s'
  else st_m (h_store s') = delete pid (st_m (h_store s)) ∧
    ∃ new, h_tasks s' = h_tasks s ++ new ∧
      ∀ t sid, (t, sid) ∈ new ↔
        t ∈ Tenants (Registry_ h) ∧ session_sid (h_store s) pid (t_ID t) = Some sid ∧ sid ≠ "".
Proof.
  unfold handleDelete. cbv zeta.
  destruct (AllStateless (Registry_ h)); [by split_and!|].
  set (pid := header_get mcpSessionHeader (r_Header r)).
  unfold session_Delete, Delete, session_sid.
  unfold mbind, M_bind, gets. cbn [fresh set_w h_store].
  destruct (st_m (h_store s) !! pid) as [sess|] eqn:Hs; cbn.
  - split_and!; try done. eexists. split; [reflexivity|]. intros t sid.
    unfold teardown_sids. rewrite list_elem_of_omap. split.
    + intros (t' & Ht & Hm). destruct (BackendSID sess (t_ID t')) as [v|] eqn:Hb; [|done].
      destruct (nonempty v) eqn:Hn; [|done]. injection Hm as -> ->.
      split_and!; [done|done|by apply nonempty_true].
    + intros (Ht & Hb & Hn). exists t. split; [done|]. rewrite Hb.
      by rewrite (proj2 (nonempty_true sid) Hn).
  - split_and!; try done; [by rewrite delete_id|]. exists []. split; [by rewrite app_nil_r|].
    intros t sid. rewrite elem_of_nil. naive_solver.
Qed.

(** C31: requests no handler takes. Another HTTP method gets 405; a body that
    cannot be read or parsed gets a JSON-RPC parse error without an id; an unknown
    method gets "method not found" under the request's id, or 202 when it is a
    notification; and none of them changes anything but the response. *)
Theorem serve_unhandled {V} `{Verifier V} (h : Handler V) {E : Env} r (s : State E) :
  (r_Method r ∉ ["DELETE"; "GET"; "POST"] →
   ∃ w, serve h r s = (Return w, set_w w s) ∧ w_status w = 405%Z) ∧
  (∀ status body, r_Method r = "POST" → unhandled (r_Body r) = Some (status, body) →
   ∃ w, serve h r s = (Return (w_finish w), set_w w s) ∧
        w_status (w_finish w) = status ∧ w_body (w_finish w) = body).
Proof.
  split; [|intros status body; apply serve_unhandled_post]. intros Hm.
  unfold serve, ServeHTTP.
  destruct (String.eqb_spec (r_Method r) "DELETE") as [He|_]; [set_solver|].
  destruct (String.eqb_spec (r_Method r) "GET") as [He|_]; [set_solver|].
  destruct (String.eqb_spec (r_Method r) "POST") as [He|_]; [set_solver|].
  by eexists.
Qed.

(** C17: a proxy that starts serves a valid configuration: its tenants are
    exactly the configured ones, its index satisfies the invariant every other
    theorem assumes, and its verifier is of the configured kind. *)
Theorem setup_sound {PublicKey KeySet : Type} {E : Env} env rf yu pd
    (pk : string → option PublicKey) up uw (nk : string → M (Outside E) (option KeySet)) path o h :
  (setup env rf yu pd pk up uw nk path o).1 = Return (Ok h) →
  ∃ cfg, Load env rf yu path = Ok cfg ∧ wf_config cfg ∧
    registry_wf (Registry_ h) ∧ ServerCfg h = c_Server cfg ∧ AuthCfg h = c_Auth cfg ∧
    (∀ id t, ResolveTenant (Registry_ h) id = Some t ↔ serves (e_url_Parse E) (c_Backends cfg) id t) ∧
    (NewVerifier rf pd pk up uw nk (c_Auth cfg) o).1 = Return (Ok (Verifier_ h)).
Proof.
  unfold setup, boot. destruct (Load env rf yu path) as [cfg|e] eqn:Hl; [|done].
  unfold mbind, M_bind. destruct (NewVerifier rf pd pk up uw nk (c_Auth cfg) o) as [[[v|e]|] o'] eqn:Hv;
    [|done|done]. cbn.
  pose proof (New_spec (e_url_Parse E) (c_Backends cfg)) as Hs.
  destruct (New (e_url_Parse E) (c_Backends cfg)) as [r|e] eqn:Hr; [|done]. cbn.
  intros [= <-]. exists cfg. destruct Hs as (_ & _ & Hm & _). cbn.
  split_and!; [done| |by eapply New_wf|done|done|exact Hm|by rewrite Hv].
  unfold Load in Hl. destruct (rf path) as [raw|]; [|done]. destruct (yu raw) as [c0|]; [|done].
  destruct (expandEnv env (applyDefaults c0)) as [c1|e]; [|done].
  destruct (Validate c1) as [[]|e] eqn:Hval; [|done]. injection Hl as ->.
  pose proof (Validate_spec cfg) as Hspec. by rewrite Hval in Hspec.
Qed.

Lemma setup_sound_witness :
  ∃ h, (setup (E := env_ex) (PublicKey := ()) (KeySet := ()) Config.env_ex Some yaml_ex Some
          (λ _, None) u_String (λ _ p, p) (λ _, mret None) "config.yaml" outside_ex).1
       = Return (Ok h) ∧ registry_wf (Registry_ h).
Proof.
  match goal with |- ∃ h, ?x = _ ∧ _ => destruct x as [[h|e]|] eqn:Hx end;
    [|vm_compute in Hx; discriminate..].
  exists h. split; [reflexivity|].
  destruct (setup_sound _ _ _ _ _ _ _ _ _ _ _ Hx) as (cfg & _ & _ & Hwf & _). exact Hwf.
Defined.
