(* ===== verification/Startup.v ===== *)
(** * Start-up: what [run] does before and after it serves

    Which configured paths the multiplexers accept and where they lead, what is
    reported and stopped on every way out, and the warm-up loop. *)

From Stdlib Require Import Ascii.
From stdpp Require Import base numbers option pretty gmap fin_maps sorting strings list relations.
From S2P Require Import Prelude GoStrings Json Decode Config Registry Session Http Rpc Schema.
From S2P Require Import ParamHeaders Client Catalog Auth OAuth Observability Telemetry Handler Mux Main Isolation.
From S2P Require Import Calls Forward Listing Total.

#[local] Set Warnings "-clear-no-such-hyp".
#[local] Open Scope nat_scope.

(** ** The data plane's paths *)

Section mux.

Abbreviation wk := "/.well-known/oauth-protected-resource".

Definition data_paths (path : string) : list (string * endpoint) :=
  [(path, ServeMCP); (wk, ServeMetadata); (wk +:+ path, ServeMetadata); ("/healthz", ServeHealth)].

Lemma wk_app_ne path s : path ≠ "" → String.length s <= String.length wk → wk +:+ path ≠ s.
Proof.
  intros Hp Hl He. apply (f_equal String.length) in He. rewrite length_app_str in He.
  destruct path; [done|]. cbn in He, Hl. lia.
Qed.

Lemma data_mux_plain path :
  plain_path path = true →
  data_mux path =
  if decide (path ∈ ["/healthz"; wk]) then None else Some (plain_mux (data_paths path)).
Proof.
  intros Hp. assert (path ≠ "") as Hne by by destruct path.
  assert (plain_path (wk +:+ path) = true) as Hwp by (apply plain_app; [done|by apply plain_bytes]).
  unfold data_mux. change (Handle path ServeMCP []) with (Handle path ServeMCP (plain_mux [])).
  rewrite Handle_plain by done. cbn [fst fmap list_fmap]. rewrite decide_False by set_solver.
  cbn [mbind option_bind app]. rewrite Handle_plain by (done || by repeat constructor). cbn [fst fmap list_fmap].
  destruct (decide (wk ∈ [path])) as [Hin|Hin].
  { apply list_elem_of_singleton in Hin as <-. rewrite decide_True; [done|]. right; left. }
  cbn [mbind option_bind app]. rewrite Handle_plain by (done || by repeat constructor). cbn [fst fmap list_fmap].
  rewrite decide_False.
  2:{ rewrite !elem_of_cons. intros [Hw|[Hw|Hw]]; [| |by apply elem_of_nil in Hw].
      - apply (f_equal String.length) in Hw. rewrite length_app_str in Hw. cbn in Hw. lia.
      - by apply wk_app_ne in Hw. }
  cbn [mbind option_bind app]. rewrite Handle_plain by (done || by repeat constructor). cbn [fst fmap list_fmap].
  assert (wk +:+ path ≠ "/healthz") as Hwh by (apply wk_app_ne; [done|cbn; lia]).
  destruct (decide (path = "/healthz")) as [->|Hh].
  - rewrite decide_True by by left. rewrite decide_True; [done|left].
  - rewrite decide_False; [rewrite decide_False; [done|]|].
    + rewrite !elem_of_cons, elem_of_nil. intros [?|[->|[]]]; [done|]. apply Hin. by left.
    + rewrite !elem_of_cons, elem_of_nil. intros [?|[?|[?|[]]]]; congruence.
Qed.

Lemma metrics_mux_plain path :
  plain_path path = true →
  metrics_mux path =
  if decide (path = "/healthz") then None
  else Some (plain_mux [(path, ServeMetrics); ("/healthz", ServeHealth)]).
Proof.
  intros Hp. unfold metrics_mux. change (Handle path ServeMetrics []) with (Handle path ServeMetrics (plain_mux [])).
  rewrite Handle_plain by done. cbn [fst fmap list_fmap]. rewrite decide_False by set_solver.
  cbn [mbind option_bind app]. rewrite Handle_plain by (done || by repeat constructor). cbn [fst fmap list_fmap].
  destruct (decide (path = "/healthz")) as [->|Hh]; [by rewrite decide_True by left|].
  rewrite decide_False; [done|]. rewrite list_elem_of_singleton. congruence.
Qed.
End mux.

(** ** Warming up *)

Section warm.
Context {E : Env} (Up : e_net E → Prop).
Implicit Types s : State E.

(** While the network is in such a state, fetching with any of these views
    succeeds and leaves it in one. *)
Definition backends_answer (c : CatState E) : Prop :=
  ∀ k o, view_of k ∈ view_of <$> cs_unique (ct_cats c) → Up (o_net o) →
    ∃ tools o', fetch k o = (Return (Ok tools), o') ∧ Up (o_net o').

Definition up (c : CatState E) : Prop := Up (o_net (ct_out c)).

Lemma backends_answer_extends c c' : extends c c' → backends_answer c → backends_answer c'.
Proof. intros Hex Hans k o Hk. apply Hans. by rewrite <- (ex_views _ _ Hex). Qed.

Lemma fetch_view k k' : view_of k = view_of k' → fetch (E := E) k = fetch k'.
Proof. unfold view_of. intros [= Hb Hc Hh _]. unfold fetch. by rewrite Hb, Hc, Hh. Qed.

Lemma get_up i c :
  cat_wf c → is_Some (cs_unique (ct_cats c) !! i) → backends_answer c → up c →
  ∃ tools c', get i c = (Return (Ok tools), c') ∧ up c' ∧ extends c c' ∧ cat_wf c'.
Proof.
  intros Hwf [k Hk] Hans Hup.
  assert (∃ tools c', get i c = (Return (Ok tools), c') ∧ up c') as (tools & c' & Hg & Hup').
  { rewrite (get_run i k) by done. assert (Up (o_net (fetch_from k c))) as Hup1.
    { unfold fetch_from. by destruct (k_tools k). }
    destruct (fresh_at k (ct_out c)); [by eexists _, _|].
    destruct (Hans k (fetch_from k c)) as (tools & o' & -> & Hup2); [|done|].
    { apply list_elem_of_fmap_2. by eapply list_elem_of_lookup_2. }
    unfold refetched. by eexists _, _. }
  exists tools, c'. pose proof (get_extends i c _ _ (cw_refs _ Hwf) Hg) as (Hex & _).
  pose proof (get_wf i c _ _ Hwf Hg). by split_and!.
Qed.

Lemma warm_from_up idxs c :
  cat_wf c → Forall (λ i, i < length (cs_unique (ct_cats c))) idxs → backends_answer c → up c →
  ∃ c', warm_from idxs c = (Return [], c').
Proof.
  revert c. induction idxs as [|i idxs IH]; intros c Hwf Hall Hans Hup; [by eexists|].
  apply Forall_cons in Hall as [Hi Hall]. apply lookup_lt_is_Some in Hi.
  destruct (get_up i c Hwf Hi Hans Hup) as (tools & c1 & Hg & Hup1 & Hex & Hwf1).
  cbn [warm_from]. rewrite bind_run, Hg.
  destruct (IH c1 Hwf1) as (c2 & Hr); [|by eapply backends_answer_extends|done|].
  { eapply Forall_impl; [exact Hall|]. intros j. cbn.
    by rewrite <- (length_fmap view_of (cs_unique (ct_cats c1))), (ex_views _ _ Hex), length_fmap. }
  exists c2. by rewrite bind_run, Hr.
Qed.

Lemma warm_attempt_up s :
  cat_wf (h_cat s) → backends_answer (h_cat s) → up (h_cat s) →
  ∃ s', warm_attempt s = (Return true, s').
Proof.
  intros Hwf Hans Hup.
  destruct (warm_from_up (seq 0 (length (cs_unique (ct_cats (h_cat s))))) (h_cat s) Hwf) as (c & Hr); [|done..|].
  { apply Forall_forall. intros i Hi%elem_of_seq. lia. }
  exists (set_cat c s). unfold warm_attempt, WarmCatalog. rewrite bind_run. unfold on_cat, zoom.
  change (warm (h_cat s)) with (warm_from (seq 0 (length (cs_unique (ct_cats (h_cat s))))) (h_cat s)).
  by rewrite Hr.
Qed.

Lemma warm_attempt_runs s :
  cat_wf (h_cat s) → ∃ b s', warm_attempt s = (Return b, s') ∧ extends (h_cat s) (h_cat s') ∧ cat_wf (h_cat s').
Proof.
  intros Hwf. destruct (warm_spec _ Hwf) as (errs & c & Hr & Hex & Hwf').
  exists (match errs with [] => true | _ => false end), (set_cat c s).
  unfold warm_attempt, WarmCatalog. rewrite bind_run. unfold on_cat, zoom. by rewrite Hr.
Qed.

Lemma warm_retries_up n m s :
  cat_wf (h_cat s) → backends_answer (h_cat s) → up (h_cat (warm_retries n s).2) →
  (warm_retries (n + S m) s).1 = Return true.
Proof.
  revert s. induction n as [|n IH]; intros s Hwf Hans Hup.
  - destruct (warm_attempt_up s Hwf Hans Hup) as (s' & Hr). cbn [Nat.add warm_retries].
    by rewrite bind_run, Hr.
  - destruct (warm_attempt_runs s Hwf) as (b & s1 & Hr & Hex & Hwf1). cbn [Nat.add warm_retries] in *.
    rewrite bind_run, Hr in Hup |- *. destruct b; [done|].
    apply IH; [done|by eapply backends_answer_extends|done].
Qed.
End warm.

(** ** Theorems *)

(** C21: which paths the proxy serves. A plain absolute [server.path] is accepted
    by the multiplexer exactly when it is not one of its own two. If it does not
    end in a slash, a clean request path, with or without a trailing slash, then
    leads to the MCP endpoint if it is the configured path, to the metadata at the
    well-known path with or without it appended, to the health check at /healthz
    and nowhere else, on every host and with every method. *)
Theorem data_mux_correct path :
  plain_path path = true →
  (data_mux path = None ↔ path ∈ ["/healthz"; metadata_suffix]) ∧
  ∀ mux, ends_in_slash path = false → data_mux path = Some mux →
  ∀ host method q, plain_path q = true → cleanPath q = q →
    findHandler mux host method q =
    if decide (q = path) then Found ServeMCP
    else if decide (q ∈ [metadata_suffix; metadata_suffix +:+ path]) then Found ServeMetadata
    else if decide (q = "/healthz") then Found ServeHealth else NotFound.
Proof.
  intros Hp. rewrite data_mux_plain by done. fold metadata_suffix. split; [by case_decide|].
  intros mux Hslash. assert (exact_path path = true) as Hx by (unfold exact_path; by rewrite Hp, Hslash).
  case_decide as Hin; [done|]. intros Hm host method q Hq Hclean.
  assert (mux = plain_mux (data_paths path)) as -> by congruence.
  assert (exact_path (metadata_suffix +:+ path) = true) as Hwp by by apply exact_app.
  rewrite findHandler_plain; [|by repeat constructor|done|done].
  unfold lookup_path, data_paths. fold metadata_suffix. rewrite !filter_cons. cbn [fst].
  assert (∀ x, q ∈ [metadata_suffix; x] ↔ metadata_suffix = q ∨ x = q) as Hmeta.
  { intros x. rewrite !elem_of_cons, elem_of_nil.
    split; [intros [?|[?|[]]]|intros [?|?]]; auto. }
  destruct (decide (path = q)) as [<-|N1]; [cbn; by rewrite decide_True|].
  rewrite (decide_False (P := q = path)) by congruence.
  destruct (decide (metadata_suffix = q)) as [Hq2|N2].
  { cbn [head fmap option_fmap option_map snd]. rewrite decide_True; [done|]. apply Hmeta. by left. }
  destruct (decide (metadata_suffix +:+ path = q)) as [Hq3|N3].
  { cbn [head fmap option_fmap option_map snd]. rewrite decide_True; [done|]. apply Hmeta. by right. }
  rewrite (decide_False (P := q ∈ _)) by (rewrite Hmeta; by intros [?|?]).
  destruct (decide ("/healthz" = q)) as [Hq4|N4].
  - cbn [head fmap option_fmap option_map snd]. by rewrite decide_True.
  - rewrite (decide_False (P := q = "/healthz")) by congruence. done.
Qed.

Lemma data_mux_correct_witness :
  ∃ mux, data_mux "/mcp" = Some mux ∧
    findHandler mux "proxy" "GET" "/" = NotFound ∧ findHandler mux "proxy" "POST" "/mcp/" = NotFound ∧
    findHandler mux "proxy" "POST" "/mcp" = Found ServeMCP ∧
    findHandler mux "proxy" "GET" "/.well-known/oauth-protected-resource/mcp" = Found ServeMetadata ∧
    findHandler mux "proxy" "GET" "/metrics" = NotFound.
Proof.
  destruct (data_mux_correct "/mcp" eq_refl) as [_ Hroute].
  eexists. split; [reflexivity|].
  split_and!; (rewrite Hroute; [vm_compute; reflexivity..]).
Defined.

(** A path with a trailing slash is a subtree, and the path without it is
    redirected there. *)
Example subtree_served :
  (λ mux, findHandler mux "proxy" "POST" <$> ["/mcp/"; "/mcp/x"; "/mcp"; "/"]) <$> data_mux "/mcp/" =
  Some [Found ServeMCP; Found ServeMCP; RedirectTo "/mcp/"; NotFound].
Proof. vm_compute. reflexivity. Qed.

(** Configurations that pass [Validate] and still stop the process when it
    starts: the endpoint on the health check's path, without its leading slash, or
    with half a wildcard; and the scrape handler on the health check's path. *)
Definition with_path (path : string) (c : Config) : Config :=
  mkConfig (mkServerConfig (sc_Listen (c_Server c)) path (sc_ExternalURL (c_Server c))) (c_Auth c)
    (c_Backends c) (c_Observability c).

Example valid_paths_panic :
  Forall (λ path, Validate (with_path path loaded_ex) = Ok () ∧ data_mux path = None)
    ["/healthz"; "mcp"; "/mcp/{id"] ∧
  metrics_mux "/healthz" = None.
Proof. split; [|reflexivity]. do 3 (constructor; [by split|]). constructor. Qed.

(** ** Running *)

Definition telemetry_config (cfg : Config) (version : string) : TelemetryConfig :=
  mkTelemetryConfig (oc_MetricsListen (c_Observability cfg)) (oc_MetricsPath (c_Observability cfg))
    "mt-mcp-proxy" version.

Section run.
Context {V : Type} {E : Env} {L : Libraries}.
Implicit Types p : Process E L.

(** What is served: this handler, in the state the first warm-up attempt left, the
    retries going on if it failed, at the configured paths. *)
Definition serves (cfg : Config) (h : Handler V) (obs : Telemetry L) (o : Outside E) (sv : Serving V E) : Prop :=
  sv_handler sv = h ∧
  warm_attempt (proxy_init h (recordings obs) o) = (Return (negb (sv_retrying sv)), sv_state sv) ∧
  data_mux (sc_Path (c_Server cfg)) = Some (sv_mux sv) ∧
  match sv_metrics sv with
  | Some (addr, mux) =>
      addr = tl_metricsListen obs ∧ addr ≠ "" ∧ metrics_mux (or_default "/metrics" (tl_metricsPath obs)) = Some mux
  | None => tl_metricsListen obs = ""
  end.

(** From the store on, only a multiplexer can stop the main goroutine. *)
Lemma start_run cfg (h : Handler V) (obs : Telemetry L) p :
  let '(r, p') := start cfg h obs p in
  pr_globals p' = pr_globals p ∧ pr_stopped p' = pr_stopped p ∧
  (∀ sv, r = Return sv → serves cfg h obs (pr_out p) sv) ∧
  (registry_wf (Registry_ h) →
   r = Panic ↔ data_mux (sc_Path (c_Server cfg)) = None ∨
     (tl_metricsListen obs ≠ "" ∧ metrics_mux (or_default "/metrics" (tl_metricsPath obs)) = None)).
Proof.
  unfold start. rewrite bind_run. unfold with_process_out, zoom.
  destruct (warm_attempt (proxy_init h (recordings obs) (pr_out p))) as [[warmed|] s] eqn:Hw.
  - unfold serves. rewrite Hw. destruct (data_mux _) as [mux|]; [|cbn; naive_solver]. change (MetricsPath (Some (recordings obs)))
      with (or_default "/metrics" (tl_metricsPath obs)).
    unfold nonempty. destruct (String.eqb_spec (tl_metricsListen obs) "") as [Hempty|Hne].
    { cbn. split_and!; [done..| |naive_solver]. intros sv [= <-]. cbn. by rewrite negb_involutive. }
    destruct (metrics_mux _); cbn; (split_and!; [done..| |naive_solver]); intros sv [= <-]. cbn.
    by rewrite negb_involutive.
  - split_and!; [done..|]. intros Hreg. exfalso. revert Hw.
    unfold warm_attempt, WarmCatalog, on_cat, zoom, mbind, M_bind.
    destruct (warm_spec _ (NewCatalogs_wf (Registry_ h) (5 * minute) [] (pr_out p) Hreg)) as (errs & c & Hrun & _).
    cbn [proxy_init h_cat]. by rewrite Hrun.
Qed.

Lemma run_with_eq (boot : M (Outside E) (result boot_error (Config * Handler V))) env version listen p :
  run_with boot env version listen p =
  match boot (pr_out p) with
  | (Panic, o) => (Panic, mkProcess o (pr_globals p) (pr_stopped p))
  | (Return (Err e), o) => (Return (Err (BootFailed e)), mkProcess o (pr_globals p) (pr_stopped p))
  | (Return (Ok (cfg, h)), o) =>
      match Setup env (telemetry_config cfg version) (pr_globals p) with
      | (Panic, g) => (Panic, mkProcess o g (pr_stopped p))
      | (Return (Err e), g) => (Return (Err (TelemetryFailed e)), mkProcess o g (pr_stopped p))
      | (Return (Ok obs), g) =>
          let '(r, p1) := start cfg h obs (mkProcess o g (pr_stopped p)) in
          (match r with
           | Return sv => Return (match listen sv with Some e => Err (ListenFailed e) | None => Ok sv end)
           | Panic => Panic
           end, mkProcess (pr_out p1) (pr_globals p1) (Shutdown (Some obs) (pr_stopped p1)).2)
      end
  end.
Proof.
  unfold run_with. rewrite bind_run. unfold with_process_out at 1, zoom.
  destruct (boot (pr_out p)) as [[[[cfg h]|e]|] o]; [|done..]. rewrite bind_run.
  unfold with_globals, zoom. cbn [pr_globals]. fold (telemetry_config cfg version).
  destruct (Setup env (telemetry_config cfg version) (pr_globals p)) as [[[obs|e]|] g]; [|done..].
  unfold shutting_down. cbn [pr_out pr_globals pr_stopped]. rewrite bind_run.
  destruct (start cfg h obs (mkProcess o g (pr_stopped p))) as [[sv|] p1]; unfold with_stopped, zoom;
    rewrite !Shutdown_run; [|done]. unfold mret, M_ret. by rewrite Shutdown_run.
Qed.
End run.

(** C20: every way out of [run]. An error of the configuration, the verifier, the
    registry or the telemetry is returned, with nothing stopped; once telemetry is
    set up, its providers are stopped exactly once whether serving ends, listening
    fails or a multiplexer refuses a path; that last is the only way to panic
    (warming the catalogs never does), and otherwise the handler was served, warmed
    up or retrying, with the scrape listener exactly when one is configured. *)
Theorem run_with_correct {V E L} (boot : M (Outside E) (result boot_error (Config * Handler V))) env version
    (listen : Serving V E → option string) (p : Process E L) :
  let '(r, p') := run_with boot env version listen p in
  match boot (pr_out p) with
  | (Panic, _) => r = Panic
  | (Return (Err e), _) =>
      r = Return (Err (BootFailed e)) ∧ pr_globals p' = pr_globals p ∧ pr_stopped p' = pr_stopped p
  | (Return (Ok (cfg, h)), o) =>
      let oc := c_Observability cfg in
      match Setup env (mkTelemetryConfig (oc_MetricsListen oc) (oc_MetricsPath oc) "mt-mcp-proxy" version)
              (pr_globals p) with
      | (Panic, _) => False
      | (Return (Err e), g) =>
          r = Return (Err (TelemetryFailed e)) ∧ pr_globals p' = g ∧ pr_stopped p' = pr_stopped p
      | (Return (Ok obs), g) =>
          pr_globals p' = g ∧ pr_stopped p' = pr_stopped p ++ provider_list obs ∧
          (r = Panic ∨ ∃ sv, serves cfg h obs o sv ∧
             r = Return (match listen sv with Some e => Err (ListenFailed e) | None => Ok sv end)) ∧
          (registry_wf (Registry_ h) →
           r = Panic ↔ data_mux (sc_Path (c_Server cfg)) = None ∨
             (oc_MetricsListen oc ≠ "" ∧ metrics_mux (or_default "/metrics" (oc_MetricsPath oc)) = None))
      end
  end.
Proof.
  rewrite run_with_eq. destruct (boot (pr_out p)) as [[[[cfg h]|e]|] o]; [|done..]. cbn zeta.
  destruct (Setup_returns env (telemetry_config cfg version) (pr_globals p)) as (r & g & Hs).
  unfold telemetry_config in *. rewrite Hs. destruct r as [obs|e]; [|done].
  pose proof (Setup_listener _ _ _ _ _ Hs) as [Hl Hp]. cbn [tc_MetricsListen tc_MetricsPath] in Hl, Hp.
  pose proof (start_run cfg h obs (mkProcess o g (pr_stopped p))) as Hstart.
  destruct (start cfg h obs (mkProcess o g (pr_stopped p))) as [rs p1]. destruct Hstart as (Hg & Hst & Hsv & Hr).
  cbn [pr_globals pr_stopped pr_out] in *. rewrite <- Hl, <- Hp.
  destruct rs as [sv|]; cbn [fst snd]; rewrite Shutdown_run; cbn; rewrite Hst;
    (split_and!; [done|done|eauto|]); intros Hreg; specialize (Hr Hreg); rewrite <- Hr; [|done].
  by destruct (listen sv).
Qed.

(** C22: the warm-up recovers. However long backends have been failing, once the
    network has come back to where every backend answers, the next attempt
    succeeds and ends the loop. *)
Theorem warm_retries_recover {V} `{Verifier V} {E : Env} (h : Handler V) obs (o : Outside E) s
    (Up : e_net E → Prop) n m :
  registry_wf (Registry_ h) → reachable h obs o s → backends_answer Up (h_cat s) →
  Up (o_net (ct_out (h_cat (warm_retries n s).2))) →
  (warm_retries (n + S m) s).1 = Return true.
Proof.
  intros Hreg Hr Hans Hup. apply (warm_retries_up Up); [by eapply reachable_consistent|done|exact Hup].
Qed.

(** A network that loses the first three requests. *)
Definition env_late : Env := {|
  e_net := nat;
  e_roundtrip n q := if 3 <=? n then (3, Some (fake_response q)) else (S n, None);
  e_inject _ h := h;
  e_clock n := Z.of_nat n;
  e_random n := "abcdefghijklmnop";
  e_url_Parse := url_ex |}.

Definition late_ex : State env_late :=
  proxy_init handler_ex (mkObservability [] [] 0 ":9090" "/metrics") (mkOutside (E := env_late) 0 0 0 []).

(** From the fourth request on every catalog can be fetched. *)
Definition late_fetch (ticks draws : nat) (log : list exchange) (k : catalog) : bool :=
  match fetch k (mkOutside (E := env_late) 3 ticks draws log) with
  | (Return (Ok _), o) => o_net o =? 3
  | _ => false
  end.

Lemma late_fetches ticks draws log k :
  k ∈ cs_unique (ct_cats (h_cat late_ex)) → late_fetch ticks draws log k = true.
Proof.
  assert (forallb (late_fetch ticks draws log) (cs_unique (ct_cats (h_cat late_ex))) = true) as Hall
    by (vm_compute; reflexivity).
  intros Hk%list_elem_of_In. by eapply forallb_forall in Hall.
Qed.

Lemma warm_retries_recover_witness :
  (warm_retries 1 late_ex).1 = Return false ∧ (warm_retries 2 late_ex).1 = Return true.
Proof.
  split; [vm_compute; reflexivity|].
  apply (warm_retries_recover (E := env_late) handler_ex (mkObservability [] [] 0 ":9090" "/metrics")
    (mkOutside (E := env_late) 0 0 0 []) late_ex (λ n, n = 3) 1 0); [exact registry_ex_wf|apply rtc_refl| |].
  - intros k [net ticks draws log] (k0 & Hv & Hk0)%list_elem_of_fmap Hup. cbn in Hup. subst net.
    rewrite (fetch_view k k0 Hv). apply (late_fetches ticks draws log) in Hk0. revert Hk0. unfold late_fetch.
    destruct (fetch k0 _) as [[[tools|e]|] o']; [|done..]. intros Hn%Nat.eqb_eq. by exists tools, o'.
  - vm_compute. reflexivity.
Defined.
