(* ===== verification/Lifecycle.v ===== *)
(** * The process: command line, listening, signals, exit

    [main] parses the command line and turns what [run] returns into an exit code.
    What [run] does once it listens is a state machine: the main goroutine in
    [ListenAndServe] and its deferred calls, the goroutine that closes the servers
    after a signal, the metrics listener, the warm-up's retries, and the requests
    being served, which are goroutines of the pool of [Concurrent.v]. *)

From Stdlib Require Import Ascii.
From stdpp Require Import base numbers option pretty gmap fin_maps sorting strings list relations.
From S2P Require Import Prelude GoStrings Json Decode Config Registry Session Cells Http Rpc Schema.
From S2P Require Import ParamHeaders Client Catalog Auth OAuth Observability Telemetry Handler Mux Main.
From S2P Require Import Isolation Calls Forward Listing Total Typed.
From S2P Require Import Threads Concurrent Interleave Rely Guarantee Simulate Startup.

#[local] Set Warnings "-clear-no-such-hyp".
#[local] Open Scope nat_scope.

(** ** The command line *)

(** What [flag.Parse] makes of the arguments: the value of [-config] and what is
    left, or an exit with the usage message. *)
Inductive flags :=
| FlagsParsed (config : string) (rest : list string)
| FlagsHelp
| FlagsBad.

(** The name and, after the first [=] that is not its first byte, the value. *)
Fixpoint cut_value (s : string) : string * option string :=
  match s with
  | "" => ("", None)
  | String c s => if Ascii.eqb c "=" then ("", Some s) else let '(n, v) := cut_value s in (String c n, v)
  end.

Definition flag_parts (s : string) : string * option string :=
  match s with
  | "" => ("", None)
  | String c s => let '(n, v) := cut_value s in (String c n, v)
  end.

(** The argument without its one or two minuses; [None] when it is not a flag. *)
Definition flag_text (s : string) : option string :=
  match s with
  | String m (String c s) => if Ascii.eqb m "-" then Some (if Ascii.eqb c "-" then s else String c s) else None
  | _ => None
  end.

(** [parseOne] until it sees no flag, for the one string flag there is. *)
Fixpoint parse_flags (config : string) (args : list string) : flags :=
  match args with
  | [] => FlagsParsed config []
  | s :: args' =>
      match flag_text s with
      | None => FlagsParsed config args
      | Some text =>
          if String.eqb s "--" then FlagsParsed config args'
          else if String.eqb text "" || has_prefix "-" text || has_prefix "=" text then FlagsBad
          else
            let '(name, value) := flag_parts text in
            if String.eqb name "config" then
              match value, args' with
              | Some v, _ => parse_flags v args'
              | None, v :: args'' => parse_flags v args''
              | None, [] => FlagsBad
              end
            else if String.eqb name "help" || String.eqb name "h" then FlagsHelp else FlagsBad
      end
  end.

(** A panic, like a bad flag, exits with 2. *)
Definition exit_code {A} (r : outcome (result run_error A)) : Z :=
  match r with Return (Ok _) => 0 | Return (Err _) => 1 | Panic => 2 end.

(** [main], given the arguments after the program's name. *)
Definition main {S A} (args : list string) (run : string → M S (result run_error A)) (s : S) : Z * S :=
  match parse_flags "config.yaml" args with
  | FlagsHelp => (0%Z, s)
  | FlagsBad => (2%Z, s)
  | FlagsParsed configPath _ => let '(r, s) := run configPath s in (exit_code r, s)
  end.

(** *** Facts *)

(** The spellings of a setting. *)
Inductive setting : list string → string → Prop :=
| setting_value m v : m ∈ ["-"; "--"] → setting [m +:+ "config=" +:+ v] v
| setting_next m v : m ∈ ["-"; "--"] → setting [m +:+ "config"; v] v.

Lemma parse_setting config ss v rest : setting ss v → parse_flags config (ss ++ rest) = parse_flags v rest.
Proof. intros [m v' Hm|m v' Hm]; repeat (apply elem_of_cons in Hm as [->|Hm]); try done; by apply elem_of_nil in Hm. Qed.

(** No flag, or the end of the flags. *)
Definition no_more (rest : list string) : Prop := head rest ≫= flag_text = None ∨ head rest = Some "--".

Lemma parse_no_more config rest : no_more rest → ∃ rest', parse_flags config rest = FlagsParsed config rest'.
Proof.
  unfold no_more. destruct rest as [|s rest]; [by eexists|]. cbn. intros [->|[= ->]]; by eexists.
Qed.

Lemma parse_settings config sss vs rest :
  Forall2 setting sss vs → parse_flags config (concat sss ++ rest) = parse_flags (default config (last vs)) rest.
Proof.
  intros Hs. revert config. induction Hs as [|ss v sss vs Hs _ IH]; intros config; [done|].
  cbn [concat]. rewrite <- app_assoc, (parse_setting config ss v _ Hs), IH. f_equal.
  by rewrite last_cons; destruct (last vs).
Qed.

(** A request for the usage message: [-h] or [-help], with one minus or two, a
    value or none. *)
Inductive asks_help : string → Prop :=
| asks_plain m n : m ∈ ["-"; "--"] → n ∈ ["h"; "help"] → asks_help (m +:+ n)
| asks_value m n v : m ∈ ["-"; "--"] → n ∈ ["h"; "help"] → asks_help (m +:+ n +:+ "=" +:+ v).

(** The argument spells [-config], with a value or without. *)
Definition names_config (a : string) : Prop :=
  ∃ m, m ∈ ["-"; "--"] ∧ (a = m +:+ "config" ∨ ∃ v, a = m +:+ "config=" +:+ v).

Lemma cut_value_join s : s = (cut_value s).1 +:+ from_option (String.append "=") "" (cut_value s).2.
Proof.
  induction s as [|c s IH]; [done|]. cbn [cut_value]. destruct (Ascii.eqb_spec c "=") as [->|_]; [done|].
  destruct (cut_value s) as [n v]. cbn [fst snd] in *. by rewrite IH at 1.
Qed.

Lemma flag_parts_join s : s = (flag_parts s).1 +:+ from_option (String.append "=") "" (flag_parts s).2.
Proof.
  destruct s as [|c s]; [done|]. cbn [flag_parts]. pose proof (cut_value_join s) as Hs.
  destruct (cut_value s) as [n v]. cbn [fst snd] in *. by rewrite Hs at 1.
Qed.

Lemma flag_text_minus a text : flag_text a = Some text → ∃ m, m ∈ ["-"; "--"] ∧ a = m +:+ text.
Proof.
  destruct a as [|m [|c a]]; try done. cbn [flag_text]. destruct (Ascii.eqb_spec m "-") as [->|_]; [|done].
  destruct (Ascii.eqb_spec c "-") as [->|_]; intros [= <-]; [exists "--"|exists "-"]; (split; [set_solver|done]).
Qed.

(** What [parse_flags] makes of a flag other than [-config]. *)
Lemma parse_other config a text rest :
  flag_text a = Some text → a ≠ "--" → ¬ names_config a →
  (asks_help a → parse_flags config (a :: rest) = FlagsHelp) ∧
  (¬ asks_help a → parse_flags config (a :: rest) = FlagsBad).
Proof.
  intros Ht Hne Hname. split.
  - clear Hne Hname. intros [m n Hm Hn|m n v Hm Hn]; repeat (apply elem_of_cons in Hm as [->|Hm]); try by apply elem_of_nil in Hm.
    all: repeat (apply elem_of_cons in Hn as [->|Hn]); try by apply elem_of_nil in Hn.
    all: done.
  - intros Hhelp. cbn [parse_flags]. rewrite Ht, (proj2 (String.eqb_neq a "--") Hne).
    destruct (_ || _ || _); [done|]. destruct (flag_text_minus a text Ht) as (m & Hm & ->).
    pose proof (flag_parts_join text) as Hj. destruct (flag_parts text) as [name value]. cbn [fst snd] in Hj.
    destruct (String.eqb_spec name "config") as [->|_].
    { exfalso. apply Hname. exists m. split; [done|]. subst text. destruct value as [v|]; [right; by exists v|by left]. }
    destruct (String.eqb name "help" || String.eqb name "h") eqn:Hn; [|done]. exfalso. apply Hhelp. subst text.
    assert (name ∈ ["h"; "help"]) as Hin by (apply orb_true_iff in Hn as [Hn|Hn]; apply String.eqb_eq in Hn as ->; set_solver).
    destruct value as [v|]; [by apply asks_value|]. cbn. rewrite app_nil_r_str. by apply asks_plain.
Qed.

(** ** The process once it listens *)

(** An [http.Server]: [ShutDown] from the moment [Shutdown] is called on it. *)
Inductive server := Unserved | Accepting | ShutDown | Failed (e : string).

(** [Shutdown] closes the listener and lets nothing more be accepted. *)
Definition shut (v : server) : server := match v with Failed e => Failed e | _ => ShutDown end.

(** The main goroutine: before and in the accept loop of [ListenAndServe], then
    in [run]'s deferred calls, [obs.Shutdown] and [stop], with what [run] returns. *)
Inductive main_at :=
| AtListen
| AtAccept
| AtFlush (r : option string)
| AtStop (r : option string)
| AtReturn (r : option string)
| Exited (r : option string)
| Crashed.

(** The goroutine that waits for [ctx.Done()]. *)
Inductive closer_at := AwaitSignal | ShuttingData | ShuttingMetrics | Closed.

Record Life (E : Env) (L : Libraries) := mkLife {
  lf_signalled : bool;
  lf_main : main_at;
  lf_closer : closer_at;
  lf_deadline : bool;
  lf_data : server;
  lf_metrics : option server;
  lf_retrying : bool;
  lf_requests : list nat;
  lf_pool : proxy_pool E;
  lf_stopped : list (stopped L) }.
Arguments mkLife {E L}. Arguments lf_signalled {E L}. Arguments lf_main {E L}. Arguments lf_closer {E L}.
Arguments lf_deadline {E L}. Arguments lf_data {E L}. Arguments lf_metrics {E L}. Arguments lf_retrying {E L}.
Arguments lf_requests {E L}. Arguments lf_pool {E L}. Arguments lf_stopped {E L}.

Section setters.
Context {E : Env} {L : Libraries}.
Implicit Types s : Life E L.

Definition set_signalled s : Life E L :=
  mkLife true (lf_main s) (lf_closer s) (lf_deadline s) (lf_data s) (lf_metrics s) (lf_retrying s)
    (lf_requests s) (lf_pool s) (lf_stopped s).
Definition set_main (m : main_at) s : Life E L :=
  mkLife (lf_signalled s) m (lf_closer s) (lf_deadline s) (lf_data s) (lf_metrics s) (lf_retrying s)
    (lf_requests s) (lf_pool s) (lf_stopped s).
Definition set_closer (c : closer_at) s : Life E L :=
  mkLife (lf_signalled s) (lf_main s) c (lf_deadline s) (lf_data s) (lf_metrics s) (lf_retrying s)
    (lf_requests s) (lf_pool s) (lf_stopped s).
Definition set_deadline s : Life E L :=
  mkLife (lf_signalled s) (lf_main s) (lf_closer s) true (lf_data s) (lf_metrics s) (lf_retrying s)
    (lf_requests s) (lf_pool s) (lf_stopped s).
Definition set_data (v : server) s : Life E L :=
  mkLife (lf_signalled s) (lf_main s) (lf_closer s) (lf_deadline s) v (lf_metrics s) (lf_retrying s)
    (lf_requests s) (lf_pool s) (lf_stopped s).
Definition set_metrics (v : option server) s : Life E L :=
  mkLife (lf_signalled s) (lf_main s) (lf_closer s) (lf_deadline s) (lf_data s) v (lf_retrying s)
    (lf_requests s) (lf_pool s) (lf_stopped s).
Definition set_retrying (b : bool) s : Life E L :=
  mkLife (lf_signalled s) (lf_main s) (lf_closer s) (lf_deadline s) (lf_data s) (lf_metrics s) b
    (lf_requests s) (lf_pool s) (lf_stopped s).
Definition set_pool (rs : list nat) (p : proxy_pool E) s : Life E L :=
  mkLife (lf_signalled s) (lf_main s) (lf_closer s) (lf_deadline s) (lf_data s) (lf_metrics s) (lf_retrying s)
    rs p (lf_stopped s).
Definition set_stopped (st : list (stopped L)) s : Life E L :=
  mkLife (lf_signalled s) (lf_main s) (lf_closer s) (lf_deadline s) (lf_data s) (lf_metrics s) (lf_retrying s)
    (lf_requests s) (lf_pool s) st.
End setters.

(** What can happen: to the main goroutine, to the one that closes the servers,
    and around them. *)
Inductive event :=
| Bind | BindFails (e : string) | AcceptFails (e : string) | ServerClosed
| FlushTelemetry | StopSignals | MainReturns
| Wake | DeadlinePasses | DataClosed | MetricsClosed
| Signal
| MetricsBind | MetricsFails (e : string)
| Arrives (host path : string) (r : Request) | Retries | RetriesEnd
| Moves (i : nat) | Panics (i : nat).

Section life.
Context {V : Type} `{Verifier V} {E : Env} {L : Libraries} (obs : Telemetry L) (sv : Serving V E).
Implicit Types (s : Life E L) (p : proxy_pool E).

(** The world the first warm-up attempt, which the main goroutine made, left. *)
Definition serving_pool : proxy_pool E :=
  mkPool (mkWorld (p_NewStore (30 * minute)) (h_cat (sv_state sv)) (h_obs (sv_state sv))) ∅
    [(Done (Return ()), new_local None)].

Definition life_init (stopped0 : list (stopped L)) : Life E L :=
  mkLife false AtListen AwaitSignal false Unserved ((λ _, Unserved) <$> sv_metrics sv) (sv_retrying sv) []
    serving_pool stopped0.

(** A request on the data plane is a goroutine of its own; [None] when the
    multiplexer redirects it. *)
Definition request_steps (host path : string) (r : Request) : option (goroutine E () * option Request) :=
  let page f := Some (write_step (λ w, w_finish (f w)), None) in
  match findHandler (sv_mux sv) host (r_Method r) path with
  | Found ServeMCP => Some (serve_steps (sv_handler sv) r, Some r)
  | Found ServeMetadata =>
      page (ServeProtectedResourceMetadata (ServerCfg (sv_handler sv)) (AuthCfg (sv_handler sv)) r)
  | Found ServeHealth => page healthz
  | Found ServeMetrics | NotFound => page (w_http_error "404 page not found" 404)
  | RedirectTo _ => None
  end.

(** [ctx]: cancelled by a signal, and by [stop] when [run] returns. *)
Definition ctx_done s : bool :=
  lf_signalled s || match lf_main s with AtReturn _ => true | _ => false end.

(** Is this goroutine done? *)
Definition done_at p (i : nat) : bool := match po_threads p !! i with Some (t, _) => is_done t | None => true end.

(** No connection is active. *)
Definition idle s : bool := forallb (done_at (lf_pool s)) (lf_requests s).

Definition panicked_at p (i : nat) : bool := match po_threads p !! i with Some (Done Panic, _) => true | _ => false end.

(** The process is gone once its main goroutine has returned. *)
Definition running s : bool := match lf_main s with Exited _ | Crashed => false | _ => true end.

(** One event; [None] when it cannot happen. The server recovers the panic of a
    request's goroutine; any other's ends the process. *)
Definition life_step (e : event) s : option (Life E L) :=
  if negb (running s) then None else
  match e with
  | Bind =>
      match lf_main s, lf_data s with
      | AtListen, Unserved => Some (set_main AtAccept (set_data Accepting s))
      | _, _ => None
      end
  | BindFails err =>
      match lf_main s, lf_data s with
      | AtListen, Unserved => Some (set_main (AtFlush (Some err)) (set_data (Failed err) s))
      | _, _ => None
      end
  | AcceptFails err =>
      match lf_main s, lf_data s with
      | AtAccept, Accepting => Some (set_main (AtFlush (Some err)) (set_data (Failed err) s))
      | _, _ => None
      end
  | ServerClosed =>
      match lf_main s, lf_data s with
      | (AtListen | AtAccept), ShutDown => Some (set_main (AtFlush None) s)
      | _, _ => None
      end
  | FlushTelemetry =>
      match lf_main s with
      | AtFlush r => Some (set_main (AtStop r) (set_stopped (Shutdown (Some obs) (lf_stopped s)).2 s))
      | _ => None
      end
  | StopSignals => match lf_main s with AtStop r => Some (set_main (AtReturn r) s) | _ => None end
  | MainReturns => match lf_main s with AtReturn r => Some (set_main (Exited r) s) | _ => None end
  | Wake =>
      match lf_closer s with
      | AwaitSignal => if ctx_done s then Some (set_closer ShuttingData (set_data (shut (lf_data s)) s)) else None
      | _ => None
      end
  | DeadlinePasses =>
      match lf_closer s with
      | ShuttingData | ShuttingMetrics => if lf_deadline s then None else Some (set_deadline s)
      | _ => None
      end
  | DataClosed =>
      match lf_closer s with
      | ShuttingData =>
          if idle s || lf_deadline s then
            match lf_metrics s with
            | Some v => Some (set_closer ShuttingMetrics (set_metrics (Some (shut v)) s))
            | None => Some (set_closer Closed s)
            end
          else None
      | _ => None
      end
  | MetricsClosed => match lf_closer s with ShuttingMetrics => Some (set_closer Closed s) | _ => None end
  | Signal => Some (set_signalled s)
  | MetricsBind => match lf_metrics s with Some Unserved => Some (set_metrics (Some Accepting) s) | _ => None end
  | MetricsFails err =>
      match lf_metrics s with
      | Some (Unserved | Accepting) => Some (set_metrics (Some (Failed err)) s)
      | _ => None
      end
  | Arrives host path r =>
      match lf_data s, request_steps host path r with
      | Accepting, Some (t, rq) =>
          Some (set_pool (lf_requests s ++ [length (po_threads (lf_pool s))]) (arrive t rq (lf_pool s)) s)
      | _, _ => None
      end
  | Retries =>
      if lf_retrying s then
        let n := length (cs_unique (ct_cats (g_cat (po_world (lf_pool s))))) in
        Some (set_pool (lf_requests s) (arrive (warm_steps n) None (lf_pool s)) s)
      else None
  | RetriesEnd => if lf_retrying s then Some (set_retrying false s) else None
  | Moves i =>
      p ← pool_step teardown_steps (new_local None) i (lf_pool s); Some (set_pool (lf_requests s) p s)
  | Panics i =>
      if panicked_at (lf_pool s) i && negb (bool_decide (i ∈ lf_requests s)) then Some (set_main Crashed s) else None
  end.

(** A run: what happens, in order. *)
Definition life_run (es : list event) s : option (Life E L) := foldl (λ o e, s ← o; life_step e s) (Some s) es.


Definition life_steps s s' : Prop := rtc (λ s s', ∃ e, life_step e s = Some s') s s'.
End life.

(** ** What it keeps *)

Section life.
Context {V : Type} `{Verifier V} {E : Env} {L : Libraries} (obs : Telemetry L) (sv : Serving V E).
Context (cfg : Config) (o : Outside E) (stopped0 : list (stopped L)).
Hypothesis Hserves : serves cfg (sv_handler sv) obs o sv.
Hypothesis Hreg : registry_wf (Registry_ (sv_handler sv)).
Hypothesis Hlog : o_log o = [].
Implicit Types (s : Life E L) (p : proxy_pool E).

Abbreviation h := (sv_handler sv).
Abbreviation reg := (Registry_ h).

Lemma serving_pool_reached : interleaved h (recordings obs) o (serving_pool sv).
Proof.
  destruct Hserves as (_ & Hw & _). unfold warm_attempt, WarmCatalog in Hw. rewrite bind_run in Hw.
  unfold on_cat, zoom in Hw. cbn [h_cat proxy_init] in Hw. unfold interleaved.
  eapply rtc_l; [apply proxy_warm|]. apply moves_are_steps. set (n := length _).
  pose proof (λ w' l' o' fs, arrive_solo (warm_steps n) None (pool_init h (recordings obs) o) w' l' o' fs eq_refl
    (bracketed_warm n)) as Hrun.
  unfold warm_steps in Hrun at 1. rewrite solo_bind, warm_from_solo in Hrun.
  cbn [pool_init po_world world_init g_cat] in Hrun.
  change (warm (mkCatState [] (NewCatalogs reg (5 * minute)) o)) with
    (warm_from (seq 0 n) (mkCatState [] (NewCatalogs reg (5 * minute)) o)) in Hw.
  destruct (warm_from (seq 0 n) _) as [[errs|] c]; [|done]. unfold serving_pool.
  injection Hw as _ <-. cbn [h_cat h_obs set_cat proxy_init].
  specialize (Hrun _ _ _ _ eq_refl). exact Hrun.
Qed.

(** *** The goroutines: only a request's may panic *)

Definition fin_at (rs : list nat) (i : nat) (x : outcome ()) (w : World E) (l : Local) : Prop := x = Panic → i ∈ rs.

Abbreviation good_at rs i := (good (world_ok reg) evolves (λ _, evolves) (task_ok reg) (fin_at rs i)).
Abbreviation pool_kept rs := (pool_good (world_ok reg) evolves (λ _, evolves) (task_ok reg) (fin_at rs)).

Lemma background_ends rs i t w :
  runs h None t (λ _ _, True) w → good_at rs i t w (new_local None).
Proof.
  intros Ht. eapply good_mono; [|by apply Ht]. intros [[]|] w' l [Hl Hp]; [done|].
  destruct Hp as (r' & req & Hr & _). discriminate.
Qed.

Lemma pool_kept_more rs rs' p : rs ⊆ rs' → pool_kept rs p → pool_kept rs' p.
Proof.
  intros Hsub [HI Hts]. split; [done|]. intros i t l Hi. eapply good_mono; [|by apply Hts].
  intros x w l' Hx Hp. by apply Hsub, Hx.
Qed.

Lemma arrive_kept rs t rq p :
  good_at rs (length (po_threads p)) t (po_world p) (new_local rq) → pool_kept rs p → pool_kept rs (arrive t rq p).
Proof. destruct p as [w locks ts]. exact (pool_good_snoc _ _ _ _ (fin_at rs) w locks ts t (new_local rq)). Qed.

Lemma move_kept rs i p p' :
  pool_step teardown_steps (new_local None) i p = Some p' → pool_kept rs p → pool_kept rs p'.
Proof.
  intros Hi Hp. eapply (pool_step_good teardown_steps (new_local None)); [apply evolves_preorder|done| | | |exact Hi|exact Hp].
  - intros ? ? ?. apply task_ok_stable.
  - by intros j x w w' l _ Hx.
  - intros task w Ht. by apply background_ends, runs_teardown.
Qed.

Lemma warm_kept rs p :
  pool_kept rs p →
  pool_kept rs (arrive (warm_steps (length (cs_unique (ct_cats (g_cat (po_world p)))))) None p).
Proof. intros Hp. apply arrive_kept; [|done]. apply background_ends. by apply runs_warm. Qed.

Lemma request_kept rs host path r t rq p :
  request_steps sv host path r = Some (t, rq) → pool_kept rs p →
  pool_kept (rs ++ [length (po_threads p)]) (arrive t rq p) ∧ proxy_step h p (arrive t rq p).
Proof.
  intros Ht Hp. apply (pool_kept_more rs (rs ++ [length (po_threads p)])) in Hp; [|set_solver].
  assert (∀ f, (t, rq) = (write_step f, None) →
    pool_kept (rs ++ [length (po_threads p)]) (arrive t rq p) ∧ proxy_step h p (arrive t rq p)) as Hpage.
  { intros f [= -> ->]. split; [|apply proxy_page]. apply arrive_kept; [|done]. by apply background_ends, runs_write. }
  unfold request_steps in Ht. destruct (findHandler _ _ _ _) as [[]| |]; try done; injection Ht as <- <-; eauto.
  split; [|apply proxy_request]. apply arrive_kept; [|done].
  eapply good_mono; [|by apply (serve_good h Hreg)]. intros x w l _ _. set_solver.
Qed.

Lemma serving_kept : pool_kept [] (serving_pool sv).
Proof.
  destruct (interleaved_good h Hreg (recordings obs) o (serving_pool sv) Hlog serving_pool_reached) as [HI _].
  split; [exact HI|]. intros i t l [-> [= <- <-]]%list_lookup_singleton_Some. done.
Qed.

(** *** The servers *)

(** The closing goroutine has been woken, and has left the data server. *)
Definition awake (c : closer_at) : bool := match c with AwaitSignal => false | _ => true end.
Definition past_data (c : closer_at) : bool := match c with ShuttingMetrics | Closed => true | _ => false end.

Definition open (v : option server) : bool := match v with Some (Unserved | Accepting) => true | _ => false end.

(** What [run] is about to return, once serving has ended. *)
Definition returns_with (m : main_at) : option (option string) :=
  match m with AtFlush r | AtStop r | AtReturn r | Exited r => Some r | _ => None end.

(** The providers have been told to stop. *)
Definition flushed (m : main_at) : bool := match m with AtStop _ | AtReturn _ | Exited _ => true | _ => false end.

(** The data server, for where the main goroutine and the closing one are. *)
Definition data_at (m : main_at) (c : closer_at) (v : server) : Prop :=
  match m with
  | AtListen => v = if awake c then ShutDown else Unserved
  | AtAccept => v = if awake c then ShutDown else Accepting
  | AtFlush (Some e) | AtStop (Some e) | AtReturn (Some e) | Exited (Some e) => v = Failed e
  | AtFlush None | AtStop None | AtReturn None | Exited None => v = ShutDown ∧ awake c = true
  | Crashed => False
  end.

Record control_ok s : Prop := {
  co_data : data_at (lf_main s) (lf_closer s) (lf_data s);
  co_awake : awake (lf_closer s) = true → lf_signalled s = true ∨ is_Some (returns_with (lf_main s) ≫= id);
  co_drained : past_data (lf_closer s) = true → idle s || lf_deadline s = true;
  co_metrics : past_data (lf_closer s) = true → open (lf_metrics s) = false;
  co_kept : lf_metrics s = Some ShutDown → past_data (lf_closer s) = true;
  co_stopped : lf_stopped s = stopped0 ++ (if flushed (lf_main s) then provider_list obs else []) }.

Record life_ok s : Prop := {
  lo_interleaved : interleaved h (recordings obs) o (lf_pool s);
  lo_kept : pool_kept (lf_requests s) (lf_pool s);
  lo_range : Forall (λ i, i < length (po_threads (lf_pool s))) (lf_requests s);
  lo_control : control_ok s }.

Lemma life_init_ok : life_ok (life_init sv stopped0).
Proof.
  split; cbn; try done.
  - apply serving_pool_reached.
  - apply serving_kept.
  - split; cbn; try done; [by destruct (sv_metrics sv)|by rewrite app_nil_r].
Qed.

Lemma done_stays p p' i j :
  pool_step teardown_steps (new_local None) i p = Some p' → done_at p j = true → j < length (po_threads p) →
  done_at p' j = true.
Proof.
  destruct p as [w locks ts]. unfold pool_step, done_at. cbn [po_threads po_world po_locks].
  destruct (ts !! i) as [[t l]|] eqn:Hi; [|done]. cbn [mbind option_bind]. intros Hs Hj Hlt.
  assert (∀ tl, is_done t = false → (<[i:=tl]> ts) !! j = ts !! j) as Hsame.
  { intros tl Hd. apply list_lookup_insert_ne. intros ->. rewrite Hi in Hj. congruence. }
  destruct t as [x|B m k|b k|b k|f k]; [done| | | |].
  - destruct (m (w, l)) as [x [w' l']]. injection Hs as <-. cbn [po_threads]. by rewrite Hsame.
  - case_decide; [done|]. injection Hs as <-. cbn [po_threads]. by rewrite Hsame.
  - injection Hs as <-. cbn [po_threads]. by rewrite Hsame.
  - injection Hs as <-. cbn [po_threads]. rewrite lookup_app_l by by rewrite length_insert. by rewrite Hsame.
Qed.

Lemma pool_step_length i p p' :
  pool_step teardown_steps (new_local None) i p = Some p' →
  length (po_threads p) <= length (po_threads p').
Proof.
  destruct p as [w locks ts]. unfold pool_step. cbn [po_threads po_world po_locks].
  destruct (ts !! i) as [[t l]|]; [|done]. cbn [mbind option_bind]. intros Hs.
  destruct t as [x|B m k|b k|b k|f k]; [done|destruct (m (w, l)) as [? [? ?]]|case_decide; [done|]| |];
    injection Hs as <-; cbn [po_threads]; rewrite ?length_app, ?length_insert; lia.
Qed.

(** Events other than a goroutine's leave the pool alone. *)
Definition is_pool_event (e : event) : bool :=
  match e with Arrives _ _ _ | Retries | Moves _ | Panics _ => true | _ => false end.

(** A branch of [life_step]. *)
Ltac life_cases :=
  repeat match goal with
  | H : Some _ = Some _ |- _ => injection H as H; subst
  | H : None = Some _ |- _ => discriminate H
  | H : match ?x with _ => _ end = Some _ |- _ => destruct x eqn:?; cbn in H
  | H : ?x ≫= _ = Some _ |- _ => destruct x eqn:?; cbn in H
  end.

Ltac life_done Ha Hd :=
  rewrite ?app_nil_r, ?orb_true_r; rewrite ?orb_false_r in *;
  repeat match goal with
  | H : _ ∧ _ |- _ => destruct H
  | c : closer_at |- _ => destruct c; cbn in *
  end; subst; try done; intros; try done; first [by auto | by eauto | by destruct (Ha eq_refl); auto | by rewrite Hd].

Lemma step_control e s s' : is_pool_event e = false → life_step obs sv e s = Some s' → control_ok s → control_ok s'.
Proof.
  intros He Hs [Hv Ha Hd Hm Hk Hst]. destruct s as [sg m c d v ms rt rs p st].
  unfold idle in *. cbn in Hv, Ha, Hd, Hm, Hst.
  destruct e; try discriminate He; unfold life_step, ctx_done, idle in Hs;
    rewrite ?Shutdown_run in Hs; cbn in Hs; clear He;
    destruct m as [| |[er|]|[er|]|[er|]|[er|]|]; try discriminate Hs; life_cases; split; cbn in *;
    try done; try life_done Ha Hd; by match goal with v : server |- _ => destruct v end.
Qed.

(** A goroutine's event leaves the servers alone, and no request begins after the
    data server is shut. *)
Lemma set_pool_ok rs p s :
  life_ok s → interleaved h (recordings obs) o p → pool_kept rs p →
  Forall (λ i, i < length (po_threads p)) rs →
  (past_data (lf_closer s) = true → idle s = true → forallb (done_at p) rs = true) →
  life_ok (set_pool rs p s).
Proof.
  intros [_ _ _ [Hv Ha Hd Hm Hmk Hst]] Hi Hk Hr Hidle. split; [done..|]. split; cbn; try done.
  intros Hp. specialize (Hd Hp). specialize (Hidle Hp). change (forallb (done_at p) rs || lf_deadline s = true).
  destruct (idle s); [by rewrite Hidle|]. cbn in Hd. rewrite Hd. apply orb_true_r.
Qed.

Lemma idle_after s p :
  life_ok s → (∀ j, j < length (po_threads (lf_pool s)) → done_at (lf_pool s) j = true → done_at p j = true) →
  idle s = true → forallb (done_at p) (lf_requests s) = true.
Proof.
  intros Hs Hj Hall. unfold idle in Hall. rewrite forallb_forall in Hall |- *. intros j Hin.
  apply Hj; [|by apply Hall]. apply list_elem_of_In in Hin. pose proof (lo_range _ Hs) as Hr.
  rewrite Forall_forall in Hr. by apply Hr.
Qed.

Lemma range_after s p :
  life_ok s → length (po_threads (lf_pool s)) <= length (po_threads p) →
  Forall (λ i, i < length (po_threads p)) (lf_requests s).
Proof. intros Hs Hle. eapply Forall_impl; [apply (lo_range _ Hs)|]. intros i Hlt. cbn in Hlt. lia. Qed.

Lemma done_arrive t rq p j :
  j < length (po_threads p) → done_at p j = true → done_at (arrive t rq p) j = true.
Proof. intros Hj. unfold done_at, arrive. cbn [po_threads]. by rewrite lookup_app_l. Qed.

Lemma interleaved_step p p' :
  proxy_step h p p' → interleaved h (recordings obs) o p → interleaved h (recordings obs) o p'.
Proof. intros Hp Hi. unfold interleaved in *. by eapply rtc_r. Qed.

Lemma step_pool e s s' : is_pool_event e = true → life_step obs sv e s = Some s' → life_ok s → life_ok s'.
Proof.
  intros He Hs Hok. pose proof Hok as [Hi Hk Hr Hc]. unfold life_step in Hs.
  destruct (running s); [|done]. cbn [negb] in Hs.
  destruct e as [| | | | | | | | | | | | | |host path r| | |i|i]; try discriminate He.
  - destruct (lf_data s) eqn:Hv; try done. destruct (request_steps sv host path r) as [[t rq]|] eqn:Ht; [|done].
    injection Hs as <-. destruct (request_kept _ _ _ _ _ _ _ Ht Hk) as [Hk' Hp].
    apply set_pool_ok; [done|by eapply interleaved_step|done| |].
    + apply Forall_app. unfold arrive. cbn [po_threads]. rewrite length_app. split; [|constructor; [cbn; lia|constructor]].
      eapply Forall_impl; [exact Hr|]. intros j Hj. cbn in Hj |- *. lia.
    + (* The data server is shut by then. *)
      intros Hp'. exfalso. destruct Hc as [Hd _ _ _ _ _]. rewrite Hv in Hd.
      destruct (lf_closer s), (lf_main s) as [| |[]|[]|[]|[]|]; cbn in Hd, Hp'; naive_solver.
  - destruct (lf_retrying s); [|done]. injection Hs as <-.
    apply set_pool_ok; [done|eapply interleaved_step; [apply proxy_warm|done]|by apply warm_kept| |].
    + apply range_after; [done|]. unfold arrive. cbn [po_threads]. rewrite length_app. lia.
    + intros _. apply idle_after; [done|]. intros j. apply done_arrive.
  - destruct (pool_step teardown_steps (new_local None) i (lf_pool s)) as [p|] eqn:Hm; [|done]. injection Hs as <-.
    apply set_pool_ok; [done| |by eapply move_kept| |].
    + eapply interleaved_step; [|done]. apply proxy_move. by exists i.
    + apply range_after; [done|by eapply pool_step_length].
    + intros _. apply idle_after; [done|]. intros j Hj Hd. by eapply done_stays.
  - (* No other goroutine panics. *)
    exfalso. unfold panicked_at in Hs. destruct (po_threads (lf_pool s) !! i) as [[[x|? ? ?|? ?|? ?|? ?] l]|] eqn:Ht; try done.
    destruct x as [[]|]; [done|].
    destruct (bool_decide (i ∈ lf_requests s)) eqn:Hin; [done|]. apply bool_decide_eq_false in Hin.
    destruct Hk as [_ Hk]. apply Hin. by apply (Hk _ _ _ Ht).
Qed.

Lemma step_ok e s s' : life_step obs sv e s = Some s' → life_ok s → life_ok s'.
Proof.
  intros Hs Hok. destruct (is_pool_event e) eqn:He; [by eapply step_pool|].
  pose proof (step_control e s s' He Hs (lo_control _ Hok)) as Hc.
  assert (lf_pool s' = lf_pool s ∧ lf_requests s' = lf_requests s) as [Hp Hr].
  { unfold life_step in Hs. destruct (running s); [|done]. cbn [negb] in Hs. destruct e; try done; by life_cases. }
  destruct Hok as [? ? ? _]. split; [by rewrite Hp|by rewrite Hp, Hr|by rewrite Hp, Hr|done].
Qed.

Lemma life_steps_ok s s' : life_steps obs sv s s' → life_ok s → life_ok s'.
Proof. induction 1 as [|s1 s2 s3 [e He] _ IH]; [done|]. intros Hs. by eapply IH, step_ok. Qed.

(** *** How it ends *)

(** The steps that end the process: the closing goroutine waking and shutting the
    data server, and the main goroutine's from the accept loop to its return. No
    listener's failure, no request and no timer is among them. *)
Definition is_ending (e : event) : bool :=
  match e with Wake | ServerClosed | FlushTelemetry | StopSignals | MainReturns => true | _ => false end.

(** How many of them are left, at most. *)
Definition left_to_do s : nat :=
  match lf_main s with
  | AtListen | AtAccept => 4 | AtFlush _ => 3 | AtStop _ => 2 | AtReturn _ => 1 | Exited _ | Crashed => 0
  end +
  match lf_closer s with AwaitSignal => 1 | _ => 0 end.

Lemma step_left e s s' :
  life_step obs sv e s = Some s' →
  (if is_ending e then S (left_to_do s') else left_to_do s') <= left_to_do s.
Proof.
  intros Hs. unfold life_step in Hs. destruct (running s) eqn:Hrun; [|done]. cbn [negb] in Hs. unfold left_to_do.
  destruct s as [sg m c d v ms rt rs p st]. cbn in Hs, Hrun.
  destruct e; cbn [is_ending]; life_cases; cbn; try lia.
Qed.

Lemma run_left es s s' :
  life_run obs sv es s = Some s' → length (List.filter is_ending es) + left_to_do s' <= left_to_do s.
Proof.
  unfold life_run. revert s. induction es as [|e es IH]; intros s Hr; [by injection Hr as ->|].
  cbn [foldl mbind option_bind] in Hr. destruct (life_step obs sv e s) as [s1|] eqn:He.
  - specialize (IH s1 Hr). pose proof (step_left e s s1 He). cbn [List.filter].
    destruct (is_ending e); cbn [length]; lia.
  - exfalso. revert Hr. clear. induction es; [done|exact IHes].
Qed.

Lemma left_to_do_max s : left_to_do s <= 5.
Proof. unfold left_to_do. destruct (lf_main s), (lf_closer s); lia. Qed.

(** A signal has come: there is such a step until the process is gone. *)
Lemma ending_possible s :
  life_ok s → running s = true → lf_signalled s = true →
  ∃ e s', is_ending e = true ∧ life_step obs sv e s = Some s'.
Proof.
  intros [_ _ _ [Hv _ _ _ _ _]] Hrun Hsig.
  assert (lf_closer s = AwaitSignal ∨ awake (lf_closer s) = true) as [Hc|Hc] by (destruct (lf_closer s); auto).
  { exists Wake. unfold life_step, ctx_done. rewrite Hrun, Hc, Hsig. by eexists. }
  destruct (lf_main s) as [| |r|r|r|r|] eqn:Hm; cbn in Hv; rewrite ?Hc in Hv.
  - exists ServerClosed. unfold life_step. rewrite Hrun, Hm, Hv. by eexists.
  - exists ServerClosed. unfold life_step. rewrite Hrun, Hm, Hv. by eexists.
  - exists FlushTelemetry. unfold life_step. rewrite Hrun, Hm. by eexists.
  - exists StopSignals. unfold life_step. rewrite Hrun, Hm. by eexists.
  - exists MainReturns. unfold life_step. rewrite Hrun, Hm. by eexists.
  - unfold running in Hrun. by rewrite Hm in Hrun.
  - done.
Qed.

(** That goes on being the case, and what [run] returns is settled. *)
Lemma signal_stays e s s' :
  life_step obs sv e s = Some s' → lf_signalled s = true → lf_signalled s' = true.
Proof.
  intros Hs Hsig. unfold life_step in Hs. destruct (running s); [|done]. cbn [negb] in Hs.
  destruct e; life_cases; done.
Qed.

(** What [run] returns if serving ends the way it has, or else by a signal. *)
Definition result_of s : option string := default None (returns_with (lf_main s)).

Lemma ending_result e s s' :
  is_ending e = true → life_step obs sv e s = Some s' → result_of s' = result_of s.
Proof.
  intros He Hs. unfold life_step in Hs. destruct (running s); [|done]. cbn [negb] in Hs. unfold result_of.
  destruct s as [sg m c d v ms rt rs p st]. cbn in Hs |- *. destruct e; try discriminate He; life_cases; done.
Qed.

Lemma run_snoc es e s s1 s' :
  life_step obs sv e s = Some s1 → life_run obs sv es s1 = Some s' → life_run obs sv (e :: es) s = Some s'.
Proof. unfold life_run. cbn [foldl mbind option_bind]. by intros ->. Qed.

Lemma ending_exits s :
  life_ok s → lf_signalled s = true →
  ∃ es s', Forall (λ e, is_ending e = true) es ∧ length es <= left_to_do s ∧
    life_run obs sv es s = Some s' ∧ lf_main s' = Exited (result_of s).
Proof.
  remember (left_to_do s) as n eqn:Hn. revert s Hn. induction (lt_wf n) as [n _ IH]. intros s -> Hok Hsig.
  destruct (running s) eqn:Hrun.
  - destruct (ending_possible s Hok Hrun Hsig) as (e & s1 & He & Hs1).
    pose proof (step_left e s s1 Hs1) as Hlt. rewrite He in Hlt.
    destruct (IH (left_to_do s1) ltac:(lia) s1 eq_refl) as (es & s' & Hes & Hlen & Hr & Hm).
    + by eapply step_ok.
    + by eapply signal_stays.
    + exists (e :: es), s'. split; [by constructor|]. split; [cbn; lia|]. split; [by eapply run_snoc|].
      by rewrite Hm, (ending_result e s s1).
  - unfold running, result_of in *. destruct (lf_main s) as [| |?|?|?|r|] eqn:Hm; try done.
    + exists [], s. cbn. split_and!; [constructor|lia|done|done].
    + destruct Hok as [_ _ _ [Hv _ _ _ _ _]]. by rewrite Hm in Hv.
Qed.

Lemma life_ok_reached s : life_steps obs sv (life_init sv stopped0) s → life_ok s.
Proof. intros Hs. eapply life_steps_ok; [exact Hs|apply life_init_ok]. Qed.
End life.

(** ** Theorems *)

(** C6: a running process, whatever arrives, fails or is signalled, in any order.
    Its goroutines are an interleaving of the pool's, so all that is proved of
    those holds until the very end; no goroutine's panic ends it; telemetry is told
    to stop once, when serving has ended; it returns without an error only
    after a signal shut the data server, and with one only when that server failed;
    and as long as a request is being served and the ten seconds are not over the
    metrics server is not shut, nor before the data server is. *)
Theorem process_safe {V} `{Verifier V} {E : Env} {L : Libraries} cfg (obs : Telemetry L) (o : Outside E)
    (sv : Serving V E) stopped0 s :
  serves cfg (sv_handler sv) obs o sv → registry_wf (Registry_ (sv_handler sv)) → o_log o = [] →
  life_steps obs sv (life_init sv stopped0) s →
  interleaved (sv_handler sv) (recordings obs) o (lf_pool s) ∧ lf_main s ≠ Crashed ∧
  lf_stopped s = stopped0 ++ (if flushed (lf_main s) then provider_list obs else []) ∧
  (returns_with (lf_main s) = Some None → lf_data s = ShutDown ∧ lf_signalled s = true) ∧
  (∀ e, returns_with (lf_main s) = Some (Some e) → lf_data s = Failed e) ∧
  (lf_metrics s = Some ShutDown →
     ((∀ i, i ∈ lf_requests s → done_at (lf_pool s) i = true) ∨ lf_deadline s = true) ∧
     (lf_data s = ShutDown ∨ ∃ e, lf_data s = Failed e)) ∧
  (past_data (lf_closer s) = true → open (lf_metrics s) = false).
Proof.
  intros Hserves Hreg Hlog Hs.
  destruct (life_ok_reached obs sv cfg o stopped0 Hserves Hreg Hlog s Hs) as [Hi _ _ [Hd Ha Hq Hm Hk Hst]].
  split_and!; [done| |done| | | |].
  - intros Hc. by rewrite Hc in Hd.
  - intros Hr. destruct (lf_main s) as [| |r|r|r|r|]; try done; injection Hr as ->; destruct Hd as [Hd Haw]; cbn in Ha;
      (split; [done|]); destruct (Ha Haw) as [?|[? [=]]]; done.
  - intros e Hr. destruct (lf_main s) as [| |r|r|r|r|]; try done; by injection Hr as ->.
  - intros Hp%Hk. specialize (Hq Hp). split.
    + apply orb_true_iff in Hq as [Hq|Hq]; [left|by right]. intros i Hin. unfold idle in Hq.
      rewrite forallb_forall in Hq. by apply Hq, list_elem_of_In.
    + destruct (lf_closer s), (lf_main s) as [| |[]|[]|[]|[]|]; cbn in Hd, Hp; naive_solver.
  - done.
Qed.

(** C18: the process ends when it is told to. From any moment after a signal,
    whatever the requests, retries and servers are doing and without any of them
    failing: while the process is there the goroutine that closes the servers can
    wake or the main goroutine can take its next step out; no run, however long,
    has more than five such steps; and they alone lead to the exit, without an
    error unless the listener had failed before. *)
Theorem process_ends {V} `{Verifier V} {E : Env} {L : Libraries} cfg (obs : Telemetry L) (o : Outside E)
    (sv : Serving V E) stopped0 s :
  serves cfg (sv_handler sv) obs o sv → registry_wf (Registry_ (sv_handler sv)) → o_log o = [] →
  life_steps obs sv (life_init sv stopped0) s → lf_signalled s = true →
  (running s = true → ∃ e s', is_ending e = true ∧ life_step obs sv e s = Some s') ∧
  (∀ es s', life_run obs sv es s = Some s' → length (List.filter is_ending es) <= 5) ∧
  ∃ es s', Forall (λ e, is_ending e = true) es ∧ length es <= 5 ∧
    life_run obs sv es s = Some s' ∧ lf_main s' = Exited (default None (returns_with (lf_main s))).
Proof.
  intros Hserves Hreg Hlog Hs Hsig.
  pose proof (life_ok_reached obs sv cfg o stopped0 Hserves Hreg Hlog s Hs) as Hok.
  pose proof (left_to_do_max s) as Hmax. split_and!.
  - intros Hrun. by eapply ending_possible.
  - intros es s' Hr. pose proof (run_left obs sv es s s' Hr) as Hle. lia.
  - destruct (ending_exits obs sv cfg o stopped0 Hserves Hreg Hlog s Hok Hsig) as (es & s' & Hes & Hlen & Hr & Hm).
    exists es, s'. split_and!; [done|lia|done|done].
Qed.

(** C19: the process is [main]. With arguments that parse to a configuration path,
    once [run] has booted, set telemetry up and started serving: however the
    process then comes to its exit, its exit code, what [run] returns and the
    providers stopped are those of [main] on [run_with], with serving ended the
    way the listener ended. *)
Theorem process_refines_main {V} `{Verifier V} {E : Env} {L : Libraries}
    (boot : string → M (Outside E) (result boot_error (Config * Handler V))) env version args path rest
    (p : Process E L) cfg h o obs g sv p1 s r :
  parse_flags "config.yaml" args = FlagsParsed path rest →
  boot path (pr_out p) = (Return (Ok (cfg, h)), o) →
  Setup env (telemetry_config cfg version) (pr_globals p) = (Return (Ok obs), g) →
  start cfg h obs (mkProcess o g (pr_stopped p)) = (Return sv, p1) →
  registry_wf (Registry_ h) → o_log o = [] →
  life_steps obs sv (life_init sv (pr_stopped p)) s → lf_main s = Exited r →
  let served path := run_with (boot path) env version (λ _, r) in
  served path p =
    (Return (match r with Some e => Err (ListenFailed e) | None => Ok sv end),
     mkProcess (pr_out p1) g (lf_stopped s)) ∧
  main args served p =
    ((match r with Some _ => 1 | None => 0 end)%Z, mkProcess (pr_out p1) g (lf_stopped s)).
Proof.
  intros Hargs Hboot Hsetup Hstart Hreg Hlog Hs Hm served.
  pose proof (start_run cfg h obs (mkProcess o g (pr_stopped p))) as Hrun. rewrite Hstart in Hrun.
  destruct Hrun as (Hg & Hst & Hsv & _). specialize (Hsv sv eq_refl). cbn [pr_globals pr_stopped pr_out] in *.
  pose proof Hsv as [Hh _]. subst h.
  destruct (life_ok_reached obs sv cfg o (pr_stopped p) Hsv Hreg Hlog s Hs) as [_ _ _ [_ _ _ _ _ Hstop]].
  rewrite Hm in Hstop. cbn [flushed] in Hstop.
  assert (served path p = (Return (match r with Some e => Err (ListenFailed e) | None => Ok sv end),
     mkProcess (pr_out p1) g (lf_stopped s))) as Heq.
  { unfold served. rewrite run_with_eq, Hboot, Hsetup, Hstart, Shutdown_run. cbn [snd]. by rewrite Hg, Hst, Hstop. }
  split; [done|]. unfold main. rewrite Hargs, Heq. by destruct r.
Qed.

(** C40: the command line. [-config] may be spelled with one minus or two and
    with its value after an equals sign or as the next argument; the last one
    wins, "config.yaml" is the default, and what follows the flags is ignored.
    A request for help ends the process with 0; any other flag, and [-config]
    without a value, with 2; all before [run] is called. *)
Theorem main_correct {S A} (run : string → M S (result run_error A)) s sss vs rest :
  Forall2 setting sss vs →
  (no_more rest →
   main (concat sss ++ rest) run s =
   let '(r, s') := run (default "config.yaml" (last vs)) s in (exit_code r, s')) ∧
  (∀ a text rest', rest = a :: rest' → flag_text a = Some text → a ≠ "--" → ¬ names_config a →
   (asks_help a → main (concat sss ++ rest) run s = (0%Z, s)) ∧
   (¬ asks_help a → main (concat sss ++ rest) run s = (2%Z, s))) ∧
  (rest ∈ [["-config"]; ["--config"]] → main (concat sss ++ rest) run s = (2%Z, s)).
Proof.
  intros Hs. unfold main. rewrite (parse_settings "config.yaml" sss vs rest Hs). split_and!.
  - intros Hrest. destruct (parse_no_more (default "config.yaml" (last vs)) rest Hrest) as [rest' ->]. done.
  - intros a text rest' -> Ht Hne Hname.
    destruct (parse_other (default "config.yaml" (last vs)) a text rest' Ht Hne Hname) as [Hhelp Hbad].
    split; intros Ha; [by rewrite Hhelp|by rewrite Hbad].
  - intros Hin. repeat (apply elem_of_cons in Hin as [->|Hin]); [done..|]. by apply elem_of_nil in Hin.
Qed.

(** ** The example deployment *)

Lemma run_steps {V} `{Verifier V} {E : Env} {L : Libraries} (obs : Telemetry L) (sv : Serving V E) es s s' :
  life_run obs sv es s = Some s' → life_steps obs sv s s'.
Proof.
  unfold life_run, life_steps. revert s. induction es as [|e es IH]; intros s Hr; [by injection Hr as ->; apply rtc_refl|].
  cbn [foldl mbind option_bind] in Hr. destruct (life_step obs sv e s) as [s1|] eqn:He.
  - eapply rtc_l; [by exists e|by apply IH].
  - exfalso. revert Hr. clear. induction es; [done|exact IHes].
Qed.

Definition libraries_ex : Libraries := {|
  Resource := (); Exporter := (); SpanExporter := (); MeterProvider := (); TracerProvider := ();
  Instrument := (); Tracer_ := ();
  resource_Merge _ _ := Some (); promexporter_New := Some (); NewMeterProvider _ _ _ _ := ();
  Float64Histogram _ _ _ := Some (); Int64Counter _ _ := Some (); otlptracegrpc_New := Some ();
  NewTracerProvider _ _ := (); provider_Tracer _ _ := (); noop_Tracer _ := ();
  meter_Shutdown _ := None; tracer_Shutdown _ := None |}.

(** The process before [run], and what it serves. *)
Definition process_ex : Process env_ex libraries_ex :=
  mkProcess outside_ex (mkGlobals (L := libraries_ex) false None None) [].

Definition boot_ex (path : string) : M (Outside env_ex) (result boot_error (Config * Handler token_is_group)) :=
  mret (Ok (loaded_ex, handler_ex)).

Definition telemetry_ex : Telemetry libraries_ex :=
  mkTelemetry (L := libraries_ex) () () None (mkInstruments (L := libraries_ex) () () ()) ":9090" "/metrics".

Definition globals_ex : Globals libraries_ex := mkGlobals (L := libraries_ex) true (Some ()) None.

Definition started_ex : outcome (Serving token_is_group env_ex) * Process env_ex libraries_ex :=
  start loaded_ex handler_ex telemetry_ex (mkProcess outside_ex globals_ex []).

Definition serving_ex : Serving token_is_group env_ex :=
  mkServing handler_ex (warm_attempt (proxy_init handler_ex (recordings telemetry_ex) outside_ex)).2 false
    (default [] (data_mux "/mcp")) (Some (":9090", default [] (metrics_mux "/metrics"))).

Lemma started_ex_serving : started_ex.1 = Return serving_ex.
Proof. vm_compute. reflexivity. Qed.

Lemma serving_ex_serves : serves loaded_ex handler_ex telemetry_ex outside_ex serving_ex.
Proof.
  pose proof (start_run loaded_ex handler_ex telemetry_ex (mkProcess outside_ex globals_ex [])) as Hrun.
  pose proof started_ex_serving as Hs. unfold started_ex in Hs.
  destruct (start loaded_ex handler_ex telemetry_ex _) as [r p1]. by apply Hrun.
Qed.

(** A listing arrives, and a signal before it is served. *)
Definition cut_short : list event :=
  [Bind; MetricsBind; Arrives "proxy" "/mcp" list_ex; Moves 1; Signal; Wake].

(** The main goroutine does not wait for the one that closes the servers. *)
Definition to_exit : list event := [ServerClosed; FlushTelemetry; StopSignals; MainReturns].

Definition life_ex (es : list event) : Life env_ex libraries_ex :=
  default (life_init serving_ex []) (life_run telemetry_ex serving_ex es (life_init serving_ex [])).

Lemma life_ex_reached es :
  match life_run telemetry_ex serving_ex es (life_init serving_ex []) with Some _ => true | None => false end = true →
  life_steps telemetry_ex serving_ex (life_init serving_ex []) (life_ex es).
Proof.
  unfold life_ex. destruct (life_run _ _ es _) as [s|] eqn:Hs; [|done]. intros _. by eapply run_steps.
Qed.

(** A request being served is cut off: the process exits with success, its
    telemetry already stopped, while the ten seconds [Shutdown] would wait for the
    request have not passed. Nothing waits for that goroutine. *)
Example exit_cuts_request :
  let s := life_ex (cut_short ++ to_exit) in
  lf_main s = Exited None ∧ lf_closer s = ShuttingData ∧ lf_deadline s = false ∧ idle s = false ∧
  lf_stopped s = provider_list telemetry_ex.
Proof. vm_compute. by split_and!. Qed.

(** Had it waited, the request would have been answered. *)
Example waiting_serves_request :
  let s := life_ex (cut_short ++ replicate 16 (Moves 1) ++ [DataClosed; MetricsClosed] ++ to_exit) in
  lf_main s = Exited None ∧ lf_closer s = Closed ∧ lf_deadline s = false ∧ idle s = true.
Proof. vm_compute. by split_and!. Qed.

(** After a signal, when the process has exited; and when it has shut the metrics
    server, which the request's end allowed. *)
Lemma process_safe_witness :
  let s := life_ex (cut_short ++ to_exit) in
  let s' := life_ex (cut_short ++ replicate 16 (Moves 1) ++ [DataClosed]) in
  (returns_with (lf_main s) = Some None ∧ lf_data s = ShutDown ∧ lf_signalled s = true) ∧
  (lf_metrics s' = Some ShutDown ∧ lf_deadline s' = false ∧
   ∀ i, i ∈ lf_requests s' → done_at (lf_pool s') i = true).
Proof.
  intros s s'.
  assert (life_steps telemetry_ex serving_ex (life_init serving_ex []) s) as Hs
    by (apply life_ex_reached; vm_compute; reflexivity).
  assert (life_steps telemetry_ex serving_ex (life_init serving_ex []) s') as Hs'
    by (apply life_ex_reached; vm_compute; reflexivity).
  destruct (process_safe loaded_ex telemetry_ex outside_ex serving_ex [] s serving_ex_serves registry_ex_wf eq_refl Hs)
    as (_ & _ & _ & Hnone & _).
  destruct (process_safe loaded_ex telemetry_ex outside_ex serving_ex [] s' serving_ex_serves registry_ex_wf eq_refl Hs')
    as (_ & _ & _ & _ & _ & Hkept & _).
  assert (returns_with (lf_main s) = Some None) as Hr by (vm_compute; reflexivity).
  assert (lf_metrics s' = Some ShutDown) as Hm by (vm_compute; reflexivity).
  assert (lf_deadline s' = false) as Hd by (vm_compute; reflexivity).
  split; [split; [exact Hr|exact (Hnone Hr)]|]. split; [exact Hm|]. split; [exact Hd|].
  destruct (Hkept Hm) as [[Hall|Hdl] _]; [exact Hall|]. rewrite Hd in Hdl. discriminate Hdl.
Defined.

Lemma process_ends_witness :
  ∃ es s', Forall (λ e, is_ending e = true) es ∧ length es <= 5 ∧
    life_run telemetry_ex serving_ex es (life_ex cut_short) = Some s' ∧ lf_main s' = Exited None.
Proof.
  assert (life_steps telemetry_ex serving_ex (life_init serving_ex []) (life_ex cut_short)) as Hs
    by (apply life_ex_reached; vm_compute; reflexivity).
  exact (proj2 (proj2 (process_ends loaded_ex telemetry_ex outside_ex serving_ex [] (life_ex cut_short) serving_ex_serves
    registry_ex_wf eq_refl Hs eq_refl))).
Defined.

Lemma process_refines_main_witness :
  (main ["--config=other.yaml"] (λ path, run_with (boot_ex path) Config.env_ex "dev" (λ _, None)) process_ex).1 = 0%Z.
Proof.
  assert (life_steps telemetry_ex serving_ex (life_init serving_ex []) (life_ex (cut_short ++ to_exit))) as Hs
    by (apply life_ex_reached; vm_compute; reflexivity).
  destruct started_ex as [r p1] eqn:Hp. pose proof started_ex_serving as Hr. rewrite Hp in Hr. cbn in Hr. subst r.
  destruct (process_refines_main boot_ex Config.env_ex "dev" ["--config=other.yaml"] "other.yaml" [] process_ex
    loaded_ex handler_ex outside_ex telemetry_ex globals_ex serving_ex p1 (life_ex (cut_short ++ to_exit)) None)
    as [_ Hm]; [vm_compute; reflexivity|reflexivity|vm_compute; reflexivity|exact Hp|exact registry_ex_wf|reflexivity|
      exact Hs|vm_compute; reflexivity|].
  cbv zeta in Hm. rewrite Hm. reflexivity.
Defined.

Lemma main_correct_witness :
  let run (path : string) : M string (result run_error ()) := λ s, (Return (Ok ()), path) in
  main ["-config"; "a.yaml"; "--config=b.yaml"; "--"; "-x"] run "" = (0%Z, "b.yaml") ∧
  main ["-config"; "a.yaml"; "-verbose"] run "" = (2%Z, "") ∧
  main ["-config"; "a.yaml"; "--help"] run "" = (0%Z, "").
Proof.
  intros run.
  assert (Forall2 setting [["-config"; "a.yaml"]] ["a.yaml"]) as Hs.
  { constructor; [apply (setting_next "-" "a.yaml"); set_solver|constructor]. }
  assert (∀ a, has_prefix "-config" a = false → has_prefix "--config" a = false → ¬ names_config a) as Hnames.
  { intros a H1 H2 (m & Hm & Ha). repeat (apply elem_of_cons in Hm as [->|Hm]); try by apply elem_of_nil in Hm.
    all: destruct Ha as [->|[v ->]]; cbn in H1, H2; discriminate. }
  split_and!.
  - refine (proj1 (main_correct run "" [["-config"; "a.yaml"]; ["--config=b.yaml"]] ["a.yaml"; "b.yaml"] ["--"; "-x"] _) _).
    + constructor; [apply (setting_next "-" "a.yaml"); set_solver|].
      constructor; [apply (setting_value "--" "b.yaml"); set_solver|constructor].
    + by right.
  - refine (proj2 (proj1 (proj2 (main_correct run "" [["-config"; "a.yaml"]] ["a.yaml"] ["-verbose"] Hs))
      "-verbose" "verbose" [] eq_refl eq_refl _ (Hnames "-verbose" eq_refl eq_refl)) _); [discriminate|].
    intros Hh. inversion Hh as [m n Hm Hn He|m n v Hm Hn He];
      repeat (apply elem_of_cons in Hm as [->|Hm]); try (by apply elem_of_nil in Hm);
      repeat (apply elem_of_cons in Hn as [->|Hn]); try (by apply elem_of_nil in Hn); discriminate He.
  - refine (proj1 (proj1 (proj2 (main_correct run "" [["-config"; "a.yaml"]] ["a.yaml"] ["--help"] Hs))
      "--help" "help" [] eq_refl eq_refl _ (Hnames "--help" eq_refl eq_refl)) _); [discriminate|].
    apply (asks_plain "--" "help"); set_solver.
Defined.
